(** * RShim transport layer: PCIe CR-space gateway and USB stream engine

    A shallow embedding of [rshim_pcie_lf.c] and [rshim_usb.c].

    Every C function is written as a program over the calls it makes to
    the layer below it (the PCI capability primitives, the CR-gateway
    accessors, libusb); the answers of that layer are not computed by the
    model but left to the environment, so a statement about the runs of a
    program holds for whatever the hardware or the library answers.  The
    two spin-waits of the PCIe path have no bound in C; they carry a fuel
    and end in [Spin] when the device stayed busy for that many polls. *)

From Stdlib Require Import ZArith List Bool Lia.
Import ListNotations.
Local Open Scope Z_scope.

(** ** Fixed-width integers *)

Definition u8 (x : Z) : Z := x mod 2 ^ 8.
Definition u32 (x : Z) : Z := x mod 2 ^ 32.
Definition u64 (x : Z) : Z := x mod 2 ^ 64.

Arguments u8 : simpl never.
Arguments u32 : simpl never.
Arguments u64 : simpl never.

(** [if (rc)] on a C [int]. *)
Definition nonzero (rc : Z) : bool := negb (rc =? 0).

(** ** Programs over the calls of a lower layer *)

(** [Call e k] issues the call [e] and continues with its answer;
    [Spin] is a spin-wait that outlasted its fuel. *)
Inductive prog (E R A : Type) : Type :=
| Ret (a : A)
| Call (e : E) (k : R -> prog E R A)
| Spin.

Arguments Ret {E R A} a.
Arguments Call {E R A} e k.
Arguments Spin {E R A}.

Fixpoint bind {E R A B : Type} (p : prog E R A) (f : A -> prog E R B)
  : prog E R B :=
  match p with
  | Ret a => f a
  | Call e k => Call e (fun r => bind (k r) f)
  | Spin => Spin
  end.

Definition call {E R : Type} (e : E) : prog E R R := Call e Ret.

(** A trace lists the calls issued, in order, each with its answer. *)
Definition trace (E R : Type) : Type := list (E * R).

(** [runs p l a]: [p] returns [a] after issuing exactly the calls of [l]. *)
Inductive runs {E R A : Type} : prog E R A -> trace E R -> A -> Prop :=
| runs_Ret (a : A) : runs (Ret a) [] a
| runs_Call (e : E) (k : R -> prog E R A) (r : R) (l : trace E R) (a : A) :
    runs (k r) l a -> runs (Call e k) ((e, r) :: l) a.

(** [stalls p l]: [p] gives up in a spin-wait after the calls of [l]. *)
Inductive stalls {E R A : Type} : prog E R A -> trace E R -> Prop :=
| stalls_Spin : stalls Spin []
| stalls_Call (e : E) (k : R -> prog E R A) (r : R) (l : trace E R) :
    stalls (k r) l -> stalls (Call e k) ((e, r) :: l).

(** Running against an environment that answers each call from the
    history of the calls before it. *)
Fixpoint exec {E R A : Type} (env : trace E R -> E -> R) (hist : trace E R)
  (p : prog E R A) : trace E R * option A :=
  match p with
  | Ret a => ([], Some a)
  | Call e k =>
      let r := env hist e in
      let (l, o) := exec env (hist ++ [(e, r)]) (k r) in
      ((e, r) :: l, o)
  | Spin => ([], None)
  end.

Declare Scope prog_scope.
Delimit Scope prog_scope with prog.
Notation "x <- p ;; q" := (bind p (fun x => q))
  (at level 61, p at next level, right associativity) : prog_scope.
Notation "' pat <- p ;; q" := (bind p (fun x => match x with pat => q end))
  (at level 61, pat pattern, p at next level, right associativity) : prog_scope.
Local Open Scope prog_scope.

(** Every library call of the model answers with a return code and, for
    the calls that hand a value back through a pointer, that value. *)
Definition resp : Type := (Z * Z)%type.

(** ** Byte order *)

Fixpoint le_bytes (n : nat) (x : Z) : list Z :=
  match n with
  | O => []
  | S n' => x mod 256 :: le_bytes n' (x / 256)
  end.

Definition of_be_bytes (bs : list Z) : Z :=
  fold_left (fun acc b => acc * 256 + b) bs 0.

Definition of_le_bytes (bs : list Z) : Z := of_be_bytes (rev bs).

(** The bytes of an [n]-byte integer object, in memory order. *)
Definition host_bytes (host_big_endian : bool) (n : nat) (x : Z) : list Z :=
  if host_big_endian then rev (le_bytes n x) else le_bytes n x.

Definition of_host_bytes (host_big_endian : bool) (bs : list Z) : Z :=
  if host_big_endian then of_be_bytes bs else of_le_bytes bs.

Definition be32toh (host_big_endian : bool) (x : Z) : Z :=
  of_be_bytes (host_bytes host_big_endian 4 (u32 x)).

Definition be64toh (host_big_endian : bool) (x : Z) : Z :=
  of_be_bytes (host_bytes host_big_endian 8 (u64 x)).

Definition le64toh (host_big_endian : bool) (x : Z) : Z :=
  of_le_bytes (host_bytes host_big_endian 8 (u64 x)).

Definition htole64 (host_big_endian : bool) (x : Z) : Z :=
  of_host_bytes host_big_endian (le_bytes 8 (u64 x)).

(** ** errno.h *)

Definition ENXIO : Z := 6.
Definition ENODEV : Z := 19.
Definition EINVAL : Z := 22.

(** ** The backend structure shared by both transports

    Only the members the two files touch. *)
Record rshim_backend : Type := {
  has_rshim : bool;
  has_tm : bool;
  drop_mode : bool;
  spin_flags : Z;
  read_buf_bytes : Z;
  read_buf_next : Z
}.

Definition set_spin_flags (bd : rshim_backend) (v : Z) : rshim_backend :=
  {| has_rshim := has_rshim bd; has_tm := has_tm bd; drop_mode := drop_mode bd;
     spin_flags := v;
     read_buf_bytes := read_buf_bytes bd; read_buf_next := read_buf_next bd |}.

Definition set_read_buf (bd : rshim_backend) (bytes next : Z) : rshim_backend :=
  {| has_rshim := has_rshim bd; has_tm := has_tm bd; drop_mode := drop_mode bd;
     spin_flags := spin_flags bd;
     read_buf_bytes := bytes; read_buf_next := next |}.

(** * rshim_pcie_lf.c *)

(** ** TRIO_CR_GATEWAY registers *)

Definition TRIO_CR_GW_LOCK : Z := 0xe38a0.
Definition TRIO_CR_GW_LOCK_CPY : Z := 0xe38a4.
Definition TRIO_CR_GW_DATA_UPPER : Z := 0xe38ac.
Definition TRIO_CR_GW_DATA_LOWER : Z := 0xe38b0.
Definition TRIO_CR_GW_CTL : Z := 0xe38b4.
Definition TRIO_CR_GW_ADDR_UPPER : Z := 0xe38b8.
Definition TRIO_CR_GW_ADDR_LOWER : Z := 0xe38bc.
Definition TRIO_CR_GW_LOCK_ACQUIRED : Z := 0x80000000.
Definition TRIO_CR_GW_LOCK_RELEASE : Z := 0x0.
Definition TRIO_CR_GW_BUSY : Z := 0x60000000.
Definition TRIO_CR_GW_TRIGGER : Z := 0xe0000000.
Definition TRIO_CR_GW_READ_4BYTE : Z := 0x6.
Definition TRIO_CR_GW_WRITE_4BYTE : Z := 0x2.

Definition RSH_BASE_ADDR : Z := 0x80000000.
Definition RSH_CHANNEL1_BASE : Z := 0x80010000.

(** ** Mechanism to access the CR space using hidden PCI capabilities

    [pci_cap_read] and [pci_cap_write] over the two libpci calls
    [pci_write_long (pci_dev, pos, data)], which answers its return code,
    and [pci_read_long (pci_dev, pos)], which answers the word read. *)
Definition MELLANOX_ADDR : Z := 0x58.
Definition MELLANOX_DATA : Z := 0x5c.
Definition MELLANOX_CAP_READ : Z := 0x1.

Inductive pci_call : Type :=
| PciWriteLong (pos data : Z)
| PciReadLong (pos : Z).

Definition pci_cap_read (offset : Z) : prog pci_call Z (Z * option Z) :=
  rc <- call (PciWriteLong MELLANOX_ADDR
                (u32 (Z.lor offset MELLANOX_CAP_READ))) ;;
  if rc <? 0 then Ret (rc, None) else
  result <- call (PciReadLong MELLANOX_DATA) ;;
  Ret (0, Some (u32 result)).

Definition pci_cap_write (offset value : Z) : prog pci_call Z Z :=
  rc <- call (PciWriteLong MELLANOX_DATA (u32 value)) ;;
  if rc <? 0 then Ret rc else
  rc <- call (PciWriteLong MELLANOX_ADDR (u32 offset)) ;;
  if rc <? 0 then Ret rc else
  Ret 0.

(** ** Calls to the capability primitives

    The gateway routines are programs over the calls
    [pci_cap_read (pci_dev, offset, &result)] and
    [pci_cap_write (pci_dev, offset, value)]; the answer is the return
    code and, for a read, the word stored through [result]. *)
Inductive cap_call : Type :=
| PciCapRead (offset : Z)
| PciCapWrite (offset value : Z).

Definition cap_read (offset : Z) : prog cap_call resp (Z * Z) :=
  '(rc, result) <- call (PciCapRead offset) ;; Ret (rc, u32 result).

Definition cap_write (offset value : Z) : prog cap_call resp Z :=
  '(rc, _) <- call (PciCapWrite offset (u32 value)) ;; Ret rc.

(** ** Acquire and release of TRIO_CR_GW_LOCK *)

(** The [do ... while (read_value & TRIO_CR_GW_LOCK_ACQUIRED)] loop: the
    code of a failed read, or 0 once the lock is seen free. *)
Fixpoint trio_cr_gw_lock_acquire_wait (fuel : nat) : prog cap_call resp Z :=
  match fuel with
  | O => Spin
  | S fuel' =>
      '(rc, read_value) <- cap_read TRIO_CR_GW_LOCK ;;
      if nonzero rc then Ret rc
      else if nonzero (Z.land read_value TRIO_CR_GW_LOCK_ACQUIRED)
           then trio_cr_gw_lock_acquire_wait fuel'
           else Ret 0
  end.

Definition trio_cr_gw_lock_acquire (fuel : nat) : prog cap_call resp Z :=
  rc <- trio_cr_gw_lock_acquire_wait fuel ;;
  if nonzero rc then Ret rc else
  rc <- cap_write TRIO_CR_GW_LOCK TRIO_CR_GW_LOCK_ACQUIRED ;;
  if nonzero rc then Ret rc else
  Ret 0.

Definition trio_cr_gw_lock_release : prog cap_call resp Z :=
  rc <- cap_write TRIO_CR_GW_LOCK TRIO_CR_GW_LOCK_RELEASE ;;
  Ret rc.

(** ** 32-bit access through the gateway

    The second component of the result of a read is what was stored
    through [result], [None] when the function returned before the store. *)
Definition trio_cr_gw_read (fuel : nat) (addr : Z)
  : prog cap_call resp (Z * option Z) :=
  rc <- trio_cr_gw_lock_acquire fuel ;;
  if nonzero rc then Ret (rc, None) else
  rc <- cap_write TRIO_CR_GW_ADDR_LOWER addr ;;
  if nonzero rc then Ret (rc, None) else
  rc <- cap_write TRIO_CR_GW_CTL TRIO_CR_GW_READ_4BYTE ;;
  if nonzero rc then Ret (rc, None) else
  rc <- cap_write TRIO_CR_GW_LOCK TRIO_CR_GW_TRIGGER ;;
  if nonzero rc then Ret (rc, None) else
  '(rc, result) <- cap_read TRIO_CR_GW_DATA_LOWER ;;
  if nonzero rc then Ret (rc, None) else
  rc <- trio_cr_gw_lock_release ;;
  if nonzero rc then Ret (rc, Some result) else
  Ret (0, Some result).

Definition trio_cr_gw_write (fuel : nat) (addr value : Z)
  : prog cap_call resp Z :=
  rc <- trio_cr_gw_lock_acquire fuel ;;
  if nonzero rc then Ret rc else
  rc <- cap_write TRIO_CR_GW_DATA_LOWER value ;;
  if nonzero rc then Ret rc else
  rc <- cap_write TRIO_CR_GW_ADDR_LOWER addr ;;
  if nonzero rc then Ret rc else
  rc <- cap_write TRIO_CR_GW_CTL TRIO_CR_GW_WRITE_4BYTE ;;
  if nonzero rc then Ret rc else
  rc <- cap_write TRIO_CR_GW_LOCK TRIO_CR_GW_TRIGGER ;;
  if nonzero rc then Ret rc else
  rc <- trio_cr_gw_lock_release ;;
  if nonzero rc then Ret rc else
  Ret 0.

(** What a capability trace shows of the lock: the acquiring write went
    through, the number of release writes issued, and whether a step other
    than the release write answered with an error. *)
Definition is_release (e : cap_call) : bool :=
  match e with
  | PciCapWrite offset value =>
      (offset =? TRIO_CR_GW_LOCK) && (value =? TRIO_CR_GW_LOCK_RELEASE)
  | PciCapRead _ => false
  end.

Definition is_acquire (e : cap_call) : bool :=
  match e with
  | PciCapWrite offset value =>
      (offset =? TRIO_CR_GW_LOCK) && (value =? TRIO_CR_GW_LOCK_ACQUIRED)
  | PciCapRead _ => false
  end.

Definition lock_acquired (l : trace cap_call resp) : bool :=
  existsb (fun c => is_acquire (fst c) && (fst (snd c) =? 0)) l.

Definition release_writes (l : trace cap_call resp) : nat :=
  length (filter (fun c => is_release (fst c)) l).

Definition step_failed (l : trace cap_call resp) : bool :=
  existsb (fun c => negb (is_release (fst c)) && nonzero (fst (snd c))) l.

(** ** Calls to the gateway accessors

    The byte-access widget and the register routines are programs over
    [trio_cr_gw_read (pci_dev, addr, &result)],
    [trio_cr_gw_write (pci_dev, addr, value)] and the memory barrier
    [__sync_synchronize ()].  Addresses and values are recorded as the
    32-bit words the accessors hand to the capability registers. *)
Inductive gw_call : Type :=
| TrioCrGwRead (addr : Z)
| TrioCrGwWrite (addr value : Z)
| SyncSynchronize.

Definition gw_read (addr : Z) : prog gw_call resp (Z * Z) :=
  '(rc, result) <- call (TrioCrGwRead (u32 addr)) ;; Ret (rc, u32 result).

Definition gw_write (addr value : Z) : prog gw_call resp Z :=
  '(rc, _) <- call (TrioCrGwWrite (u32 addr) (u32 value)) ;; Ret rc.

(** The register map of [rshim_regs.h], which the two files include but
    which is not among the sources at hand: taken as a parameter. *)
Record rshim_regs : Type := {
  RSH_BYTE_ACC_CTL : Z;
  RSH_BYTE_ACC_ADDR : Z;
  RSH_BYTE_ACC_RDAT : Z;
  RSH_BYTE_ACC_WDAT : Z;
  RSH_BYTE_ACC_SIZE : Z;
  RSH_BYTE_ACC_READ_TRIGGER : Z;
  RSH_BYTE_ACC_PENDING : Z;
  RSH_BOOT_FIFO_DATA : Z;
  RSH_SCRATCHPAD : Z
}.

Record rshim_pcie : Type := {
  pcie_bd : rshim_backend;
  (* Keep track of number of 8-byte word writes *)
  write_count : Z
}.

Definition set_write_count (dev : rshim_pcie) (n : Z) : rshim_pcie :=
  {| pcie_bd := pcie_bd dev; write_count := n |}.

Section PCIe.
Variable regs : rshim_regs.
Variable host_big_endian : bool.

(** The mask of the wait loop, as the source writes it. *)
Definition pending_wait_mask : Z :=
  u32 (RSH_CHANNEL1_BASE + RSH_BYTE_ACC_PENDING regs).

(** Wait until the RSH_BYTE_ACC_CTL pending bit is cleared. *)
Fixpoint rshim_byte_acc_pending_wait (fuel : nat) : prog gw_call resp Z :=
  match fuel with
  | O => Spin
  | S fuel' =>
      '(rc, read_value) <- gw_read (RSH_CHANNEL1_BASE + RSH_BYTE_ACC_CTL regs) ;;
      if nonzero rc then Ret rc
      else if nonzero (Z.land read_value pending_wait_mask)
           then rshim_byte_acc_pending_wait fuel'
           else Ret 0
  end.

Definition rshim_byte_acc_read (fuel : nat) (addr : Z)
  : prog gw_call resp (Z * option Z) :=
  rc <- rshim_byte_acc_pending_wait fuel ;;
  if nonzero rc then Ret (rc, None) else
  rc <- gw_write (RSH_CHANNEL1_BASE + RSH_BYTE_ACC_CTL regs)
                 (RSH_BYTE_ACC_SIZE regs) ;;
  if nonzero rc then Ret (rc, None) else
  rc <- gw_write (RSH_CHANNEL1_BASE + RSH_BYTE_ACC_ADDR regs) addr ;;
  if nonzero rc then Ret (rc, None) else
  rc <- gw_write (RSH_CHANNEL1_BASE + RSH_BYTE_ACC_CTL regs)
                 (RSH_BYTE_ACC_READ_TRIGGER regs) ;;
  if nonzero rc then Ret (rc, None) else
  rc <- rshim_byte_acc_pending_wait fuel ;;
  if nonzero rc then Ret (rc, None) else
  '(rc, read_value) <- gw_read (RSH_CHANNEL1_BASE + RSH_BYTE_ACC_RDAT regs) ;;
  if nonzero rc then Ret (rc, None) else
  let read_result := u64 (Z.shiftl read_value 32) in
  rc <- rshim_byte_acc_pending_wait fuel ;;
  if nonzero rc then Ret (rc, None) else
  '(rc, read_value) <- gw_read (RSH_CHANNEL1_BASE + RSH_BYTE_ACC_RDAT regs) ;;
  if nonzero rc then Ret (rc, None) else
  let read_result := Z.lor read_result read_value in
  Ret (0, Some (be64toh host_big_endian read_result)).

Definition rshim_byte_acc_write (fuel : nat) (addr value : Z)
  : prog gw_call resp Z :=
  rc <- rshim_byte_acc_pending_wait fuel ;;
  if nonzero rc then Ret rc else
  rc <- gw_write (RSH_CHANNEL1_BASE + RSH_BYTE_ACC_CTL regs)
                 (RSH_BYTE_ACC_SIZE regs) ;;
  if nonzero rc then Ret rc else
  rc <- gw_write (RSH_CHANNEL1_BASE + RSH_BYTE_ACC_ADDR regs) addr ;;
  if nonzero rc then Ret rc else
  rc <- gw_write (RSH_CHANNEL1_BASE + RSH_BYTE_ACC_CTL regs)
                 (RSH_BYTE_ACC_SIZE regs) ;;
  if nonzero rc then Ret rc else
  rc <- gw_write (RSH_CHANNEL1_BASE + RSH_BYTE_ACC_WDAT regs)
                 (u32 (Z.shiftr value 32)) ;;
  if nonzero rc then Ret rc else
  rc <- rshim_byte_acc_pending_wait fuel ;;
  if nonzero rc then Ret rc else
  rc <- gw_write (RSH_CHANNEL1_BASE + RSH_BYTE_ACC_WDAT regs) (u32 value) ;;
  if nonzero rc then Ret rc else
  Ret 0.

Definition rshim_boot_fifo_write (addr value : Z) : prog gw_call resp Z :=
  rc <- gw_write addr (u32 (Z.shiftr value 32)) ;;
  if nonzero rc then Ret rc else
  rc <- gw_write addr (u32 value) ;;
  if nonzero rc then Ret rc else
  Ret 0.

(** [addr = RSH_BASE_ADDR + (addr | (chan << 16))], as a 32-bit word. *)
Definition rshim_bus_addr (chan addr : Z) : Z :=
  u32 (RSH_BASE_ADDR + Z.lor addr (Z.shiftl chan 16)).

Definition rshim_pcie_read (fuel : nat) (dev : rshim_pcie) (chan addr : Z)
  : prog gw_call resp (Z * option Z * rshim_pcie) :=
  if negb (has_rshim (pcie_bd dev)) then Ret (- ENODEV, None, dev) else
  let dev := set_write_count dev 0 in
  let addr := rshim_bus_addr chan addr in
  let addr := be32toh host_big_endian addr in
  '(rc, result) <- rshim_byte_acc_read fuel addr ;;
  Ret (rc, result, dev).

(** The forced drain at the head of [rshim_pcie_write]: the barrier and
    the dummy read, whose return code and result are dropped. *)
Definition rshim_pcie_write_drain (fuel : nat) (dev : rshim_pcie) (chan : Z)
  : prog gw_call resp rshim_pcie :=
  if write_count dev =? 7 then
    _ <- call SyncSynchronize ;;
    '(_, _, dev) <- rshim_pcie_read fuel dev chan (RSH_SCRATCHPAD regs) ;;
    Ret dev
  else Ret dev.

Definition rshim_pcie_write (fuel : nat) (dev : rshim_pcie)
  (chan addr value : Z) : prog gw_call resp (Z * rshim_pcie) :=
  let is_boot_stream := addr =? RSH_BOOT_FIFO_DATA regs in
  if negb (has_rshim (pcie_bd dev)) then Ret (- ENODEV, dev) else
  let addr := rshim_bus_addr chan addr in
  let addr := if negb is_boot_stream then be32toh host_big_endian addr
              else addr in
  let value := be64toh host_big_endian value in
  dev <- rshim_pcie_write_drain fuel dev chan ;;
  let dev := set_write_count dev (u8 (write_count dev + 1)) in
  rc <- (if is_boot_stream then rshim_boot_fifo_write addr value
         else rshim_byte_acc_write fuel addr value) ;;
  Ret (rc, dev).

(** A caller issuing register writes back to back, with no read between
    them; the return codes are collected. *)
Fixpoint pcie_writes (fuel : nat) (dev : rshim_pcie) (ws : list (Z * Z * Z))
  : prog gw_call resp (list Z * rshim_pcie) :=
  match ws with
  | [] => Ret ([], dev)
  | (chan, addr, value) :: ws' =>
      '(rc, dev) <- rshim_pcie_write fuel dev chan addr value ;;
      '(rcs, dev) <- pcie_writes fuel dev ws' ;;
      Ret (rc :: rcs, dev)
  end.

End PCIe.

(** The barriers of a trace: each one opens a drain. *)
Definition is_barrier (e : gw_call) : bool :=
  match e with
  | SyncSynchronize => true
  | _ => false
  end.

Definition drains (l : trace gw_call resp) : nat :=
  length (filter (fun c => is_barrier (fst c)) l).

(** A register map and an always-ready device for the examples. *)
Definition sample_regs : rshim_regs :=
  {| RSH_BYTE_ACC_CTL := 0x490;
     RSH_BYTE_ACC_ADDR := 0x4a8;
     RSH_BYTE_ACC_RDAT := 0x4a0;
     RSH_BYTE_ACC_WDAT := 0x498;
     RSH_BYTE_ACC_SIZE := 0x10000000;
     RSH_BYTE_ACC_READ_TRIGGER := 0x50000000;
     RSH_BYTE_ACC_PENDING := 0x20000000;
     RSH_BOOT_FIFO_DATA := 0x408;
     RSH_SCRATCHPAD := 0x20 |}.

Definition ready_env {E : Type} (v : Z) : trace E resp -> E -> resp :=
  fun _ _ => (0, v).

Definition sample_backend : rshim_backend :=
  {| has_rshim := true; has_tm := true; drop_mode := false;
     spin_flags := 0; read_buf_bytes := 0; read_buf_next := 0 |}.

Definition sample_pcie (n : Z) : rshim_pcie :=
  {| pcie_bd := sample_backend; write_count := n |}.

(** * rshim_usb.c *)

Definition READ_RETRIES : Z := 5.
Definition WRITE_RETRIES : Z := 5.
Definition RSHIM_USB_TIMEOUT : Z := 20000.

(** ** libusb.h *)

Definition LIBUSB_ENDPOINT_IN : Z := 0x80.
Definition LIBUSB_ENDPOINT_OUT : Z := 0x00.
Definition LIBUSB_REQUEST_TYPE_VENDOR : Z := 0x40.
Definition LIBUSB_RECIPIENT_ENDPOINT : Z := 0x02.
Definition LIBUSB_TRANSFER_TYPE_BULK : Z := 2.
Definition LIBUSB_TRANSFER_TYPE_INTERRUPT : Z := 3.
Definition LIBUSB_ERROR_TIMEOUT : Z := -7.
Definition LIBUSB_ERROR_BUSY : Z := -6.

(** [enum libusb_error], the codes below [LIBUSB_SUCCESS]: IO,
    INVALID_PARAM, ACCESS, NO_DEVICE, NOT_FOUND, BUSY, TIMEOUT, OVERFLOW,
    PIPE, INTERRUPTED, NO_MEM, NOT_SUPPORTED and OTHER. *)
Definition libusb_error : list Z :=
  [-1; -2; -3; -4; -5; -6; -7; -8; -9; -10; -11; -12; -99].

Definition LIBUSB_TRANSFER_COMPLETED : Z := 0.
Definition LIBUSB_TRANSFER_ERROR : Z := 1.
Definition LIBUSB_TRANSFER_TIMED_OUT : Z := 2.
Definition LIBUSB_TRANSFER_CANCELLED : Z := 3.
Definition LIBUSB_TRANSFER_STALL : Z := 4.
Definition LIBUSB_TRANSFER_NO_DEVICE : Z := 5.
Definition LIBUSB_TRANSFER_OVERFLOW : Z := 6.

(** The device owns two transfer objects, one per direction. *)
Inductive urb_id : Type :=
| ReadOrIntrUrb
| WriteUrb.

(** [struct libusb_transfer], the members the file fills or reads. *)
Record libusb_transfer : Type := {
  urb_obj : urb_id;
  endpoint : Z;
  urb_type : Z;
  timeout : Z;
  urb_length : Z;
  status : Z;
  actual_length : Z
}.

Definition libusb_fill_bulk_transfer (urb : libusb_transfer)
  (ep len tmo : Z) : libusb_transfer :=
  {| urb_obj := urb_obj urb; endpoint := ep;
     urb_type := LIBUSB_TRANSFER_TYPE_BULK; timeout := tmo;
     urb_length := len;
     status := status urb; actual_length := actual_length urb |}.

Definition libusb_fill_interrupt_transfer (urb : libusb_transfer)
  (ep len tmo : Z) : libusb_transfer :=
  {| urb_obj := urb_obj urb; endpoint := ep;
     urb_type := LIBUSB_TRANSFER_TYPE_INTERRUPT; timeout := tmo;
     urb_length := len;
     status := status urb; actual_length := actual_length urb |}.

(** ** rshim.h

    Modelled from the spec: the header is not among the sources at hand.
    The events are the ones the spec lists for the notification sink, and
    [spin_flags] is the bitmask {READING, WRITING}, one bit each. *)
Inductive rsh_event : Type :=
| RSH_EVENT_FIFO_INPUT
| RSH_EVENT_FIFO_OUTPUT
| RSH_EVENT_FIFO_ERR
| RSH_EVENT_ATTACH
| RSH_EVENT_DETACH.

Definition RSH_SFLG_READING : Z := 0x1.
Definition RSH_SFLG_WRITING : Z := 0x2.

Definition flag_set (flags mask : Z) : bool := nonzero (Z.land flags mask).

(** ** Calls to libusb and to the notification sink *)
Inductive usb_call : Type :=
| LibusbControlTransfer (bmRequestType bRequest wValue wIndex data wLength tmo : Z)
| LibusbBulkTransfer (ep len tmo : Z)
| LibusbSubmitTransfer (urb : libusb_transfer)
| RshimNotify (event : rsh_event) (code : Z)
| PthreadCondBroadcast.

(** ** Device structure *)
Record rshim_usb_t : Type := {
  bd : rshim_backend;
  ctrl_data : Z;
  intr_buf : Z;
  read_or_intr_urb : libusb_transfer;
  read_or_intr_retries : Z;
  read_urb_is_intr : Z;
  write_urb : libusb_transfer;
  write_retries : Z;
  boot_fifo_ep : Z;
  tm_fifo_int_ep : Z;
  tm_fifo_in_ep : Z;
  tm_fifo_out_ep : Z
}.

Definition set_bd (dev : rshim_usb_t) (b : rshim_backend) : rshim_usb_t :=
  {| bd := b; ctrl_data := ctrl_data dev; intr_buf := intr_buf dev;
     read_or_intr_urb := read_or_intr_urb dev;
     read_or_intr_retries := read_or_intr_retries dev;
     read_urb_is_intr := read_urb_is_intr dev;
     write_urb := write_urb dev; write_retries := write_retries dev;
     boot_fifo_ep := boot_fifo_ep dev; tm_fifo_int_ep := tm_fifo_int_ep dev;
     tm_fifo_in_ep := tm_fifo_in_ep dev; tm_fifo_out_ep := tm_fifo_out_ep dev |}.

Definition set_ctrl_data (dev : rshim_usb_t) (v : Z) : rshim_usb_t :=
  {| bd := bd dev; ctrl_data := v; intr_buf := intr_buf dev;
     read_or_intr_urb := read_or_intr_urb dev;
     read_or_intr_retries := read_or_intr_retries dev;
     read_urb_is_intr := read_urb_is_intr dev;
     write_urb := write_urb dev; write_retries := write_retries dev;
     boot_fifo_ep := boot_fifo_ep dev; tm_fifo_int_ep := tm_fifo_int_ep dev;
     tm_fifo_in_ep := tm_fifo_in_ep dev; tm_fifo_out_ep := tm_fifo_out_ep dev |}.

Definition set_intr_buf (dev : rshim_usb_t) (v : Z) : rshim_usb_t :=
  {| bd := bd dev; ctrl_data := ctrl_data dev; intr_buf := v;
     read_or_intr_urb := read_or_intr_urb dev;
     read_or_intr_retries := read_or_intr_retries dev;
     read_urb_is_intr := read_urb_is_intr dev;
     write_urb := write_urb dev; write_retries := write_retries dev;
     boot_fifo_ep := boot_fifo_ep dev; tm_fifo_int_ep := tm_fifo_int_ep dev;
     tm_fifo_in_ep := tm_fifo_in_ep dev; tm_fifo_out_ep := tm_fifo_out_ep dev |}.

Definition set_read_urb (dev : rshim_usb_t) (urb : libusb_transfer)
  : rshim_usb_t :=
  {| bd := bd dev; ctrl_data := ctrl_data dev; intr_buf := intr_buf dev;
     read_or_intr_urb := urb;
     read_or_intr_retries := read_or_intr_retries dev;
     read_urb_is_intr := read_urb_is_intr dev;
     write_urb := write_urb dev; write_retries := write_retries dev;
     boot_fifo_ep := boot_fifo_ep dev; tm_fifo_int_ep := tm_fifo_int_ep dev;
     tm_fifo_in_ep := tm_fifo_in_ep dev; tm_fifo_out_ep := tm_fifo_out_ep dev |}.

Definition set_read_or_intr_retries (dev : rshim_usb_t) (n : Z) : rshim_usb_t :=
  {| bd := bd dev; ctrl_data := ctrl_data dev; intr_buf := intr_buf dev;
     read_or_intr_urb := read_or_intr_urb dev;
     read_or_intr_retries := n;
     read_urb_is_intr := read_urb_is_intr dev;
     write_urb := write_urb dev; write_retries := write_retries dev;
     boot_fifo_ep := boot_fifo_ep dev; tm_fifo_int_ep := tm_fifo_int_ep dev;
     tm_fifo_in_ep := tm_fifo_in_ep dev; tm_fifo_out_ep := tm_fifo_out_ep dev |}.

Definition set_read_urb_is_intr (dev : rshim_usb_t) (n : Z) : rshim_usb_t :=
  {| bd := bd dev; ctrl_data := ctrl_data dev; intr_buf := intr_buf dev;
     read_or_intr_urb := read_or_intr_urb dev;
     read_or_intr_retries := read_or_intr_retries dev;
     read_urb_is_intr := n;
     write_urb := write_urb dev; write_retries := write_retries dev;
     boot_fifo_ep := boot_fifo_ep dev; tm_fifo_int_ep := tm_fifo_int_ep dev;
     tm_fifo_in_ep := tm_fifo_in_ep dev; tm_fifo_out_ep := tm_fifo_out_ep dev |}.

Definition set_write_urb (dev : rshim_usb_t) (urb : libusb_transfer)
  : rshim_usb_t :=
  {| bd := bd dev; ctrl_data := ctrl_data dev; intr_buf := intr_buf dev;
     read_or_intr_urb := read_or_intr_urb dev;
     read_or_intr_retries := read_or_intr_retries dev;
     read_urb_is_intr := read_urb_is_intr dev;
     write_urb := urb; write_retries := write_retries dev;
     boot_fifo_ep := boot_fifo_ep dev; tm_fifo_int_ep := tm_fifo_int_ep dev;
     tm_fifo_in_ep := tm_fifo_in_ep dev; tm_fifo_out_ep := tm_fifo_out_ep dev |}.

Definition set_write_retries (dev : rshim_usb_t) (n : Z) : rshim_usb_t :=
  {| bd := bd dev; ctrl_data := ctrl_data dev; intr_buf := intr_buf dev;
     read_or_intr_urb := read_or_intr_urb dev;
     read_or_intr_retries := read_or_intr_retries dev;
     read_urb_is_intr := read_urb_is_intr dev;
     write_urb := write_urb dev; write_retries := n;
     boot_fifo_ep := boot_fifo_ep dev; tm_fifo_int_ep := tm_fifo_int_ep dev;
     tm_fifo_in_ep := tm_fifo_in_ep dev; tm_fifo_out_ep := tm_fifo_out_ep dev |}.

(** [bd->spin_flags |= flag] and [bd->spin_flags &= ~flag]. *)
Definition spin_flags_set (dev : rshim_usb_t) (flag : Z) : rshim_usb_t :=
  set_bd dev (set_spin_flags (bd dev) (Z.lor (spin_flags (bd dev)) flag)).

Definition spin_flags_clear (dev : rshim_usb_t) (flag : Z) : rshim_usb_t :=
  set_bd dev
    (set_spin_flags (bd dev) (Z.land (spin_flags (bd dev)) (Z.lnot flag))).

(** [int] against [sizeof (dev->ctrl_data)]: the usual arithmetic
    conversions take the [int] to [size_t]. *)
Definition size_t_of_int (rc : Z) : Z := u64 rc.

(** [x > 0 ? -x : x] *)
Definition negated (x : Z) : Z := if x >? 0 then - x else x.

Section USB.
Variable host_big_endian : bool.
(** [RSH_DEV_TYPE_TMFIFO] of [rshim.h], taken as a parameter. *)
Variable RSH_DEV_TYPE_TMFIFO : Z.

(** ** Rshim read/write routines *)

Definition usb_rw_status (rc : Z) : Z :=
  if rc >=? 0
  then (if size_t_of_int rc >? 8 then - EINVAL else - ENXIO)
  else rc.

Definition rshim_usb_read_rshim (dev : rshim_usb_t) (chan addr : Z)
  : prog usb_call resp (Z * option Z * rshim_usb_t) :=
  if negb (has_rshim (bd dev)) then Ret (- ENODEV, None, dev) else
  '(rc, data) <- call (LibusbControlTransfer
                         (Z.lor LIBUSB_ENDPOINT_IN
                            (Z.lor LIBUSB_REQUEST_TYPE_VENDOR
                               LIBUSB_RECIPIENT_ENDPOINT))
                         0 chan addr (ctrl_data dev) 8 RSHIM_USB_TIMEOUT) ;;
  let dev := set_ctrl_data dev (u64 data) in
  let result := le64toh host_big_endian (ctrl_data dev) in
  if size_t_of_int rc =? 8 then Ret (0, Some result, dev) else
  Ret (usb_rw_status rc, Some result, dev).

Definition rshim_usb_write_rshim (dev : rshim_usb_t) (chan addr value : Z)
  : prog usb_call resp (Z * rshim_usb_t) :=
  if negb (has_rshim (bd dev)) then Ret (- ENODEV, dev) else
  let dev := set_ctrl_data dev (htole64 host_big_endian value) in
  '(rc, _) <- call (LibusbControlTransfer
                      (Z.lor LIBUSB_ENDPOINT_OUT
                         (Z.lor LIBUSB_REQUEST_TYPE_VENDOR
                            LIBUSB_RECIPIENT_ENDPOINT))
                      0 chan addr (ctrl_data dev) 8 RSHIM_USB_TIMEOUT) ;;
  if size_t_of_int rc =? 8 then Ret (0, dev) else
  Ret (usb_rw_status rc, dev).

(** ** Boot routines *)

Definition rshim_usb_boot_write (dev : rshim_usb_t) (count : Z)
  : prog usb_call resp Z :=
  '(rc, transferred) <- call (LibusbBulkTransfer (boot_fifo_ep dev) count
                                RSHIM_USB_TIMEOUT) ;;
  if (rc =? 0) || (rc =? LIBUSB_ERROR_TIMEOUT) then Ret transferred
  else Ret rc.

(** ** FIFO routines *)

Definition is_transient (st : Z) : bool :=
  (st =? LIBUSB_TRANSFER_TIMED_OUT) || (st =? LIBUSB_TRANSFER_STALL)
  || (st =? LIBUSB_TRANSFER_OVERFLOW).

Definition rshim_usb_fifo_read_callback (dev : rshim_usb_t)
  (urb : libusb_transfer) : prog usb_call resp rshim_usb_t :=
  let dev := spin_flags_clear dev RSH_SFLG_READING in
  if status urb =? LIBUSB_TRANSFER_COMPLETED then
    let dev :=
      if read_urb_is_intr dev =? 0 then
        set_bd (set_intr_buf dev 0)
               (set_read_buf (bd dev) (actual_length urb) 0)
      else dev in
    _ <- call (RshimNotify RSH_EVENT_FIFO_INPUT 0) ;;
    Ret dev
  else if status urb =? LIBUSB_TRANSFER_NO_DEVICE then
    Ret dev
  else if is_transient (status urb) then
    if (read_or_intr_retries dev <? READ_RETRIES) && (actual_length urb =? 0)
    then
      let dev :=
        set_read_or_intr_retries dev (read_or_intr_retries dev + 1) in
      '(rc, _) <- call (LibusbSubmitTransfer urb) ;;
      if nonzero rc then
        _ <- call (RshimNotify RSH_EVENT_FIFO_ERR (negated rc)) ;;
        Ret dev
      else Ret (spin_flags_set dev RSH_SFLG_READING)
    else
      (* no break: control runs into [case LIBUSB_TRANSFER_CANCELLED] *)
      Ret dev
  else if status urb =? LIBUSB_TRANSFER_CANCELLED then
    Ret dev
  else
    _ <- call (RshimNotify RSH_EVENT_FIFO_ERR (negated (status urb))) ;;
    Ret dev.

Definition rshim_usb_fifo_read (dev : rshim_usb_t) (count : Z)
  : prog usb_call resp rshim_usb_t :=
  if negb (has_rshim (bd dev)) || negb (has_tm (bd dev)) || drop_mode (bd dev)
  then Ret dev
  else if nonzero (u32 (intr_buf dev)) || nonzero (read_buf_bytes (bd dev))
  then
    (* We're doing a read. *)
    let urb := libusb_fill_bulk_transfer (read_or_intr_urb dev)
                 (tm_fifo_in_ep dev) count RSHIM_USB_TIMEOUT in
    let dev := set_read_urb dev urb in
    let dev := spin_flags_set dev RSH_SFLG_READING in
    let dev := set_read_urb_is_intr dev 0 in
    let dev := set_read_or_intr_retries dev 0 in
    '(rc, _) <- call (LibusbSubmitTransfer urb) ;;
    if nonzero rc then Ret (spin_flags_clear dev RSH_SFLG_READING)
    else Ret dev
  else
    (* We're doing an interrupt. *)
    (* timeout -1, the [__linux__] branch, as the [unsigned int] it is
       passed as *)
    let urb := libusb_fill_interrupt_transfer (read_or_intr_urb dev)
                 (tm_fifo_int_ep dev) 8 (u32 (-1)) in
    let dev := set_read_urb dev urb in
    let dev := spin_flags_set dev RSH_SFLG_READING in
    let dev := set_read_urb_is_intr dev 1 in
    let dev := set_read_or_intr_retries dev 0 in
    '(rc, _) <- call (LibusbSubmitTransfer urb) ;;
    if nonzero rc then Ret (spin_flags_clear dev RSH_SFLG_READING)
    else Ret dev.

Definition rshim_usb_fifo_write_callback (dev : rshim_usb_t)
  (urb : libusb_transfer) : prog usb_call resp rshim_usb_t :=
  let dev := spin_flags_clear dev RSH_SFLG_WRITING in
  if status urb =? LIBUSB_TRANSFER_COMPLETED then
    _ <- call PthreadCondBroadcast ;;
    _ <- call (RshimNotify RSH_EVENT_FIFO_OUTPUT 0) ;;
    Ret dev
  else if status urb =? LIBUSB_TRANSFER_NO_DEVICE then
    Ret dev
  else if is_transient (status urb) then
    if (write_retries dev <? WRITE_RETRIES) && (actual_length urb =? 0)
    then
      let dev := set_write_retries dev (write_retries dev + 1) in
      '(rc, _) <- call (LibusbSubmitTransfer urb) ;;
      if nonzero rc then
        _ <- call (RshimNotify RSH_EVENT_FIFO_ERR (negated rc)) ;;
        Ret dev
      else Ret (spin_flags_set dev RSH_SFLG_WRITING)
    else
      (* no break: control runs into [case LIBUSB_TRANSFER_CANCELLED] *)
      Ret dev
  else if status urb =? LIBUSB_TRANSFER_CANCELLED then
    Ret dev
  else
    _ <- call (RshimNotify RSH_EVENT_FIFO_ERR (negated (status urb))) ;;
    Ret dev.

Definition rshim_usb_fifo_write (dev : rshim_usb_t) (count : Z)
  : prog usb_call resp (Z * rshim_usb_t) :=
  if negb (has_rshim (bd dev)) || negb (has_tm (bd dev))
  then Ret (- ENODEV, dev)
  else if drop_mode (bd dev) then Ret (0, dev)
  else
    let urb := libusb_fill_bulk_transfer (write_urb dev)
                 (tm_fifo_out_ep dev) count RSHIM_USB_TIMEOUT in
    let dev := set_write_urb dev urb in
    let dev := set_write_retries dev 0 in
    '(rc, _) <- call (LibusbSubmitTransfer urb) ;;
    if nonzero rc then Ret (-1, spin_flags_clear dev RSH_SFLG_WRITING)
    else Ret (0, spin_flags_set dev RSH_SFLG_WRITING).

Definition rshim_usb_backend_read (dev : rshim_usb_t) (devtype count : Z)
  : prog usb_call resp (Z * rshim_usb_t) :=
  if devtype =? RSH_DEV_TYPE_TMFIFO then
    dev <- rshim_usb_fifo_read dev count ;;
    Ret (0, dev)
  else Ret (- EINVAL, dev).

End USB.

(** ** What a trace of the stream engine shows *)

Definition urb_id_eqb (a b : urb_id) : bool :=
  match a, b with
  | ReadOrIntrUrb, ReadOrIntrUrb => true
  | WriteUrb, WriteUrb => true
  | _, _ => false
  end.

(** The transfers handed to [libusb_submit_transfer], in order. *)
Fixpoint submissions (l : trace usb_call resp) : list libusb_transfer :=
  match l with
  | [] => []
  | (LibusbSubmitTransfer urb, _) :: l' => urb :: submissions l'
  | _ :: l' => submissions l'
  end.

(** The submissions of the transfer object [u] that libusb accepted. *)
Fixpoint accepted (u : urb_id) (l : trace usb_call resp) : nat :=
  match l with
  | [] => O
  | (LibusbSubmitTransfer urb, (rc, _)) :: l' =>
      let n := if urb_id_eqb (urb_obj urb) u && (rc =? 0) then 1%nat else O in
      (n + accepted u l')%nat
  | _ :: l' => accepted u l'
  end.

(** The codes of the FIFO-error notifications, in order. *)
Fixpoint fifo_errors (l : trace usb_call resp) : list Z :=
  match l with
  | [] => []
  | (RshimNotify RSH_EVENT_FIFO_ERR code, _) :: l' => code :: fifo_errors l'
  | _ :: l' => fifo_errors l'
  end.

(** All notifications, in order. *)
Fixpoint notifications (l : trace usb_call resp) : list (rsh_event * Z) :=
  match l with
  | [] => []
  | (RshimNotify ev code, _) :: l' => (ev, code) :: notifications l'
  | _ :: l' => notifications l'
  end.

(** ** The stream engine as a transition system

    A state pairs the device structure with the number of transfers that
    libusb holds for each direction: a submission libusb accepts adds one,
    a completion takes one away before its callback runs. *)
Record usb_sys : Type := {
  sys_dev : rshim_usb_t;
  reads_in_flight : nat;
  writes_in_flight : nat
}.

Definition after_calls (s : usb_sys) (dev' : rshim_usb_t)
  (completed_read completed_write : nat) (l : trace usb_call resp) : usb_sys :=
  {| sys_dev := dev';
     reads_in_flight :=
       (reads_in_flight s - completed_read + accepted ReadOrIntrUrb l)%nat;
     writes_in_flight :=
       (writes_in_flight s - completed_write + accepted WriteUrb l)%nat |}.

Definition reading (dev : rshim_usb_t) : bool :=
  flag_set (spin_flags (bd dev)) RSH_SFLG_READING.

Definition writing (dev : rshim_usb_t) : bool :=
  flag_set (spin_flags (bd dev)) RSH_SFLG_WRITING.

(** Modelled from the spec: the callers of [rshim_usb_fifo_read] and
    [rshim_usb_fifo_write] live in [rshim.c], which is not among the sources
    at hand.  The spec has them submit a transfer only when the flag of its
    direction is clear; that is the guard of [step_fifo_read] and
    [step_fifo_write].  The other steps are the two completion callbacks,
    run by libusb for a transfer it holds, and any activity elsewhere that
    leaves the two busy bits and the two transfer objects alone. *)
Inductive usb_step : usb_sys -> usb_sys -> Prop :=
| step_fifo_read (s : usb_sys) (count : Z) (l : trace usb_call resp)
    (dev' : rshim_usb_t) :
    reading (sys_dev s) = false ->
    runs (rshim_usb_fifo_read (sys_dev s) count) l dev' ->
    usb_step s (after_calls s dev' 0 0 l)
| step_fifo_write (s : usb_sys) (count rc : Z) (l : trace usb_call resp)
    (dev' : rshim_usb_t) :
    writing (sys_dev s) = false ->
    runs (rshim_usb_fifo_write (sys_dev s) count) l (rc, dev') ->
    usb_step s (after_calls s dev' 0 0 l)
| step_read_completion (s : usb_sys) (urb : libusb_transfer)
    (l : trace usb_call resp) (dev' : rshim_usb_t) :
    (0 < reads_in_flight s)%nat ->
    urb_obj urb = ReadOrIntrUrb ->
    runs (rshim_usb_fifo_read_callback (sys_dev s) urb) l dev' ->
    usb_step s (after_calls s dev' 1 0 l)
| step_write_completion (s : usb_sys) (urb : libusb_transfer)
    (l : trace usb_call resp) (dev' : rshim_usb_t) :
    (0 < writes_in_flight s)%nat ->
    urb_obj urb = WriteUrb ->
    runs (rshim_usb_fifo_write_callback (sys_dev s) urb) l dev' ->
    usb_step s (after_calls s dev' 0 1 l)
| step_elsewhere (s : usb_sys) (dev' : rshim_usb_t) :
    reading dev' = reading (sys_dev s) ->
    writing dev' = writing (sys_dev s) ->
    urb_obj (read_or_intr_urb dev') = urb_obj (read_or_intr_urb (sys_dev s)) ->
    urb_obj (write_urb dev') = urb_obj (write_urb (sys_dev s)) ->
    usb_step s (after_calls s dev' 0 0 []).

(** A freshly probed device: its two transfer objects allocated, nothing
    submitted, both busy bits clear. *)
Definition usb_initial (s : usb_sys) : Prop :=
  reading (sys_dev s) = false /\ writing (sys_dev s) = false /\
  urb_obj (read_or_intr_urb (sys_dev s)) = ReadOrIntrUrb /\
  urb_obj (write_urb (sys_dev s)) = WriteUrb /\
  reads_in_flight s = O /\ writes_in_flight s = O.

Inductive usb_reachable : usb_sys -> Prop :=
| reach_initial (s : usb_sys) : usb_initial s -> usb_reachable s
| reach_step (s s' : usb_sys) :
    usb_reachable s -> usb_step s s' -> usb_reachable s'.

(** The busy flag of a direction is set exactly while libusb holds the
    transfer of that direction, and it never holds more than one. *)
Definition busy_invariant (s : usb_sys) : Prop :=
  (reads_in_flight s <= 1)%nat /\ (writes_in_flight s <= 1)%nat /\
  reading (sys_dev s) = (reads_in_flight s =? 1)%nat /\
  writing (sys_dev s) = (writes_in_flight s =? 1)%nat /\
  urb_obj (read_or_intr_urb (sys_dev s)) = ReadOrIntrUrb /\
  urb_obj (write_urb (sys_dev s)) = WriteUrb.

(** A device for the examples. *)
Definition sample_urb (u : urb_id) (st len : Z) : libusb_transfer :=
  {| urb_obj := u; endpoint := 0x81; urb_type := LIBUSB_TRANSFER_TYPE_BULK;
     timeout := RSHIM_USB_TIMEOUT; urb_length := 512;
     status := st; actual_length := len |}.

Definition sample_usb (retries : Z) : rshim_usb_t :=
  {| bd := sample_backend; ctrl_data := 0; intr_buf := 0;
     read_or_intr_urb := sample_urb ReadOrIntrUrb 0 0;
     read_or_intr_retries := retries; read_urb_is_intr := 0;
     write_urb := sample_urb WriteUrb 0 0; write_retries := retries;
     boot_fifo_ep := 0x01; tm_fifo_int_ep := 0x83;
     tm_fifo_in_ep := 0x82; tm_fifo_out_ep := 0x02 |}.

(** * Observations and examples *)

(** An environment in which every capability access goes through except
    the write of the target address, and one in which the lock register
    reads as held [n] times before it reads as free. *)
Definition addr_write_fails : trace cap_call resp -> cap_call -> resp :=
  fun _ e =>
    match e with
    | PciCapWrite offset _ =>
        if offset =? TRIO_CR_GW_ADDR_LOWER then (-1, 0) else (0, 0)
    | PciCapRead _ => (0, 0)
    end.

Definition lock_held_for (n : nat) : trace cap_call resp -> cap_call -> resp :=
  fun hist e =>
    match e with
    | PciCapRead offset =>
        if (offset =? TRIO_CR_GW_LOCK) && (length hist <? n)%nat
        then (0, TRIO_CR_GW_LOCK_ACQUIRED) else (0, 0x1234)
    | PciCapWrite _ _ => (0, 0)
    end.

Definition gw_read_failed_trace : trace cap_call resp :=
  [ (PciCapRead TRIO_CR_GW_LOCK, (0, 0));
    (PciCapWrite TRIO_CR_GW_LOCK TRIO_CR_GW_LOCK_ACQUIRED, (0, 0));
    (PciCapWrite TRIO_CR_GW_ADDR_LOWER 0x80010490, (-1, 0)) ].

Definition gw_write_sample_trace : trace cap_call resp :=
  Eval vm_compute in
    fst (exec (lock_held_for 2) [] (trio_cr_gw_write 3 0x80010498 0xcafe)).

(** ** The wait on the widget's control register *)

(** The loop condition of [rshim_byte_acc_pending_wait] on the word read,
    and the PENDING bit of that word. *)
Definition wait_continues (regs : rshim_regs) (v : Z) : bool :=
  nonzero (Z.land (u32 v) (pending_wait_mask regs)).

Definition pending_bit_set (regs : rshim_regs) (v : Z) : bool :=
  nonzero (Z.land (u32 v) (RSH_BYTE_ACC_PENDING regs)).

(** A poll of the control register with its answer. *)
Definition ctl_poll (regs : rshim_regs) (rc v : Z) : gw_call * resp :=
  (TrioCrGwRead (u32 (RSH_CHANNEL1_BASE + RSH_BYTE_ACC_CTL regs)), (rc, v)).

(** A device that answers the successive calls with the words of [vs],
    then with 0, every call succeeding. *)
Definition answers {E : Type} (vs : list Z) : trace E resp -> E -> resp :=
  fun hist _ => (0, nth (length hist) vs 0).

(** A read of the widget's data register with its answer. *)
Definition rdat_read (regs : rshim_regs) (rc v : Z) : gw_call * resp :=
  (TrioCrGwRead (u32 (RSH_CHANNEL1_BASE + RSH_BYTE_ACC_RDAT regs)), (rc, v)).

Definition byte_acc_read_sample_trace : trace gw_call resp :=
  Eval vm_compute in
    fst (exec (answers [0x20000000; 0; 0; 0; 0; 0; 0x11223344; 0x20000000;
                        0; 0x55667788])
           [] (rshim_byte_acc_read sample_regs false 4 0x20000080)).

(** Eight boot-stream writes in a row, and the trace they leave on a
    device that was just probed ([write_count] 0). *)
Definition eight_writes : list (Z * Z * Z) :=
  map (fun n => (0, 0x408, n)) [1; 2; 3; 4; 5; 6; 7; 8].

Definition eight_writes_trace : trace gw_call resp :=
  Eval vm_compute in
    fst (exec (ready_env 0) []
           (pcie_writes sample_regs false 2 (sample_pcie 0) eight_writes)).

(** ** Completions delivered one after the other *)

(** libusb hands the transfers of [urbs] to the read callback in turn. *)
Fixpoint read_completions (dev : rshim_usb_t) (urbs : list libusb_transfer)
  : prog usb_call resp rshim_usb_t :=
  match urbs with
  | [] => Ret dev
  | urb :: urbs' =>
      dev <- rshim_usb_fifo_read_callback dev urb ;;
      read_completions dev urbs'
  end.

Fixpoint write_completions (dev : rshim_usb_t) (urbs : list libusb_transfer)
  : prog usb_call resp rshim_usb_t :=
  match urbs with
  | [] => Ret dev
  | urb :: urbs' =>
      dev <- rshim_usb_fifo_write_callback dev urb ;;
      write_completions dev urbs'
  end.

(** A read transfer that timed out with nothing transferred, and the
    trace of six such completions in a row after a fresh submission, every
    resubmission being accepted. *)
Definition timed_out_read : libusb_transfer :=
  sample_urb ReadOrIntrUrb LIBUSB_TRANSFER_TIMED_OUT 0.

Definition six_timeouts_trace : trace usb_call resp :=
  Eval vm_compute in
    fst (exec (ready_env 0) []
           (read_completions (sample_usb 0) (repeat timed_out_read 6))).

(** A library that answers every call with the code [rc] and the value [v]. *)
Definition reply {E : Type} (rc v : Z) : trace E resp -> E -> resp :=
  fun _ _ => (rc, v).

(** A device just probed, and the same device after one stream read whose
    interrupt transfer libusb accepted. *)
Definition usb_sys0 : usb_sys :=
  {| sys_dev := sample_usb 0; reads_in_flight := O; writes_in_flight := O |}.

Definition first_read_trace : trace usb_call resp :=
  Eval vm_compute in
    fst (exec (ready_env 0) [] (rshim_usb_fifo_read (sample_usb 0) 512)).

Definition first_read_dev : rshim_usb_t :=
  spin_flags_set
    (set_read_urb (sample_usb 0)
       (libusb_fill_interrupt_transfer (sample_urb ReadOrIntrUrb 0 0)
          0x83 8 (u32 (-1))))
    RSH_SFLG_READING.

Definition usb_sys1 : usb_sys :=
  after_calls usb_sys0
    (set_read_or_intr_retries (set_read_urb_is_intr first_read_dev 1) 0)
    0 0 first_read_trace.

(** ** Runs that do not return

    A spin-wait gives up only after the device stayed busy for the whole
    fuel: the trace then ends with [fuel] polls in a row that all met the
    loop condition. *)
Definition lock_poll (rc v : Z) : cap_call * resp :=
  (PciCapRead TRIO_CR_GW_LOCK, (rc, v)).

Definition lock_held (v : Z) : bool :=
  nonzero (Z.land (u32 v) TRIO_CR_GW_LOCK_ACQUIRED).

Definition lock_stayed_held (fuel : nat) (l : trace cap_call resp) : Prop :=
  exists l_pre held,
    l = l_pre ++ map (lock_poll 0) held /\ length held = fuel /\
    Forall (fun v => lock_held v = true) held.

Definition ctl_stayed_pending (regs : rshim_regs) (fuel : nat)
  (l : trace gw_call resp) : Prop :=
  exists l_pre busy,
    l = l_pre ++ map (ctl_poll regs 0) busy /\ length busy = fuel /\
    Forall (fun w => wait_continues regs w = true) busy.

(** ** Linking the layers

    A program over the calls of one layer runs on the layer below once
    each call is replaced by the routine it stands for. *)
Fixpoint interp {E R F S A : Type} (h : E -> prog F S R) (p : prog E R A)
  : prog F S A :=
  match p with
  | Ret a => Ret a
  | Call e k => bind (h e) (fun r => interp h (k r))
  | Spin => Spin
  end.

(** [expands h lh l]: the lower trace [l] is the upper trace [lh] with
    every call replaced by a run of its routine giving the same answer. *)
Inductive expands {E R F S : Type} (h : E -> prog F S R)
  : trace E R -> trace F S -> Prop :=
| expands_nil : expands h [] []
| expands_cons (e : E) (r : R) (lh : trace E R) (l1 l2 : trace F S) :
    runs (h e) l1 r -> expands h lh l2 ->
    expands h ((e, r) :: lh) (l1 ++ l2).

(** The word a caller finds behind [result]: what was stored, or what was
    there before, taken as 0, when the routine returned early. *)
Definition stored (result : option Z) : Z :=
  match result with
  | Some v => v
  | None => 0
  end.

Definition cap_handler (e : cap_call) : prog pci_call Z resp :=
  match e with
  | PciCapRead offset =>
      '(rc, result) <- pci_cap_read offset ;; Ret (rc, stored result)
  | PciCapWrite offset value =>
      rc <- pci_cap_write offset value ;; Ret (rc, 0)
  end.

(** The barrier makes no capability access. *)
Definition gw_handler (fuel : nat) (e : gw_call) : prog cap_call resp resp :=
  match e with
  | TrioCrGwRead addr =>
      '(rc, result) <- trio_cr_gw_read fuel addr ;; Ret (rc, stored result)
  | TrioCrGwWrite addr value =>
      rc <- trio_cr_gw_write fuel addr value ;; Ret (rc, 0)
  | SyncSynchronize => Ret (0, 0)
  end.

(** A register write down to the libpci calls. *)
Definition rshim_pcie_write_on_pci (regs : rshim_regs) (host_big_endian : bool)
  (fuel : nat) (dev : rshim_pcie) (chan addr value : Z)
  : prog pci_call Z (Z * rshim_pcie) :=
  interp cap_handler
    (interp (gw_handler fuel)
       (rshim_pcie_write regs host_big_endian fuel dev chan addr value)).

(** The outcome of a program against an environment: it returned, and
    [returned] holds of the trace and the result, or it gave up in a wait,
    and [gave_up] holds of the trace. *)
Definition outcome {E R A : Type} (env : trace E R -> E -> R)
  (p : prog E R A) (returned : trace E R -> A -> Prop)
  (gave_up : trace E R -> Prop) : Prop :=
  match exec env [] p with
  | (l, Some a) => returned l a
  | (l, None) => gave_up l
  end.

(** * Further observations *)

Definition byte_range (bs : list Z) : Prop :=
  Forall (fun b => 0 <= b < 256) bs.

(** The statuses the completion callbacks have a case for. *)
Definition is_known_status (st : Z) : bool :=
  (st =? LIBUSB_TRANSFER_COMPLETED) || (st =? LIBUSB_TRANSFER_NO_DEVICE)
  || is_transient st || (st =? LIBUSB_TRANSFER_CANCELLED).

Definition is_silent_status (st : Z) : bool :=
  (st =? LIBUSB_TRANSFER_NO_DEVICE) || (st =? LIBUSB_TRANSFER_CANCELLED).

(** Whether [rshim_usb_fifo_read] has bytes to fetch: the interrupt count,
    as the [int] it is cast to, or bytes left over in the read buffer. *)
Definition bytes_known_available (dev : rshim_usb_t) : bool :=
  nonzero (u32 (intr_buf dev)) || nonzero (read_buf_bytes (bd dev)).

Definition stream_open (dev : rshim_usb_t) : bool :=
  has_rshim (bd dev) && has_tm (bd dev) && negb (drop_mode (bd dev)).

Definition set_has_rshim (b : rshim_backend) (v : bool) : rshim_backend :=
  {| has_rshim := v; has_tm := has_tm b; drop_mode := drop_mode b;
     spin_flags := spin_flags b;
     read_buf_bytes := read_buf_bytes b; read_buf_next := read_buf_next b |}.

(** Examples: a device with an interrupt count whose low 32 bits are zero,
    and completions with the statuses the callbacks tell apart. *)
Definition usb_with_intr_buf (n : Z) : rshim_usb_t :=
  set_intr_buf (sample_usb 0) n.

Definition completed_read (len : Z) : libusb_transfer :=
  sample_urb ReadOrIntrUrb LIBUSB_TRANSFER_COMPLETED len.

Definition cancelled_read : libusb_transfer :=
  sample_urb ReadOrIntrUrb LIBUSB_TRANSFER_CANCELLED 0.

Definition failed_read : libusb_transfer :=
  sample_urb ReadOrIntrUrb LIBUSB_TRANSFER_ERROR 0.

(** ** Completions of both directions

    [rshim_usb_fifo_read] fills the read-or-interrupt transfer with
    [rshim_usb_fifo_read_callback] and [rshim_usb_fifo_write] fills the
    write transfer with [rshim_usb_fifo_write_callback]: libusb runs the
    callback the transfer object was filled with. *)
Definition completion_callback (dev : rshim_usb_t) (urb : libusb_transfer)
  : prog usb_call resp rshim_usb_t :=
  match urb_obj urb with
  | ReadOrIntrUrb => rshim_usb_fifo_read_callback dev urb
  | WriteUrb => rshim_usb_fifo_write_callback dev urb
  end.

(** Completions of either direction, delivered one after the other with
    no new request in between. *)
Fixpoint completions (dev : rshim_usb_t) (urbs : list libusb_transfer)
  : prog usb_call resp rshim_usb_t :=
  match urbs with
  | [] => Ret dev
  | urb :: urbs' =>
      dev <- completion_callback dev urb ;;
      completions dev urbs'
  end.

(** The busy bit of a direction. *)
Definition busy_flag (u : urb_id) : Z :=
  match u with
  | ReadOrIntrUrb => RSH_SFLG_READING
  | WriteUrb => RSH_SFLG_WRITING
  end.

(** The submissions of the transfer object [u], accepted or not. *)
Definition submitted (u : urb_id) (l : trace usb_call resp) : nat :=
  length (filter (fun urb => urb_id_eqb (urb_obj urb) u) (submissions l)).

Definition failed_write : libusb_transfer :=
  sample_urb WriteUrb LIBUSB_TRANSFER_ERROR 0.

Definition timed_out_write : libusb_transfer :=
  sample_urb WriteUrb LIBUSB_TRANSFER_TIMED_OUT 0.

(** ** Backend write dispatch

    [RSH_DEV_TYPE_TMFIFO] and [RSH_DEV_TYPE_BOOT] of [rshim.h] are taken
    as parameters.  The [int] results are returned as [ssize_t]. *)
Definition rshim_usb_backend_write (RSH_DEV_TYPE_TMFIFO RSH_DEV_TYPE_BOOT : Z)
  (dev : rshim_usb_t) (devtype count : Z)
  : prog usb_call resp (Z * rshim_usb_t) :=
  if devtype =? RSH_DEV_TYPE_TMFIFO then rshim_usb_fifo_write dev count
  else if devtype =? RSH_DEV_TYPE_BOOT then
    ret <- rshim_usb_boot_write dev count ;;
    Ret (ret, dev)
  else Ret (- EINVAL, dev).

(** ** What a trace shows, whatever the layer *)

(** The calls of a trace, without their answers. *)
Definition calls {E R : Type} (l : trace E R) : list E := map fst l.

(** The capability accesses the gateway routines make: reads of the lock
    and of the lower data register, writes of these two, of the control
    and of the lower address register. *)
Definition is_gateway_access (e : cap_call) : bool :=
  match e with
  | PciCapRead offset =>
      (offset =? TRIO_CR_GW_LOCK) || (offset =? TRIO_CR_GW_DATA_LOWER)
  | PciCapWrite offset _ =>
      (offset =? TRIO_CR_GW_LOCK) || (offset =? TRIO_CR_GW_DATA_LOWER)
      || (offset =? TRIO_CR_GW_CTL) || (offset =? TRIO_CR_GW_ADDR_LOWER)
  end.

(** The capability accesses of a gateway read and of a gateway write that
    found the lock free on the read after [n] reads that showed it held. *)
Definition gw_read_protocol (n : nat) (addr : Z) : list cap_call :=
  repeat (PciCapRead TRIO_CR_GW_LOCK) n ++
  [PciCapRead TRIO_CR_GW_LOCK;
   PciCapWrite TRIO_CR_GW_LOCK TRIO_CR_GW_LOCK_ACQUIRED;
   PciCapWrite TRIO_CR_GW_ADDR_LOWER (u32 addr);
   PciCapWrite TRIO_CR_GW_CTL TRIO_CR_GW_READ_4BYTE;
   PciCapWrite TRIO_CR_GW_LOCK TRIO_CR_GW_TRIGGER;
   PciCapRead TRIO_CR_GW_DATA_LOWER;
   PciCapWrite TRIO_CR_GW_LOCK TRIO_CR_GW_LOCK_RELEASE].

Definition gw_write_protocol (n : nat) (addr value : Z) : list cap_call :=
  repeat (PciCapRead TRIO_CR_GW_LOCK) n ++
  [PciCapRead TRIO_CR_GW_LOCK;
   PciCapWrite TRIO_CR_GW_LOCK TRIO_CR_GW_LOCK_ACQUIRED;
   PciCapWrite TRIO_CR_GW_DATA_LOWER (u32 value);
   PciCapWrite TRIO_CR_GW_ADDR_LOWER (u32 addr);
   PciCapWrite TRIO_CR_GW_CTL TRIO_CR_GW_WRITE_4BYTE;
   PciCapWrite TRIO_CR_GW_LOCK TRIO_CR_GW_TRIGGER;
   PciCapWrite TRIO_CR_GW_LOCK TRIO_CR_GW_LOCK_RELEASE].

(** A lock register that reads as held [n] times, then as free. *)
Definition lock_busy_env (n : nat) : trace cap_call resp -> cap_call -> resp :=
  fun hist _ =>
    if (length hist <? n)%nat then (0, TRIO_CR_GW_LOCK_ACQUIRED) else (0, 0).

(** ** Words exchanged with a widget register *)

(** The gateway address of a register of channel 1. *)
Definition widget_addr (offset : Z) : Z := u32 (RSH_CHANNEL1_BASE + offset).

(** The words written to the gateway address [a], in order, and the words
    read from it. *)
Definition writes_to (a : Z) (l : trace gw_call resp) : list Z :=
  flat_map (fun c => match fst c with
                     | TrioCrGwWrite a' v => if a' =? a then [v] else []
                     | _ => []
                     end) l.

Definition reads_from (a : Z) (l : trace gw_call resp) : list Z :=
  flat_map (fun c => match fst c with
                     | TrioCrGwRead a' =>
                         if a' =? a then [u32 (snd (snd c))] else []
                     | _ => []
                     end) l.

(** The write-data register is neither the control nor the address
    register, and the read-data register is not the control register. *)
Definition widget_registers_distinct (regs : rshim_regs) : bool :=
  negb (widget_addr (RSH_BYTE_ACC_WDAT regs)
        =? widget_addr (RSH_BYTE_ACC_CTL regs))
  && negb (widget_addr (RSH_BYTE_ACC_WDAT regs)
           =? widget_addr (RSH_BYTE_ACC_ADDR regs))
  && negb (widget_addr (RSH_BYTE_ACC_RDAT regs)
           =? widget_addr (RSH_BYTE_ACC_CTL regs)).

(** A device whose read-data register hands back, upper word first, the
    two words last written to the write-data register, every access
    succeeding and the widget never pending. *)
Definition echo_env (regs : rshim_regs) (written : list Z)
  : trace gw_call resp -> gw_call -> resp :=
  fun hist e =>
    match e with
    | TrioCrGwRead a =>
        if a =? widget_addr (RSH_BYTE_ACC_RDAT regs)
        then (0, nth (length (reads_from a hist)) written 0)
        else (0, 0)
    | _ => (0, 0)
    end.

(** ** What reaches the PCI configuration space *)

(** The configuration-space words the gateway routines address through
    the address capability: the four gateway registers, the two that are
    read also with the read flag. *)
Definition cr_space_words : list Z :=
  [TRIO_CR_GW_LOCK; Z.lor TRIO_CR_GW_LOCK MELLANOX_CAP_READ;
   TRIO_CR_GW_DATA_LOWER; Z.lor TRIO_CR_GW_DATA_LOWER MELLANOX_CAP_READ;
   TRIO_CR_GW_CTL; TRIO_CR_GW_ADDR_LOWER].

(** A libpci call on the capability pair: a write of the address or of the
    data capability, the address being one of [cr_space_words], or a read
    of the data capability. *)
Definition is_capability_access (e : pci_call) : bool :=
  match e with
  | PciWriteLong pos data =>
      ((pos =? MELLANOX_ADDR) && existsb (Z.eqb data) cr_space_words)
      || (pos =? MELLANOX_DATA)
  | PciReadLong pos => pos =? MELLANOX_DATA
  end.

(** * rshim_usb.c: registration with the event loop *)

(** ** poll.h and sys/epoll.h, Linux values *)

Definition POLLIN : Z := 0x001.
Definition POLLOUT : Z := 0x004.
Definition POLLERR : Z := 0x008.
Definition POLLHUP : Z := 0x010.
Definition POLLRDNORM : Z := 0x040.
Definition POLLRDBAND : Z := 0x080.
Definition POLLWRNORM : Z := 0x100.
Definition POLLWRBAND : Z := 0x200.

Definition EPOLLIN : Z := 0x001.
Definition EPOLLOUT : Z := 0x004.
Definition EPOLLERR : Z := 0x008.
Definition EPOLLHUP : Z := 0x010.
Definition EPOLLRDNORM : Z := 0x040.
Definition EPOLLRDBAND : Z := 0x080.
Definition EPOLLWRNORM : Z := 0x100.
Definition EPOLLWRBAND : Z := 0x200.

(** [struct libusb_pollfd]: [int fd; short events]. *)
Record libusb_pollfd : Type := {
  fd : Z;
  events : Z
}.

(** [epoll_ctl (rshim_usb_epoll_fd, EPOLL_CTL_ADD, fd, &event)], answered
    with its return code. *)
Inductive epoll_call : Type :=
| EpollCtlAdd (epfd fd events : Z).

(** [RSHIM_CONVERT (flag)]:
    [if (usb_pollfd[i]->events & flag) event.events |= E##flag]. *)
Definition RSHIM_CONVERT (pollfd_events flag eflag event_events : Z) : Z :=
  if nonzero (Z.land pollfd_events flag) then Z.lor event_events eflag
  else event_events.

(** The body of the loop up to the [epoll_ctl] call, [__linux__] branch:
    the event mask built for one descriptor. *)
Definition epoll_events_of (pollfd_events : Z) : Z :=
  let ev := 0 in
  let ev := RSHIM_CONVERT pollfd_events POLLIN EPOLLIN ev in
  let ev := RSHIM_CONVERT pollfd_events POLLOUT EPOLLOUT ev in
  let ev := RSHIM_CONVERT pollfd_events POLLRDNORM EPOLLRDNORM ev in
  let ev := RSHIM_CONVERT pollfd_events POLLRDBAND EPOLLRDBAND ev in
  let ev := RSHIM_CONVERT pollfd_events POLLWRNORM EPOLLWRNORM ev in
  let ev := RSHIM_CONVERT pollfd_events POLLWRBAND EPOLLWRBAND ev in
  let ev := RSHIM_CONVERT pollfd_events POLLWRBAND EPOLLWRBAND ev in
  let ev := RSHIM_CONVERT pollfd_events POLLERR EPOLLERR ev in
  let ev := RSHIM_CONVERT pollfd_events POLLHUP EPOLLHUP ev in
  ev.

(** The [while (usb_pollfd[i])] loop over the NULL-terminated array, [rc]
    being the value the variable holds on entry. *)
Fixpoint rshim_usb_add_poll_loop (rshim_usb_epoll_fd : Z)
  (usb_pollfd : list libusb_pollfd) (rc : Z) : prog epoll_call Z Z :=
  match usb_pollfd with
  | [] => Ret rc
  | p :: rest =>
      rc <- call (EpollCtlAdd rshim_usb_epoll_fd (fd p)
                    (epoll_events_of (events p))) ;;
      rshim_usb_add_poll_loop rshim_usb_epoll_fd rest rc
  end.

(** [usb_pollfd] is what [libusb_get_pollfds (ctx)] answered: [None] for
    NULL, otherwise the descriptors before the terminating NULL. *)
Definition rshim_usb_add_poll (rshim_usb_epoll_fd : Z)
  (usb_pollfd : option (list libusb_pollfd)) : prog epoll_call Z Z :=
  let rc := - ENODEV in
  match usb_pollfd with
  | None => Ret rc
  | Some fds => rshim_usb_add_poll_loop rshim_usb_epoll_fd fds rc
  end.

(** The flags the conversion knows. *)
Definition converted_flags : Z :=
  Z.lor POLLIN (Z.lor POLLOUT (Z.lor POLLRDNORM (Z.lor POLLRDBAND
    (Z.lor POLLWRNORM (Z.lor POLLWRBAND (Z.lor POLLERR POLLHUP)))))).

(** An [epoll_ctl] that fails on the descriptors of [bad]. *)
Definition epoll_env (bad : list Z) : trace epoll_call Z -> epoll_call -> Z :=
  fun _ e =>
    match e with
    | EpollCtlAdd _ fd _ => if existsb (Z.eqb fd) bad then -1 else 0
    end.

(** * rshim_usb.c: device discovery *)

(** Our USB vendor/product IDs. *)
Definition USB_TILERA_VENDOR_ID : Z := 0x22dc.
Definition USB_BLUEFIELD_1_PRODUCT_ID : Z := 0x0004.
Definition USB_BLUEFIELD_2_PRODUCT_ID : Z := 0x0214.

Definition rshim_usb_product_ids : list Z :=
  [USB_BLUEFIELD_1_PRODUCT_ID; USB_BLUEFIELD_2_PRODUCT_ID].

(** [struct libusb_device_descriptor], the members the file reads. *)
Record libusb_device_descriptor : Type := {
  idVendor : Z;
  idProduct : Z;
  bcdDevice : Z
}.

(** An entry of the list [libusb_get_device_list] answered, with what
    [libusb_get_device_descriptor] answers for it: the return code and
    the descriptor stored. *)
Record libusb_device : Type := {
  usb_dev : Z;
  descriptor_rc : Z;
  desc : libusb_device_descriptor
}.

Definition LIBUSB_HOTPLUG_EVENT_DEVICE_ARRIVED : Z := 0x01.
Definition LIBUSB_HOTPLUG_EVENT_DEVICE_LEFT : Z := 0x02.

(** The calls of the discovery routines and of [rshim_usb_init] to the
    routines of this file that do the work, and to libusb; each is
    answered with its return code. *)
Inductive discovery_call : Type :=
| RshimUsbProbeOne (usb_dev : Z) (desc : libusb_device_descriptor)
| RshimUsbAddPoll
| RshimUsbDisconnect (usb_dev : Z)
| LibusbHandleEventsTimeoutCompleted
| LibusbInit
| LibusbSetDebug
| LibusbHotplugRegisterCallback (events flags vendor_id product_id
                                 dev_class : Z)
| LibusbExit.

(** The [for (j = 0; j < num; j++)] loop over [rshim_usb_product_ids]. *)
Fixpoint rshim_usb_probe_products (d : libusb_device) (ids : list Z)
  : prog discovery_call Z unit :=
  match ids with
  | [] => Ret tt
  | id :: ids' =>
      _ <- (if idProduct (desc d) =? id
            then _ <- call (RshimUsbProbeOne (usb_dev d) (desc d)) ;; Ret tt
            else Ret tt) ;;
      rshim_usb_probe_products d ids'
  end.

(** The [while ((dev = devs[i++]) != NULL)] loop. *)
Fixpoint rshim_usb_probe_devices (devs : list libusb_device)
  : prog discovery_call Z unit :=
  match devs with
  | [] => Ret tt
  | d :: devs' =>
      _ <- (if nonzero (descriptor_rc d) then Ret tt
            else if negb (idVendor (desc d) =? USB_TILERA_VENDOR_ID)
                 then Ret tt
                 else rshim_usb_probe_products d rshim_usb_product_ids) ;;
      rshim_usb_probe_devices devs'
  end.

(** [rc] and [devs] are what [libusb_get_device_list] answered: its return
    code and the devices before the terminating NULL. *)
Definition rshim_usb_probe (rc : Z) (devs : list libusb_device)
  : prog discovery_call Z bool :=
  if rc <? 0 then Ret false else
  _ <- rshim_usb_probe_devices devs ;;
  rc <- call RshimUsbAddPoll ;;
  if nonzero rc then Ret false else
  Ret true.

(** The file's static variables: whether [rshim_usb_ctx] is set, and
    [rshim_usb_need_probe]. *)
Record usb_globals : Type := {
  rshim_usb_ctx : bool;
  rshim_usb_need_probe : bool
}.

Definition set_need_probe (g : usb_globals) (v : bool) : usb_globals :=
  {| rshim_usb_ctx := rshim_usb_ctx g; rshim_usb_need_probe := v |}.

Definition rshim_hotplug_callback (g : usb_globals) (dev event : Z)
  : prog discovery_call Z (Z * usb_globals) :=
  g <- (if event =? LIBUSB_HOTPLUG_EVENT_DEVICE_ARRIVED then
          Ret (set_need_probe g true)
        else if event =? LIBUSB_HOTPLUG_EVENT_DEVICE_LEFT then
          _ <- call (RshimUsbDisconnect dev) ;; Ret g
        else Ret g) ;;
  _ <- call RshimUsbAddPoll ;;
  (* keep filter registered *)
  Ret (0, g).

(** Hotplug events delivered one after the other, as (device, event)
    pairs; the return codes are collected. *)
Fixpoint hotplug_callbacks (g : usb_globals) (evs : list (Z * Z))
  : prog discovery_call Z (list Z * usb_globals) :=
  match evs with
  | [] => Ret ([], g)
  | (dev, event) :: evs' =>
      '(ret, g) <- rshim_hotplug_callback g dev event ;;
      '(rets, g) <- hotplug_callbacks g evs' ;;
      Ret (ret :: rets, g)
  end.

(** [rc] and [devs] are what [libusb_get_device_list] would answer to the
    probe.  libusb runs the registered [rshim_hotplug_callback] from
    inside [libusb_handle_events_timeout_completed]: [delivered] are the
    events it hands to the callback during this call, in order, and the
    callback works on the same static variables.  The calls the callback
    makes are recorded after the call they run in. *)
Definition rshim_usb_poll (g : usb_globals) (rc : Z)
  (devs : list libusb_device) (delivered : list (Z * Z))
  : prog discovery_call Z usb_globals :=
  if negb (rshim_usb_ctx g) then Ret g else
  g <- (if rshim_usb_need_probe g then
          let g := set_need_probe g false in
          _ <- rshim_usb_probe rc devs ;;
          Ret g
        else Ret g) ;;
  _ <- call LibusbHandleEventsTimeoutCompleted ;;
  '(_, g) <- hotplug_callbacks g delivered ;;
  Ret g.

(** Whether a device arrives among the events. *)
Definition arrival (evs : list (Z * Z)) : bool :=
  existsb (fun ev => snd ev =? LIBUSB_HOTPLUG_EVENT_DEVICE_ARRIVED) evs.

(** The devices [rshim_usb_probe] hands to [rshim_usb_probe_one]. *)
Definition is_bluefield (d : libusb_device) : bool :=
  (descriptor_rc d =? 0)
  && (idVendor (desc d) =? USB_TILERA_VENDOR_ID)
  && existsb (Z.eqb (idProduct (desc d))) rshim_usb_product_ids.

(** The calls of one hotplug callback. *)
Definition hotplug_calls (ev : Z * Z) : list discovery_call :=
  (if snd ev =? LIBUSB_HOTPLUG_EVENT_DEVICE_LEFT
   then [RshimUsbDisconnect (fst ev)] else [])
  ++ [RshimUsbAddPoll].

Definition bluefield1_desc : libusb_device_descriptor :=
  {| idVendor := 0x22dc; idProduct := 0x0004; bcdDevice := 0 |}.

Definition bluefield2_desc : libusb_device_descriptor :=
  {| idVendor := 0x22dc; idProduct := 0x0214; bcdDevice := 0 |}.

(** A BlueField-2, a foreign device with BlueField-1's product id, a
    BlueField-1 whose descriptor cannot be read, and a BlueField-1. *)
Definition sample_devices : list libusb_device :=
  [{| usb_dev := 1; descriptor_rc := 0; desc := bluefield2_desc |};
   {| usb_dev := 2; descriptor_rc := 0;
      desc := {| idVendor := 0x1d6b; idProduct := 0x0004;
                 bcdDevice := 0 |} |};
   {| usb_dev := 3; descriptor_rc := -1; desc := bluefield1_desc |};
   {| usb_dev := 4; descriptor_rc := 0; desc := bluefield1_desc |}].

Definition just_started : usb_globals :=
  {| rshim_usb_ctx := true; rshim_usb_need_probe := false |}.

(** * rshim_usb.c: the interfaces of a device *)

(** These make the endpoint test code in [rshim_usb_probe_one] a lot
    cleaner. *)
Definition USB_ENDPOINT_XFERTYPE_MASK : Z := 0x03.
Definition USB_ENDPOINT_DIR_MASK : Z := 0x80.

(** The descriptors of [libusb.h], the members the probe reads; the
    members are [uint8_t] except [num_altsetting], an [int].  The
    [endpoint] array of an interface descriptor is [iface_endpoint]. *)
Record libusb_endpoint_descriptor : Type := {
  bEndpointAddress : Z;
  bmAttributes : Z
}.

Record libusb_interface_descriptor : Type := {
  bInterfaceSubClass : Z;
  bNumEndpoints : Z;
  iface_endpoint : list libusb_endpoint_descriptor
}.

Record libusb_interface : Type := {
  altsetting : list libusb_interface_descriptor;
  num_altsetting : Z
}.

Record libusb_config_descriptor : Type := {
  bNumInterfaces : Z;
  interface : list libusb_interface
}.

Definition is_in_ep (ep : libusb_endpoint_descriptor) : bool :=
  Z.land (bEndpointAddress ep) USB_ENDPOINT_DIR_MASK =? LIBUSB_ENDPOINT_IN.

Definition is_bulk_ep (ep : libusb_endpoint_descriptor) : bool :=
  Z.land (bmAttributes ep) USB_ENDPOINT_XFERTYPE_MASK
  =? LIBUSB_TRANSFER_TYPE_BULK.

Definition is_int_ep (ep : libusb_endpoint_descriptor) : bool :=
  Z.land (bmAttributes ep) USB_ENDPOINT_XFERTYPE_MASK
  =? LIBUSB_TRANSFER_TYPE_INTERRUPT.

Definition ep_addr (ep : libusb_endpoint_descriptor) : Z :=
  bEndpointAddress ep.

(** Array elements; the index is within the array wherever the code
    reads it on descriptors as libusb builds them, each array as long as
    the count beside it says. *)
Definition no_endpoint : libusb_endpoint_descriptor :=
  {| bEndpointAddress := 0; bmAttributes := 0 |}.

Definition no_interface_descriptor : libusb_interface_descriptor :=
  {| bInterfaceSubClass := 0; bNumEndpoints := 0; iface_endpoint := [] |}.

Definition no_interface : libusb_interface :=
  {| altsetting := []; num_altsetting := 0 |}.

Definition endpoint_at (d : libusb_interface_descriptor) (i : Z)
  : libusb_endpoint_descriptor :=
  nth (Z.to_nat i) (iface_endpoint d) no_endpoint.

Definition altsetting_at (intf : libusb_interface) (i : Z)
  : libusb_interface_descriptor :=
  nth (Z.to_nat i) (altsetting intf) no_interface_descriptor.

Definition interface_at (config : libusb_config_descriptor) (i : Z)
  : libusb_interface :=
  nth (Z.to_nat i) (interface config) no_interface.

Definition set_has_tm (b : rshim_backend) (v : bool) : rshim_backend :=
  {| has_rshim := has_rshim b; has_tm := v; drop_mode := drop_mode b;
     spin_flags := spin_flags b;
     read_buf_bytes := read_buf_bytes b; read_buf_next := read_buf_next b |}.

Definition set_boot_fifo_ep (dev : rshim_usb_t) (v : Z) : rshim_usb_t :=
  {| bd := bd dev; ctrl_data := ctrl_data dev; intr_buf := intr_buf dev;
     read_or_intr_urb := read_or_intr_urb dev;
     read_or_intr_retries := read_or_intr_retries dev;
     read_urb_is_intr := read_urb_is_intr dev;
     write_urb := write_urb dev; write_retries := write_retries dev;
     boot_fifo_ep := v; tm_fifo_int_ep := tm_fifo_int_ep dev;
     tm_fifo_in_ep := tm_fifo_in_ep dev; tm_fifo_out_ep := tm_fifo_out_ep dev |}.

Definition set_tm_fifo_int_ep (dev : rshim_usb_t) (v : Z) : rshim_usb_t :=
  {| bd := bd dev; ctrl_data := ctrl_data dev; intr_buf := intr_buf dev;
     read_or_intr_urb := read_or_intr_urb dev;
     read_or_intr_retries := read_or_intr_retries dev;
     read_urb_is_intr := read_urb_is_intr dev;
     write_urb := write_urb dev; write_retries := write_retries dev;
     boot_fifo_ep := boot_fifo_ep dev; tm_fifo_int_ep := v;
     tm_fifo_in_ep := tm_fifo_in_ep dev; tm_fifo_out_ep := tm_fifo_out_ep dev |}.

Definition set_tm_fifo_in_ep (dev : rshim_usb_t) (v : Z) : rshim_usb_t :=
  {| bd := bd dev; ctrl_data := ctrl_data dev; intr_buf := intr_buf dev;
     read_or_intr_urb := read_or_intr_urb dev;
     read_or_intr_retries := read_or_intr_retries dev;
     read_urb_is_intr := read_urb_is_intr dev;
     write_urb := write_urb dev; write_retries := write_retries dev;
     boot_fifo_ep := boot_fifo_ep dev; tm_fifo_int_ep := tm_fifo_int_ep dev;
     tm_fifo_in_ep := v; tm_fifo_out_ep := tm_fifo_out_ep dev |}.

Definition set_tm_fifo_out_ep (dev : rshim_usb_t) (v : Z) : rshim_usb_t :=
  {| bd := bd dev; ctrl_data := ctrl_data dev; intr_buf := intr_buf dev;
     read_or_intr_urb := read_or_intr_urb dev;
     read_or_intr_retries := read_or_intr_retries dev;
     read_urb_is_intr := read_urb_is_intr dev;
     write_urb := write_urb dev; write_retries := write_retries dev;
     boot_fifo_ep := boot_fifo_ep dev; tm_fifo_int_ep := tm_fifo_int_ep dev;
     tm_fifo_in_ep := tm_fifo_in_ep dev; tm_fifo_out_ep := v |}.

(** The body of the loop over the endpoints of the tmfifo interface. *)
Definition tm_endpoint (dev : rshim_usb_t) (ep : libusb_endpoint_descriptor)
  : rshim_usb_t :=
  if is_in_ep ep then
    if is_bulk_ep ep then
      (* Bulk in endpoint. *)
      set_tm_fifo_in_ep dev (ep_addr ep)
    else if is_int_ep ep then
      (* Interrupt in endpoint. *)
      set_tm_fifo_int_ep dev (ep_addr ep)
    else dev
  else
    if is_bulk_ep ep then
      (* Bulk out endpoint. *)
      set_tm_fifo_out_ep dev (ep_addr ep)
    else dev.

(** [for (i = 0; i < iface_desc->bNumEndpoints; i++)], from the current
    value of [i]; [n] bounds the iterations left.  The result carries the
    value the loop leaves in [i]. *)
Fixpoint tm_endpoints_loop (n : nat) (iface_desc : libusb_interface_descriptor)
  (i : Z) (dev : rshim_usb_t) : Z * rshim_usb_t :=
  match n with
  | O => (i, dev)
  | S n' =>
      if i <? bNumEndpoints iface_desc then
        let ep := endpoint_at iface_desc i in
        tm_endpoints_loop n' iface_desc (i + 1) (tm_endpoint dev ep)
      else (i, dev)
  end.

(** What one pass of the loop over the interfaces does: go on to the next
    iteration, with the value it leaves in [i], or [goto error]. *)
Inductive scan_step : Type :=
| ScanNext (i : Z) (dev : rshim_usb_t)
| ScanError (dev : rshim_usb_t).

(** The body of [for (i = 0; i < config->bNumInterfaces; i++)].  The loop
    over the endpoints of the tmfifo interface counts in the same [i]. *)
Definition probe_interface (config : libusb_config_descriptor) (i : Z)
  (dev : rshim_usb_t) : scan_step :=
  let intf := interface_at config i in
  if num_altsetting intf <=? 0 then ScanNext i dev else
  let iface_desc := altsetting_at intf 0 in
  if bInterfaceSubClass iface_desc =? 0 then
    (* We only expect one endpoint here, just make sure its attributes
       match. *)
    if negb (bNumEndpoints iface_desc =? 1) then ScanError dev else
    let ep := endpoint_at iface_desc 0 in
    (* We expect a bulk out endpoint. *)
    if negb (is_bulk_ep ep) || is_in_ep ep then ScanError dev else
    let dev := set_bd dev (set_has_rshim (bd dev) true) in
    let dev := set_boot_fifo_ep dev (ep_addr ep) in
    ScanNext i dev
  else if bInterfaceSubClass iface_desc =? 1 then
    (* We expect 3 endpoints here. *)
    if negb (bNumEndpoints iface_desc =? 3) then ScanError dev else
    let dev := set_tm_fifo_in_ep dev 0 in
    let dev := set_tm_fifo_int_ep dev 0 in
    let dev := set_tm_fifo_out_ep dev 0 in
    let '(i, dev) :=
      tm_endpoints_loop (Z.to_nat (bNumEndpoints iface_desc)) iface_desc 0
        dev in
    if negb (nonzero (tm_fifo_in_ep dev)) || negb (nonzero (tm_fifo_int_ep dev))
       || negb (nonzero (tm_fifo_out_ep dev))
    then ScanError dev else
    let dev := set_bd dev (set_has_tm (bd dev) true) in
    ScanNext i dev
  else ScanError dev.

(** The loop over the interfaces, from the current value of [i]: [Some
    (true, dev)] when it ends, [Some (false, dev)] on [goto error], [None]
    when it is still going after [fuel] passes. *)
Fixpoint probe_interfaces (fuel : nat) (config : libusb_config_descriptor)
  (i : Z) (dev : rshim_usb_t) : option (bool * rshim_usb_t) :=
  match fuel with
  | O => None
  | S fuel' =>
      if i <? bNumInterfaces config then
        match probe_interface config i dev with
        | ScanNext i dev => probe_interfaces fuel' config (i + 1) dev
        | ScanError dev => Some (false, dev)
        end
      else Some (true, dev)
  end.

(** ** Reading the scan *)

(** The address of the last endpoint of a kind, 0 when there is none. *)
Definition last_ep_addr (kind : libusb_endpoint_descriptor -> bool)
  (eps : list libusb_endpoint_descriptor) : Z :=
  last (map ep_addr (filter kind eps)) 0.

Definition is_bulk_in_ep (ep : libusb_endpoint_descriptor) : bool :=
  is_in_ep ep && is_bulk_ep ep.

Definition is_int_in_ep (ep : libusb_endpoint_descriptor) : bool :=
  is_in_ep ep && negb (is_bulk_ep ep) && is_int_ep ep.

Definition is_bulk_out_ep (ep : libusb_endpoint_descriptor) : bool :=
  negb (is_in_ep ep) && is_bulk_ep ep.

(** An interface the scan takes for the tmfifo interface and accepts. *)
Definition is_tmfifo_interface (intf : libusb_interface) : bool :=
  let d := altsetting_at intf 0 in
  (0 <? num_altsetting intf) && (bInterfaceSubClass d =? 1)
  && (bNumEndpoints d =? 3) && (length (iface_endpoint d) =? 3)%nat
  && nonzero (last_ep_addr is_bulk_in_ep (iface_endpoint d))
  && nonzero (last_ep_addr is_int_in_ep (iface_endpoint d))
  && nonzero (last_ep_addr is_bulk_out_ep (iface_endpoint d)).

(** The interfaces of a BlueField: the boot interface with its bulk-out
    endpoint, and the tmfifo interface with its three endpoints. *)
Definition rshim_interface : libusb_interface :=
  {| altsetting :=
       [{| bInterfaceSubClass := 0; bNumEndpoints := 1;
           iface_endpoint :=
             [{| bEndpointAddress := 0x01; bmAttributes := 0x02 |}] |}];
     num_altsetting := 1 |}.

Definition tmfifo_interface : libusb_interface :=
  {| altsetting :=
       [{| bInterfaceSubClass := 1; bNumEndpoints := 3;
           iface_endpoint :=
             [{| bEndpointAddress := 0x02; bmAttributes := 0x02 |};
              {| bEndpointAddress := 0x83; bmAttributes := 0x03 |};
              {| bEndpointAddress := 0x82; bmAttributes := 0x02 |}] |}];
     num_altsetting := 1 |}.

Definition unprobed_usb : rshim_usb_t :=
  {| bd := {| has_rshim := false; has_tm := false; drop_mode := false;
              spin_flags := 0; read_buf_bytes := 0; read_buf_next := 0 |};
     ctrl_data := 0; intr_buf := 0;
     read_or_intr_urb := sample_urb ReadOrIntrUrb 0 0;
     read_or_intr_retries := 0; read_urb_is_intr := 0;
     write_urb := sample_urb WriteUrb 0 0; write_retries := 0;
     boot_fifo_ep := 0; tm_fifo_int_ep := 0;
     tm_fifo_in_ep := 0; tm_fifo_out_ep := 0 |}.

(** A BlueField as it enumerates, the same with the two interfaces
    swapped, and a configuration of five interfaces with the tmfifo
    interface last. *)
Definition bluefield_config : libusb_config_descriptor :=
  {| bNumInterfaces := 2; interface := [rshim_interface; tmfifo_interface] |}.

Definition swapped_config : libusb_config_descriptor :=
  {| bNumInterfaces := 2; interface := [tmfifo_interface; rshim_interface] |}.

Definition five_interface_config : libusb_config_descriptor :=
  {| bNumInterfaces := 5;
     interface := [rshim_interface; no_interface; no_interface;
                   no_interface; tmfifo_interface] |}.

(** * Probing and tearing down a device *)

Definition ENOMEM : Z := 12.
Definition EACCES : Z := 13.

(** The calls of the probe and teardown routines to the rshim core, to
    libusb, to libpci and to libc.  A call is answered with its return
    code, or with the pointer it returns (0 for NULL), or with the member
    read; the answer of a [void] routine is not looked at.  The members of
    the backend structure that the rshim core may change under the probe
    are read through the environment as well. *)
Inductive os_call : Type :=
| RshimLock
| RshimUnlock
| RshimFindByName
| RshimFindByDev (usb_dev : Z)
| RshimAllowDevice
| RshimRef
| RshimDeref
| RshimRegister
| RshimDeregister
| RshimFifoAlloc
| RshimNotifyEvent (event : rsh_event) (code : Z)
| BdRegistered
| BdReadBuf
| BdWriteBuf
| PthreadMutexInit
| PthreadMutexLock
| PthreadMutexUnlock
| Malloc
| Calloc
| Free (ptr : Z)
| Exit (status : Z)
| PciAlloc
| PciInit
| PciScanBus
| PciFillInfo (pci_dev flags : Z)
| RshimPcieProbe (pci_dev : Z)
| LibusbGetBusNumber
| LibusbGetPortNumbers
| LibusbGetActiveConfigDescriptor
| LibusbOpen
| LibusbClaimInterface (interface_number : Z)
| LibusbKernelDriverActive (interface_number : Z)
| LibusbClose (handle : Z)
| LibusbAllocTransfer
| LibusbFreeTransfer (urb : Z)
| LibusbCancelTransfer (urb : Z).

(** ** rshim_pcie_lf.c: probe routine *)

(** Our Vendor/Device IDs. *)
Definition TILERA_VENDOR_ID : Z := 0x15b3.
Definition BLUEFIELD_DEVICE_ID : Z := 0x0211.

(** [ret] is the function's return value.  The backend found by name, or
    the one just allocated, is not part of the model beyond the members
    read back through the environment. *)
Definition rshim_pcie_probe : prog os_call Z Z :=
  let allocfail := 0 in
  pcie_dev_name <- call Malloc ;;
  _ <- call RshimLock ;;
  bd <- call RshimFindByName ;;
  created <-
    (if nonzero bd then Ret true else
     dev <- call Calloc ;;
     if dev =? 0 then Ret false else
     _ <- call PthreadMutexInit ;;
     Ret true) ;;
  if negb created then
    let ret := - ENOMEM in
    _ <- call RshimUnlock ;;
    _ <- call (Free pcie_dev_name) ;;
    Ret ret
  else
  ret <- call RshimFifoAlloc ;;
  if nonzero ret then
    _ <- call RshimUnlock ;;
    let ret := - ENOMEM in
    _ <- call (Free pcie_dev_name) ;;
    Ret ret
  else
  rc <- call RshimFifoAlloc ;;
  let allocfail := Z.lor allocfail rc in
  read_buf <- call BdReadBuf ;;
  read_buf <- (if negb (nonzero read_buf) then call Calloc
               else Ret read_buf) ;;
  let allocfail := Z.lor allocfail (if read_buf =? 0 then 1 else 0) in
  write_buf <- call BdWriteBuf ;;
  write_buf <- (if negb (nonzero write_buf) then call Calloc
                else Ret write_buf) ;;
  let allocfail := Z.lor allocfail (if write_buf =? 0 then 1 else 0) in
  if nonzero allocfail then
    _ <- call RshimUnlock ;;
    let ret := - ENOMEM in
    _ <- call (Free pcie_dev_name) ;;
    Ret ret
  else
  _ <- call RshimUnlock ;;
  _ <- call RshimLock ;;
  registered <- call BdRegistered ;;
  '(failed, ret, pcie_dev_name) <-
    (if negb (nonzero registered) then
       ret <- call RshimRegister ;;
       if nonzero ret then
         _ <- call RshimUnlock ;;
         Ret (true, ret, pcie_dev_name)
       else Ret (false, ret, 0)
     else Ret (false, ret, pcie_dev_name)) ;;
  if failed : bool then
    _ <- call (Free pcie_dev_name) ;;
    Ret ret
  else
  _ <- call RshimUnlock ;;
  (* Notify that the device is attached *)
  _ <- call PthreadMutexLock ;;
  ret <- call (RshimNotifyEvent RSH_EVENT_ATTACH 0) ;;
  _ <- call PthreadMutexUnlock ;;
  if nonzero ret then
    _ <- call (Free pcie_dev_name) ;;
    Ret ret
  else Ret 0.

(** ** The two locks

    [lock_discipline g m l]: along the calls [l], starting with the rshim
    lock held or not according to [g] and the backend mutex according to
    [m], the rshim lock and the backend mutex are each taken only when
    free and released only when held, the registry of backends is
    searched and changed only under the rshim lock, a notification is
    sent only under the backend mutex, and both are free at the end. *)
Fixpoint lock_discipline (g m : bool) (l : list os_call) : bool :=
  match l with
  | [] => negb g && negb m
  | RshimLock :: l' => negb g && lock_discipline true m l'
  | RshimUnlock :: l' => g && lock_discipline false m l'
  | PthreadMutexLock :: l' => negb m && lock_discipline g true l'
  | PthreadMutexUnlock :: l' => m && lock_discipline g false l'
  | (RshimFindByName | RshimFindByDev _ | RshimRegister | RshimRef
     | RshimDeref) :: l' => g && lock_discipline g m l'
  | RshimNotifyEvent _ _ :: l' => m && lock_discipline g m l'
  | _ :: l' => lock_discipline g m l'
  end.

(** An environment in which every call answers [v], except the calls of
    [failing], which answer [bad]. *)
Definition os_env (v bad : Z) (failing : os_call -> bool)
  : trace os_call Z -> os_call -> Z :=
  fun _ e => if failing e then bad else v.

Definition is_rshim_register (e : os_call) : bool :=
  match e with
  | RshimRegister => true
  | _ => false
  end.

(** ** rshim_pcie_lf.c: initialisation *)

(** [pci/pci.h] *)
Definition PCI_FILL_IDENT : Z := 0x0001.
Definition PCI_FILL_BASES : Z := 0x0004.
Definition PCI_FILL_CLASS : Z := 0x0020.

(** An entry of the list [pci->devices] after [pci_scan_bus], with the
    identifiers [pci_fill_info] stores for it. *)
Record pci_dev : Type := {
  pci_dev_ptr : Z;
  vendor_id : Z;
  device_id : Z
}.

(** Iterate over the devices *)
Fixpoint rshim_pcie_lf_init_devices (devices : list pci_dev)
  : prog os_call Z unit :=
  match devices with
  | [] => Ret tt
  | dev :: next =>
      _ <- call (PciFillInfo (pci_dev_ptr dev)
                   (Z.lor (Z.lor PCI_FILL_IDENT PCI_FILL_BASES)
                      PCI_FILL_CLASS)) ;;
      _ <- (if negb (vendor_id dev =? TILERA_VENDOR_ID)
               || negb (device_id dev =? BLUEFIELD_DEVICE_ID)
            then Ret tt
            else _ <- call (RshimPcieProbe (pci_dev_ptr dev)) ;; Ret tt) ;;
      rshim_pcie_lf_init_devices next
  end.

Definition rshim_pcie_lf_init (devices : list pci_dev) : prog os_call Z Z :=
  pci <- call PciAlloc ;;
  if pci =? 0 then Ret (- ENOMEM) else
  _ <- call PciInit ;;
  _ <- call PciScanBus ;;
  _ <- rshim_pcie_lf_init_devices devices ;;
  Ret 0.

(** The calls of one pass of the loop. *)
Definition lf_init_calls (dev : pci_dev) : list os_call :=
  PciFillInfo (pci_dev_ptr dev) 0x25
  :: (if (vendor_id dev =? TILERA_VENDOR_ID)
         && (device_id dev =? BLUEFIELD_DEVICE_ID)
      then [RshimPcieProbe (pci_dev_ptr dev)] else []).

Definition sample_pci_devices : list pci_dev :=
  [{| pci_dev_ptr := 1; vendor_id := 0x8086; device_id := 0x0211 |};
   {| pci_dev_ptr := 2; vendor_id := 0x15b3; device_id := 0x0211 |};
   {| pci_dev_ptr := 3; vendor_id := 0x15b3; device_id := 0xa2d2 |}].

Definition is_rshim_pcie_probe (e : os_call) : bool :=
  match e with
  | RshimPcieProbe _ => true
  | _ => false
  end.

(** ** rshim_usb.c: disconnect and delete *)

(** The pointers of [rshim_usb_t], 0 for NULL, beside the members the
    stream engine works with. *)
Record rshim_usb_obj : Type := {
  usb : rshim_usb_t;
  handle : Z;
  intr_buf_ptr : Z;
  read_or_intr_urb_ptr : Z;
  write_urb_ptr : Z
}.

(** [dev] is the device the registry holds for [usb_dev]; the answer of
    [rshim_find_by_dev] tells whether there is one.  The backend member
    [has_cons_work], which the routine clears as well, is not part of the
    model. *)
Definition rshim_usb_disconnect (usb_dev : Z) (dev : rshim_usb_obj)
  : prog os_call Z rshim_usb_obj :=
  _ <- call RshimLock ;;
  found <- call (RshimFindByDev usb_dev) ;;
  if negb (nonzero found) then
    _ <- call RshimUnlock ;;
    Ret dev
  else
  _ <- call (RshimNotifyEvent RSH_EVENT_DETACH 0) ;;
  _ <- call PthreadMutexLock ;;
  let u := set_bd (usb dev) (set_has_rshim (bd (usb dev)) false) in
  _ <- call (LibusbCancelTransfer (read_or_intr_urb_ptr dev)) ;;
  _ <- call (LibusbCancelTransfer (write_urb_ptr dev)) ;;
  _ <- call (Free (intr_buf_ptr dev)) ;;
  _ <- call PthreadMutexUnlock ;;
  h <- (if nonzero (handle dev) then
          _ <- call (LibusbClose (handle dev)) ;; Ret 0
        else Ret (handle dev)) ;;
  _ <- call RshimDeref ;;
  _ <- call RshimUnlock ;;
  Ret {| usb := u; handle := h; intr_buf_ptr := 0;
         read_or_intr_urb_ptr := 0; write_urb_ptr := 0 |}.

(** [free (dev)] ends the life of the structure; nothing is returned. *)
Definition rshim_usb_delete (dev_ptr : Z) (dev : rshim_usb_obj)
  : prog os_call Z unit :=
  _ <- call RshimDeregister ;;
  _ <- (if nonzero (handle dev) then
          _ <- call (LibusbClose (handle dev)) ;; Ret tt
        else Ret tt) ;;
  _ <- call (Free dev_ptr) ;;
  Ret tt.

(** The [libusb_close] calls of a trace. *)
Definition closes (l : trace os_call Z) : list Z :=
  flat_map (fun c => match fst c with
                     | LibusbClose h => [h]
                     | _ => []
                     end) l.

Definition connected_usb : rshim_usb_obj :=
  {| usb := sample_usb 0; handle := 0x5000; intr_buf_ptr := 0x6000;
     read_or_intr_urb_ptr := 0x7000; write_urb_ptr := 0x8000 |}.

(** ** rshim_usb.c: probing one device *)

Definition set_usb (dev : rshim_usb_obj) (u : rshim_usb_t) : rshim_usb_obj :=
  {| usb := u; handle := handle dev; intr_buf_ptr := intr_buf_ptr dev;
     read_or_intr_urb_ptr := read_or_intr_urb_ptr dev;
     write_urb_ptr := write_urb_ptr dev |}.

(** The device structure as [calloc] gives it. *)
Definition zeroed_usb_obj : rshim_usb_obj :=
  {| usb := unprobed_usb; handle := 0; intr_buf_ptr := 0;
     read_or_intr_urb_ptr := 0; write_urb_ptr := 0 |}.

(** [for (i = 0; i < config->bNumInterfaces; i++)] around
    [libusb_claim_interface], from the current [i] with [n] passes left;
    [rc] is the value the variable holds.  The result tells whether the
    function returned from inside the loop, and the value of [rc].
    [exit] does not return. *)
Fixpoint claim_interfaces (n : nat) (handle i rc : Z)
  : prog os_call Z (bool * Z) :=
  match n with
  | O => Ret (false, rc)
  | S n' =>
      rc <- call (LibusbClaimInterface i) ;;
      if rc <? 0 then
        active <- call (LibusbKernelDriverActive i) ;;
        if active =? 1 then
          _ <- call (Exit rc) ;;
          Spin
        else
          _ <- call (LibusbClose handle) ;;
          Ret (true, rc)
      else claim_interfaces n' handle (i + 1) rc
  end.

(** The code after the label [error], for a device structure in hand. *)
Definition probe_one_error (dev : rshim_usb_obj) (rc : Z)
  : prog os_call Z (Z * option rshim_usb_obj) :=
  _ <- call (LibusbFreeTransfer (read_or_intr_urb_ptr dev)) ;;
  _ <- call (LibusbFreeTransfer (write_urb_ptr dev)) ;;
  _ <- call (Free (intr_buf_ptr dev)) ;;
  _ <- call RshimDeref ;;
  _ <- call RshimUnlock ;;
  Ret (rc, Some {| usb := usb dev; handle := handle dev; intr_buf_ptr := 0;
                   read_or_intr_urb_ptr := 0; write_urb_ptr := 0 |}).

(** [config] is the descriptor [libusb_get_active_config_descriptor]
    stores, [new_handle] the handle [libusb_open] stores, [existing] the
    device structure [rshim_find_by_name] answers when it answers one;
    the branch taken of the conditional compilation is the one with
    [libusb_get_port_numbers].  The device name, and the members
    [ver_id] and [rev_id] of the backend, are not part of the model.
    The result is the return value and the device structure the function
    worked on, when it had one.  The scan of the interfaces carries the
    [fuel] of [probe_interfaces]. *)
Definition rshim_usb_probe_one (fuel : nat) (usb_dev : Z)
  (config : libusb_config_descriptor) (new_handle : Z)
  (existing : rshim_usb_obj)
  : prog os_call Z (Z * option rshim_usb_obj) :=
  (* Check if already exists. *)
  _ <- call RshimLock ;;
  found <- call (RshimFindByDev usb_dev) ;;
  _ <- call RshimUnlock ;;
  if nonzero found then Ret (0, None) else
  (* Check bus number and the port path of the rshim device path. *)
  _ <- call LibusbGetBusNumber ;;
  rc <- call LibusbGetPortNumbers ;;
  if rc <=? 0 then Ret (- ENODEV, None) else
  allowed <- call RshimAllowDevice ;;
  if negb (nonzero allowed) then Ret (- EACCES, None) else
  rc <- call LibusbGetActiveConfigDescriptor ;;
  if nonzero rc then Ret (- ENODEV, None) else
  rc <- call LibusbOpen ;;
  if nonzero rc then Ret (rc, None) else
  '(returned, rc) <- claim_interfaces (Z.to_nat (bNumInterfaces config))
                       new_handle 0 rc ;;
  if returned : bool then Ret (rc, None) else
  _ <- call RshimLock ;;
  (* Find the backend. *)
  found <- call RshimFindByName ;;
  dev <- (if nonzero found then Ret (Some existing) else
          p <- call Calloc ;;
          if p =? 0 then Ret None else
          _ <- call PthreadMutexInit ;;
          Ret (Some zeroed_usb_obj)) ;;
  match dev with
  | None =>
      (* goto error, with dev == NULL *)
      _ <- call RshimUnlock ;;
      Ret (rc, None)
  | Some dev =>
      _ <- call RshimRef ;;
      let dev :=
        {| usb := usb dev; handle := new_handle;
           intr_buf_ptr := intr_buf_ptr dev;
           read_or_intr_urb_ptr := read_or_intr_urb_ptr dev;
           write_urb_ptr := write_urb_ptr dev |} in
      dev <- (if negb (nonzero (intr_buf_ptr dev)) then
                p <- call Calloc ;;
                Ret {| usb := if nonzero p then set_intr_buf (usb dev) 0
                              else usb dev;
                       handle := handle dev; intr_buf_ptr := p;
                       read_or_intr_urb_ptr := read_or_intr_urb_ptr dev;
                       write_urb_ptr := write_urb_ptr dev |}
              else Ret dev) ;;
      dev <- (if negb (nonzero (read_or_intr_urb_ptr dev)) then
                p <- call LibusbAllocTransfer ;;
                Ret {| usb := usb dev; handle := handle dev;
                       intr_buf_ptr := intr_buf_ptr dev;
                       read_or_intr_urb_ptr := p;
                       write_urb_ptr := write_urb_ptr dev |}
              else Ret dev) ;;
      dev <- (if negb (nonzero (write_urb_ptr dev)) then
                p <- call LibusbAllocTransfer ;;
                Ret {| usb := usb dev; handle := handle dev;
                       intr_buf_ptr := intr_buf_ptr dev;
                       read_or_intr_urb_ptr := read_or_intr_urb_ptr dev;
                       write_urb_ptr := p |}
              else Ret dev) ;;
      if negb (nonzero (read_or_intr_urb_ptr dev))
         || negb (nonzero (write_urb_ptr dev))
      then probe_one_error dev rc
      else
      _ <- call PthreadMutexLock ;;
      match probe_interfaces fuel config 0 (usb dev) with
      | None => Spin
      | Some (false, u) =>
          _ <- call PthreadMutexUnlock ;;
          probe_one_error (set_usb dev u) rc
      | Some (true, u) =>
          let dev := set_usb dev u in
          rc <- call RshimRegister ;;
          if nonzero rc then
            _ <- call PthreadMutexUnlock ;;
            probe_one_error dev rc
          else
          (* Notify that device is attached. *)
          rc <- call (RshimNotifyEvent RSH_EVENT_ATTACH 0) ;;
          _ <- call PthreadMutexUnlock ;;
          if nonzero rc then probe_one_error dev rc else
          _ <- call RshimUnlock ;;
          Ret (0, Some dev)
      end
  end.

(** Calls that touch neither lock and need neither. *)
Definition is_lock_neutral (e : os_call) : bool :=
  match e with
  | RshimLock | RshimUnlock | PthreadMutexLock | PthreadMutexUnlock
  | RshimFindByName | RshimFindByDev _ | RshimRegister | RshimRef
  | RshimDeref | RshimNotifyEvent _ _ => false
  | _ => true
  end.

(** A configuration whose boot interface lists two endpoints. *)
Definition malformed_config : libusb_config_descriptor :=
  {| bNumInterfaces := 1;
     interface :=
       [{| altsetting :=
             [{| bInterfaceSubClass := 0; bNumEndpoints := 2;
                 iface_endpoint :=
                   [{| bEndpointAddress := 0x01; bmAttributes := 0x02 |};
                    {| bEndpointAddress := 0x81; bmAttributes := 0x02 |}] |}];
           num_altsetting := 1 |}] |}.

(** An operating system in which everything succeeds and nothing is
    known yet: the lookups find nothing, the libusb calls and the
    registration return 0, the port path has one entry, the device is
    allowed and the allocations give memory; and the same with no memory
    for the interrupt buffer, the second [calloc]. *)
Definition fresh_env : trace os_call Z -> os_call -> Z :=
  fun _ e =>
    match e with
    | RshimFindByDev _ | RshimFindByName | LibusbGetActiveConfigDescriptor
    | LibusbOpen | LibusbClaimInterface _ | RshimRegister
    | RshimNotifyEvent _ _ => 0
    | _ => 1
    end.

Definition no_intr_buf_env : trace os_call Z -> os_call -> Z :=
  fun hist e =>
    match e with
    | Calloc => if existsb (fun c => match fst c with
                                     | Calloc => true
                                     | _ => false
                                     end) hist
                then 0 else 1
    | _ => fresh_env hist e
    end.

(** The claims of interfaces [i], [i + 1], ... all answered with 0. *)
Fixpoint claims_accepted (n : nat) (i : Z) : trace os_call Z :=
  match n with
  | O => []
  | S n' => (LibusbClaimInterface i, 0) :: claims_accepted n' (i + 1)
  end.

(** A probe of a device not seen before in which everything succeeds
    except the allocation of the interrupt buffer. *)
Definition probe_without_intr_buf (usb_dev : Z)
  (config : libusb_config_descriptor) : trace os_call Z :=
  [(RshimLock, 0); (RshimFindByDev usb_dev, 0); (RshimUnlock, 0);
   (LibusbGetBusNumber, 1); (LibusbGetPortNumbers, 1); (RshimAllowDevice, 1);
   (LibusbGetActiveConfigDescriptor, 0); (LibusbOpen, 0)]
  ++ claims_accepted (Z.to_nat (bNumInterfaces config)) 0
  ++ [(RshimLock, 0); (RshimFindByName, 0); (Calloc, 1);
      (PthreadMutexInit, 0); (RshimRef, 0); (Calloc, 0);
      (LibusbAllocTransfer, 1); (LibusbAllocTransfer, 1);
      (PthreadMutexLock, 0); (RshimRegister, 0);
      (RshimNotifyEvent RSH_EVENT_ATTACH 0, 0); (PthreadMutexUnlock, 0);
      (RshimUnlock, 0)].

(** * rshim_usb.c: initialisation *)

Definition LIBUSB_SUCCESS : Z := 0.
Definition LIBUSB_HOTPLUG_ENUMERATE : Z := 1.
Definition LIBUSB_HOTPLUG_MATCH_ANY : Z := -1.

(** One [libusb_hotplug_register_callback] of [rshim_hotplug_callback]
    with [LIBUSB_HOTPLUG_ENUMERATE].  With that flag libusb runs the
    callback for the matching devices already attached from inside the
    registration: [enumerated] are the events it hands to the callback
    during this call, in order, and the callback works on the same static
    variables.  The calls the callback makes are recorded after the call
    they run in. *)
Definition register_hotplug_callback (g : usb_globals) (events id : Z)
  (enumerated : list (Z * Z)) : prog discovery_call Z (Z * usb_globals) :=
  rc <- call (LibusbHotplugRegisterCallback events
                LIBUSB_HOTPLUG_ENUMERATE USB_TILERA_VENDOR_ID id
                LIBUSB_HOTPLUG_MATCH_ANY) ;;
  '(_, g) <- hotplug_callbacks g enumerated ;;
  Ret (rc, g).

(** The body of the loop over [rshim_usb_product_ids], hotplug branch of
    the conditional compilation: the result is [Some rc] when the
    function returns from inside the loop.  [enumerated events id] are
    the events handed to the callback during the registration of
    [events] for the product [id]. *)
Fixpoint rshim_usb_init_register (g : usb_globals) (ids : list Z)
  (enumerated : Z -> Z -> list (Z * Z))
  : prog discovery_call Z (option Z * usb_globals) :=
  match ids with
  | [] => Ret (None, g)
  | id :: ids' =>
      '(rc, g) <- register_hotplug_callback g
                    LIBUSB_HOTPLUG_EVENT_DEVICE_ARRIVED id
                    (enumerated LIBUSB_HOTPLUG_EVENT_DEVICE_ARRIVED id) ;;
      if negb (rc =? LIBUSB_SUCCESS) then
        _ <- call LibusbExit ;;
        Ret (Some rc,
             {| rshim_usb_ctx := false;
                rshim_usb_need_probe := rshim_usb_need_probe g |})
      else
      '(rc, g) <- register_hotplug_callback g
                    LIBUSB_HOTPLUG_EVENT_DEVICE_LEFT id
                    (enumerated LIBUSB_HOTPLUG_EVENT_DEVICE_LEFT id) ;;
      if negb (rc =? LIBUSB_SUCCESS) then
        _ <- call LibusbExit ;;
        Ret (Some rc,
             {| rshim_usb_ctx := false;
                rshim_usb_need_probe := rshim_usb_need_probe g |})
      else rshim_usb_init_register g ids' enumerated
  end.

(** [log_above_err] is [rshim_log_level > LOG_ERR]; the context
    [libusb_init] stores on success is not NULL.  The static
    [rshim_usb_epoll_fd], which the function sets as well, is not part of
    the model. *)
Definition rshim_usb_init (log_above_err : bool) (g : usb_globals)
  (enumerated : Z -> Z -> list (Z * Z))
  : prog discovery_call Z (Z * usb_globals) :=
  rc <- call LibusbInit ;;
  if rc <? 0 then Ret (rc, g) else
  _ <- (if log_above_err then _ <- call LibusbSetDebug ;; Ret tt
        else Ret tt) ;;
  let g := {| rshim_usb_ctx := true;
              rshim_usb_need_probe := rshim_usb_need_probe g |} in
  '(returned, g) <- rshim_usb_init_register g rshim_usb_product_ids
                      enumerated ;;
  match returned with
  | Some rc => Ret (rc, g)
  | None => Ret (0, g)
  end.

(** The hotplug registrations of a trace, as (event, product id) pairs,
    and the number of [libusb_exit] calls. *)
Definition registrations (l : trace discovery_call Z) : list (Z * Z) :=
  flat_map (fun c => match fst c with
                     | LibusbHotplugRegisterCallback ev _ _ id _ => [(ev, id)]
                     | _ => []
                     end) l.

Definition exits (l : trace discovery_call Z) : nat :=
  length (filter (fun c => match fst c with
                           | LibusbExit => true
                           | _ => false
                           end) l).

Definition not_started : usb_globals :=
  {| rshim_usb_ctx := false; rshim_usb_need_probe := false |}.

(** The events handed to the callback during the registrations of a
    trace, and an enumeration that finds one BlueField-2 attached. *)
Definition enumerated_during (enumerated : Z -> Z -> list (Z * Z))
  (l : trace discovery_call Z) : list (Z * Z) :=
  flat_map (fun r => enumerated (fst r) (snd r)) (registrations l).

Definition one_bluefield2_attached (events id : Z) : list (Z * Z) :=
  if (events =? LIBUSB_HOTPLUG_EVENT_DEVICE_ARRIVED)
     && (id =? USB_BLUEFIELD_2_PRODUCT_ID)
  then [(1, LIBUSB_HOTPLUG_EVENT_DEVICE_ARRIVED)] else [].

(** ** The accesses of the widget routines *)

(** The gateway writes of a trace, as (address, value) pairs in order,
    and whether every gateway read in it is of one of two addresses. *)
Definition gw_writes (l : trace gw_call resp) : list (Z * Z) :=
  flat_map (fun c => match fst c with
                     | TrioCrGwWrite a v => [(a, v)]
                     | _ => []
                     end) l.

Definition reads_only (a b : Z) (l : trace gw_call resp) : bool :=
  forallb (fun c => match fst c with
                    | TrioCrGwRead a' => (a' =? a) || (a' =? b)
                    | _ => true
                    end) l.

(** * Facts *)

(** ** Integers *)

Lemma nonzero_false (rc : Z) : nonzero rc = false <-> rc = 0.
Proof. unfold nonzero. destruct (Z.eqb_spec rc 0); simpl; split; congruence. Qed.

Lemma nonzero_true (rc : Z) : nonzero rc = true <-> rc <> 0.
Proof. unfold nonzero. destruct (Z.eqb_spec rc 0); simpl; split; congruence. Qed.

Lemma u32_range (x : Z) : 0 <= u32 x < 2 ^ 32.
Proof. unfold u32. apply Z.mod_pos_bound. lia. Qed.

Lemma u64_range (x : Z) : 0 <= u64 x < 2 ^ 64.
Proof. unfold u64. apply Z.mod_pos_bound. lia. Qed.

Lemma u32_small (x : Z) : 0 <= x < 2 ^ 32 -> u32 x = x.
Proof. intros H. unfold u32. apply Z.mod_small. exact H. Qed.

Lemma u64_small (x : Z) : 0 <= x < 2 ^ 64 -> u64 x = x.
Proof. intros H. unfold u64. apply Z.mod_small. exact H. Qed.

Lemma u32_idem (x : Z) : u32 (u32 x) = u32 x.
Proof. apply u32_small, u32_range. Qed.

(** ** Programs *)

Section ProgFacts.
Context {E R : Type}.

Lemma exec_runs {A : Type} (env : trace E R -> E -> R) (p : prog E R A) :
  forall hist l a, exec env hist p = (l, Some a) -> runs p l a.
Proof.
  induction p as [a | e k IH | ]; intros hist l a' Hx; simpl in Hx.
  - inversion Hx; subst. constructor.
  - destruct (exec env (hist ++ [(e, env hist e)]) (k (env hist e)))
      as [l' o] eqn:Hk.
    inversion Hx; subst. constructor. eapply IH. exact Hk.
  - discriminate.
Qed.

Lemma exec_stalls {A : Type} (env : trace E R -> E -> R) (p : prog E R A) :
  forall hist l, exec env hist p = (l, None) -> stalls p l.
Proof.
  induction p as [a | e k IH | ]; intros hist l Hx; simpl in Hx.
  - discriminate.
  - destruct (exec env (hist ++ [(e, env hist e)]) (k (env hist e)))
      as [l' o] eqn:Hk.
    inversion Hx; subst. constructor. eapply IH. exact Hk.
  - inversion Hx; subst. constructor.
Qed.

Lemma runs_Ret_inv {A : Type} (a b : A) (l : trace E R) :
  runs (Ret a) l b -> l = [] /\ b = a.
Proof. intros H. inversion H; subst. split; reflexivity. Qed.

Lemma runs_Call_inv {A : Type} (e : E) (k : R -> prog E R A) l (a : A) :
  runs (Call e k) l a -> exists r l', l = (e, r) :: l' /\ runs (k r) l' a.
Proof. intros H. inversion H; subst. eauto. Qed.

Lemma runs_bind_inv {A B : Type} (p : prog E R A) (f : A -> prog E R B) :
  forall l b, runs (bind p f) l b ->
    exists l1 l2 a, l = l1 ++ l2 /\ runs p l1 a /\ runs (f a) l2 b.
Proof.
  induction p as [a | e k IH | ]; intros l b H; simpl in H.
  - exists [], l, a. repeat split; [constructor | exact H].
  - apply runs_Call_inv in H. destruct H as (r & l' & -> & H).
    destruct (IH r _ _ H) as (l1 & l2 & a & -> & H1 & H2).
    exists ((e, r) :: l1), l2, a.
    repeat split; [constructor; exact H1 | exact H2].
  - inversion H.
Qed.

Lemma runs_bind {A B : Type} (p : prog E R A) (f : A -> prog E R B) l1 l2 a b :
  runs p l1 a -> runs (f a) l2 b -> runs (bind p f) (l1 ++ l2) b.
Proof.
  intros H1 H2. induction H1; simpl; [exact H2 | constructor; auto].
Qed.

Lemma runs_call_inv (e : E) (l : trace E R) (r : R) :
  runs (call e) l r -> l = [(e, r)].
Proof.
  unfold call. intros H. apply runs_Call_inv in H.
  destruct H as (r' & l' & -> & H). apply runs_Ret_inv in H.
  destruct H as [-> ->]. reflexivity.
Qed.

(** The answers decide the result. *)
Lemma runs_det {A : Type} (p : prog E R A) :
  forall l a a', runs p l a -> runs p l a' -> a = a'.
Proof.
  induction p as [a0 | e k IH | ]; intros l a a' H1 H2.
  - apply runs_Ret_inv in H1, H2. destruct H1 as [_ ->], H2 as [_ ->].
    reflexivity.
  - apply runs_Call_inv in H1, H2.
    destruct H1 as (r1 & l1 & E1 & H1), H2 as (r2 & l2 & E2 & H2).
    subst l. inversion E2; subst. eapply IH; eassumption.
  - inversion H1.
Qed.

Lemma stalls_Call_inv {A : Type} (e : E) (k : R -> prog E R A) l :
  stalls (Call e k) l -> exists r l', l = (e, r) :: l' /\ stalls (k r) l'.
Proof. intros H. inversion H; subst. eauto. Qed.

(** A program that stalls under some answers did not return under them. *)
Lemma runs_not_stalls {A : Type} (p : prog E R A) :
  forall l a, runs p l a -> ~ stalls p l.
Proof.
  induction p as [a0 | e k IH | ]; intros l a H1 H2.
  - inversion H2.
  - apply runs_Call_inv in H1. destruct H1 as (r1 & l1 & E1 & H1).
    apply stalls_Call_inv in H2. destruct H2 as (r2 & l2 & E2 & H2).
    subst l. inversion E2; subst. eapply IH; eassumption.
  - inversion H1.
Qed.

Lemma stalls_bind_inv {A B : Type} (p : prog E R A) (f : A -> prog E R B) :
  forall l, stalls (bind p f) l ->
    stalls p l \/
    exists l1 l2 a, l = l1 ++ l2 /\ runs p l1 a /\ stalls (f a) l2.
Proof.
  induction p as [a | e k IH | ]; intros l H; simpl in H.
  - right. exists [], l, a. repeat split; [constructor | exact H].
  - apply stalls_Call_inv in H. destruct H as (r & l' & -> & H).
    destruct (IH r _ H) as [Hs | (l1 & l2 & a & -> & H1 & H2)].
    + left. constructor. exact Hs.
    + right. exists ((e, r) :: l1), l2, a.
      repeat split; [constructor; exact H1 | exact H2].
  - left. inversion H; subst. constructor.
Qed.

End ProgFacts.

(** Equations between pairs, taken apart without reducing the components. *)
Ltac pair_inj :=
  repeat match goal with
         | H : (_, _) = (_, _) |- _ =>
             let Ha := fresh "Hfst" in let Hb := fresh "Hsnd" in
             pose proof (f_equal fst H) as Ha;
             pose proof (f_equal snd H) as Hb;
             cbn [fst snd] in Ha, Hb; clear H
         end.

(** Inversion of a run along the shape of the program. *)
Ltac run_step :=
  match goal with
  | H : runs (Ret _) _ _ |- _ =>
      let H1 := fresh "Hl" in let H2 := fresh "Ha" in
      apply runs_Ret_inv in H; destruct H as [H1 H2]; pair_inj; subst
  | H : runs (call _) _ _ |- _ => apply runs_call_inv in H; subst
  | H : runs (Call _ _) _ _ |- _ =>
      let r := fresh "r" in let l := fresh "l" in
      apply runs_Call_inv in H; destruct H as (r & l & ? & H); subst
  | H : runs (bind _ _) _ _ |- _ =>
      let l1 := fresh "l" in let l2 := fresh "l" in let a := fresh "a" in
      let H1 := fresh "Hrun" in
      apply runs_bind_inv in H; destruct H as (l1 & l2 & a & ? & H1 & H);
      subst
  | H : runs (match ?x with (_, _) => _ end) _ _ |- _ => destruct x
  | H : runs (if ?c then _ else _) _ _ |- _ =>
      let Hc := fresh "Hc" in destruct c eqn:Hc
  | H : runs Spin _ _ |- _ => inversion H
  end.

Ltac run_inv := repeat run_step; rewrite ?app_nil_r in *; cbn [app] in *.

(** ** The CR-gateway lock *)

Lemma release_writes_app (l1 l2 : trace cap_call resp) :
  release_writes (l1 ++ l2) = (release_writes l1 + release_writes l2)%nat.
Proof. unfold release_writes. rewrite filter_app, length_app. reflexivity. Qed.

Lemma lock_acquired_app (l1 l2 : trace cap_call resp) :
  lock_acquired (l1 ++ l2) = lock_acquired l1 || lock_acquired l2.
Proof. unfold lock_acquired. apply existsb_app. Qed.

Lemma step_failed_app (l1 l2 : trace cap_call resp) :
  step_failed (l1 ++ l2) = step_failed l1 || step_failed l2.
Proof. unfold step_failed. apply existsb_app. Qed.

Lemma release_writes_cons (c : cap_call * resp) (l : trace cap_call resp) :
  release_writes (c :: l)
  = ((if is_release (fst c) then 1 else 0) + release_writes l)%nat.
Proof.
  unfold release_writes. simpl. destruct (is_release (fst c)); reflexivity.
Qed.

Lemma lock_acquired_cons (c : cap_call * resp) (l : trace cap_call resp) :
  lock_acquired (c :: l)
  = (is_acquire (fst c) && (fst (snd c) =? 0)) || lock_acquired l.
Proof. reflexivity. Qed.

Lemma step_failed_cons (c : cap_call * resp) (l : trace cap_call resp) :
  step_failed (c :: l)
  = (negb (is_release (fst c)) && nonzero (fst (snd c))) || step_failed l.
Proof. reflexivity. Qed.

Ltac lock_norm :=
  cbn [app];
  rewrite ?release_writes_app, ?lock_acquired_app, ?step_failed_app,
    ?release_writes_cons, ?lock_acquired_cons, ?step_failed_cons.

Ltac rc_cases :=
  unfold nonzero in *;
  repeat match goal with
         | H : negb (?a =? 0) = _ |- _ =>
             destruct (Z.eqb_spec a 0); simpl in H; try discriminate; clear H
         end.

Lemma runs_cap_write (offset value : Z) l rc :
  runs (cap_write offset value) l rc ->
  exists x, l = [(PciCapWrite offset (u32 value), (rc, x))].
Proof. unfold cap_write. intros H. run_inv. eauto. Qed.

Lemma runs_cap_read (offset : Z) l rc v :
  runs (cap_read offset) l (rc, v) ->
  exists x, l = [(PciCapRead offset, (rc, x))] /\ v = u32 x.
Proof.
  unfold cap_read. intros H. run_inv. eauto.
Qed.

Ltac cap_step :=
  match goal with
  | H : runs (cap_write _ _) _ _ |- _ =>
      apply runs_cap_write in H; destruct H as [? ?]; subst
  | H : runs (cap_read _) _ (_, _) |- _ =>
      apply runs_cap_read in H; destruct H as (? & ? & ?); subst
  | H : runs (cap_read _) _ ?p |- _ => destruct p
  | H : runs trio_cr_gw_lock_release _ _ |- _ =>
      unfold trio_cr_gw_lock_release in H
  | _ => run_step
  end.

(** The wait for the lock only reads the lock register; it ends on the
    first read that fails or shows the lock free. *)
Lemma lock_acquire_wait_trace (fuel : nat) :
  forall l rc, runs (trio_cr_gw_lock_acquire_wait fuel) l rc ->
    release_writes l = O /\ lock_acquired l = false /\
    step_failed l = nonzero rc.
Proof.
  induction fuel as [| fuel IH]; intros l rc H; simpl in H.
  - inversion H.
  - repeat cap_step; rewrite ?app_nil_r in *.
    + cbn. rewrite Hc. auto.
    + destruct (IH _ _ H) as (Hr & Ha & Hf).
      lock_norm. rewrite Hr, Ha, Hf. cbn. rewrite Hc. auto.
    + cbn. rewrite Hc. auto.
Qed.

Lemma lock_acquire_trace (fuel : nat) :
  forall l rc, runs (trio_cr_gw_lock_acquire fuel) l rc ->
    release_writes l = O /\ lock_acquired l = negb (nonzero rc) /\
    step_failed l = nonzero rc.
Proof.
  intros l rc H. unfold trio_cr_gw_lock_acquire in H.
  apply runs_bind_inv in H. destruct H as (l1 & l2 & rc0 & -> & Hw & H).
  destruct (lock_acquire_wait_trace _ _ _ Hw) as (Hr & Ha & Hf).
  lock_norm. rewrite Hr, Ha, Hf.
  repeat cap_step; rewrite ?app_nil_r in *; lock_norm; cbn;
    rewrite ?Hc, ?Hc0; cbn; auto; rc_cases; cbn; auto.
Qed.

Ltac bracket_tail Hr :=
  intros _;
  match goal with
  | |- exists l' x, ?l1 ++ [?a; ?b; ?c; ?d; (?e, (_, ?x3))] = _ /\ _ =>
      exists (l1 ++ [a; b; c; d]), x3
  end;
  split; [rewrite <- app_assoc; subst; reflexivity
         | lock_norm; rewrite Hr; reflexivity].

(** What follows the acquire in [trio_cr_gw_read] and [trio_cr_gw_write]:
    the steps are tried in order, the first error is returned on the spot,
    and the release write comes last, after all of them went through. *)
Lemma gw_read_bracket (fuel : nat) (addr : Z) :
  forall l rc res, runs (trio_cr_gw_read fuel addr) l (rc, res) ->
    lock_acquired l = true ->
    release_writes l = (if step_failed l then 0 else 1)%nat /\
    (step_failed l = true -> rc <> 0) /\
    (step_failed l = false ->
       exists l' x, l = l' ++ [(PciCapWrite TRIO_CR_GW_LOCK
                                  TRIO_CR_GW_LOCK_RELEASE, (rc, x))]
                    /\ release_writes l' = O).
Proof.
  intros l rc res H. unfold trio_cr_gw_read in H.
  apply runs_bind_inv in H. destruct H as (l1 & l2 & rc0 & -> & Hq & H).
  destruct (lock_acquire_trace _ _ _ Hq) as (Hr & Ha & Hf).
  lock_norm. rewrite Hr, Ha, Hf.
  destruct (nonzero rc0) eqn:Hrc0.
  - run_inv. cbn. discriminate.
  - intros _.
    repeat cap_step; rewrite ?app_nil_r in *; lock_norm; cbn;
      rc_cases; cbn; (repeat split; [ congruence || discriminate ..| ]);
      try discriminate; bracket_tail Hr.
Qed.

Lemma gw_write_bracket (fuel : nat) (addr value : Z) :
  forall l rc, runs (trio_cr_gw_write fuel addr value) l rc ->
    lock_acquired l = true ->
    release_writes l = (if step_failed l then 0 else 1)%nat /\
    (step_failed l = true -> rc <> 0) /\
    (step_failed l = false ->
       exists l' x, l = l' ++ [(PciCapWrite TRIO_CR_GW_LOCK
                                  TRIO_CR_GW_LOCK_RELEASE, (rc, x))]
                    /\ release_writes l' = O).
Proof.
  intros l rc H. unfold trio_cr_gw_write in H.
  apply runs_bind_inv in H. destruct H as (l1 & l2 & rc0 & -> & Hq & H).
  destruct (lock_acquire_trace _ _ _ Hq) as (Hr & Ha & Hf).
  lock_norm. rewrite Hr, Ha, Hf.
  destruct (nonzero rc0) eqn:Hrc0.
  - run_inv. cbn. discriminate.
  - intros _.
    repeat cap_step; rewrite ?app_nil_r in *; lock_norm; cbn;
      rc_cases; cbn; (repeat split; [ congruence || discriminate ..| ]);
      try discriminate; bracket_tail Hr.
Qed.

Ltac failed_tail Hr Hf :=
  match goal with
  | |- exists l' e x, ?l1 ++ [(?e1, (_, ?x1))] = _ /\ _ =>
      exists l1, e1, x1
  | |- exists l' e x, ?l1 ++ [?a; (?e1, (_, ?x1))] = _ /\ _ =>
      exists (l1 ++ [a]), e1, x1
  | |- exists l' e x, ?l1 ++ [?a; ?b; (?e1, (_, ?x1))] = _ /\ _ =>
      exists (l1 ++ [a; b]), e1, x1
  | |- exists l' e x, ?l1 ++ [?a; ?b; ?c; (?e1, (_, ?x1))] = _ /\ _ =>
      exists (l1 ++ [a; b; c]), e1, x1
  end;
  split; [rewrite <- ?app_assoc; reflexivity |];
  split; [reflexivity |];
  split; lock_norm; rewrite ?Hr, ?Hf; reflexivity.

(** The step that fails is the last capability access of the operation,
    every access before it went through, and its code is the one
    returned. *)
Lemma gw_read_failed_step (fuel : nat) (addr : Z) :
  forall l rc res, runs (trio_cr_gw_read fuel addr) l (rc, res) ->
    lock_acquired l = true -> step_failed l = true ->
    exists l' e x,
      l = l' ++ [(e, (rc, x))] /\ is_release e = false /\
      step_failed l' = false /\ release_writes l' = O.
Proof.
  intros l rc res H. unfold trio_cr_gw_read in H.
  apply runs_bind_inv in H. destruct H as (l1 & l2 & rc0 & -> & Hq & H).
  destruct (lock_acquire_trace _ _ _ Hq) as (Hr & Ha & Hf).
  lock_norm. rewrite Ha, Hf.
  destruct (nonzero rc0) eqn:Hrc0.
  - run_inv. cbn. discriminate.
  - intros _.
    repeat cap_step; rewrite ?app_nil_r in *; lock_norm; cbn;
      rc_cases; cbn; try discriminate; intros _; subst;
      failed_tail Hr Hf.
Qed.

Lemma gw_write_failed_step (fuel : nat) (addr value : Z) :
  forall l rc, runs (trio_cr_gw_write fuel addr value) l rc ->
    lock_acquired l = true -> step_failed l = true ->
    exists l' e x,
      l = l' ++ [(e, (rc, x))] /\ is_release e = false /\
      step_failed l' = false /\ release_writes l' = O.
Proof.
  intros l rc H. unfold trio_cr_gw_write in H.
  apply runs_bind_inv in H. destruct H as (l1 & l2 & rc0 & -> & Hq & H).
  destruct (lock_acquire_trace _ _ _ Hq) as (Hr & Ha & Hf).
  lock_norm. rewrite Ha, Hf.
  destruct (nonzero rc0) eqn:Hrc0.
  - run_inv. cbn. discriminate.
  - intros _.
    repeat cap_step; rewrite ?app_nil_r in *; lock_norm; cbn;
      rc_cases; cbn; try discriminate; intros _; subst;
      failed_tail Hr Hf.
Qed.

(** C1, as the spec states it, fails: [trio_cr_gw_read] that took the lock
    and then failed to write the target address returns the error with the
    lock still held; no release write is issued. *)
Lemma gw_read_failed_step_issues_no_release :
  runs (trio_cr_gw_read 1 0x80010490) gw_read_failed_trace (-1, None) /\
  lock_acquired gw_read_failed_trace = true /\
  release_writes gw_read_failed_trace = O.
Proof.
  split; [| split; reflexivity].
  apply exec_runs with (env := addr_write_fails) (hist := []).
  vm_compute. reflexivity.
Qed.

(** C1 (amended): a gateway read or write that acquired the lock issues
    exactly one release write, as its last capability access, when every
    step between acquire and release went through.  When one of those steps
    fails, the failing step is the last capability access of the
    operation: every access before it went through, no release write is
    issued, and the operation returns at once with that step's error
    code, which is not 0. *)
Theorem gw_lock_release_bracket (fuel : nat) (addr value : Z)
  (l : trace cap_call resp) (rc : Z) :
  (exists res, runs (trio_cr_gw_read fuel addr) l (rc, res)) \/
  runs (trio_cr_gw_write fuel addr value) l rc ->
  lock_acquired l = true ->
  release_writes l = (if step_failed l then 0 else 1)%nat /\
  (step_failed l = true ->
     rc <> 0 /\
     exists l' e x,
       l = l' ++ [(e, (rc, x))] /\ is_release e = false /\
       step_failed l' = false /\ release_writes l' = O) /\
  (step_failed l = false ->
     exists l' x, l = l' ++ [(PciCapWrite TRIO_CR_GW_LOCK
                                TRIO_CR_GW_LOCK_RELEASE, (rc, x))]
                  /\ release_writes l' = O).
Proof.
  intros [[res H] | H] Hacq.
  - destruct (gw_read_bracket _ _ _ _ _ H Hacq) as (B1 & B2 & B3).
    split; [exact B1 |]. split; [| exact B3].
    intros F. split; [exact (B2 F) |].
    exact (gw_read_failed_step _ _ _ _ _ H Hacq F).
  - destruct (gw_write_bracket _ _ _ _ _ H Hacq) as (B1 & B2 & B3).
    split; [exact B1 |]. split; [| exact B3].
    intros F. split; [exact (B2 F) |].
    exact (gw_write_failed_step _ _ _ _ _ H Hacq F).
Qed.

Lemma gw_lock_release_bracket_witness :
  (runs (trio_cr_gw_write 3 0x80010498 0xcafe) gw_write_sample_trace 0 /\
   lock_acquired gw_write_sample_trace = true /\
   release_writes gw_write_sample_trace = 1%nat) /\
  (runs (trio_cr_gw_read 1 0x80010490) gw_read_failed_trace (-1, None) /\
   lock_acquired gw_read_failed_trace = true /\
   release_writes gw_read_failed_trace = O /\
   exists l' e x,
     gw_read_failed_trace = l' ++ [(e, (-1, x))] /\ is_release e = false /\
     step_failed l' = false /\ release_writes l' = O).
Proof.
  assert (Hw : runs (trio_cr_gw_write 3 0x80010498 0xcafe)
                 gw_write_sample_trace 0).
  { apply exec_runs with (env := lock_held_for 2) (hist := []).
    vm_compute. reflexivity. }
  assert (Hr : runs (trio_cr_gw_read 1 0x80010490)
                 gw_read_failed_trace (-1, None)).
  { apply exec_runs with (env := addr_write_fails) (hist := []).
    vm_compute. reflexivity. }
  split.
  - split; [exact Hw | split; [reflexivity |]].
    exact (proj1 (gw_lock_release_bracket 3 0x80010498 0xcafe
                    gw_write_sample_trace 0 (or_intror Hw) eq_refl)).
  - split; [exact Hr | split; [reflexivity |]].
    destruct (gw_lock_release_bracket 1 0x80010490 0
                gw_read_failed_trace (-1)
                (or_introl (ex_intro _ None Hr)) eq_refl)
      as (R & F & _).
    split; [exact R |]. exact (proj2 (F eq_refl)).
Defined.

(** ** The wait on the widget's control register *)

Lemma runs_gw_read (addr : Z) l rc v :
  runs (gw_read addr) l (rc, v) ->
  exists x, l = [(TrioCrGwRead (u32 addr), (rc, x))] /\ v = u32 x.
Proof. unfold gw_read. intros H. run_inv. eauto. Qed.

Lemma runs_gw_write (addr value : Z) l rc :
  runs (gw_write addr value) l rc ->
  exists x, l = [(TrioCrGwWrite (u32 addr) (u32 value), (rc, x))].
Proof. unfold gw_write. intros H. run_inv. eauto. Qed.

Ltac gw_step :=
  match goal with
  | H : runs (gw_write _ _) _ _ |- _ =>
      apply runs_gw_write in H; destruct H as [? ?]; subst
  | H : runs (gw_read _) _ (_, _) |- _ =>
      apply runs_gw_read in H; destruct H as (? & ? & ?); subst
  | H : runs (gw_read _) _ ?p |- _ => destruct p
  | _ => run_step
  end.

(** The wait polls the control register and nothing else; it polls again
    exactly when the word read meets the mask, and it ends on the first
    failed read or the first word clear of the mask. *)
Lemma pending_wait_runs (regs : rshim_regs) (fuel : nat) :
  forall l rc, runs (rshim_byte_acc_pending_wait regs fuel) l rc ->
    exists busy rc' v,
      l = map (ctl_poll regs 0) busy ++ [ctl_poll regs rc' v] /\
      Forall (fun w => wait_continues regs w = true) busy /\
      (length busy < fuel)%nat /\
      rc = rc' /\
      (rc' = 0 -> wait_continues regs v = false).
Proof.
  induction fuel as [| fuel IH]; intros l rc H;
    cbn [rshim_byte_acc_pending_wait] in H.
  - inversion H.
  - apply runs_bind_inv in H. destruct H as (l1 & l2 & [rc0 v] & -> & Hrd & H).
    apply runs_gw_read in Hrd. destruct Hrd as (x & -> & ->).
    fold (wait_continues regs x) in H.
    destruct (nonzero rc0) eqn:Hrc0.
    + apply runs_Ret_inv in H. destruct H as [-> ->].
      exists [], rc0, x. apply nonzero_true in Hrc0.
      repeat split; auto; try (simpl; lia); tauto.
    + apply nonzero_false in Hrc0. subst rc0.
      destruct (wait_continues regs x) eqn:Hw.
      * destruct (IH _ _ H) as (busy & rc' & v & -> & Hb & Hlen & -> & Hv).
        exists (x :: busy), rc', v.
        repeat split; auto; try (simpl; lia).
      * apply runs_Ret_inv in H. destruct H as [-> ->].
        exists [], 0, x. repeat split; auto; simpl; lia.
Qed.

(** The wait gives up only when the mask was met [fuel] times in a row. *)
Lemma pending_wait_stalls (regs : rshim_regs) (fuel : nat) :
  forall l, stalls (rshim_byte_acc_pending_wait regs fuel) l ->
    exists busy,
      l = map (ctl_poll regs 0) busy /\ length busy = fuel /\
      Forall (fun w => wait_continues regs w = true) busy.
Proof.
  induction fuel as [| fuel IH]; intros l H;
    cbn [rshim_byte_acc_pending_wait] in H.
  - inversion H; subst. exists []. repeat split; constructor.
  - unfold gw_read, call in H. cbn [bind] in H.
    apply stalls_Call_inv in H. destruct H as ([rc x] & l' & -> & H).
    cbn [bind] in H. destruct (nonzero rc) eqn:Hrc; [inversion H |].
    fold (wait_continues regs x) in H.
    destruct (wait_continues regs x) eqn:Hm; [| inversion H].
    destruct (IH _ H) as (busy & -> & Hlen & Hb).
    apply nonzero_false in Hrc. subst rc.
    exists (x :: busy). repeat split; [simpl; lia |].
    constructor; [exact Hm | exact Hb].
Qed.

Lemma land_bit16 (m : Z) : nonzero (Z.land (u32 0x10000) m) = Z.testbit m 16.
Proof.
  change (u32 0x10000) with (2 ^ 16).
  assert (H : Z.land (2 ^ 16) m = if Z.testbit m 16 then 2 ^ 16 else 0).
  { apply Z.bits_inj'. intros k Hk.
    rewrite Z.land_spec, Z.pow2_bits_eqb by lia.
    destruct (Z.eqb_spec 16 k) as [<- | Hne].
    - destruct (Z.testbit m 16); [rewrite Z.pow2_bits_true by lia; reflexivity
                                 | rewrite Z.bits_0; reflexivity].
    - destruct (Z.testbit m 16); [rewrite Z.pow2_bits_false by lia; reflexivity
                                 | rewrite Z.bits_0; reflexivity]. }
  rewrite H. destruct (Z.testbit m 16); reflexivity.
Qed.

Lemma mask_bit16 (p : Z) :
  Z.testbit (u32 (RSH_CHANNEL1_BASE + p)) 16 = negb (Z.testbit p 16).
Proof.
  unfold u32, RSH_CHANNEL1_BASE.
  rewrite !Z.testbit_odd, !Z.shiftr_div_pow2 by lia.
  assert (H : ((0x80010000 + p) mod 2 ^ 32 / 2 ^ 16) mod 2
              = 1 - (p / 2 ^ 16) mod 2).
  { change (2 ^ 32) with 4294967296. change (2 ^ 16) with 65536.
    Z.div_mod_to_equations. lia. }
  rewrite (Zmod_odd (p / 2 ^ 16)) in H.
  rewrite (Zmod_odd ((0x80010000 + p) mod 2 ^ 32 / 2 ^ 16)) in H.
  destruct (Z.odd (p / 2 ^ 16)),
    (Z.odd ((0x80010000 + p) mod 2 ^ 32 / 2 ^ 16)); simpl in *; congruence.
Qed.

(** Whatever the value of RSH_BYTE_ACC_PENDING, the loop condition is not
    the test of that bit: on the control word 0x00010000 the two differ. *)
Lemma wait_mask_is_not_pending (regs : rshim_regs) :
  wait_continues regs 0x10000 = negb (pending_bit_set regs 0x10000).
Proof.
  unfold wait_continues, pending_bit_set, pending_wait_mask.
  rewrite !land_bit16. apply mask_bit16.
Qed.

Lemma pending_wait_never_ready (regs : rshim_regs) (v : Z) :
  wait_continues regs v = true ->
  forall fuel,
    stalls (rshim_byte_acc_pending_wait regs fuel)
           (map (ctl_poll regs 0) (repeat v fuel)).
Proof.
  intros Hv. induction fuel as [| fuel IH];
    cbn [rshim_byte_acc_pending_wait repeat map].
  - constructor.
  - unfold gw_read, call. cbn [bind]. unfold ctl_poll at 1. constructor.
    cbn [bind]. change (nonzero 0) with false. cbv iota.
    fold (wait_continues regs v). rewrite Hv. exact IH.
Qed.

(** C4: the wait loop of the widget does not exit exactly when PENDING is
    clear.  With PENDING clear in the word read (0x00010000) the loop polls
    again, and it never returns while the control register keeps reading
    that word; the exit test is against RSH_CHANNEL1_BASE +
    RSH_BYTE_ACC_PENDING, which differs from the PENDING test on this word
    for every value of the macro. *)
Theorem pending_wait_polls_on_with_pending_clear :
  pending_bit_set sample_regs 0x10000 = false /\
  runs (rshim_byte_acc_pending_wait sample_regs 3)
       [ctl_poll sample_regs 0 0x10000; ctl_poll sample_regs 0 0x10000;
        ctl_poll sample_regs 0 0] 0 /\
  (forall fuel,
     stalls (rshim_byte_acc_pending_wait sample_regs fuel)
            (map (ctl_poll sample_regs 0) (repeat 0x10000 fuel))) /\
  (forall regs,
     wait_continues regs 0x10000 = negb (pending_bit_set regs 0x10000)).
Proof.
  split; [reflexivity |]. split; [| split].
  - apply exec_runs with (env := answers [0x10000; 0x10000]) (hist := []).
    vm_compute. reflexivity.
  - apply pending_wait_never_ready. reflexivity.
  - exact wait_mask_is_not_pending.
Qed.

(** ** The byte-access widget *)

Lemma lor_shiftl_32 (hi lo : Z) :
  0 <= lo < 2 ^ 32 ->
  Z.lor (Z.shiftl hi 32) lo = hi * 2 ^ 32 + lo.
Proof.
  intros Hlo. rewrite Z.shiftl_mul_pow2 by lia.
  assert (Hland : Z.land (hi * 2 ^ 32) lo = 0).
  { apply Z.bits_inj'; intros k Hk; rewrite Z.land_spec, Z.bits_0.
    destruct (Z.lt_ge_cases k 32) as [Hlt | Hge].
    - rewrite Z.mul_pow2_bits_low by lia. reflexivity.
    - destruct (Z.eq_dec lo 0) as [-> | Hne].
      + rewrite Z.bits_0. apply andb_false_r.
      + rewrite (Z.bits_above_log2 lo k); [apply andb_false_r | lia |].
        apply Z.log2_lt_pow2; [lia |].
        apply Z.lt_le_trans with (2 ^ 32); [lia |].
        apply Z.pow_le_mono_r; lia. }
  rewrite Z.add_nocarry_lxor by exact Hland.
  rewrite Z.lxor_lor by exact Hland. reflexivity.
Qed.

(** The word [rshim_byte_acc_read] assembles: the first answer in bits
    63..32, the second in bits 31..0. *)
Lemma assembled_word (v1 v2 : Z) :
  let w := Z.lor (u64 (Z.shiftl (u32 v1) 32)) (u32 v2) in
  w = Z.lor (Z.shiftl (u32 v1) 32) (u32 v2) /\
  Z.shiftr w 32 = u32 v1 /\ Z.land w (2 ^ 32 - 1) = u32 v2 /\
  0 <= w < 2 ^ 64.
Proof.
  pose proof (u32_range v1) as H1. pose proof (u32_range v2) as H2.
  assert (Hs : u64 (Z.shiftl (u32 v1) 32) = Z.shiftl (u32 v1) 32).
  { apply u64_small. rewrite Z.shiftl_mul_pow2 by lia. lia. }
  cbv zeta. rewrite Hs, lor_shiftl_32 by exact H2.
  repeat split; try lia.
  - rewrite Z.shiftr_div_pow2 by lia.
    rewrite Z.div_add_l by lia. rewrite Z.div_small by lia. lia.
  - change (2 ^ 32 - 1) with (Z.ones 32). rewrite Z.land_ones by lia.
    rewrite Z.add_comm, Z.mod_add by lia. apply Z.mod_small. lia.
Qed.

Lemma be64toh_big_endian_host (x : Z) : be64toh true x = u64 x.
Proof.
  unfold be64toh, host_bytes, of_be_bytes. cbn [le_bytes rev app fold_left].
  pose proof (u64_range x) as Hx. generalize dependent (u64 x). intros y Hy.
  change (2 ^ 64) with 18446744073709551616 in Hy.
  Z.div_mod_to_equations. lia.
Qed.

(** On a little-endian host the conversion reverses the eight bytes, and
    doing it twice gives the word back. *)
Lemma be64toh_little_endian_host (x : Z) :
  be64toh false x = of_be_bytes (le_bytes 8 (u64 x)).
Proof. reflexivity. Qed.

Lemma be64toh_range (h : bool) (x : Z) : 0 <= be64toh h x < 2 ^ 64.
Proof.
  destruct h; [rewrite be64toh_big_endian_host; apply u64_range |].
  unfold be64toh, host_bytes, of_be_bytes. cbn [le_bytes fold_left].
  pose proof (u64_range x) as Hx. generalize dependent (u64 x). intros y Hy.
  change (2 ^ 64) with 18446744073709551616 in *.
  Z.div_mod_to_equations. lia.
Qed.

(** C7: a widget read that succeeds ends with two reads of the widget's
    data register, only a wait on the control register between them; the
    word returned is the first answer shifted into bits 63..32, or-ed with
    the second answer in bits 31..0, and passed through [be64toh]. *)
Theorem byte_acc_read_assembles_upper_then_lower
  (regs : rshim_regs) (host_big_endian : bool) (fuel : nat) (addr : Z)
  (l : trace gw_call resp) (res : option Z) :
  runs (rshim_byte_acc_read regs host_big_endian fuel addr) l (0, res) ->
  exists l_pre l_wait upper32 lower32,
    l = l_pre ++ [rdat_read regs 0 upper32] ++ l_wait
          ++ [rdat_read regs 0 lower32] /\
    runs (rshim_byte_acc_pending_wait regs fuel) l_wait 0 /\
    let w := Z.lor (Z.shiftl (u32 upper32) 32) (u32 lower32) in
    res = Some (be64toh host_big_endian w) /\
    Z.shiftr w 32 = u32 upper32 /\ Z.land w (2 ^ 32 - 1) = u32 lower32.
Proof.
  intros H. unfold rshim_byte_acc_read in H.
  repeat gw_step; rewrite ?app_nil_r in *;
    try (rc_cases; congruence).
  rc_cases; subst.
  match goal with
  | |- exists _ _ _ _,
        ?A ++ ?B ++ ?C ++ ?D ++ ?L ++ [(_, (_, ?v1))] ++ ?L1
           ++ [(_, (_, ?v2))] = _ /\ _ =>
      exists (A ++ B ++ C ++ D ++ L), L1, v1, v2
  end.
  split; [unfold rdat_read; rewrite <- !app_assoc; reflexivity |].
  split; [assumption |].
  cbv zeta.
  match goal with
  | |- _ /\ Z.shiftr (Z.lor (Z.shiftl (u32 ?v1) 32) (u32 ?v2)) 32 = _ /\ _ =>
      destruct (assembled_word v1 v2) as (Hw & Hhi & Hlo & _)
  end.
  cbv zeta in *. rewrite Hw in Hhi, Hlo. rewrite Hw. auto.
Qed.

Lemma byte_acc_read_assembles_upper_then_lower_witness :
  runs (rshim_byte_acc_read sample_regs false 4 0x20000080)
       byte_acc_read_sample_trace (0, Some 0x8877665544332211) /\
  exists l_pre l_wait upper32 lower32,
    byte_acc_read_sample_trace
    = l_pre ++ [rdat_read sample_regs 0 upper32] ++ l_wait
        ++ [rdat_read sample_regs 0 lower32] /\
    runs (rshim_byte_acc_pending_wait sample_regs 4) l_wait 0 /\
    let w := Z.lor (Z.shiftl (u32 upper32) 32) (u32 lower32) in
    Some 0x8877665544332211 = Some (be64toh false w) /\
    Z.shiftr w 32 = u32 upper32 /\ Z.land w (2 ^ 32 - 1) = u32 lower32.
Proof.
  assert (Hrun : runs (rshim_byte_acc_read sample_regs false 4 0x20000080)
                   byte_acc_read_sample_trace (0, Some 0x8877665544332211)).
  { apply exec_runs
      with (env := answers [0x20000000; 0; 0; 0; 0; 0; 0x11223344;
                            0x20000000; 0; 0x55667788]) (hist := []).
    vm_compute. reflexivity. }
  split; [exact Hrun |].
  exact (byte_acc_read_assembles_upper_then_lower
           sample_regs false 4 0x20000080 byte_acc_read_sample_trace
           (Some 0x8877665544332211) Hrun).
Defined.

(** ** Register writes and the write-posting throttle *)

Lemma drains_app (l1 l2 : trace gw_call resp) :
  drains (l1 ++ l2) = (drains l1 + drains l2)%nat.
Proof. unfold drains. rewrite filter_app, length_app. reflexivity. Qed.

Lemma drains_polls (regs : rshim_regs) (rc : Z) (vs : list Z) :
  drains (map (ctl_poll regs rc) vs) = O.
Proof. induction vs as [| v vs IH]; [reflexivity | exact IH]. Qed.

Lemma pending_wait_no_barrier (regs : rshim_regs) (fuel : nat) l rc :
  runs (rshim_byte_acc_pending_wait regs fuel) l rc -> drains l = O.
Proof.
  intros H. apply pending_wait_runs in H.
  destruct H as (busy & rc' & v & -> & _).
  rewrite drains_app, drains_polls. reflexivity.
Qed.

Ltac drains_norm :=
  repeat match goal with
         | H : runs (rshim_byte_acc_pending_wait _ _) _ _ |- _ =>
             apply pending_wait_no_barrier in H
         end;
  rewrite ?drains_app;
  repeat match goal with
         | H : drains _ = O |- _ => rewrite H; clear H
         end.

Lemma byte_acc_read_no_barrier (regs : rshim_regs) (h : bool) (fuel : nat)
  (addr : Z) l r :
  runs (rshim_byte_acc_read regs h fuel addr) l r -> drains l = O.
Proof.
  intros H. unfold rshim_byte_acc_read in H.
  repeat gw_step; rewrite ?app_nil_r in *; drains_norm; reflexivity.
Qed.

Lemma byte_acc_write_no_barrier (regs : rshim_regs) (fuel : nat)
  (addr value : Z) l r :
  runs (rshim_byte_acc_write regs fuel addr value) l r -> drains l = O.
Proof.
  intros H. unfold rshim_byte_acc_write in H.
  repeat gw_step; rewrite ?app_nil_r in *; drains_norm; reflexivity.
Qed.

(** The boot FIFO takes the word in two raw gateway writes, upper half
    first; a failed first write ends the operation. *)
Lemma boot_fifo_write_runs (addr value : Z) l rc :
  runs (rshim_boot_fifo_write addr value) l rc ->
  (exists x1 x2,
     l = [(TrioCrGwWrite (u32 addr) (u32 (Z.shiftr value 32)), (0, x1));
          (TrioCrGwWrite (u32 addr) (u32 value), (rc, x2))]) \/
  (exists x1,
     rc <> 0 /\
     l = [(TrioCrGwWrite (u32 addr) (u32 (Z.shiftr value 32)), (rc, x1))]).
Proof.
  intros H. unfold rshim_boot_fifo_write in H.
  repeat gw_step; rewrite ?app_nil_r in *; rc_cases; subst;
    rewrite ?u32_idem; cbn [app]; eauto.
Qed.

Lemma boot_fifo_write_no_barrier (addr value : Z) l rc :
  runs (rshim_boot_fifo_write addr value) l rc -> drains l = O.
Proof.
  intros H. apply boot_fifo_write_runs in H.
  destruct H as [(x1 & x2 & ->) | (x1 & _ & ->)]; reflexivity.
Qed.

Lemma pcie_read_runs (regs : rshim_regs) (h : bool) (fuel : nat)
  (dev : rshim_pcie) (chan addr : Z) l rc res dev' :
  has_rshim (pcie_bd dev) = true ->
  runs (rshim_pcie_read regs h fuel dev chan addr) l (rc, res, dev') ->
  dev' = set_write_count dev 0 /\ drains l = O.
Proof.
  intros Hh H. unfold rshim_pcie_read in H. rewrite Hh in H. cbn [negb] in H.
  cbv zeta in H. apply runs_bind_inv in H.
  destruct H as (l1 & l2 & [rc0 res0] & -> & Hrd & H).
  apply runs_Ret_inv in H. destruct H as [-> Heq]. pair_inj. subst.
  rewrite app_nil_r. split; [reflexivity |].
  eapply byte_acc_read_no_barrier; eassumption.
Qed.

(** The drain at the head of a write: nothing below the threshold; at the
    threshold the barrier, then the read of the scratch register, which
    resets the counter. *)
Lemma pcie_write_drain_runs (regs : rshim_regs) (h : bool) (fuel : nat)
  (dev : rshim_pcie) (chan : Z) l dev1 :
  has_rshim (pcie_bd dev) = true ->
  runs (rshim_pcie_write_drain regs h fuel dev chan) l dev1 ->
  (write_count dev <> 7 /\ l = [] /\ dev1 = dev) \/
  (write_count dev = 7 /\ dev1 = set_write_count dev 0 /\
   exists r l_rd rc res,
     l = (SyncSynchronize, r) :: l_rd /\
     runs (rshim_pcie_read regs h fuel dev chan (RSH_SCRATCHPAD regs)) l_rd
          (rc, res, dev1) /\
     drains l_rd = O).
Proof.
  intros Hh H. unfold rshim_pcie_write_drain in H.
  destruct (Z.eqb_spec (write_count dev) 7) as [H7 | H7].
  - right. apply runs_bind_inv in H. destruct H as (l1 & l2 & r & -> & Hc & H).
    apply runs_call_inv in Hc. subst l1.
    apply runs_bind_inv in H.
    destruct H as (l_rd & l4 & [[rc res] dev0] & -> & Hrd & H).
    apply runs_Ret_inv in H. destruct H as [-> ->].
    destruct (pcie_read_runs _ _ _ _ _ _ _ _ _ _ Hh Hrd) as [-> Hd].
    rewrite app_nil_r. repeat split; auto.
    exists r, l_rd, rc, res. cbn [app]. auto.
  - left. apply runs_Ret_inv in H. destruct H as [-> ->]. auto.
Qed.

(** A register write is the drain followed by the data phase; the counter
    is bumped between the two. *)
Lemma pcie_write_runs (regs : rshim_regs) (h : bool) (fuel : nat)
  (dev : rshim_pcie) (chan addr value : Z) l rc dev' :
  has_rshim (pcie_bd dev) = true ->
  runs (rshim_pcie_write regs h fuel dev chan addr value) l (rc, dev') ->
  exists l_drain dev1 l_data,
    l = l_drain ++ l_data /\
    runs (rshim_pcie_write_drain regs h fuel dev chan) l_drain dev1 /\
    dev' = set_write_count dev1 (u8 (write_count dev1 + 1)) /\
    runs (if addr =? RSH_BOOT_FIFO_DATA regs
          then rshim_boot_fifo_write (rshim_bus_addr chan addr)
                 (be64toh h value)
          else rshim_byte_acc_write regs fuel
                 (be32toh h (rshim_bus_addr chan addr)) (be64toh h value))
         l_data rc.
Proof.
  intros Hh H. unfold rshim_pcie_write in H. rewrite Hh in H.
  cbn [negb] in H. cbv zeta in H.
  apply runs_bind_inv in H. destruct H as (l_drain & l2 & dev1 & -> & Hd & H).
  apply runs_bind_inv in H. destruct H as (l_data & l3 & rc0 & -> & Hw & H).
  apply runs_Ret_inv in H. destruct H as [-> Heq]. pair_inj. subst.
  rewrite app_nil_r. exists l_drain, dev1, l_data.
  repeat split; auto.
  destruct (addr =? RSH_BOOT_FIFO_DATA regs); exact Hw.
Qed.

Lemma pcie_write_step (regs : rshim_regs) (h : bool) (fuel : nat)
  (dev : rshim_pcie) (chan addr value : Z) l rc dev' :
  has_rshim (pcie_bd dev) = true -> 0 <= write_count dev <= 7 ->
  runs (rshim_pcie_write regs h fuel dev chan addr value) l (rc, dev') ->
  pcie_bd dev' = pcie_bd dev /\
  write_count dev' = (if write_count dev =? 7 then 1 else write_count dev + 1) /\
  drains l = (if write_count dev =? 7 then 1%nat else O).
Proof.
  intros Hh Hc H.
  destruct (pcie_write_runs _ _ _ _ _ _ _ _ _ _ Hh H)
    as (l_drain & dev1 & l_data & -> & Hd & -> & Hw).
  assert (Hdata : drains l_data = O).
  { destruct (addr =? RSH_BOOT_FIFO_DATA regs);
      [eapply boot_fifo_write_no_barrier | eapply byte_acc_write_no_barrier];
      eassumption. }
  rewrite drains_app, Hdata.
  destruct (pcie_write_drain_runs _ _ _ _ _ _ _ Hh Hd)
    as [(H7 & -> & ->) | (H7 & -> & r & l_rd & rc0 & res & -> & _ & Hrd)].
  - destruct (Z.eqb_spec (write_count dev) 7) as [? | _]; [contradiction |].
    cbn [set_write_count pcie_bd write_count].
    repeat split; auto. unfold u8. apply Z.mod_small. lia.
  - rewrite H7. cbn [set_write_count pcie_bd write_count Z.eqb Pos.eqb].
    repeat split; auto.
    change (drains ((SyncSynchronize, r) :: l_rd)) with (S (drains l_rd)).
    rewrite Hrd. reflexivity.
Qed.

(** C6: a register write addressed to RSH_BOOT_FIFO_DATA does not go
    through the byte-access widget: after the drain of the throttle (absent
    unless the counter stands at 7) the data phase is two raw gateway
    writes to the bus address of the boot FIFO, the upper 32 bits of the
    host-order value [be64toh (value)] first, then its lower 32 bits; when
    the first one fails nothing follows it. *)
Theorem boot_fifo_write_is_two_raw_gateway_writes
  (regs : rshim_regs) (host_big_endian : bool) (fuel : nat)
  (dev : rshim_pcie) (chan value : Z)
  (l : trace gw_call resp) (rc : Z) (dev' : rshim_pcie) :
  has_rshim (pcie_bd dev) = true ->
  runs (rshim_pcie_write regs host_big_endian fuel dev chan
          (RSH_BOOT_FIFO_DATA regs) value) l (rc, dev') ->
  let a := rshim_bus_addr chan (RSH_BOOT_FIFO_DATA regs) in
  let v := be64toh host_big_endian value in
  exists l_drain dev1 l_data,
    l = l_drain ++ l_data /\
    runs (rshim_pcie_write_drain regs host_big_endian fuel dev chan)
         l_drain dev1 /\
    (write_count dev <> 7 -> l_drain = []) /\
    ((exists x1 x2,
        l_data = [(TrioCrGwWrite a (u32 (Z.shiftr v 32)), (0, x1));
                  (TrioCrGwWrite a (u32 v), (rc, x2))]) \/
     (exists x1,
        rc <> 0 /\
        l_data = [(TrioCrGwWrite a (u32 (Z.shiftr v 32)), (rc, x1))])).
Proof.
  intros Hh H. cbv zeta.
  destruct (pcie_write_runs _ _ _ _ _ _ _ _ _ _ Hh H)
    as (l_drain & dev1 & l_data & -> & Hd & -> & Hw).
  rewrite Z.eqb_refl in Hw. apply boot_fifo_write_runs in Hw.
  exists l_drain, dev1, l_data. repeat split; auto.
  - intros H7.
    destruct (pcie_write_drain_runs _ _ _ _ _ _ _ Hh Hd)
      as [(_ & -> & _) | (H7' & _)]; [reflexivity | contradiction].
  - unfold rshim_bus_addr in *. rewrite u32_idem in Hw. exact Hw.
Qed.

Lemma boot_fifo_write_is_two_raw_gateway_writes_witness :
  has_rshim (pcie_bd (sample_pcie 3)) = true /\
  runs (rshim_pcie_write sample_regs false 4 (sample_pcie 3) 0 0x408
          0x1122334455667788)
       [(TrioCrGwWrite 0x80000408 0x88776655, (0, 0));
        (TrioCrGwWrite 0x80000408 0x44332211, (0, 0))]
       (0, sample_pcie 4) /\
  exists l_drain dev1 l_data,
    [(TrioCrGwWrite 0x80000408 0x88776655, (0, 0));
     (TrioCrGwWrite 0x80000408 0x44332211, (0, 0))] = l_drain ++ l_data /\
    runs (rshim_pcie_write_drain sample_regs false 4 (sample_pcie 3) 0)
         l_drain dev1 /\
    (write_count (sample_pcie 3) <> 7 -> l_drain = []) /\
    ((exists x1 x2,
        l_data = [(TrioCrGwWrite 0x80000408 0x88776655, (0, x1));
                  (TrioCrGwWrite 0x80000408 0x44332211, (0, x2))]) \/
     (exists x1,
        0 <> 0 /\
        l_data = [(TrioCrGwWrite 0x80000408 0x88776655, (0, x1))])).
Proof.
  assert (Hrun :
    runs (rshim_pcie_write sample_regs false 4 (sample_pcie 3) 0
            (RSH_BOOT_FIFO_DATA sample_regs) 0x1122334455667788)
         [(TrioCrGwWrite 0x80000408 0x88776655, (0, 0));
          (TrioCrGwWrite 0x80000408 0x44332211, (0, 0))]
         (0, sample_pcie 4)).
  { apply exec_runs with (env := ready_env 0) (hist := []).
    vm_compute. reflexivity. }
  split; [reflexivity |]. split; [exact Hrun |].
  exact (boot_fifo_write_is_two_raw_gateway_writes sample_regs false 4
           (sample_pcie 3) 0 0x1122334455667788 _ 0 (sample_pcie 4)
           eq_refl Hrun).
Defined.

(** Writes back to back: the counter stays within 0..7 and the number of
    drains is fixed by the counter at the start and the number of writes. *)
Lemma pcie_writes_drains (regs : rshim_regs) (h : bool) (fuel : nat)
  (ws : list (Z * Z * Z)) :
  forall dev l rcs dev',
    has_rshim (pcie_bd dev) = true -> 0 <= write_count dev <= 7 ->
    runs (pcie_writes regs h fuel dev ws) l (rcs, dev') ->
    has_rshim (pcie_bd dev') = true /\
    0 <= write_count dev' <= 7 /\
    length rcs = length ws /\
    Z.of_nat (drains l)
    = (if (write_count dev + Z.of_nat (length ws) =? 0) then 0
       else (write_count dev + Z.of_nat (length ws) - 1) / 7).
Proof.
  induction ws as [| [[chan addr] value] ws IH]; intros dev l rcs dev' Hh Hc H;
    cbn [pcie_writes] in H.
  - apply runs_Ret_inv in H. destruct H as [-> Heq]. pair_inj. subst.
    cbn [length drains filter]. repeat split; try lia; auto.
    rewrite Z.add_0_r.
    destruct (Z.eqb_spec (write_count dev) 0); [reflexivity |].
    symmetry. apply Z.div_small. lia.
  - apply runs_bind_inv in H.
    destruct H as (l1 & l2 & [rc dev1] & -> & Hw & H).
    apply runs_bind_inv in H.
    destruct H as (l3 & l4 & [rcs' dev2] & -> & Hws & H).
    apply runs_Ret_inv in H. destruct H as [-> Heq]. pair_inj. subst.
    rewrite app_nil_r.
    destruct (pcie_write_step _ _ _ _ _ _ _ _ _ _ Hh Hc Hw) as (Hbd & Hn & Hd).
    assert (Hc1 : 0 <= write_count dev1 <= 7).
    { rewrite Hn. destruct (Z.eqb_spec (write_count dev) 7); lia. }
    assert (Hh1 : has_rshim (pcie_bd dev1) = true) by (rewrite Hbd; exact Hh).
    destruct (IH _ _ _ _ Hh1 Hc1 Hws) as (Hh2 & Hc2 & Hlen & Hds).
    repeat split; auto; try lia; [cbn [length]; lia |].
    rewrite drains_app, Nat2Z.inj_add, Hds, Hd, Hn.
    cbn [length]. rewrite Nat2Z.inj_succ.
    destruct (Z.eqb_spec (write_count dev) 7) as [H7 | H7].
    + rewrite H7.
      destruct (Z.eqb_spec (1 + Z.of_nat (length ws)) 0); [lia |].
      destruct (Z.eqb_spec (7 + Z.succ (Z.of_nat (length ws))) 0); [lia |].
      change (Z.of_nat 1) with 1. Z.div_mod_to_equations. lia.
    + destruct (Z.eqb_spec (write_count dev + 1 + Z.of_nat (length ws)) 0);
        [lia |].
      destruct (Z.eqb_spec (write_count dev + Z.succ (Z.of_nat (length ws))) 0);
        [lia |].
      change (Z.of_nat 0) with 0. Z.div_mod_to_equations. lia.
Qed.

(** C3: the write-posting throttle.  With the register bus present and
    the counter within 0..7: a register read resets the counter; a write
    that finds the counter at 7 first drains (the barrier, then the read of
    the scratch register, which resets the counter) and leaves the counter
    at 1, any other write drains nothing and adds one; so the counter never
    leaves 0..7, and writes issued back to back drain once every seven
    writes: no drain means at most seven writes since the last reset, and
    eight writes in a row always contain a drain. *)
Theorem pcie_write_throttle
  (regs : rshim_regs) (host_big_endian : bool) (fuel : nat)
  (dev : rshim_pcie) :
  has_rshim (pcie_bd dev) = true -> 0 <= write_count dev <= 7 ->
  (forall chan addr l rc res dev',
     runs (rshim_pcie_read regs host_big_endian fuel dev chan addr) l
          (rc, res, dev') ->
     write_count dev' = 0 /\ drains l = O) /\
  (forall chan addr value l rc dev',
     runs (rshim_pcie_write regs host_big_endian fuel dev chan addr value) l
          (rc, dev') ->
     0 <= write_count dev' <= 7 /\
     (write_count dev <> 7 ->
        write_count dev' = write_count dev + 1 /\ drains l = O) /\
     (write_count dev = 7 ->
        write_count dev' = 1 /\ drains l = 1%nat /\
        exists r l_rd rc0 res0 dev0 l_data,
          l = (SyncSynchronize, r) :: l_rd ++ l_data /\
          runs (rshim_pcie_read regs host_big_endian fuel dev chan
                  (RSH_SCRATCHPAD regs)) l_rd (rc0, res0, dev0) /\
          write_count dev0 = 0)) /\
  (forall ws l rcs dev',
     runs (pcie_writes regs host_big_endian fuel dev ws) l (rcs, dev') ->
     0 <= write_count dev' <= 7 /\
     Z.of_nat (drains l)
     = (if (write_count dev + Z.of_nat (length ws) =? 0) then 0
        else (write_count dev + Z.of_nat (length ws) - 1) / 7) /\
     (drains l = O -> write_count dev + Z.of_nat (length ws) <= 7) /\
     ((8 <= length ws)%nat -> (1 <= drains l)%nat)).
Proof.
  intros Hh Hc. split; [| split].
  - intros chan addr l rc res dev' H.
    destruct (pcie_read_runs _ _ _ _ _ _ _ _ _ _ Hh H) as [-> Hd].
    split; [reflexivity | exact Hd].
  - intros chan addr value l rc dev' H.
    destruct (pcie_write_step _ _ _ _ _ _ _ _ _ _ Hh Hc H) as (_ & Hn & Hd).
    split; [rewrite Hn; destruct (Z.eqb_spec (write_count dev) 7); lia |].
    split.
    + intros H7. rewrite Hn, Hd.
      destruct (Z.eqb_spec (write_count dev) 7); [contradiction | auto].
    + intros H7. rewrite Hn, Hd, H7. cbn [Z.eqb Pos.eqb].
      repeat split.
      destruct (pcie_write_runs _ _ _ _ _ _ _ _ _ _ Hh H)
        as (l_drain & dev1 & l_data & -> & Hdr & _ & _).
      destruct (pcie_write_drain_runs _ _ _ _ _ _ _ Hh Hdr)
        as [(H7' & _) | (_ & -> & r & l_rd & rc0 & res0 & -> & Hrd & _)];
        [contradiction |].
      exists r, l_rd, rc0, res0, (set_write_count dev 0), l_data.
      repeat split; auto.
  - intros ws l rcs dev' H.
    destruct (pcie_writes_drains _ _ _ _ _ _ _ _ Hh Hc H)
      as (_ & Hc' & _ & Hd).
    split; [exact Hc' |]. split; [exact Hd |]. split.
    + intros H0. rewrite H0 in Hd.
      destruct (Z.eqb_spec (write_count dev + Z.of_nat (length ws)) 0);
        [lia |].
      change (Z.of_nat 0) with 0 in Hd. Z.div_mod_to_equations. lia.
    + intros H8.
      destruct (Z.eqb_spec (write_count dev + Z.of_nat (length ws)) 0);
        [lia |].
      Z.div_mod_to_equations. lia.
Qed.

Lemma pcie_write_throttle_witness :
  has_rshim (pcie_bd (sample_pcie 0)) = true /\
  0 <= write_count (sample_pcie 0) <= 7 /\
  runs (pcie_writes sample_regs false 2 (sample_pcie 0) eight_writes)
       eight_writes_trace ([0; 0; 0; 0; 0; 0; 0; 0], sample_pcie 1) /\
  drains eight_writes_trace = 1%nat.
Proof.
  assert (Hrun :
    runs (pcie_writes sample_regs false 2 (sample_pcie 0) eight_writes)
         eight_writes_trace ([0; 0; 0; 0; 0; 0; 0; 0], sample_pcie 1)).
  { apply exec_runs with (env := ready_env 0) (hist := []).
    vm_compute. reflexivity. }
  split; [reflexivity |]. split; [cbn; lia |]. split; [exact Hrun |].
  apply Nat2Z.inj.
  exact (proj1 (proj2 (proj2 (proj2
           (pcie_write_throttle sample_regs false 2 (sample_pcie 0)
              eq_refl (conj (Z.le_refl 0) (Zle_0_pos 7))))
           eight_writes eight_writes_trace _ _ Hrun))).
Defined.

(** * rshim_usb.c: facts *)

(** ** Busy flags *)

Lemma flag_set_after_set (flags m : Z) : m <> 0 -> flag_set (Z.lor flags m) m = true.
Proof.
  intros Hm. unfold flag_set. apply nonzero_true.
  rewrite Z.land_lor_distr_l, Z.land_diag. intros H.
  apply Z.lor_eq_0_iff in H. tauto.
Qed.

Lemma flag_set_after_clear (flags m : Z) :
  flag_set (Z.land flags (Z.lnot m)) m = false.
Proof.
  unfold flag_set. apply nonzero_false.
  rewrite <- Z.land_assoc, (Z.land_comm (Z.lnot m)).
  rewrite <- Z.ldiff_land, Z.ldiff_diag. apply Z.land_0_r.
Qed.

Lemma flag_set_other_set (flags m m' : Z) :
  Z.land m m' = 0 -> flag_set (Z.lor flags m) m' = flag_set flags m'.
Proof.
  intros Hd. unfold flag_set.
  rewrite Z.land_lor_distr_l, Hd, Z.lor_0_r. reflexivity.
Qed.

Lemma flag_set_other_clear (flags m m' : Z) :
  Z.land m m' = 0 -> flag_set (Z.land flags (Z.lnot m)) m' = flag_set flags m'.
Proof.
  intros Hd. unfold flag_set.
  rewrite <- Z.land_assoc, (Z.land_comm (Z.lnot m)).
  rewrite <- Z.ldiff_land.
  assert (Hl : Z.ldiff m' m = m').
  { apply Z.bits_inj'. intros k Hk. rewrite Z.ldiff_spec.
    assert (Hb : Z.testbit (Z.land m m') k = false) by (rewrite Hd; apply Z.bits_0).
    rewrite Z.land_spec in Hb.
    destruct (Z.testbit m' k), (Z.testbit m k); simpl in *; congruence. }
  rewrite Hl. reflexivity.
Qed.

Lemma reading_after_set (dev : rshim_usb_t) :
  reading (spin_flags_set dev RSH_SFLG_READING) = true.
Proof. apply flag_set_after_set. discriminate. Qed.

Lemma reading_after_clear (dev : rshim_usb_t) :
  reading (spin_flags_clear dev RSH_SFLG_READING) = false.
Proof. apply flag_set_after_clear. Qed.

Lemma writing_after_set (dev : rshim_usb_t) :
  writing (spin_flags_set dev RSH_SFLG_WRITING) = true.
Proof. apply flag_set_after_set. discriminate. Qed.

Lemma writing_after_clear (dev : rshim_usb_t) :
  writing (spin_flags_clear dev RSH_SFLG_WRITING) = false.
Proof. apply flag_set_after_clear. Qed.

Lemma writing_after_set_reading (dev : rshim_usb_t) :
  writing (spin_flags_set dev RSH_SFLG_READING) = writing dev.
Proof. apply flag_set_other_set. reflexivity. Qed.

Lemma writing_after_clear_reading (dev : rshim_usb_t) :
  writing (spin_flags_clear dev RSH_SFLG_READING) = writing dev.
Proof. apply flag_set_other_clear. reflexivity. Qed.

Lemma reading_after_set_writing (dev : rshim_usb_t) :
  reading (spin_flags_set dev RSH_SFLG_WRITING) = reading dev.
Proof. apply flag_set_other_set. reflexivity. Qed.

Lemma reading_after_clear_writing (dev : rshim_usb_t) :
  reading (spin_flags_clear dev RSH_SFLG_WRITING) = reading dev.
Proof. apply flag_set_other_clear. reflexivity. Qed.

(** ** Completion callbacks *)

Lemma transient_not_completed (st : Z) :
  is_transient st = true ->
  (st =? LIBUSB_TRANSFER_COMPLETED) = false /\
  (st =? LIBUSB_TRANSFER_NO_DEVICE) = false.
Proof.
  unfold is_transient, LIBUSB_TRANSFER_COMPLETED, LIBUSB_TRANSFER_NO_DEVICE,
    LIBUSB_TRANSFER_TIMED_OUT, LIBUSB_TRANSFER_STALL,
    LIBUSB_TRANSFER_OVERFLOW. lia.
Qed.

(** The switch of the read callback on a transient status. *)
Lemma read_callback_transient (dev : rshim_usb_t) (urb : libusb_transfer) :
  is_transient (status urb) = true ->
  rshim_usb_fifo_read_callback dev urb
  = (let dev := spin_flags_clear dev RSH_SFLG_READING in
     if (read_or_intr_retries dev <? READ_RETRIES) && (actual_length urb =? 0)
     then
       let dev := set_read_or_intr_retries dev (read_or_intr_retries dev + 1) in
       '(rc, _) <- call (LibusbSubmitTransfer urb) ;;
       if nonzero rc then
         _ <- call (RshimNotify RSH_EVENT_FIFO_ERR (negated rc)) ;;
         Ret dev
       else Ret (spin_flags_set dev RSH_SFLG_READING)
     else Ret dev).
Proof.
  intros Ht. unfold rshim_usb_fifo_read_callback. cbv zeta.
  destruct (transient_not_completed _ Ht) as [-> ->]. rewrite Ht. reflexivity.
Qed.

Lemma write_callback_transient (dev : rshim_usb_t) (urb : libusb_transfer) :
  is_transient (status urb) = true ->
  rshim_usb_fifo_write_callback dev urb
  = (let dev := spin_flags_clear dev RSH_SFLG_WRITING in
     if (write_retries dev <? WRITE_RETRIES) && (actual_length urb =? 0)
     then
       let dev := set_write_retries dev (write_retries dev + 1) in
       '(rc, _) <- call (LibusbSubmitTransfer urb) ;;
       if nonzero rc then
         _ <- call (RshimNotify RSH_EVENT_FIFO_ERR (negated rc)) ;;
         Ret dev
       else Ret (spin_flags_set dev RSH_SFLG_WRITING)
     else Ret dev).
Proof.
  intros Ht. unfold rshim_usb_fifo_write_callback. cbv zeta.
  destruct (transient_not_completed _ Ht) as [-> ->]. rewrite Ht. reflexivity.
Qed.

(** A transient status with nothing transferred and retries left: the
    callback bumps the retry counter and resubmits the transfer it was
    handed; a refused resubmission is reported once, as a FIFO error. *)
Lemma read_callback_retries (dev : rshim_usb_t) (urb : libusb_transfer) l dev' :
  is_transient (status urb) = true -> actual_length urb = 0 ->
  read_or_intr_retries dev < READ_RETRIES ->
  runs (rshim_usb_fifo_read_callback dev urb) l dev' ->
  read_or_intr_retries dev' = read_or_intr_retries dev + 1 /\
  submissions l = [urb] /\
  exists rc x,
    (rc = 0 /\ l = [(LibusbSubmitTransfer urb, (rc, x))] /\
     reading dev' = true) \/
    (rc <> 0 /\ fifo_errors l = [negated rc] /\ reading dev' = false /\
     exists y, l = [(LibusbSubmitTransfer urb, (rc, x));
                    (RshimNotify RSH_EVENT_FIFO_ERR (negated rc), y)]).
Proof.
  intros Ht Hlen Hr H. rewrite (read_callback_transient _ _ Ht) in H.
  cbv zeta in H.
  change (read_or_intr_retries (spin_flags_clear dev RSH_SFLG_READING))
    with (read_or_intr_retries dev) in H.
  rewrite Hlen, (proj2 (Z.ltb_lt _ _) Hr) in H. cbn [andb Z.eqb] in H.
  apply runs_bind_inv in H. destruct H as (l1 & l2 & [rc x] & -> & Hs & H).
  apply runs_call_inv in Hs. subst l1.
  destruct (nonzero rc) eqn:Hrc.
  - apply runs_bind_inv in H. destruct H as (l3 & l4 & y & -> & Hn & H).
    apply runs_call_inv in Hn. subst l3.
    apply runs_Ret_inv in H. destruct H as [-> ->].
    apply nonzero_true in Hrc.
    repeat split; try reflexivity.
    exists rc, x. right. repeat split; auto.
    + apply reading_after_clear.
    + exists y. reflexivity.
  - apply runs_Ret_inv in H. destruct H as [-> ->].
    apply nonzero_false in Hrc. subst rc.
    repeat split; try reflexivity.
    exists 0, x. left. repeat split. apply reading_after_set.
Qed.

Lemma write_callback_retries (dev : rshim_usb_t) (urb : libusb_transfer) l dev' :
  is_transient (status urb) = true -> actual_length urb = 0 ->
  write_retries dev < WRITE_RETRIES ->
  runs (rshim_usb_fifo_write_callback dev urb) l dev' ->
  write_retries dev' = write_retries dev + 1 /\
  submissions l = [urb] /\
  exists rc x,
    (rc = 0 /\ l = [(LibusbSubmitTransfer urb, (rc, x))] /\
     writing dev' = true) \/
    (rc <> 0 /\ fifo_errors l = [negated rc] /\ writing dev' = false /\
     exists y, l = [(LibusbSubmitTransfer urb, (rc, x));
                    (RshimNotify RSH_EVENT_FIFO_ERR (negated rc), y)]).
Proof.
  intros Ht Hlen Hr H. rewrite (write_callback_transient _ _ Ht) in H.
  cbv zeta in H.
  change (write_retries (spin_flags_clear dev RSH_SFLG_WRITING))
    with (write_retries dev) in H.
  rewrite Hlen, (proj2 (Z.ltb_lt _ _) Hr) in H. cbn [andb Z.eqb] in H.
  apply runs_bind_inv in H. destruct H as (l1 & l2 & [rc x] & -> & Hs & H).
  apply runs_call_inv in Hs. subst l1.
  destruct (nonzero rc) eqn:Hrc.
  - apply runs_bind_inv in H. destruct H as (l3 & l4 & y & -> & Hn & H).
    apply runs_call_inv in Hn. subst l3.
    apply runs_Ret_inv in H. destruct H as [-> ->].
    apply nonzero_true in Hrc.
    repeat split; try reflexivity.
    exists rc, x. right. repeat split; auto.
    + apply writing_after_clear.
    + exists y. reflexivity.
  - apply runs_Ret_inv in H. destruct H as [-> ->].
    apply nonzero_false in Hrc. subst rc.
    repeat split; try reflexivity.
    exists 0, x. left. repeat split. apply writing_after_set.
Qed.

(** Six timeouts in a row after a submission, each resubmission accepted:
    five resubmissions of the same transfer, and no notification at all. *)
Lemma six_timeouts_five_resubmissions :
  exists dev',
    runs (read_completions (sample_usb 0) (repeat timed_out_read 6))
         six_timeouts_trace dev' /\
    submissions six_timeouts_trace = repeat timed_out_read 5 /\
    notifications six_timeouts_trace = [] /\
    read_or_intr_retries dev' = READ_RETRIES /\ reading dev' = false.
Proof.
  eexists. split.
  - apply exec_runs with (env := ready_env 0) (hist := []).
    vm_compute. reflexivity.
  - vm_compute. auto.
Qed.

(** C2: at the retry ceiling the callbacks do not report.  A completion
    with a transient status that is not retried (the counter stands at the
    ceiling, or some bytes went through) leaves the retry branch without a
    break and lands in [case LIBUSB_TRANSFER_CANCELLED]: no call is made, so
    no FIFO-error notification is sent, and the busy flag stays clear. *)
Theorem transient_status_past_ceiling_is_silent
  (dev : rshim_usb_t) (urb : libusb_transfer)
  (l : trace usb_call resp) (dev' : rshim_usb_t) :
  is_transient (status urb) = true ->
  (runs (rshim_usb_fifo_read_callback dev urb) l dev' /\
   (READ_RETRIES <= read_or_intr_retries dev \/ actual_length urb <> 0) ->
   l = [] /\ fifo_errors l = [] /\
   dev' = spin_flags_clear dev RSH_SFLG_READING) /\
  (runs (rshim_usb_fifo_write_callback dev urb) l dev' /\
   (WRITE_RETRIES <= write_retries dev \/ actual_length urb <> 0) ->
   l = [] /\ fifo_errors l = [] /\
   dev' = spin_flags_clear dev RSH_SFLG_WRITING).
Proof.
  intros Ht. split; intros [H Hc].
  - rewrite (read_callback_transient _ _ Ht) in H. cbv zeta in H.
    change (read_or_intr_retries (spin_flags_clear dev RSH_SFLG_READING))
      with (read_or_intr_retries dev) in H.
    assert (Hb : (read_or_intr_retries dev <? READ_RETRIES)
                 && (actual_length urb =? 0) = false).
    { destruct Hc as [Hc | Hc].
      - rewrite (proj2 (Z.ltb_ge _ _) Hc). reflexivity.
      - rewrite (proj2 (Z.eqb_neq _ _) Hc). apply andb_false_r. }
    rewrite Hb in H. apply runs_Ret_inv in H. destruct H as [-> ->]. auto.
  - rewrite (write_callback_transient _ _ Ht) in H. cbv zeta in H.
    change (write_retries (spin_flags_clear dev RSH_SFLG_WRITING))
      with (write_retries dev) in H.
    assert (Hb : (write_retries dev <? WRITE_RETRIES)
                 && (actual_length urb =? 0) = false).
    { destruct Hc as [Hc | Hc].
      - rewrite (proj2 (Z.ltb_ge _ _) Hc). reflexivity.
      - rewrite (proj2 (Z.eqb_neq _ _) Hc). apply andb_false_r. }
    rewrite Hb in H. apply runs_Ret_inv in H. destruct H as [-> ->]. auto.
Qed.

Lemma transient_status_past_ceiling_is_silent_witness :
  is_transient (status timed_out_read) = true /\
  runs (rshim_usb_fifo_read_callback (sample_usb 5) timed_out_read) []
       (spin_flags_clear (sample_usb 5) RSH_SFLG_READING) /\
  READ_RETRIES <= read_or_intr_retries (sample_usb 5) /\
  fifo_errors (@nil (usb_call * resp)) = [].
Proof.
  assert (Hrun :
    runs (rshim_usb_fifo_read_callback (sample_usb 5) timed_out_read) []
         (spin_flags_clear (sample_usb 5) RSH_SFLG_READING)).
  { apply exec_runs with (env := ready_env 0) (hist := []).
    vm_compute. reflexivity. }
  split; [reflexivity |]. split; [exact Hrun |].
  split; [vm_compute; discriminate |].
  exact (proj1 (proj2
           (proj1 (transient_status_past_ceiling_is_silent
                     (sample_usb 5) timed_out_read [] _ eq_refl)
              (conj Hrun (or_introl (Z.le_refl 5)))))).
Defined.

(** ** Register access over USB *)

Lemma size_t_of_int_nonneg (rc : Z) :
  0 <= rc < 2 ^ 31 -> size_t_of_int rc = rc.
Proof. intros H. apply u64_small. lia. Qed.

Lemma usb_rw_status_short_long (rc : Z) :
  0 <= rc < 2 ^ 31 -> rc <> 8 ->
  usb_rw_status rc = (if rc <? 8 then - ENXIO else - EINVAL).
Proof.
  intros Hr H8. unfold usb_rw_status.
  rewrite size_t_of_int_nonneg by exact Hr.
  destruct (Z.geb_spec rc 0); [| lia].
  destruct (Z.gtb_spec rc 8), (Z.ltb_spec rc 8); try reflexivity; lia.
Qed.

Lemma read_rshim_runs (h : bool) (dev : rshim_usb_t) (chan addr : Z)
  e rc data ret res dev' :
  has_rshim (bd dev) = true ->
  runs (rshim_usb_read_rshim h dev chan addr) [(e, (rc, data))]
       (ret, res, dev') ->
  ret = (if size_t_of_int rc =? 8 then 0 else usb_rw_status rc).
Proof.
  intros Hh H. unfold rshim_usb_read_rshim in H. rewrite Hh in H.
  cbn [negb] in H. apply runs_bind_inv in H.
  destruct H as (l1 & l2 & [rc0 data0] & Hl & Hc & H).
  apply runs_call_inv in Hc. subst l1. cbv zeta in H.
  destruct (size_t_of_int rc0 =? 8) eqn:H8;
    apply runs_Ret_inv in H; destruct H as [-> Heq];
    rewrite app_nil_r in Hl; pair_inj; inversion Hl; subst;
    rewrite H8; reflexivity.
Qed.

Lemma write_rshim_runs (h : bool) (dev : rshim_usb_t) (chan addr value : Z)
  e rc data ret dev' :
  has_rshim (bd dev) = true ->
  runs (rshim_usb_write_rshim h dev chan addr value) [(e, (rc, data))]
       (ret, dev') ->
  ret = (if size_t_of_int rc =? 8 then 0 else usb_rw_status rc).
Proof.
  intros Hh H. unfold rshim_usb_write_rshim in H. rewrite Hh in H.
  cbn [negb] in H. cbv zeta in H. apply runs_bind_inv in H.
  destruct H as (l1 & l2 & [rc0 data0] & Hl & Hc & H).
  apply runs_call_inv in Hc. subst l1.
  destruct (size_t_of_int rc0 =? 8) eqn:H8;
    apply runs_Ret_inv in H; destruct H as [-> Heq];
    rewrite app_nil_r in Hl; pair_inj; inversion Hl; subst;
    rewrite H8; reflexivity.
Qed.

Lemma usb_rw_result (rc : Z) :
  - 2 ^ 31 <= rc < 2 ^ 31 ->
  (if size_t_of_int rc =? 8 then 0 else usb_rw_status rc)
  = (if rc =? 8 then 0
     else if rc <? 0 then rc
     else if rc <? 8 then - ENXIO else - EINVAL).
Proof.
  intros Hr. destruct (Z.ltb_spec rc 0) as [Hneg | Hpos].
  - assert (Hs : size_t_of_int rc = rc + 2 ^ 64).
    { unfold size_t_of_int, u64. symmetry.
      apply Z.mod_unique with (q := -1); lia. }
    rewrite Hs.
    destruct (Z.eqb_spec (rc + 2 ^ 64) 8); [lia |].
    destruct (Z.eqb_spec rc 8); [lia |].
    unfold usb_rw_status. destruct (Z.geb_spec rc 0); [lia | reflexivity].
  - rewrite size_t_of_int_nonneg by lia.
    destruct (Z.eqb_spec rc 8); [reflexivity |].
    apply usb_rw_status_short_long; [lia | assumption].
Qed.

(** Either function, run to its end: without the register bus nothing is
    sent; with it exactly one control transfer is made, of 8 bytes, and
    the return code is decided by what the transfer answered. *)
Lemma read_rshim_spec (h : bool) (dev : rshim_usb_t) (chan addr : Z)
  l ret res dev' :
  runs (rshim_usb_read_rshim h dev chan addr) l (ret, res, dev') ->
  (has_rshim (bd dev) = false ->
     l = [] /\ ret = - ENODEV /\ res = None /\ dev' = dev) /\
  (has_rshim (bd dev) = true ->
     exists rc data,
       l = [(LibusbControlTransfer
               (Z.lor LIBUSB_ENDPOINT_IN
                  (Z.lor LIBUSB_REQUEST_TYPE_VENDOR
                     LIBUSB_RECIPIENT_ENDPOINT))
               0 chan addr (ctrl_data dev) 8 RSHIM_USB_TIMEOUT,
             (rc, data))] /\
       ret = (if size_t_of_int rc =? 8 then 0 else usb_rw_status rc) /\
       res = Some (le64toh h (u64 data)) /\
       dev' = set_ctrl_data dev (u64 data)).
Proof.
  intros H. unfold rshim_usb_read_rshim in H.
  destruct (has_rshim (bd dev)); cbn [negb] in H;
    split; intros E; try discriminate E.
  - apply runs_bind_inv in H.
    destruct H as (l1 & l2 & [rc0 data0] & -> & Hc & H).
    apply runs_call_inv in Hc. subst l1. cbv zeta in H.
    exists rc0, data0.
    destruct (size_t_of_int rc0 =? 8) eqn:H8;
      apply runs_Ret_inv in H; destruct H as [-> Heq];
      pair_inj; subst; auto.
  - apply runs_Ret_inv in H. destruct H as [-> H].
    pair_inj. subst. auto.
Qed.

Lemma write_rshim_spec (h : bool) (dev : rshim_usb_t)
  (chan addr value : Z) l ret dev' :
  runs (rshim_usb_write_rshim h dev chan addr value) l (ret, dev') ->
  (has_rshim (bd dev) = false -> l = [] /\ ret = - ENODEV /\ dev' = dev) /\
  (has_rshim (bd dev) = true ->
     exists rc data,
       l = [(LibusbControlTransfer
               (Z.lor LIBUSB_ENDPOINT_OUT
                  (Z.lor LIBUSB_REQUEST_TYPE_VENDOR
                     LIBUSB_RECIPIENT_ENDPOINT))
               0 chan addr (htole64 h value) 8 RSHIM_USB_TIMEOUT,
             (rc, data))] /\
       ret = (if size_t_of_int rc =? 8 then 0 else usb_rw_status rc) /\
       dev' = set_ctrl_data dev (htole64 h value)).
Proof.
  intros H. unfold rshim_usb_write_rshim in H.
  destruct (has_rshim (bd dev)); cbn [negb] in H;
    split; intros E; try discriminate E.
  - cbv zeta in H. apply runs_bind_inv in H.
    destruct H as (l1 & l2 & [rc0 data0] & -> & Hc & H).
    apply runs_call_inv in Hc. subst l1.
    exists rc0, data0.
    destruct (size_t_of_int rc0 =? 8) eqn:H8;
      apply runs_Ret_inv in H; destruct H as [-> Heq];
      pair_inj; subst; auto.
  - apply runs_Ret_inv in H. destruct H as [-> H].
    pair_inj. subst. auto.
Qed.

(** C5: what a register read or write returns, and where the claim
    breaks.  Without the register bus the function returns -ENODEV and
    sends nothing.  With it, one control transfer is made: a count of 8
    gives 0, a longer count gives -EINVAL, which is none of the error
    codes of libusb, and a negative code of libusb is handed back as it
    is.  A shorter count gives -ENXIO, and that number is
    LIBUSB_ERROR_BUSY, one of the error codes of libusb, which the same
    function hands back when the transfer answers it: the caller cannot
    tell the short transfer from that error of the library, although the
    comment in both functions asks for codes that the USB stack does not
    use. *)
Theorem usb_short_transfer_is_reported_as_libusb_busy
  (host_big_endian : bool) (dev : rshim_usb_t) (chan addr value : Z)
  (l : trace usb_call resp) (ret : Z) (dev' : rshim_usb_t) :
  (exists res,
     runs (rshim_usb_read_rshim host_big_endian dev chan addr) l
          (ret, res, dev')) \/
  runs (rshim_usb_write_rshim host_big_endian dev chan addr value) l
       (ret, dev') ->
  (has_rshim (bd dev) = false -> l = [] /\ ret = - ENODEV) /\
  (has_rshim (bd dev) = true ->
     exists e rc data,
       l = [(e, (rc, data))] /\
       (- 2 ^ 31 <= rc < 2 ^ 31 ->
          (rc = 8 -> ret = 0) /\
          (8 < rc -> ret = - EINVAL /\ ~ In ret libusb_error) /\
          (rc < 0 -> ret = rc) /\
          (rc = LIBUSB_ERROR_BUSY -> ret = LIBUSB_ERROR_BUSY) /\
          (0 <= rc < 8 ->
             ret = - ENXIO /\ ret = LIBUSB_ERROR_BUSY /\
             In ret libusb_error))).
Proof.
  intros H.
  assert (Hspec :
    (has_rshim (bd dev) = false -> l = [] /\ ret = - ENODEV) /\
    (has_rshim (bd dev) = true ->
       exists e rc data,
         l = [(e, (rc, data))] /\
         ret = (if size_t_of_int rc =? 8 then 0 else usb_rw_status rc))).
  { destruct H as [[res H] | H].
    - destruct (read_rshim_spec _ _ _ _ _ _ _ _ H) as [N Y].
      split.
      + intros E. destruct (N E) as (? & ? & _). auto.
      + intros E. destruct (Y E) as (rc & data & Hl & Hret & _).
        eauto.
    - destruct (write_rshim_spec _ _ _ _ _ _ _ _ H) as [N Y].
      split.
      + intros E. destruct (N E) as (? & ? & _). auto.
      + intros E. destruct (Y E) as (rc & data & Hl & Hret & _).
        eauto. }
  destruct Hspec as [N Y]. split; [exact N |].
  intros E. destruct (Y E) as (e & rc & data & Hl & Hret).
  exists e, rc, data. split; [exact Hl |].
  intros Hr. rewrite usb_rw_result in Hret by exact Hr.
  unfold LIBUSB_ERROR_BUSY, ENXIO, EINVAL, libusb_error in *.
  destruct (Z.eqb_spec rc 8), (Z.ltb_spec rc 0), (Z.ltb_spec rc 8);
    subst ret; repeat split; intros; try lia;
    try (cbn; intuition discriminate).
Qed.

Lemma usb_short_transfer_is_reported_as_libusb_busy_witness :
  runs (rshim_usb_read_rshim false (sample_usb 0) 1 0x408)
       [(LibusbControlTransfer 0xc2 0 1 0x408 0 8 20000, (4, 0xbeef))]
       (LIBUSB_ERROR_BUSY, Some 0xbeef,
        set_ctrl_data (sample_usb 0) 0xbeef) /\
  runs (rshim_usb_read_rshim false (sample_usb 0) 1 0x408)
       [(LibusbControlTransfer 0xc2 0 1 0x408 0 8 20000,
         (LIBUSB_ERROR_BUSY, 0))]
       (LIBUSB_ERROR_BUSY, Some 0, set_ctrl_data (sample_usb 0) 0) /\
  runs (rshim_usb_write_rshim false (sample_usb 0) 1 0x408 0xcafe)
       [(LibusbControlTransfer 0x42 0 1 0x408 0xcafe 8 20000, (4, 0))]
       (LIBUSB_ERROR_BUSY, set_ctrl_data (sample_usb 0) 0xcafe) /\
  runs (rshim_usb_write_rshim false (sample_usb 0) 1 0x408 0xcafe)
       [(LibusbControlTransfer 0x42 0 1 0x408 0xcafe 8 20000,
         (LIBUSB_ERROR_BUSY, 0))]
       (LIBUSB_ERROR_BUSY, set_ctrl_data (sample_usb 0) 0xcafe) /\
  LIBUSB_ERROR_BUSY = - ENXIO /\ In LIBUSB_ERROR_BUSY libusb_error.
Proof.
  assert (Hr4 :
    runs (rshim_usb_read_rshim false (sample_usb 0) 1 0x408)
         [(LibusbControlTransfer 0xc2 0 1 0x408 0 8 20000, (4, 0xbeef))]
         (LIBUSB_ERROR_BUSY, Some 0xbeef,
          set_ctrl_data (sample_usb 0) 0xbeef)).
  { apply exec_runs with (env := reply 4 0xbeef) (hist := []).
    vm_compute. reflexivity. }
  assert (Hrb :
    runs (rshim_usb_read_rshim false (sample_usb 0) 1 0x408)
         [(LibusbControlTransfer 0xc2 0 1 0x408 0 8 20000,
           (LIBUSB_ERROR_BUSY, 0))]
         (LIBUSB_ERROR_BUSY, Some 0, set_ctrl_data (sample_usb 0) 0)).
  { apply exec_runs with (env := reply LIBUSB_ERROR_BUSY 0) (hist := []).
    vm_compute. reflexivity. }
  assert (Hw4 :
    runs (rshim_usb_write_rshim false (sample_usb 0) 1 0x408 0xcafe)
         [(LibusbControlTransfer 0x42 0 1 0x408 0xcafe 8 20000, (4, 0))]
         (LIBUSB_ERROR_BUSY, set_ctrl_data (sample_usb 0) 0xcafe)).
  { apply exec_runs with (env := reply 4 0) (hist := []).
    vm_compute. reflexivity. }
  assert (Hwb :
    runs (rshim_usb_write_rshim false (sample_usb 0) 1 0x408 0xcafe)
         [(LibusbControlTransfer 0x42 0 1 0x408 0xcafe 8 20000,
           (LIBUSB_ERROR_BUSY, 0))]
         (LIBUSB_ERROR_BUSY, set_ctrl_data (sample_usb 0) 0xcafe)).
  { apply exec_runs with (env := reply LIBUSB_ERROR_BUSY 0) (hist := []).
    vm_compute. reflexivity. }
  split; [exact Hr4 |]. split; [exact Hrb |]. split; [exact Hw4 |].
  split; [exact Hwb |].
  destruct (proj2 (usb_short_transfer_is_reported_as_libusb_busy
                     false (sample_usb 0) 1 0x408 0 _ _ _
                     (or_introl (ex_intro _ _ Hr4))) eq_refl)
    as (e & rc & data & Hl & Hcases).
  injection Hl as _ Hrc _. subst rc.
  assert (Hrange : - 2 ^ 31 <= 4 < 2 ^ 31) by (cbn; lia).
  destruct (Hcases Hrange) as (_ & _ & _ & _ & Hshort).
  assert (H4 : 0 <= 4 < 8) by lia.
  destruct (Hshort H4) as (Hret & _ & Hin).
  split; [exact Hret | exact Hin].
Defined.

(** ** Boot write *)



(** ** Stream submissions *)

Lemma reading_bd (d1 d2 : rshim_usb_t) :
  spin_flags (bd d1) = spin_flags (bd d2) -> reading d1 = reading d2.
Proof. unfold reading. intros ->. reflexivity. Qed.

Lemma writing_bd (d1 d2 : rshim_usb_t) :
  spin_flags (bd d1) = spin_flags (bd d2) -> writing d1 = writing d2.
Proof. unfold writing. intros ->. reflexivity. Qed.

(** [rshim_usb_fifo_read]: nothing when the gate is closed; otherwise one
    submission of the read-or-interrupt transfer, with READING set when
    libusb took it and clear when it refused; no notification either way. *)
Lemma fifo_read_runs (dev : rshim_usb_t) (count : Z) l dev' :
  runs (rshim_usb_fifo_read dev count) l dev' ->
  notifications l = [] /\
  writing dev' = writing dev /\
  urb_obj (read_or_intr_urb dev') = urb_obj (read_or_intr_urb dev) /\
  urb_obj (write_urb dev') = urb_obj (write_urb dev) /\
  ((l = [] /\ dev' = dev) \/
   (exists urb rc x,
      l = [(LibusbSubmitTransfer urb, (rc, x))] /\
      urb = read_or_intr_urb dev' /\
      reading dev' = negb (nonzero rc))).
Proof.
  intros H. unfold rshim_usb_fifo_read in H.
  destruct (negb (has_rshim (bd dev)) || negb (has_tm (bd dev))
            || drop_mode (bd dev)).
  { apply runs_Ret_inv in H. destruct H as [-> ->]. repeat split; auto. }
  destruct (nonzero (u32 (intr_buf dev)) || nonzero (read_buf_bytes (bd dev)));
    cbv zeta in H;
    apply runs_bind_inv in H; destruct H as (l1 & l2 & [rc x] & -> & Hs & H);
    apply runs_call_inv in Hs; subst l1;
    (destruct (nonzero rc) eqn:Hrc;
     apply runs_Ret_inv in H; destruct H as [-> ->];
     (split; [reflexivity |]);
     (split; [first [ rewrite writing_after_clear_reading
                    | idtac ];
              etransitivity; [| apply (writing_after_set_reading dev)];
              apply writing_bd; reflexivity |]);
     (split; [reflexivity |]); (split; [reflexivity |]);
     right; eexists _, rc, x; (split; [reflexivity |]);
     (split; [reflexivity |]); rewrite Hrc; cbn [negb];
     [ apply reading_after_clear
     | etransitivity; [| apply (reading_after_set dev)];
       apply reading_bd; reflexivity ]).
Qed.

(** Of the backend, [rshim_usb_fifo_read] touches the READING bit of
    [spin_flags] and nothing else. *)
Lemma fifo_read_backend (dev : rshim_usb_t) (count : Z) l dev' :
  runs (rshim_usb_fifo_read dev count) l dev' ->
  bd dev' = set_spin_flags (bd dev) (spin_flags (bd dev')) /\
  forall m, Z.land RSH_SFLG_READING m = 0 ->
    flag_set (spin_flags (bd dev')) m = flag_set (spin_flags (bd dev)) m.
Proof.
  intros H. unfold rshim_usb_fifo_read in H.
  destruct (negb (has_rshim (bd dev)) || negb (has_tm (bd dev))
            || drop_mode (bd dev)).
  { apply runs_Ret_inv in H. destruct H as [-> ->].
    split; [destruct (bd dev); reflexivity | reflexivity]. }
  destruct (nonzero (u32 (intr_buf dev)) || nonzero (read_buf_bytes (bd dev)));
    cbv zeta in H;
    apply runs_bind_inv in H; destruct H as (l1 & l2 & [rc x] & -> & Hs & H);
    apply runs_call_inv in Hs; subst l1;
    (destruct (nonzero rc) eqn:Hrc;
     apply runs_Ret_inv in H; destruct H as [-> ->];
     (split; [reflexivity |]); intros m Hm;
     cbn [bd spin_flags spin_flags_clear spin_flags_set set_bd set_spin_flags
          set_read_or_intr_retries set_read_urb_is_intr set_read_urb];
     rewrite ?flag_set_other_clear by exact Hm;
     apply flag_set_other_set; exact Hm).
Qed.

(** C9: a stream read on the TMFIFO device type returns 0 whatever libusb
    answers to the submission.  No notification is sent; a refused
    submission leaves READING clear, and of the backend only that bit of
    [spin_flags] can differ from before the call. *)
Theorem usb_backend_read_tmfifo_returns_zero
  (RSH_DEV_TYPE_TMFIFO : Z) (dev : rshim_usb_t) (count : Z)
  (l : trace usb_call resp) (ret : Z) (dev' : rshim_usb_t) :
  runs (rshim_usb_backend_read RSH_DEV_TYPE_TMFIFO dev RSH_DEV_TYPE_TMFIFO
          count) l (ret, dev') ->
  ret = 0 /\
  notifications l = [] /\ fifo_errors l = [] /\
  (forall urb rc x,
     In (LibusbSubmitTransfer urb, (rc, x)) l -> rc <> 0 ->
     reading dev' = false) /\
  bd dev' = set_spin_flags (bd dev) (spin_flags (bd dev')) /\
  (forall m, Z.land RSH_SFLG_READING m = 0 ->
     flag_set (spin_flags (bd dev')) m = flag_set (spin_flags (bd dev)) m).
Proof.
  intros H. unfold rshim_usb_backend_read in H. rewrite Z.eqb_refl in H.
  apply runs_bind_inv in H. destruct H as (l1 & l2 & dev1 & -> & Hr & H).
  apply runs_Ret_inv in H. destruct H as [-> Heq]. pair_inj. subst.
  rewrite app_nil_r.
  destruct (fifo_read_backend _ _ _ _ Hr) as (Hbd & Hm).
  destruct (fifo_read_runs _ _ _ _ Hr)
    as (Hn & _ & _ & _ & [[-> ->] | (urb & rc & x & -> & _ & Hrd)]).
  - repeat split; auto. intros urb rc x [].
  - repeat split; auto. intros urb' rc' x' [Hin | []] Hrc.
    inversion Hin; subst. rewrite Hrd.
    apply nonzero_true in Hrc. rewrite Hrc. reflexivity.
Qed.

Lemma usb_backend_read_tmfifo_returns_zero_witness :
  exists dev',
    runs (rshim_usb_backend_read 3 (sample_usb 0) 3 512)
         [(LibusbSubmitTransfer
             (libusb_fill_interrupt_transfer (sample_urb ReadOrIntrUrb 0 0)
                0x83 8 (u32 (-1))), (-4, 0))]
         (0, dev') /\
    reading dev' = false.
Proof.
  eexists.
  assert (Hrun :
    runs (rshim_usb_backend_read 3 (sample_usb 0) 3 512)
         [(LibusbSubmitTransfer
             (libusb_fill_interrupt_transfer (sample_urb ReadOrIntrUrb 0 0)
                0x83 8 (u32 (-1))), (-4, 0))]
         (0, spin_flags_clear
               (set_read_or_intr_retries
                  (set_read_urb_is_intr
                     (spin_flags_set
                        (set_read_urb (sample_usb 0)
                           (libusb_fill_interrupt_transfer
                              (sample_urb ReadOrIntrUrb 0 0) 0x83 8
                              (u32 (-1))))
                        RSH_SFLG_READING) 1) 0)
               RSH_SFLG_READING)).
  { apply exec_runs with (env := reply (-4) 0) (hist := []).
    vm_compute. reflexivity. }
  split; [exact Hrun |].
  exact (proj1 (proj2 (proj2 (proj2
           (usb_backend_read_tmfifo_returns_zero 3 (sample_usb 0) 512 _ 0 _
              Hrun))))
           _ (-4) 0 (or_introl eq_refl) ltac:(discriminate)).
Defined.

(** ** The busy-flag invariant *)

Lemma fifo_write_runs (dev : rshim_usb_t) (count : Z) l ret dev' :
  runs (rshim_usb_fifo_write dev count) l (ret, dev') ->
  reading dev' = reading dev /\
  urb_obj (read_or_intr_urb dev') = urb_obj (read_or_intr_urb dev) /\
  urb_obj (write_urb dev') = urb_obj (write_urb dev) /\
  ((l = [] /\ dev' = dev) \/
   (exists urb rc x,
      l = [(LibusbSubmitTransfer urb, (rc, x))] /\
      urb = write_urb dev' /\
      writing dev' = negb (nonzero rc) /\
      ret = (if nonzero rc then -1 else 0))).
Proof.
  intros H. unfold rshim_usb_fifo_write in H.
  destruct (negb (has_rshim (bd dev)) || negb (has_tm (bd dev))).
  { apply runs_Ret_inv in H. destruct H as [-> Heq]. pair_inj. subst.
    repeat split; auto. }
  destruct (drop_mode (bd dev)).
  { apply runs_Ret_inv in H. destruct H as [-> Heq]. pair_inj. subst.
    repeat split; auto. }
  cbv zeta in H.
  apply runs_bind_inv in H. destruct H as (l1 & l2 & [rc x] & -> & Hs & H).
  apply runs_call_inv in Hs. subst l1.
  destruct (nonzero rc) eqn:Hrc;
    apply runs_Ret_inv in H; destruct H as [-> Heq]; pair_inj; subst.
  - split; [etransitivity; [apply reading_after_clear_writing
                           | apply reading_bd; reflexivity] |].
    split; [reflexivity |]. split; [reflexivity |].
    right. eexists _, rc, x. split; [reflexivity |]. split; [reflexivity |].
    rewrite Hrc. split; [apply writing_after_clear | reflexivity].
  - split; [etransitivity; [apply reading_after_set_writing
                           | apply reading_bd; reflexivity] |].
    split; [reflexivity |]. split; [reflexivity |].
    right. eexists _, rc, x. split; [reflexivity |]. split; [reflexivity |].
    rewrite Hrc. split; [apply writing_after_set | reflexivity].
Qed.

Lemma accepted_app (u : urb_id) (l1 l2 : trace usb_call resp) :
  accepted u (l1 ++ l2) = (accepted u l1 + accepted u l2)%nat.
Proof.
  induction l1 as [| [e [rc x]] l1 IH]; [reflexivity |].
  destruct e; cbn [accepted app]; rewrite ?IH; try reflexivity.
  cbv zeta. lia.
Qed.

(** The bookkeeping of one call of [rshim_usb_fifo_read] made with
    READING clear, and of one call of [rshim_usb_fifo_write] made with
    WRITING clear. *)
Lemma fifo_read_accounting (dev : rshim_usb_t) (count : Z) l dev' :
  reading dev = false ->
  urb_obj (read_or_intr_urb dev) = ReadOrIntrUrb ->
  runs (rshim_usb_fifo_read dev count) l dev' ->
  accepted WriteUrb l = O /\ (accepted ReadOrIntrUrb l <= 1)%nat /\
  reading dev' = (accepted ReadOrIntrUrb l =? 1)%nat.
Proof.
  intros Hg Hu H.
  destruct (fifo_read_runs _ _ _ _ H)
    as (_ & _ & Hru & _ & [[-> ->] | (urb & rc & x & -> & -> & Hrd)]).
  - rewrite Hg. repeat split; auto.
  - cbn [accepted]. rewrite Hru, Hu, Hrd. cbn [urb_id_eqb andb].
    unfold nonzero. destruct (rc =? 0); cbn; auto.
Qed.

Lemma fifo_write_accounting (dev : rshim_usb_t) (count : Z) l ret dev' :
  writing dev = false ->
  urb_obj (write_urb dev) = WriteUrb ->
  runs (rshim_usb_fifo_write dev count) l (ret, dev') ->
  accepted ReadOrIntrUrb l = O /\ (accepted WriteUrb l <= 1)%nat /\
  writing dev' = (accepted WriteUrb l =? 1)%nat.
Proof.
  intros Hg Hu H.
  destruct (fifo_write_runs _ _ _ _ _ H)
    as (_ & _ & Hwu & [[-> ->] | (urb & rc & x & -> & -> & Hwr & _)]).
  - rewrite Hg. repeat split; auto.
  - cbn [accepted]. rewrite Hwu, Hu, Hwr. cbn [urb_id_eqb andb].
    unfold nonzero. destruct (rc =? 0); cbn; auto.
Qed.

Ltac flag_finish Hclr Hw setl setw :=
  rc_cases; subst;
  repeat match goal with
         | |- context [(?z =? 0)%Z] =>
             destruct (Z.eqb_spec z 0); try contradiction; try lia
         | |- context [if ?c then _ else _] => destruct c
         end;
  cbn [Nat.add Nat.eqb];
  first [ lia | exact Hclr | exact Hw | reflexivity | apply setl
        | (etransitivity; [apply setw | exact Hw]) ].

(** The bookkeeping of the two completion callbacks, for any status. *)
Lemma read_callback_accounting (dev : rshim_usb_t) (urb : libusb_transfer)
  l dev' :
  urb_obj urb = ReadOrIntrUrb ->
  runs (rshim_usb_fifo_read_callback dev urb) l dev' ->
  accepted WriteUrb l = O /\ (accepted ReadOrIntrUrb l <= 1)%nat /\
  reading dev' = (accepted ReadOrIntrUrb l =? 1)%nat /\
  writing dev' = writing dev /\
  urb_obj (read_or_intr_urb dev') = urb_obj (read_or_intr_urb dev) /\
  urb_obj (write_urb dev') = urb_obj (write_urb dev).
Proof.
  intros Hu H. unfold rshim_usb_fifo_read_callback in H. cbv zeta in H.
  pose proof (reading_after_clear dev) as Hclr.
  pose proof (writing_after_clear_reading dev) as Hw.
  repeat run_step; rewrite ?app_nil_r; cbn [accepted app];
    rewrite ?Hu; cbn [urb_id_eqb andb Nat.add Nat.eqb];
    repeat split; auto;
    flag_finish Hclr Hw reading_after_set writing_after_set_reading.
Qed.

Lemma write_callback_accounting (dev : rshim_usb_t) (urb : libusb_transfer)
  l dev' :
  urb_obj urb = WriteUrb ->
  runs (rshim_usb_fifo_write_callback dev urb) l dev' ->
  accepted ReadOrIntrUrb l = O /\ (accepted WriteUrb l <= 1)%nat /\
  writing dev' = (accepted WriteUrb l =? 1)%nat /\
  reading dev' = reading dev /\
  urb_obj (read_or_intr_urb dev') = urb_obj (read_or_intr_urb dev) /\
  urb_obj (write_urb dev') = urb_obj (write_urb dev).
Proof.
  intros Hu H. unfold rshim_usb_fifo_write_callback in H. cbv zeta in H.
  pose proof (writing_after_clear dev) as Hclr.
  pose proof (reading_after_clear_writing dev) as Hw.
  repeat run_step; rewrite ?app_nil_r; cbn [accepted app];
    rewrite ?Hu; cbn [urb_id_eqb andb Nat.add Nat.eqb];
    repeat split; auto;
    flag_finish Hclr Hw writing_after_set reading_after_set_writing.
Qed.

Lemma usb_step_preserves (s s' : usb_sys) :
  busy_invariant s -> usb_step s s' -> busy_invariant s'.
Proof.
  intros (Hr & Hw & Hrf & Hwf & Hru & Hwu) Hstep.
  destruct Hstep as [s count l dev' Hg H | s count rc l dev' Hg H
                    | s urb l dev' Hin Hu H | s urb l dev' Hin Hu H
                    | s dev' Hrd Hwr Hru' Hwu'];
    unfold busy_invariant, after_calls;
    cbn [sys_dev reads_in_flight writes_in_flight].
  - destruct (fifo_read_accounting _ _ _ _ Hg Hru H) as (Haw & Har & Hrd).
    destruct (fifo_read_runs _ _ _ _ H) as (_ & Hwr & Hru' & Hwu' & _).
    rewrite Hg in Hrf. symmetry in Hrf. apply Nat.eqb_neq in Hrf.
    rewrite Haw, Hrd, Hwr, Hwf, Hru', Hwu'.
    replace (reads_in_flight s - 0 + accepted ReadOrIntrUrb l)%nat
      with (accepted ReadOrIntrUrb l) by lia.
    replace (writes_in_flight s - 0 + 0)%nat with (writes_in_flight s) by lia.
    repeat split; auto.
  - destruct (fifo_write_accounting _ _ _ _ _ Hg Hwu H) as (Har & Haw & Hwr).
    destruct (fifo_write_runs _ _ _ _ _ H) as (Hrd & Hru' & Hwu' & _).
    rewrite Hg in Hwf. symmetry in Hwf. apply Nat.eqb_neq in Hwf.
    rewrite Har, Hrd, Hwr, Hrf, Hru', Hwu'.
    replace (writes_in_flight s - 0 + accepted WriteUrb l)%nat
      with (accepted WriteUrb l) by lia.
    replace (reads_in_flight s - 0 + 0)%nat with (reads_in_flight s) by lia.
    repeat split; auto.
  - destruct (read_callback_accounting _ _ _ _ Hu H)
      as (Haw & Har & Hrd & Hwr & Hru' & Hwu').
    rewrite Haw, Hrd, Hwr, Hwf, Hru', Hwu'.
    replace (reads_in_flight s - 1 + accepted ReadOrIntrUrb l)%nat
      with (accepted ReadOrIntrUrb l) by lia.
    replace (writes_in_flight s - 0 + 0)%nat with (writes_in_flight s) by lia.
    repeat split; auto.
  - destruct (write_callback_accounting _ _ _ _ Hu H)
      as (Har & Haw & Hwr & Hrd & Hru' & Hwu').
    rewrite Har, Hrd, Hwr, Hrf, Hru', Hwu'.
    replace (writes_in_flight s - 1 + accepted WriteUrb l)%nat
      with (accepted WriteUrb l) by lia.
    replace (reads_in_flight s - 0 + 0)%nat with (reads_in_flight s) by lia.
    repeat split; auto.
  - cbn [accepted]. rewrite Hrd, Hwr, Hru', Hwu', Hrf, Hwf.
    replace (reads_in_flight s - 0 + 0)%nat with (reads_in_flight s) by lia.
    replace (writes_in_flight s - 0 + 0)%nat with (writes_in_flight s) by lia.
    repeat split; auto.
Qed.

(** The guard is the callers' and not the engine's: called while its
    transfer is in flight, [rshim_usb_fifo_read] submits all the same, and
    when libusb refuses (the transfer is busy) it clears READING although
    the first transfer is still out. *)
Lemma fifo_read_does_not_check_reading :
  reading (sys_dev usb_sys1) = true /\ reads_in_flight usb_sys1 = 1%nat /\
  exists l dev',
    runs (rshim_usb_fifo_read (sys_dev usb_sys1) 512) l dev' /\
    length (submissions l) = 1%nat /\ accepted ReadOrIntrUrb l = O /\
    reading dev' = false.
Proof.
  split; [reflexivity |]. split; [reflexivity |].
  eexists. eexists. split.
  - apply exec_runs with (env := reply (-6) 0) (hist := []).
    vm_compute. reflexivity.
  - vm_compute. auto.
Qed.

(** C8: in every state the stream engine can reach, libusb holds at most
    one read-or-interrupt transfer and at most one write transfer, and the
    READING and WRITING bits say exactly whether it holds one: a submission
    libusb accepts sets the bit, a completion or a refused submission
    leaves it clear.  The upper layer submits only with the bit of the
    direction clear; that guard is the one of the transition system. *)
Theorem usb_busy_flags_track_transfers (s : usb_sys) :
  usb_reachable s ->
  (reads_in_flight s <= 1)%nat /\ (writes_in_flight s <= 1)%nat /\
  reading (sys_dev s) = (reads_in_flight s =? 1)%nat /\
  writing (sys_dev s) = (writes_in_flight s =? 1)%nat.
Proof.
  intros Hreach.
  assert (Hinv : busy_invariant s).
  { induction Hreach as [s (Hr & Hw & Hru & Hwu & Hnr & Hnw) | s s' _ IH Hstep].
    - unfold busy_invariant. rewrite Hr, Hw, Hnr, Hnw. repeat split; auto.
    - eapply usb_step_preserves; eassumption. }
  destruct Hinv as (Hr & Hw & Hrf & Hwf & _). auto.
Qed.

Lemma usb_busy_flags_track_transfers_witness :
  usb_reachable usb_sys1 /\
  reads_in_flight usb_sys1 = 1%nat /\ reading (sys_dev usb_sys1) = true.
Proof.
  assert (Hreach : usb_reachable usb_sys1).
  { apply reach_step with (s := usb_sys0).
    - apply reach_initial. repeat split; reflexivity.
    - unfold usb_sys1. apply step_fifo_read with (count := 512).
      + reflexivity.
      + apply exec_runs with (env := ready_env 0) (hist := []).
        vm_compute. reflexivity. }
  split; [exact Hreach |]. split; [reflexivity |].
  exact (proj1 (proj2 (proj2 (usb_busy_flags_track_transfers usb_sys1 Hreach)))).
Defined.

(** * Runs that do not return *)

Section Outcome.
Context {E R : Type}.

(** Against any environment a program returns or gives up in a wait. *)
Lemma exec_outcome {A : Type} (env : trace E R -> E -> R) (hist : trace E R)
  (p : prog E R A) :
  (exists l a, exec env hist p = (l, Some a) /\ runs p l a) \/
  (exists l, exec env hist p = (l, None) /\ stalls p l).
Proof.
  destruct (exec env hist p) as [l [a |]] eqn:Hx.
  - left. exists l, a. split; [reflexivity |]. eapply exec_runs; eassumption.
  - right. exists l. split; [reflexivity |]. eapply exec_stalls; eassumption.
Qed.

Lemma stalls_Ret_inv {A : Type} (a : A) (l : trace E R) :
  stalls (Ret a) l -> False.
Proof. intros H. inversion H. Qed.

Lemma stalls_call_inv (e : E) (l : trace E R) : stalls (call e) l -> False.
Proof.
  unfold call. intros H. apply stalls_Call_inv in H.
  destruct H as (r & l' & _ & H). inversion H.
Qed.

End Outcome.

Ltac stall_step :=
  match goal with
  | H : stalls (Ret _) _ |- _ => destruct (stalls_Ret_inv _ _ H)
  | H : stalls (call _) _ |- _ => destruct (stalls_call_inv _ _ H)
  | H : stalls (bind _ _) _ |- _ =>
      let l1 := fresh "l" in let l2 := fresh "l" in let a := fresh "a" in
      let H1 := fresh "Hrun" in
      apply stalls_bind_inv in H;
      destruct H as [H | (l1 & l2 & a & ? & H1 & H)]; subst
  | H : stalls (match ?x with (_, _) => _ end) _ |- _ => destruct x
  | H : stalls (if ?c then _ else _) _ |- _ => destruct c
  end.

(** ** The PCIe path *)

Lemma lock_acquire_wait_stalls (fuel : nat) :
  forall l, stalls (trio_cr_gw_lock_acquire_wait fuel) l ->
    exists held,
      l = map (lock_poll 0) held /\ length held = fuel /\
      Forall (fun v => lock_held v = true) held.
Proof.
  induction fuel as [| fuel IH]; intros l H;
    cbn [trio_cr_gw_lock_acquire_wait] in H.
  - inversion H; subst. exists []. repeat split; constructor.
  - unfold cap_read, call in H. cbn [bind] in H.
    apply stalls_Call_inv in H. destruct H as ([rc x] & l' & -> & H).
    cbn [bind] in H. destruct (nonzero rc) eqn:Hrc; [inversion H |].
    fold (lock_held x) in H.
    destruct (lock_held x) eqn:Hm; [| inversion H].
    destruct (IH _ H) as (held & -> & Hlen & Hb).
    apply nonzero_false in Hrc. subst rc.
    exists (x :: held). repeat split; [simpl; lia |].
    constructor; [exact Hm | exact Hb].
Qed.

Lemma cap_write_returns (offset value : Z) l :
  stalls (cap_write offset value) l -> False.
Proof. unfold cap_write. intros H. repeat stall_step. Qed.

Lemma cap_read_returns (offset : Z) l :
  stalls (cap_read offset) l -> False.
Proof. unfold cap_read. intros H. repeat stall_step. Qed.

Ltac cap_stall_step :=
  match goal with
  | H : stalls (cap_write _ _) _ |- _ =>
      destruct (cap_write_returns _ _ _ H)
  | H : stalls (cap_read _) _ |- _ =>
      destruct (cap_read_returns _ _ H)
  | H : stalls trio_cr_gw_lock_release _ |- _ =>
      unfold trio_cr_gw_lock_release in H
  | H : stalls (trio_cr_gw_lock_acquire _) _ |- _ =>
      unfold trio_cr_gw_lock_acquire in H
  | _ => stall_step
  end.

(** A gateway access fails to return only when the lock register read as
    held [fuel] times in a row. *)
Lemma gw_access_stalls (fuel : nat) (addr value : Z) l :
  stalls (trio_cr_gw_read fuel addr) l \/
  stalls (trio_cr_gw_write fuel addr value) l ->
  lock_stayed_held fuel l.
Proof.
  intros [H | H]; [unfold trio_cr_gw_read in H | unfold trio_cr_gw_write in H];
    repeat cap_stall_step;
    match goal with
    | H : stalls (trio_cr_gw_lock_acquire_wait _) _ |- _ =>
        apply lock_acquire_wait_stalls in H;
        destruct H as (held & -> & Hlen & Hb);
        exists [], held; auto
    end.
Qed.

Lemma gw_write_returns (addr value : Z) l :
  stalls (gw_write addr value) l -> False.
Proof. unfold gw_write. intros H. repeat stall_step. Qed.

Lemma gw_read_returns (addr : Z) l : stalls (gw_read addr) l -> False.
Proof. unfold gw_read. intros H. repeat stall_step. Qed.

Lemma ctl_stayed_pending_app (regs : rshim_regs) (fuel : nat) l1 l2 :
  ctl_stayed_pending regs fuel l2 -> ctl_stayed_pending regs fuel (l1 ++ l2).
Proof.
  intros (l_pre & busy & -> & Hlen & Hb).
  exists (l1 ++ l_pre), busy. rewrite app_assoc. auto.
Qed.

Ltac gw_stall_step :=
  match goal with
  | H : stalls (gw_write _ _) _ |- _ => destruct (gw_write_returns _ _ _ H)
  | H : stalls (gw_read _) _ |- _ => destruct (gw_read_returns _ _ H)
  | _ => stall_step
  end.

Ltac pending_stall :=
  repeat apply ctl_stayed_pending_app;
  match goal with
  | H : stalls (rshim_byte_acc_pending_wait _ _) _ |- _ =>
      apply pending_wait_stalls in H;
      destruct H as (busy & -> & Hlen & Hb);
      exists [], busy; auto
  end.

(** The widget and the register routines fail to return only when the
    control register kept meeting the loop condition for the whole fuel;
    the boot-FIFO write always returns. *)
Lemma byte_acc_read_stalls (regs : rshim_regs) (h : bool) (fuel : nat)
  (addr : Z) l :
  stalls (rshim_byte_acc_read regs h fuel addr) l ->
  ctl_stayed_pending regs fuel l.
Proof.
  intros H. unfold rshim_byte_acc_read in H.
  repeat gw_stall_step; pending_stall.
Qed.

Lemma byte_acc_write_stalls (regs : rshim_regs) (fuel : nat)
  (addr value : Z) l :
  stalls (rshim_byte_acc_write regs fuel addr value) l ->
  ctl_stayed_pending regs fuel l.
Proof.
  intros H. unfold rshim_byte_acc_write in H.
  repeat gw_stall_step; pending_stall.
Qed.

Lemma boot_fifo_write_returns (addr value : Z) l :
  stalls (rshim_boot_fifo_write addr value) l -> False.
Proof. unfold rshim_boot_fifo_write. intros H. repeat gw_stall_step. Qed.

Lemma pcie_read_stalls (regs : rshim_regs) (h : bool) (fuel : nat)
  (dev : rshim_pcie) (chan addr : Z) l :
  stalls (rshim_pcie_read regs h fuel dev chan addr) l ->
  ctl_stayed_pending regs fuel l.
Proof.
  intros H. unfold rshim_pcie_read in H. cbv zeta in H.
  repeat stall_step. eapply byte_acc_read_stalls; eassumption.
Qed.

Lemma pcie_write_stalls (regs : rshim_regs) (h : bool) (fuel : nat)
  (dev : rshim_pcie) (chan addr value : Z) l :
  stalls (rshim_pcie_write regs h fuel dev chan addr value) l ->
  ctl_stayed_pending regs fuel l.
Proof.
  intros H. unfold rshim_pcie_write, rshim_pcie_write_drain in H.
  cbv zeta in H.
  repeat stall_step; repeat apply ctl_stayed_pending_app;
    first [ eapply pcie_read_stalls; eassumption
          | eapply byte_acc_write_stalls; eassumption
          | exfalso; eapply boot_fifo_write_returns; eassumption ].
Qed.

(** A boot-stream write below the threshold has no wait in it. *)
Lemma boot_stream_write_returns (regs : rshim_regs) (h : bool) (fuel : nat)
  (dev : rshim_pcie) (chan value : Z) l :
  write_count dev <> 7 ->
  stalls (rshim_pcie_write regs h fuel dev chan (RSH_BOOT_FIFO_DATA regs)
            value) l -> False.
Proof.
  intros H7 H. unfold rshim_pcie_write, rshim_pcie_write_drain in H.
  cbv zeta in H. rewrite Z.eqb_refl in H.
  destruct (Z.eqb_spec (write_count dev) 7) as [? | _]; [contradiction |].
  repeat stall_step. eapply boot_fifo_write_returns; eassumption.
Qed.

Lemma pcie_writes_stalls (regs : rshim_regs) (h : bool) (fuel : nat)
  (ws : list (Z * Z * Z)) :
  forall dev l,
    stalls (pcie_writes regs h fuel dev ws) l ->
    ctl_stayed_pending regs fuel l.
Proof.
  induction ws as [| [[chan addr] value] ws IH]; intros dev l H;
    cbn [pcie_writes] in H.
  - inversion H.
  - apply stalls_bind_inv in H.
    destruct H as [H | (l1 & l2 & [rc dev1] & -> & _ & H)].
    + eapply pcie_write_stalls; eassumption.
    + apply ctl_stayed_pending_app.
      apply stalls_bind_inv in H.
      destruct H as [H | (l3 & l4 & [rcs dev2] & -> & _ & H)];
        [eapply IH; eassumption | inversion H].
Qed.

(** ** The USB path: no function of it waits *)

Lemma usb_functions_return (h : bool) (tmfifo : Z) (dev : rshim_usb_t)
  (urb : libusb_transfer) (chan addr value count devtype : Z) l :
  stalls (rshim_usb_read_rshim h dev chan addr) l \/
  stalls (rshim_usb_write_rshim h dev chan addr value) l \/
  stalls (rshim_usb_boot_write dev count) l \/
  stalls (rshim_usb_fifo_read dev count) l \/
  stalls (rshim_usb_fifo_write dev count) l \/
  stalls (rshim_usb_fifo_read_callback dev urb) l \/
  stalls (rshim_usb_fifo_write_callback dev urb) l \/
  stalls (rshim_usb_backend_read tmfifo dev devtype count) l ->
  False.
Proof.
  unfold rshim_usb_read_rshim, rshim_usb_write_rshim, rshim_usb_boot_write,
    rshim_usb_backend_read, rshim_usb_fifo_read, rshim_usb_fifo_write,
    rshim_usb_fifo_read_callback, rshim_usb_fifo_write_callback.
  cbv zeta.
  intros [H | [H | [H | [H | [H | [H | [H | H]]]]]]]; repeat stall_step.
Qed.

(** * Linking the layers *)

Section Interp.
Context {E R F S : Type} (h : E -> prog F S R).

Lemma runs_interp_inv {A : Type} (p : prog E R A) :
  forall l a, runs (interp h p) l a ->
    exists lh, runs p lh a /\ expands h lh l.
Proof.
  induction p as [a0 | e k IH | ]; intros l a H; cbn [interp] in H.
  - apply runs_Ret_inv in H. destruct H as [-> ->].
    exists []. split; constructor.
  - apply runs_bind_inv in H. destruct H as (l1 & l2 & r & -> & H1 & H2).
    destruct (IH _ _ _ H2) as (lh & Hp & Hx).
    exists ((e, r) :: lh). split; constructor; assumption.
  - inversion H.
Qed.

Lemma runs_interp {A : Type} (p : prog E R A) :
  forall lh l a, runs p lh a -> expands h lh l -> runs (interp h p) l a.
Proof.
  induction p as [a0 | e k IH | ]; intros lh l a H Hx; cbn [interp].
  - apply runs_Ret_inv in H. destruct H as [-> ->].
    inversion Hx; subst. constructor.
  - apply runs_Call_inv in H. destruct H as (r & lh' & -> & H).
    inversion Hx; subst. eapply runs_bind; [eassumption |].
    eapply IH; eassumption.
  - inversion H.
Qed.

End Interp.

(** The capability primitives answer 0 or the negative code of the libpci
    write that failed; a read stores a word exactly when it answers 0. *)
Lemma pci_cap_read_runs (offset : Z) l rc result :
  runs (pci_cap_read offset) l (rc, result) ->
  (rc = 0 /\ exists x v,
     result = Some (u32 v) /\ 0 <= x /\
     l = [(PciWriteLong MELLANOX_ADDR (u32 (Z.lor offset MELLANOX_CAP_READ)), x);
          (PciReadLong MELLANOX_DATA, v)]) \/
  (rc < 0 /\ result = None /\
   l = [(PciWriteLong MELLANOX_ADDR (u32 (Z.lor offset MELLANOX_CAP_READ)), rc)]).
Proof.
  intros H. unfold pci_cap_read in H.
  apply runs_bind_inv in H. destruct H as (l1 & l2 & x & -> & Hc & H).
  apply runs_call_inv in Hc. subst l1.
  destruct (Z.ltb_spec x 0) as [Hx | Hx].
  - apply runs_Ret_inv in H. destruct H as [-> Heq]. pair_inj. subst.
    right. auto.
  - apply runs_bind_inv in H. destruct H as (l3 & l4 & v & -> & Hr & H).
    apply runs_call_inv in Hr. subst l3.
    apply runs_Ret_inv in H. destruct H as [-> Heq]. pair_inj. subst.
    left. split; [reflexivity |]. exists x, v. auto.
Qed.

Lemma pci_cap_write_runs (offset value : Z) l rc :
  runs (pci_cap_write offset value) l rc ->
  rc <= 0 /\
  (rc = 0 ->
   exists x1 x2,
     0 <= x1 /\ 0 <= x2 /\
     l = [(PciWriteLong MELLANOX_DATA (u32 value), x1);
          (PciWriteLong MELLANOX_ADDR (u32 offset), x2)]).
Proof.
  intros H. unfold pci_cap_write in H.
  apply runs_bind_inv in H. destruct H as (l1 & l2 & x1 & -> & Hc & H).
  apply runs_call_inv in Hc. subst l1.
  destruct (Z.ltb_spec x1 0) as [Hx1 | Hx1].
  - apply runs_Ret_inv in H. destruct H as [-> ->]. split; lia.
  - apply runs_bind_inv in H. destruct H as (l3 & l4 & x2 & -> & Hw & H).
    apply runs_call_inv in Hw. subst l3.
    destruct (Z.ltb_spec x2 0) as [Hx2 | Hx2];
      apply runs_Ret_inv in H; destruct H as [-> ->]; split; try lia.
    intros _. exists x1, x2. auto.
Qed.

(** One boot-stream write on a device that answers every libpci call
    with 1 (libpci's success) or, for a read, the word 1: two gateway
    writes, each of them a poll of the lock, the acquire, four capability
    writes and the release. *)
Lemma boot_stream_write_on_pci :
  exists l,
    runs (rshim_pcie_write_on_pci sample_regs false 1 (sample_pcie 0) 0 0x408
            0x1122334455667788) l (0, sample_pcie 1) /\
    length l = 28%nat.
Proof.
  eexists. split.
  - apply exec_runs with (env := fun _ _ => 1) (hist := []).
    vm_compute. reflexivity.
  - reflexivity.
Qed.

(** * Every run has an outcome

    Whatever the device answers, a routine of the PCIe path returns, and
    the facts above apply to that run, or one of its waits saw the device
    busy for the whole fuel; the USB routines always return. *)

Lemma outcome_intro {E R A : Type} (env : trace E R -> E -> R)
  (p : prog E R A) (gave_up : trace E R -> Prop) :
  (forall l, stalls p l -> gave_up l) -> outcome env p (runs p) gave_up.
Proof.
  intros Hs. unfold outcome.
  destruct (exec env [] p) as [l [a |]] eqn:Hx.
  - eapply exec_runs; eassumption.
  - apply Hs. eapply exec_stalls; eassumption.
Qed.

Lemma gw_access_outcome (env : trace cap_call resp -> cap_call -> resp)
  (fuel : nat) (addr value : Z) :
  outcome env (trio_cr_gw_read fuel addr)
    (runs (trio_cr_gw_read fuel addr)) (lock_stayed_held fuel) /\
  outcome env (trio_cr_gw_write fuel addr value)
    (runs (trio_cr_gw_write fuel addr value)) (lock_stayed_held fuel).
Proof.
  split; apply outcome_intro; intros l H;
    apply (gw_access_stalls fuel addr value); auto.
Qed.

Lemma pcie_register_access_outcome
  (env : trace gw_call resp -> gw_call -> resp)
  (regs : rshim_regs) (h : bool) (fuel : nat) (dev : rshim_pcie)
  (chan addr value : Z) :
  outcome env (rshim_pcie_read regs h fuel dev chan addr)
    (runs (rshim_pcie_read regs h fuel dev chan addr))
    (ctl_stayed_pending regs fuel) /\
  outcome env (rshim_pcie_write regs h fuel dev chan addr value)
    (runs (rshim_pcie_write regs h fuel dev chan addr value))
    (ctl_stayed_pending regs fuel).
Proof.
  split; apply outcome_intro; intros l H;
    [eapply pcie_read_stalls | eapply pcie_write_stalls]; eassumption.
Qed.

Lemma byte_acc_read_outcome (env : trace gw_call resp -> gw_call -> resp)
  (regs : rshim_regs) (h : bool) (fuel : nat) (addr : Z) :
  outcome env (rshim_byte_acc_read regs h fuel addr)
    (runs (rshim_byte_acc_read regs h fuel addr))
    (ctl_stayed_pending regs fuel).
Proof.
  apply outcome_intro. intros l H. eapply byte_acc_read_stalls; eassumption.
Qed.

Lemma pcie_writes_outcome (env : trace gw_call resp -> gw_call -> resp)
  (regs : rshim_regs) (h : bool) (fuel : nat) (dev : rshim_pcie)
  (ws : list (Z * Z * Z)) :
  outcome env (pcie_writes regs h fuel dev ws)
    (runs (pcie_writes regs h fuel dev ws)) (ctl_stayed_pending regs fuel).
Proof.
  apply outcome_intro. intros l H. eapply pcie_writes_stalls; eassumption.
Qed.

(** Every answer of an environment shows up in the trace it produces. *)
Lemma exec_answers {E R A : Type} (env : trace E R -> E -> R)
  (P : R -> Prop) (p : prog E R A) :
  (forall hist e, P (env hist e)) ->
  forall hist l o, exec env hist p = (l, o) -> Forall (fun c => P (snd c)) l.
Proof.
  intros HP. induction p as [a | e k IH | ]; intros hist l o He;
    cbn [exec] in He.
  - inversion He; subst. constructor.
  - destruct (exec env (hist ++ [(e, env hist e)]) (k (env hist e)))
      as [l2 o2] eqn:Hk.
    inversion He; subst. constructor; [apply HP |].
    eapply IH; eassumption.
  - inversion He; subst. constructor.
Qed.

(** A device whose control register never meets the loop condition lets
    every register write return, whatever the fuel above 0. *)
Lemma pcie_write_returns_when_ready
  (env : trace gw_call resp -> gw_call -> resp)
  (regs : rshim_regs) (h : bool) (fuel : nat) (dev : rshim_pcie)
  (chan addr value : Z) :
  (0 < fuel)%nat ->
  (forall hist e, wait_continues regs (snd (env hist e)) = false) ->
  outcome env (rshim_pcie_write regs h fuel dev chan addr value)
    (runs (rshim_pcie_write regs h fuel dev chan addr value))
    (fun _ => False).
Proof.
  intros Hfuel Hready. unfold outcome.
  destruct (exec env [] (rshim_pcie_write regs h fuel dev chan addr value))
    as [l [r |]] eqn:Hx.
  - eapply exec_runs; eassumption.
  - pose proof (exec_answers env
                  (fun r => wait_continues regs (snd r) = false)
                  _ Hready _ _ _ Hx) as Hl.
    apply exec_stalls in Hx. apply pcie_write_stalls in Hx.
    destruct Hx as (l_pre & busy & -> & Hlen & Hb).
    destruct busy as [| w busy]; [simpl in Hlen; lia |].
    apply Forall_app in Hl. destruct Hl as [_ Hl].
    inversion Hl as [| c cs Hc _]; subst.
    inversion Hb as [| w' ws Hw _]; subst.
    cbn [snd ctl_poll] in Hc. congruence.
Qed.

Lemma boot_stream_write_outcome
  (env : trace gw_call resp -> gw_call -> resp)
  (regs : rshim_regs) (h : bool) (fuel : nat) (dev : rshim_pcie)
  (chan value : Z) :
  write_count dev <> 7 ->
  outcome env
    (rshim_pcie_write regs h fuel dev chan (RSH_BOOT_FIFO_DATA regs) value)
    (runs (rshim_pcie_write regs h fuel dev chan (RSH_BOOT_FIFO_DATA regs)
             value))
    (fun _ => False).
Proof.
  intros H7. apply outcome_intro. intros l H.
  eapply boot_stream_write_returns; eassumption.
Qed.

Lemma usb_outcome (env : trace usb_call resp -> usb_call -> resp)
  (h : bool) (tmfifo : Z) (dev : rshim_usb_t) (urb : libusb_transfer)
  (chan addr value count : Z) :
  outcome env (rshim_usb_read_rshim h dev chan addr)
    (runs (rshim_usb_read_rshim h dev chan addr)) (fun _ => False) /\
  outcome env (rshim_usb_write_rshim h dev chan addr value)
    (runs (rshim_usb_write_rshim h dev chan addr value)) (fun _ => False) /\
  outcome env (rshim_usb_boot_write dev count)
    (runs (rshim_usb_boot_write dev count)) (fun _ => False) /\
  outcome env (rshim_usb_fifo_read_callback dev urb)
    (runs (rshim_usb_fifo_read_callback dev urb)) (fun _ => False) /\
  outcome env (rshim_usb_fifo_write_callback dev urb)
    (runs (rshim_usb_fifo_write_callback dev urb)) (fun _ => False) /\
  outcome env (rshim_usb_fifo_write dev count)
    (runs (rshim_usb_fifo_write dev count)) (fun _ => False) /\
  outcome env (rshim_usb_backend_read tmfifo dev tmfifo count)
    (runs (rshim_usb_backend_read tmfifo dev tmfifo count)) (fun _ => False).
Proof.
  repeat split; apply outcome_intro; intros l H;
    apply (usb_functions_return h tmfifo dev urb chan addr value count
             tmfifo l); tauto.
Qed.

(** * Byte order: round trips *)

Lemma of_be_bytes_snoc (bs : list Z) (b : Z) :
  of_be_bytes (bs ++ [b]) = of_be_bytes bs * 256 + b.
Proof. unfold of_be_bytes. rewrite fold_left_app. reflexivity. Qed.

Lemma of_le_bytes_cons (b : Z) (bs : list Z) :
  of_le_bytes (b :: bs) = b + 256 * of_le_bytes bs.
Proof.
  unfold of_le_bytes. cbn [rev]. rewrite of_be_bytes_snoc. lia.
Qed.

Lemma of_le_bytes_nil : of_le_bytes [] = 0.
Proof. reflexivity. Qed.

Lemma le_bytes_length (n : nat) : forall x, length (le_bytes n x) = n.
Proof. induction n as [| n IH]; intros x; cbn [le_bytes length]; auto. Qed.

Lemma le_bytes_range (n : nat) : forall x, byte_range (le_bytes n x).
Proof.
  induction n as [| n IH]; intros x; cbn [le_bytes]; constructor.
  - apply Z.mod_pos_bound. lia.
  - apply IH.
Qed.

Lemma of_le_bytes_range (bs : list Z) :
  byte_range bs -> 0 <= of_le_bytes bs < 256 ^ Z.of_nat (length bs).
Proof.
  induction 1 as [| b bs Hb _ IH].
  - rewrite of_le_bytes_nil. cbn. lia.
  - rewrite of_le_bytes_cons. cbn [length]. rewrite Nat2Z.inj_succ.
    rewrite Z.pow_succ_r by lia. lia.
Qed.

Lemma of_le_bytes_le_bytes (n : nat) :
  forall x, of_le_bytes (le_bytes n x) = x mod 256 ^ Z.of_nat n.
Proof.
  induction n as [| n IH]; intros x; cbn [le_bytes].
  - rewrite of_le_bytes_nil. cbn [Z.of_nat]. rewrite Z.pow_0_r, Z.mod_1_r.
    reflexivity.
  - rewrite of_le_bytes_cons, IH, Nat2Z.inj_succ, Z.pow_succ_r by lia.
    rewrite Z.rem_mul_r by lia. reflexivity.
Qed.

Lemma le_bytes_of_le_bytes (bs : list Z) :
  byte_range bs -> le_bytes (length bs) (of_le_bytes bs) = bs.
Proof.
  induction 1 as [| b bs Hb Hbs IH]; [reflexivity |].
  cbn [length le_bytes]. rewrite of_le_bytes_cons.
  assert (Hm : (b + 256 * of_le_bytes bs) mod 256 = b).
  { Z.div_mod_to_equations. lia. }
  assert (Hd : (b + 256 * of_le_bytes bs) / 256 = of_le_bytes bs).
  { Z.div_mod_to_equations. lia. }
  rewrite Hm, Hd, IH. reflexivity.
Qed.

Lemma byte_range_rev (bs : list Z) : byte_range bs -> byte_range (rev bs).
Proof. unfold byte_range. apply Forall_rev. Qed.

Lemma of_be_bytes_rev (bs : list Z) : of_be_bytes (rev bs) = of_le_bytes bs.
Proof. reflexivity. Qed.

Lemma of_be_bytes_as_le (bs : list Z) : of_be_bytes bs = of_le_bytes (rev bs).
Proof. unfold of_le_bytes. rewrite rev_involutive. reflexivity. Qed.

Lemma of_host_bytes_range (h : bool) (bs : list Z) :
  byte_range bs -> length bs = 8%nat -> 0 <= of_host_bytes h bs < 2 ^ 64.
Proof.
  intros Hb Hl. unfold of_host_bytes. destruct h.
  - rewrite of_be_bytes_as_le.
    pose proof (of_le_bytes_range _ (byte_range_rev _ Hb)) as Hr.
    rewrite length_rev, Hl in Hr. exact Hr.
  - pose proof (of_le_bytes_range _ Hb) as Hr. rewrite Hl in Hr. exact Hr.
Qed.

(** The bytes of an object built from eight bytes are those bytes. *)
Lemma host_bytes_of_host_bytes (h : bool) (bs : list Z) :
  byte_range bs -> length bs = 8%nat ->
  host_bytes h 8 (of_host_bytes h bs) = bs.
Proof.
  intros Hb Hl. unfold host_bytes, of_host_bytes. destruct h.
  - rewrite of_be_bytes_as_le.
    replace 8%nat with (length (rev bs)) by (rewrite length_rev; exact Hl).
    rewrite le_bytes_of_le_bytes by (apply byte_range_rev; exact Hb).
    apply rev_involutive.
  - rewrite <- Hl. apply le_bytes_of_le_bytes. exact Hb.
Qed.

Lemma of_host_bytes_host_bytes (h : bool) (x : Z) :
  of_host_bytes h (host_bytes h 8 x) = u64 x.
Proof.
  unfold host_bytes, of_host_bytes. destruct h.
  - rewrite of_be_bytes_rev. apply (of_le_bytes_le_bytes 8).
  - apply (of_le_bytes_le_bytes 8).
Qed.

Lemma host_bytes_range (h : bool) (x : Z) :
  byte_range (host_bytes h 8 x) /\ length (host_bytes h 8 x) = 8%nat.
Proof.
  unfold host_bytes. destruct h.
  - split; [apply byte_range_rev, le_bytes_range |].
    rewrite length_rev. apply le_bytes_length.
  - split; [apply le_bytes_range | apply le_bytes_length].
Qed.

Lemma host_bytes_u64 (h : bool) (x : Z) :
  0 <= x < 2 ^ 64 -> host_bytes h 8 (u64 x) = host_bytes h 8 x.
Proof. intros Hx. rewrite u64_small by exact Hx. reflexivity. Qed.

(** [be64toh] undoes itself on either kind of host. *)
Lemma be64toh_involutive (h : bool) (x : Z) :
  be64toh h (be64toh h x) = u64 x.
Proof.
  unfold be64toh.
  destruct (host_bytes_range h (u64 x)) as [Hb Hl].
  set (bs := host_bytes h 8 (u64 x)) in *.
  assert (Hy : 0 <= of_be_bytes bs < 2 ^ 64)
    by (apply (of_host_bytes_range true); assumption).
  rewrite (u64_small _ Hy).
  (* reading [bs] big-endian is reading [rev bs] in host order, or [bs]
     itself, according to the host *)
  destruct h.
  - change (of_be_bytes bs) with (of_host_bytes true bs).
    rewrite host_bytes_of_host_bytes by assumption.
    unfold bs. rewrite (of_host_bytes_host_bytes true).
    apply u64_small, u64_range.
  - rewrite (of_be_bytes_as_le bs).
    change (of_le_bytes (rev bs)) with (of_host_bytes false (rev bs)).
    rewrite host_bytes_of_host_bytes
      by (try apply byte_range_rev; try rewrite length_rev; assumption).
    rewrite of_be_bytes_rev. unfold bs, host_bytes.
    rewrite (of_le_bytes_le_bytes 8). apply u64_small, u64_range.
Qed.

(** * rshim_usb.c: further facts *)

(** ** Register values on the wire *)

Lemma write_rshim_shape (h : bool) (dev : rshim_usb_t) (chan addr value : Z)
  l ret dev' :
  has_rshim (bd dev) = true ->
  runs (rshim_usb_write_rshim h dev chan addr value) l (ret, dev') ->
  dev' = set_ctrl_data dev (htole64 h value) /\
  exists rc x,
    l = [(LibusbControlTransfer
            (Z.lor LIBUSB_ENDPOINT_OUT
               (Z.lor LIBUSB_REQUEST_TYPE_VENDOR LIBUSB_RECIPIENT_ENDPOINT))
            0 chan addr (htole64 h value) 8 RSHIM_USB_TIMEOUT, (rc, x))] /\
    ret = (if size_t_of_int rc =? 8 then 0 else usb_rw_status rc).
Proof.
  intros Hh H. unfold rshim_usb_write_rshim in H. rewrite Hh in H.
  cbn [negb] in H. cbv zeta in H. apply runs_bind_inv in H.
  destruct H as (l1 & l2 & [rc x] & -> & Hc & H).
  apply runs_call_inv in Hc. subst l1.
  destruct (size_t_of_int rc =? 8) eqn:H8;
    apply runs_Ret_inv in H; destruct H as [-> Heq]; pair_inj; subst;
    (split; [reflexivity |]); exists rc, x; rewrite H8; split; reflexivity.
Qed.

Lemma read_rshim_shape (h : bool) (dev : rshim_usb_t) (chan addr : Z)
  l ret res dev' :
  has_rshim (bd dev) = true ->
  runs (rshim_usb_read_rshim h dev chan addr) l (ret, res, dev') ->
  exists rc data,
    l = [(LibusbControlTransfer
            (Z.lor LIBUSB_ENDPOINT_IN
               (Z.lor LIBUSB_REQUEST_TYPE_VENDOR LIBUSB_RECIPIENT_ENDPOINT))
            0 chan addr (ctrl_data dev) 8 RSHIM_USB_TIMEOUT, (rc, data))] /\
    dev' = set_ctrl_data dev (u64 data) /\
    res = Some (le64toh h (u64 data)) /\
    ret = (if size_t_of_int rc =? 8 then 0 else usb_rw_status rc).
Proof.
  intros Hh H. unfold rshim_usb_read_rshim in H. rewrite Hh in H.
  cbn [negb] in H. apply runs_bind_inv in H.
  destruct H as (l1 & l2 & [rc data] & -> & Hc & H).
  apply runs_call_inv in Hc. subst l1. cbv zeta in H.
  destruct (size_t_of_int rc =? 8) eqn:H8;
    apply runs_Ret_inv in H; destruct H as [-> Heq]; pair_inj; subst;
    exists rc, data; rewrite H8; repeat split; reflexivity.
Qed.

Lemma htole64_range (h : bool) (x : Z) : 0 <= htole64 h x < 2 ^ 64.
Proof.
  unfold htole64. apply of_host_bytes_range;
    [apply le_bytes_range | apply le_bytes_length].
Qed.

(** X1: whatever the byte order of the host, the eight bytes a register
    write hands to the control transfer are the value in little-endian
    order. *)
Theorem usb_register_write_is_little_endian_on_the_wire
  (host_big_endian : bool) (dev : rshim_usb_t) (chan addr value : Z)
  (l : trace usb_call resp) (ret : Z) (dev' : rshim_usb_t) :
  has_rshim (bd dev) = true ->
  runs (rshim_usb_write_rshim host_big_endian dev chan addr value) l
       (ret, dev') ->
  exists payload rc x,
    l = [(LibusbControlTransfer 0x42 0 chan addr payload 8 RSHIM_USB_TIMEOUT,
          (rc, x))] /\
    payload = ctrl_data dev' /\
    host_bytes host_big_endian 8 payload = le_bytes 8 (u64 value).
Proof.
  intros Hh H.
  destruct (write_rshim_shape _ _ _ _ _ _ _ _ Hh H)
    as (-> & rc & x & -> & _).
  exists (htole64 host_big_endian value), rc, x.
  repeat split. unfold htole64.
  apply host_bytes_of_host_bytes; [apply le_bytes_range | apply le_bytes_length].
Qed.

Lemma usb_register_write_is_little_endian_on_the_wire_witness :
  has_rshim (bd (sample_usb 0)) = true /\
  runs (rshim_usb_write_rshim true (sample_usb 0) 1 0x408 0x1122334455667788)
       [(LibusbControlTransfer 0x42 0 1 0x408 0x8877665544332211 8 20000,
         (8, 0))]
       (0, set_ctrl_data (sample_usb 0) 0x8877665544332211) /\
  host_bytes true 8 0x8877665544332211
  = [0x88; 0x77; 0x66; 0x55; 0x44; 0x33; 0x22; 0x11].
Proof.
  assert (Hrun :
    runs (rshim_usb_write_rshim true (sample_usb 0) 1 0x408
            0x1122334455667788)
         [(LibusbControlTransfer 0x42 0 1 0x408 0x8877665544332211 8 20000,
           (8, 0))]
         (0, set_ctrl_data (sample_usb 0) 0x8877665544332211)).
  { apply exec_runs with (env := reply 8 0) (hist := []).
    vm_compute. reflexivity. }
  split; [reflexivity |]. split; [exact Hrun |].
  destruct (usb_register_write_is_little_endian_on_the_wire true
              (sample_usb 0) 1 0x408 0x1122334455667788 _ 0 _ eq_refl Hrun)
    as (payload & rc & x & Hl & _ & Hbytes).
  injection Hl as Hp _ _. subst payload. exact Hbytes.
Defined.

(** X2: a register read that gets back the eight bytes a register write
    sent returns the value written, on either kind of host. *)
Theorem usb_register_write_then_read_round_trip
  (host_big_endian : bool) (dev dev1 dev2 : rshim_usb_t)
  (chan addr value rc x retw retr : Z) (res : option Z)
  (lw : trace usb_call resp) (e : usb_call) :
  has_rshim (bd dev) = true ->
  runs (rshim_usb_write_rshim host_big_endian dev chan addr value) lw
       (retw, dev1) ->
  runs (rshim_usb_read_rshim host_big_endian dev1 chan addr)
       [(e, (rc, ctrl_data dev1))] (retr, res, dev2) ->
  res = Some (u64 value).
Proof.
  intros Hh Hw Hr.
  destruct (write_rshim_shape _ _ _ _ _ _ _ _ Hh Hw) as (-> & _).
  assert (Hh1 : has_rshim (bd (set_ctrl_data dev (htole64 host_big_endian value)))
                = true) by exact Hh.
  destruct (read_rshim_shape _ _ _ _ _ _ _ _ Hh1 Hr)
    as (rc' & data & Hl & _ & -> & _).
  injection Hl as _ _ Hd. subst data. cbn [ctrl_data set_ctrl_data].
  f_equal. unfold le64toh.
  rewrite (u64_small _ (htole64_range _ _)).
  rewrite (u64_small _ (htole64_range _ _)).
  unfold htole64.
  rewrite host_bytes_of_host_bytes
    by (try apply le_bytes_range; try apply le_bytes_length).
  rewrite (of_le_bytes_le_bytes 8).
  exact (u64_small _ (u64_range value)).
Qed.

Lemma usb_register_write_then_read_round_trip_witness :
  has_rshim (bd (sample_usb 0)) = true /\
  runs (rshim_usb_write_rshim true (sample_usb 0) 1 0x408 0x1122334455667788)
       [(LibusbControlTransfer 0x42 0 1 0x408 0x8877665544332211 8 20000,
         (8, 0))]
       (0, set_ctrl_data (sample_usb 0) 0x8877665544332211) /\
  runs (rshim_usb_read_rshim true
          (set_ctrl_data (sample_usb 0) 0x8877665544332211) 1 0x408)
       [(LibusbControlTransfer 0xc2 0 1 0x408 0x8877665544332211 8 20000,
         (8, 0x8877665544332211))]
       (0, Some 0x1122334455667788,
        set_ctrl_data (sample_usb 0) 0x8877665544332211) /\
  Some 0x1122334455667788 = Some (u64 0x1122334455667788).
Proof.
  assert (Hw :
    runs (rshim_usb_write_rshim true (sample_usb 0) 1 0x408
            0x1122334455667788)
         [(LibusbControlTransfer 0x42 0 1 0x408 0x8877665544332211 8 20000,
           (8, 0))]
         (0, set_ctrl_data (sample_usb 0) 0x8877665544332211)).
  { apply exec_runs with (env := reply 8 0) (hist := []).
    vm_compute. reflexivity. }
  assert (Hr :
    runs (rshim_usb_read_rshim true
            (set_ctrl_data (sample_usb 0) 0x8877665544332211) 1 0x408)
         [(LibusbControlTransfer 0xc2 0 1 0x408 0x8877665544332211 8 20000,
           (8, ctrl_data (set_ctrl_data (sample_usb 0) 0x8877665544332211)))]
         (0, Some 0x1122334455667788,
          set_ctrl_data (sample_usb 0) 0x8877665544332211)).
  { apply exec_runs with (env := reply 8 0x8877665544332211) (hist := []).
    vm_compute. reflexivity. }
  split; [reflexivity |]. split; [exact Hw |]. split; [exact Hr |].
  exact (usb_register_write_then_read_round_trip true (sample_usb 0) _ _
           1 0x408 0x1122334455667788 8 0 0 0 _ _ _ eq_refl Hw Hr).
Defined.

(** ** Stream reads: what gets submitted *)

Lemma stream_open_true (dev : rshim_usb_t) :
  stream_open dev = true ->
  negb (has_rshim (bd dev)) || negb (has_tm (bd dev)) || drop_mode (bd dev)
  = false.
Proof.
  unfold stream_open.
  destruct (has_rshim (bd dev)), (has_tm (bd dev)), (drop_mode (bd dev));
    cbn; congruence.
Qed.

(** X3: with the stream open [rshim_usb_fifo_read] makes exactly one
    submission, of the read-or-interrupt transfer and with the retry
    counter reset: a bulk read of [count] bytes on the FIFO-in endpoint when
    bytes are known available, an 8-byte interrupt transfer on the
    notification endpoint otherwise.  The interrupt count is tested as the
    [int] it is cast to, so a count whose low 32 bits are zero counts as
    nothing available. *)
Theorem fifo_read_submits_bulk_or_interrupt
  (dev : rshim_usb_t) (count : Z) (l : trace usb_call resp)
  (dev' : rshim_usb_t) :
  stream_open dev = true ->
  runs (rshim_usb_fifo_read dev count) l dev' ->
  exists urb rc x,
    l = [(LibusbSubmitTransfer urb, (rc, x))] /\
    read_or_intr_urb dev' = urb /\
    urb_obj urb = urb_obj (read_or_intr_urb dev) /\
    read_or_intr_retries dev' = 0 /\
    (bytes_known_available dev = true ->
       urb_type urb = LIBUSB_TRANSFER_TYPE_BULK /\
       endpoint urb = tm_fifo_in_ep dev /\ urb_length urb = count /\
       timeout urb = RSHIM_USB_TIMEOUT /\ read_urb_is_intr dev' = 0) /\
    (bytes_known_available dev = false ->
       urb_type urb = LIBUSB_TRANSFER_TYPE_INTERRUPT /\
       endpoint urb = tm_fifo_int_ep dev /\ urb_length urb = 8 /\
       read_urb_is_intr dev' = 1).
Proof.
  intros Ho H. unfold rshim_usb_fifo_read in H.
  rewrite (stream_open_true _ Ho) in H.
  fold (bytes_known_available dev) in H.
  destruct (bytes_known_available dev); cbv zeta in H;
    apply runs_bind_inv in H; destruct H as (l1 & l2 & [rc x] & -> & Hs & H);
    apply runs_call_inv in Hs; subst l1;
    (destruct (nonzero rc);
     apply runs_Ret_inv in H; destruct H as [-> ->];
     eexists _, rc, x; repeat split; intros; congruence).
Qed.

Lemma fifo_read_submits_bulk_or_interrupt_witness :
  stream_open (usb_with_intr_buf (2 ^ 32)) = true /\
  bytes_known_available (usb_with_intr_buf (2 ^ 32)) = false /\
  exists dev',
    runs (rshim_usb_fifo_read (usb_with_intr_buf (2 ^ 32)) 512)
         [(LibusbSubmitTransfer
             (libusb_fill_interrupt_transfer (sample_urb ReadOrIntrUrb 0 0)
                0x83 8 (u32 (-1))), (0, 0))] dev' /\
    read_urb_is_intr dev' = 1.
Proof.
  split; [reflexivity |]. split; [reflexivity |]. eexists.
  assert (Hrun :
    runs (rshim_usb_fifo_read (usb_with_intr_buf (2 ^ 32)) 512)
         [(LibusbSubmitTransfer
             (libusb_fill_interrupt_transfer (sample_urb ReadOrIntrUrb 0 0)
                0x83 8 (u32 (-1))), (0, 0))]
         (set_read_or_intr_retries
            (set_read_urb_is_intr
               (spin_flags_set
                  (set_read_urb (usb_with_intr_buf (2 ^ 32))
                     (libusb_fill_interrupt_transfer
                        (sample_urb ReadOrIntrUrb 0 0) 0x83 8 (u32 (-1))))
                  RSH_SFLG_READING) 1) 0)).
  { apply exec_runs with (env := ready_env 0) (hist := []).
    vm_compute. reflexivity. }
  split; [exact Hrun |].
  destruct (fifo_read_submits_bulk_or_interrupt
              (usb_with_intr_buf (2 ^ 32)) 512 _ _ eq_refl Hrun)
    as (urb & rc & x & _ & _ & _ & _ & _ & Hintr).
  exact (proj2 (proj2 (proj2 (Hintr eq_refl)))).
Defined.

(** ** Completion callbacks: every status *)

Lemma completed_not_other (st : Z) :
  st = LIBUSB_TRANSFER_COMPLETED -> (st =? LIBUSB_TRANSFER_COMPLETED) = true.
Proof. intros ->. reflexivity. Qed.

(** X4: a read completion with status COMPLETED clears READING, submits
    nothing and sends exactly one input notification.  When the transfer
    was a bulk read it zeroes the interrupt count and stages the bytes
    received, from offset 0; when it was an interrupt transfer it leaves the
    count and the buffer bookkeeping as they are. *)
Theorem read_completion_stages_the_buffer
  (dev : rshim_usb_t) (urb : libusb_transfer) (l : trace usb_call resp)
  (dev' : rshim_usb_t) :
  status urb = LIBUSB_TRANSFER_COMPLETED ->
  runs (rshim_usb_fifo_read_callback dev urb) l dev' ->
  notifications l = [(RSH_EVENT_FIFO_INPUT, 0)] /\ submissions l = [] /\
  reading dev' = false /\
  (read_urb_is_intr dev = 0 ->
     intr_buf dev' = 0 /\ read_buf_bytes (bd dev') = actual_length urb /\
     read_buf_next (bd dev') = 0) /\
  (read_urb_is_intr dev <> 0 ->
     intr_buf dev' = intr_buf dev /\
     read_buf_bytes (bd dev') = read_buf_bytes (bd dev) /\
     read_buf_next (bd dev') = read_buf_next (bd dev)).
Proof.
  intros Hst H. unfold rshim_usb_fifo_read_callback in H. cbv zeta in H.
  rewrite (completed_not_other _ Hst) in H.
  change (read_urb_is_intr (spin_flags_clear dev RSH_SFLG_READING))
    with (read_urb_is_intr dev) in H.
  apply runs_bind_inv in H. destruct H as (l1 & l2 & r & -> & Hn & H).
  apply runs_call_inv in Hn. subst l1.
  apply runs_Ret_inv in H. destruct H as [-> ->].
  pose proof (reading_after_clear dev) as Hclr.
  destruct (Z.eqb_spec (read_urb_is_intr dev) 0) as [Hi | Hi];
    repeat split; auto; intros; try contradiction; try congruence.
Qed.

Lemma read_completion_stages_the_buffer_witness :
  status (completed_read 24) = LIBUSB_TRANSFER_COMPLETED /\
  exists dev',
    runs (rshim_usb_fifo_read_callback (usb_with_intr_buf 24)
            (completed_read 24))
         [(RshimNotify RSH_EVENT_FIFO_INPUT 0, (0, 0))] dev' /\
    intr_buf dev' = 0 /\ read_buf_bytes (bd dev') = 24.
Proof.
  split; [reflexivity |]. eexists.
  assert (Hrun :
    runs (rshim_usb_fifo_read_callback (usb_with_intr_buf 24)
            (completed_read 24))
         [(RshimNotify RSH_EVENT_FIFO_INPUT 0, (0, 0))]
         (set_bd
            (set_intr_buf
               (spin_flags_clear (usb_with_intr_buf 24) RSH_SFLG_READING) 0)
            (set_read_buf
               (bd (spin_flags_clear (usb_with_intr_buf 24) RSH_SFLG_READING))
               24 0))).
  { apply exec_runs with (env := ready_env 0) (hist := []).
    vm_compute. reflexivity. }
  split; [exact Hrun |].
  destruct (proj1 (proj2 (proj2 (proj2
              (read_completion_stages_the_buffer (usb_with_intr_buf 24)
                 (completed_read 24) _ _ eq_refl Hrun)))) eq_refl)
    as (Hi & Hb & _).
  split; [exact Hi | exact Hb].
Defined.


(** What [rshim_usb_fifo_read] submits on an open stream. *)
Lemma fifo_read_submission_kind
  (dev : rshim_usb_t) (count : Z) (l : trace usb_call resp)
  (dev' : rshim_usb_t) :
  stream_open dev = true ->
  runs (rshim_usb_fifo_read dev count) l dev' ->
  exists urb rc x,
    l = [(LibusbSubmitTransfer urb, (rc, x))] /\
    (bytes_known_available dev = true ->
       urb_type urb = LIBUSB_TRANSFER_TYPE_BULK /\
       endpoint urb = tm_fifo_in_ep dev) /\
    (bytes_known_available dev = false ->
       urb_type urb = LIBUSB_TRANSFER_TYPE_INTERRUPT /\
       endpoint urb = tm_fifo_int_ep dev).
Proof.
  intros Ho H. unfold rshim_usb_fifo_read in H.
  rewrite (stream_open_true _ Ho) in H.
  fold (bytes_known_available dev) in H.
  destruct (bytes_known_available dev); cbv zeta in H;
    apply runs_bind_inv in H; destruct H as (l1 & l2 & [rc x] & -> & Hs & H);
    apply runs_call_inv in Hs; subst l1;
    (destruct (nonzero rc);
     apply runs_Ret_inv in H; destruct H as [-> ->];
     eexists _, rc, x; repeat split; intros; congruence).
Qed.

(** X5: how a finished bulk read decides the next submission.  After a
    bulk read completed with [n] bytes, the next [rshim_usb_fifo_read] on a
    still open stream submits a bulk read again when [n] is not 0 and goes
    back to waiting on the interrupt endpoint when [n] is 0. *)
Theorem completed_bulk_read_decides_next_submission
  (dev dev1 dev2 : rshim_usb_t) (urb : libusb_transfer) (count : Z)
  (l1 l2 : trace usb_call resp) :
  status urb = LIBUSB_TRANSFER_COMPLETED -> read_urb_is_intr dev = 0 ->
  stream_open dev = true ->
  runs (rshim_usb_fifo_read_callback dev urb) l1 dev1 ->
  runs (rshim_usb_fifo_read dev1 count) l2 dev2 ->
  exists next rc x,
    l2 = [(LibusbSubmitTransfer next, (rc, x))] /\
    urb_type next = (if actual_length urb =? 0
                     then LIBUSB_TRANSFER_TYPE_INTERRUPT
                     else LIBUSB_TRANSFER_TYPE_BULK) /\
    endpoint next = (if actual_length urb =? 0
                     then tm_fifo_int_ep dev else tm_fifo_in_ep dev).
Proof.
  intros Hst Hi Ho H1 H2.
  unfold rshim_usb_fifo_read_callback in H1. cbv zeta in H1.
  rewrite (completed_not_other _ Hst) in H1.
  change (read_urb_is_intr (spin_flags_clear dev RSH_SFLG_READING))
    with (read_urb_is_intr dev) in H1.
  rewrite Hi in H1. cbn [Z.eqb] in H1.
  apply runs_bind_inv in H1. destruct H1 as (la & lb & r & -> & Hn & H1).
  apply runs_Ret_inv in H1. destruct H1 as [-> ->].
  match type of H2 with
  | runs (rshim_usb_fifo_read ?d _) _ _ =>
      assert (Ho1 : stream_open d = true) by exact Ho;
      assert (Hav : bytes_known_available d
                    = nonzero (actual_length urb)) by reflexivity;
      destruct (fifo_read_submission_kind d count l2 dev2 Ho1 H2)
        as (next & rc & x & -> & Hb & Hint)
  end.
  exists next, rc, x. split; [reflexivity |].
  rewrite Hav in Hb, Hint. unfold nonzero in Hb, Hint.
  destruct (actual_length urb =? 0); cbn [negb] in Hb, Hint.
  - destruct (Hint eq_refl) as (Ht & He). auto.
  - destruct (Hb eq_refl) as (Ht & He). auto.
Qed.

(** ** Completions of both directions *)

Lemma negated_negative (x : Z) : x <> 0 -> negated x < 0.
Proof. unfold negated. destruct (Z.gtb_spec x 0); lia. Qed.

Lemma not_completed (st : Z) :
  (st =? LIBUSB_TRANSFER_COMPLETED) = false -> st <> 0.
Proof. intros H ->. discriminate. Qed.

Ltac error_code_negative :=
  repeat constructor;
  first [ apply negated_negative, nonzero_true; assumption
        | apply negated_negative, not_completed; assumption ].

(** X6: whatever the status, a completion callback notifies the upper
    layer at most once and resubmits at most once, never both notifies a
    success and resubmits, and every FIFO-error code it passes is strictly
    negative. *)
Theorem completion_notifies_at_most_once
  (dev : rshim_usb_t) (urb : libusb_transfer) (l : trace usb_call resp)
  (dev' : rshim_usb_t) :
  runs (completion_callback dev urb) l dev' ->
  (length (notifications l) <= 1)%nat /\
  (length (submissions l) <= 1)%nat /\
  Forall (fun code => code < 0) (fifo_errors l) /\
  (forall ev code, In (ev, code) (notifications l) ->
     ev = RSH_EVENT_FIFO_ERR \/
     (code = 0 /\ submissions l = [] /\
      status urb = LIBUSB_TRANSFER_COMPLETED)).
Proof.
  unfold completion_callback. intros H.
  destruct (urb_obj urb);
    [unfold rshim_usb_fifo_read_callback in H
    | unfold rshim_usb_fifo_write_callback in H];
    cbv zeta in H; repeat run_step; rewrite ?app_nil_r;
    cbn [app notifications submissions fifo_errors length];
    (split; [lia |]); (split; [lia |]);
    (split; [first [constructor; fail | error_code_negative] |]);
    intros ev code Hin; cbn [In] in Hin;
    repeat match goal with
           | H : _ \/ _ |- _ => destruct H
           | H : False |- _ => destruct H
           | H : (_, _) = (_, _) |- _ => inversion H; subst; clear H
           end;
    auto; right; repeat split;
    match goal with
    | H : (_ =? LIBUSB_TRANSFER_COMPLETED) = true |- _ =>
        apply Z.eqb_eq in H; exact H
    end.
Qed.

Lemma completion_notifies_at_most_once_witness :
  exists l dev',
    runs (completion_callback (sample_usb 0) failed_write) l dev' /\
    Forall (fun code => code < 0) (fifo_errors l).
Proof.
  eexists _, _.
  assert (Hrun :
    runs (completion_callback (sample_usb 0) failed_write)
         [(RshimNotify RSH_EVENT_FIFO_ERR (-1), (0, 0))]
         (spin_flags_clear (sample_usb 0) RSH_SFLG_WRITING)).
  { apply exec_runs with (env := ready_env 0) (hist := []).
    vm_compute. reflexivity. }
  split; [exact Hrun |].
  exact (proj1 (proj2 (proj2
           (completion_notifies_at_most_once _ _ _ _ Hrun)))).
Defined.

Lemma known_status_cases (st : Z) :
  is_known_status st = false ->
  (st =? LIBUSB_TRANSFER_COMPLETED) = false /\
  (st =? LIBUSB_TRANSFER_NO_DEVICE) = false /\
  is_transient st = false /\
  (st =? LIBUSB_TRANSFER_CANCELLED) = false.
Proof.
  unfold is_known_status. intros H.
  repeat (apply orb_false_iff in H; destruct H as [H ?]). auto.
Qed.

Lemma silent_status_cases (st : Z) :
  is_silent_status st = true ->
  (st =? LIBUSB_TRANSFER_COMPLETED) = false /\
  is_transient st = false /\
  ((st =? LIBUSB_TRANSFER_NO_DEVICE) = true \/
   (st =? LIBUSB_TRANSFER_CANCELLED) = true).
Proof.
  unfold is_silent_status, is_transient. intros H.
  apply orb_true_iff in H.
  destruct H as [H | H]; apply Z.eqb_eq in H; rewrite H;
    repeat split; auto.
Qed.

(** X7: the statuses without a case of their own, and the two silent ones.
    A completion whose status is none of COMPLETED, NO_DEVICE, TIMED_OUT,
    STALL, OVERFLOW and CANCELLED makes exactly one call, the FIFO-error
    notification carrying the negated status; a completion with status
    NO_DEVICE or CANCELLED makes no call at all.  In both cases the device
    structure is left as it was except for the direction's busy bit, which
    is cleared. *)
Theorem completion_unknown_status_reported_silent_status_ignored
  (dev : rshim_usb_t) (urb : libusb_transfer) (l : trace usb_call resp)
  (dev' : rshim_usb_t) :
  runs (completion_callback dev urb) l dev' ->
  (is_known_status (status urb) = false ->
     (exists y,
        l = [(RshimNotify RSH_EVENT_FIFO_ERR (negated (status urb)), y)]) /\
     dev' = spin_flags_clear dev (busy_flag (urb_obj urb))) /\
  (is_silent_status (status urb) = true ->
     l = [] /\ dev' = spin_flags_clear dev (busy_flag (urb_obj urb))).
Proof.
  unfold completion_callback. intros H. split.
  - intros Hk. destruct (known_status_cases _ Hk) as (Hc & Hn & Ht & Hx).
    destruct (urb_obj urb);
      [unfold rshim_usb_fifo_read_callback in H
      | unfold rshim_usb_fifo_write_callback in H];
      cbv zeta in H; rewrite Hc, Hn, Ht, Hx in H;
      apply runs_bind_inv in H; destruct H as (l1 & l2 & y & -> & Hcall & H);
      apply runs_call_inv in Hcall; subst l1;
      apply runs_Ret_inv in H; destruct H as [-> ->];
      (split; [exists y; reflexivity | reflexivity]).
  - intros Hs. destruct (silent_status_cases _ Hs) as (Hc & Ht & Hx).
    destruct (urb_obj urb);
      [unfold rshim_usb_fifo_read_callback in H
      | unfold rshim_usb_fifo_write_callback in H];
      cbv zeta in H; rewrite Hc, Ht in H;
      (destruct Hx as [Hx | Hx]; rewrite Hx in H;
       [| destruct (status urb =? LIBUSB_TRANSFER_NO_DEVICE)]);
      apply runs_Ret_inv in H; destruct H as [-> ->]; split; reflexivity.
Qed.

Lemma completion_unknown_status_reported_silent_status_ignored_witness :
  exists l dev',
    runs (completion_callback (sample_usb 0) cancelled_read) l dev' /\
    l = [] /\ dev' = spin_flags_clear (sample_usb 0) RSH_SFLG_READING.
Proof.
  eexists _, _.
  assert (Hrun :
    runs (completion_callback (sample_usb 0) cancelled_read) []
         (spin_flags_clear (sample_usb 0) RSH_SFLG_READING)).
  { apply exec_runs with (env := ready_env 0) (hist := []).
    vm_compute. reflexivity. }
  split; [exact Hrun |].
  exact (proj2
           (completion_unknown_status_reported_silent_status_ignored
              _ _ _ _ Hrun) eq_refl).
Defined.

(** ** The retry counters over a sequence of completions *)

Lemma submitted_app (u : urb_id) (l1 l2 : trace usb_call resp) :
  submitted u (l1 ++ l2) = (submitted u l1 + submitted u l2)%nat.
Proof.
  unfold submitted.
  assert (Hs : submissions (l1 ++ l2) = submissions l1 ++ submissions l2).
  { induction l1 as [| [[] r] l1 IH]; cbn [app submissions]; congruence. }
  rewrite Hs, filter_app, length_app. reflexivity.
Qed.

(** One completion: each retry counter grows by the number of submissions
    of its transfer object, and stays within the ceiling. *)
Lemma completion_retry_step (dev : rshim_usb_t) (urb : libusb_transfer)
  (l : trace usb_call resp) (dev' : rshim_usb_t) :
  runs (completion_callback dev urb) l dev' ->
  read_or_intr_retries dev'
  = read_or_intr_retries dev + Z.of_nat (submitted ReadOrIntrUrb l) /\
  write_retries dev' = write_retries dev + Z.of_nat (submitted WriteUrb l) /\
  (read_or_intr_retries dev <= READ_RETRIES ->
   read_or_intr_retries dev' <= READ_RETRIES) /\
  (write_retries dev <= WRITE_RETRIES -> write_retries dev' <= WRITE_RETRIES).
Proof.
  unfold completion_callback. intros H.
  destruct (urb_obj urb) eqn:Hu;
    [unfold rshim_usb_fifo_read_callback in H
    | unfold rshim_usb_fifo_write_callback in H];
    cbv zeta in H;
    change (read_or_intr_retries (spin_flags_clear dev RSH_SFLG_READING))
      with (read_or_intr_retries dev) in H;
    change (write_retries (spin_flags_clear dev RSH_SFLG_WRITING))
      with (write_retries dev) in H;
    repeat run_step; rewrite ?app_nil_r;
    unfold submitted; cbn [app submissions filter length];
    rewrite ?Hu; cbn [urb_id_eqb filter length];
    try match goal with
        | H : (_ && _) = true |- _ =>
            apply andb_true_iff in H; destruct H as [H _];
            apply Z.ltb_lt in H
        end;
    unfold READ_RETRIES, WRITE_RETRIES in *;
    cbn; try destruct (read_urb_is_intr dev =? 0);
    cbn; repeat split; intros; lia.
Qed.

(** X8: the retry ceilings hold over any sequence of completions of either
    direction delivered without a new request in between.  Each retry
    counter ends at its starting value plus the number of times its
    transfer was handed back to libusb, and a counter that starts within
    its ceiling of 5 stays within it: at most 5 minus the starting value
    resubmissions per direction, however many completions arrive and
    whatever their statuses. *)
Theorem resubmissions_bounded_over_any_completions
  (urbs : list libusb_transfer) (dev : rshim_usb_t)
  (l : trace usb_call resp) (dev' : rshim_usb_t) :
  0 <= read_or_intr_retries dev <= READ_RETRIES ->
  0 <= write_retries dev <= WRITE_RETRIES ->
  runs (completions dev urbs) l dev' ->
  read_or_intr_retries dev'
  = read_or_intr_retries dev + Z.of_nat (submitted ReadOrIntrUrb l) /\
  write_retries dev' = write_retries dev + Z.of_nat (submitted WriteUrb l) /\
  Z.of_nat (submitted ReadOrIntrUrb l)
  <= READ_RETRIES - read_or_intr_retries dev /\
  Z.of_nat (submitted WriteUrb l) <= WRITE_RETRIES - write_retries dev.
Proof.
  revert dev l dev'.
  induction urbs as [| urb urbs IH]; intros dev l dev' Hr Hw H;
    cbn [completions] in H.
  - apply runs_Ret_inv in H. destruct H as [-> ->].
    unfold submitted, READ_RETRIES, WRITE_RETRIES in *.
    cbn [submissions filter length Z.of_nat]. lia.
  - apply runs_bind_inv in H. destruct H as (l1 & l2 & dev1 & -> & H1 & H2).
    destruct (completion_retry_step _ _ _ _ H1) as (Er & Ew & Br & Bw).
    assert (Hr1 : 0 <= read_or_intr_retries dev1 <= READ_RETRIES) by lia.
    assert (Hw1 : 0 <= write_retries dev1 <= WRITE_RETRIES) by lia.
    destruct (IH _ _ _ Hr1 Hw1 H2) as (Er2 & Ew2 & Cr & Cw).
    rewrite !submitted_app, !Nat2Z.inj_add.
    unfold READ_RETRIES, WRITE_RETRIES in *. lia.
Qed.

Lemma resubmissions_bounded_over_any_completions_witness :
  exists l dev',
    runs (completions (sample_usb 4)
            [timed_out_read; timed_out_write; timed_out_read]) l dev' /\
    l = [(LibusbSubmitTransfer timed_out_read, (0, 0));
         (LibusbSubmitTransfer timed_out_write, (0, 0))] /\
    read_or_intr_retries dev' = 5 /\
    Z.of_nat (submitted ReadOrIntrUrb l)
    <= READ_RETRIES - read_or_intr_retries (sample_usb 4).
Proof.
  eexists _, _.
  match goal with
  | |- runs ?p ?l ?d /\ _ => assert (Hrun : runs p l d)
  end.
  { apply exec_runs with (env := ready_env 0) (hist := []).
    vm_compute. reflexivity. }
  split; [exact Hrun |].
  split; [reflexivity |]. split; [reflexivity |].
  refine (proj1 (proj2 (proj2
            (resubmissions_bounded_over_any_completions _ _ _ _ _ _ Hrun))));
    vm_compute; split; discriminate.
Defined.

(** ** Backend write *)

Lemma stream_open_cases (dev : rshim_usb_t) :
  stream_open dev = true ->
  negb (has_rshim (bd dev)) || negb (has_tm (bd dev)) = false /\
  drop_mode (bd dev) = false.
Proof.
  unfold stream_open.
  destruct (has_rshim (bd dev)), (has_tm (bd dev)), (drop_mode (bd dev));
    cbn; intros H; try discriminate; auto.
Qed.

(** X9: the results of [rshim_usb_backend_write].  For the FIFO device
    type: -ENODEV with no call when the rshim or the FIFO interface is
    missing, even in drop mode; 0 with no call in drop mode; otherwise one
    submission of the write transfer, filled as a bulk transfer of [count]
    bytes to the FIFO output endpoint with the retry counter reset, giving 0
    with WRITING set when libusb accepts it and -1, whatever libusb's code,
    with WRITING clear when it refuses.  For the boot device type the
    device structure is not touched and no interface flag is consulted.
    For any other device type the result is -EINVAL and nothing is
    called. *)
Theorem backend_write_results
  (tmfifo boot : Z) (dev : rshim_usb_t) (devtype count : Z)
  (l : trace usb_call resp) (ret : Z) (dev' : rshim_usb_t) :
  runs (rshim_usb_backend_write tmfifo boot dev devtype count) l (ret, dev') ->
  (devtype = tmfifo ->
     (has_rshim (bd dev) && has_tm (bd dev) = false ->
        ret = - ENODEV /\ l = [] /\ dev' = dev) /\
     (has_rshim (bd dev) && has_tm (bd dev) = true ->
      drop_mode (bd dev) = true -> ret = 0 /\ l = [] /\ dev' = dev) /\
     (stream_open dev = true ->
        exists rc x,
          l = [(LibusbSubmitTransfer (write_urb dev'), (rc, x))] /\
          urb_type (write_urb dev') = LIBUSB_TRANSFER_TYPE_BULK /\
          endpoint (write_urb dev') = tm_fifo_out_ep dev /\
          urb_length (write_urb dev') = count /\
          write_retries dev' = 0 /\
          ret = (if rc =? 0 then 0 else -1) /\
          writing dev' = (rc =? 0))) /\
  (devtype <> tmfifo -> devtype = boot ->
     dev' = dev /\
     exists rc n,
       l = [(LibusbBulkTransfer (boot_fifo_ep dev) count RSHIM_USB_TIMEOUT,
             (rc, n))]) /\
  (devtype <> tmfifo -> devtype <> boot ->
     ret = - EINVAL /\ l = [] /\ dev' = dev).
Proof.
  unfold rshim_usb_backend_write. intros H.
  destruct (Z.eqb_spec devtype tmfifo) as [Ht | Ht];
    [| destruct (Z.eqb_spec devtype boot) as [Hb | Hb]].
  - split; [intros _ | split; intros; contradiction].
    unfold rshim_usb_fifo_write in H. cbv zeta in H.
    split; [| split].
    + intros Hno.
      assert (Hg : negb (has_rshim (bd dev)) || negb (has_tm (bd dev)) = true)
        by (destruct (has_rshim (bd dev)), (has_tm (bd dev));
            cbn in Hno |- *; congruence).
      rewrite Hg in H. apply runs_Ret_inv in H. destruct H as [-> H].
      inversion H. auto.
    + intros Hyes Hdrop.
      assert (Hg : negb (has_rshim (bd dev)) || negb (has_tm (bd dev)) = false)
        by (destruct (has_rshim (bd dev)), (has_tm (bd dev));
            cbn in Hyes |- *; congruence).
      rewrite Hg, Hdrop in H. apply runs_Ret_inv in H. destruct H as [-> H].
      inversion H. auto.
    + intros Ho. destruct (stream_open_cases _ Ho) as [Hg Hd].
      rewrite Hg, Hd in H.
      apply runs_bind_inv in H. destruct H as (l1 & l2 & [rc x] & -> & Hs & H).
      apply runs_call_inv in Hs. subst l1.
      exists rc, x. unfold nonzero in H.
      destruct (rc =? 0); cbn [negb] in H;
        apply runs_Ret_inv in H; destruct H as [-> H];
        apply (f_equal fst) in H as Hret; apply (f_equal snd) in H as Hdev;
        cbn [fst snd] in Hret, Hdev; subst ret dev';
        repeat split;
        first [apply writing_after_set | apply writing_after_clear].
  - split; [intros; contradiction | split; [intros _ _ | intros; contradiction]].
    unfold rshim_usb_boot_write in H.
    repeat run_step; rewrite ?app_nil_r; split; eauto.
  - split; [intros; contradiction | split; [intros; contradiction | intros _ _]].
    apply runs_Ret_inv in H. destruct H as [-> H]. inversion H. auto.
Qed.

Lemma backend_write_results_witness :
  exists l ret dev',
    runs (rshim_usb_backend_write 0 1 (sample_usb 0) 0 512) l (ret, dev') /\
    ret = -1 /\ writing dev' = false.
Proof.
  eexists _, _, _.
  match goal with
  | |- runs ?p ?l ?d /\ _ => assert (Hrun : runs p l d)
  end.
  { apply exec_runs with (env := reply (-4) 0) (hist := []).
    vm_compute. reflexivity. }
  split; [exact Hrun |].
  destruct (proj2 (proj2 (proj1 (backend_write_results _ _ _ _ _ _ _ _ Hrun)
                            eq_refl)) eq_refl)
    as (rc & x & Hl & _ & _ & _ & _ & Hret & Hw).
  inversion Hl. subst rc x. split; [exact Hret | exact Hw].
Defined.

(** * rshim_pcie_lf.c: further facts *)

(** ** The lock is taken by test, then set *)

Lemma lock_acquire_wait_shape (fuel : nat) :
  forall l rc, runs (trio_cr_gw_lock_acquire_wait fuel) l rc ->
    exists held v,
      l = map (lock_poll 0) held ++ [lock_poll rc v] /\
      Forall (fun w => lock_held w = true) held /\
      (length held < fuel)%nat /\
      (rc = 0 -> lock_held v = false).
Proof.
  induction fuel as [| fuel IH]; intros l rc H;
    cbn [trio_cr_gw_lock_acquire_wait] in H.
  - inversion H.
  - apply runs_bind_inv in H. destruct H as (l1 & l2 & [rc0 v] & -> & Hrd & H).
    apply runs_cap_read in Hrd. destruct Hrd as (x & -> & ->).
    fold (lock_held x) in H.
    destruct (nonzero rc0) eqn:Hrc0.
    + apply runs_Ret_inv in H. destruct H as [-> ->].
      exists [], x. apply nonzero_true in Hrc0.
      repeat split; auto; try (simpl; lia); tauto.
    + apply nonzero_false in Hrc0. subst rc0.
      destruct (lock_held x) eqn:Hh.
      * destruct (IH _ _ H) as (held & v & -> & Hb & Hlen & Hv).
        exists (x :: held), v. repeat split; auto; simpl; lia.
      * apply runs_Ret_inv in H. destruct H as [-> ->].
        exists [], x. repeat split; auto; simpl; lia.
Qed.

(** X10: every run of [trio_cr_gw_lock_acquire] reads the lock register
    until a read fails or shows the lock free, fewer than [fuel] reads
    having shown it held.  A failed read ends the routine with that code
    and nothing is written.  The acquiring write is issued once, right
    after the read that showed the lock free, as a separate access; its
    return code is the routine's. *)
Theorem lock_acquire_is_test_then_set
  (fuel : nat) (l : trace cap_call resp) (rc : Z) :
  runs (trio_cr_gw_lock_acquire fuel) l rc ->
  exists held v,
    Forall (fun w => lock_held w = true) held /\
    (length held < fuel)%nat /\
    ((rc <> 0 /\ l = map (lock_poll 0) held ++ [lock_poll rc v]) \/
     (lock_held v = false /\
      exists x,
        l = map (lock_poll 0) held ++
            [lock_poll 0 v;
             (PciCapWrite TRIO_CR_GW_LOCK TRIO_CR_GW_LOCK_ACQUIRED,
              (rc, x))])).
Proof.
  intros H. unfold trio_cr_gw_lock_acquire in H.
  apply runs_bind_inv in H. destruct H as (l1 & l2 & rc0 & -> & Hw & H).
  destruct (lock_acquire_wait_shape _ _ _ Hw) as (held & v & -> & Hh & Hn & Hv).
  exists held, v. split; [exact Hh | split; [exact Hn |]].
  destruct (nonzero rc0) eqn:Hrc0.
  - apply runs_Ret_inv in H. destruct H as [-> ->].
    left. apply nonzero_true in Hrc0. rewrite app_nil_r. auto.
  - apply nonzero_false in Hrc0. subst rc0. right.
    split; [auto |].
    apply runs_bind_inv in H. destruct H as (l3 & l4 & rc1 & -> & Hc & H).
    apply runs_cap_write in Hc. destruct Hc as (x & ->).
    change (u32 TRIO_CR_GW_LOCK_ACQUIRED) with TRIO_CR_GW_LOCK_ACQUIRED.
    exists x. rewrite <- app_assoc. cbn [app].
    destruct (nonzero rc1) eqn:Hrc1;
      apply runs_Ret_inv in H; destruct H as [-> Hr]; subst rc.
    + reflexivity.
    + apply nonzero_false in Hrc1. subst rc1. reflexivity.
Qed.

Lemma polls_gateway_access (rcs : Z) (held : list Z) :
  Forall (fun c : cap_call * resp => is_gateway_access (fst c) = true)
         (map (lock_poll rcs) held).
Proof. induction held; constructor; auto. Qed.

Lemma calls_polls (held : list Z) :
  calls (map (lock_poll 0) held)
  = repeat (PciCapRead TRIO_CR_GW_LOCK) (length held).
Proof.
  induction held as [| w held IH]; [reflexivity |].
  cbn [map length repeat calls] in *. unfold calls in IH. rewrite IH.
  reflexivity.
Qed.

Lemma polls_succeeded (held : list Z) :
  Forall (fun c : cap_call * resp => fst (snd c) = 0)
         (map (lock_poll 0) held).
Proof. induction held; constructor; auto. Qed.

Lemma calls_app {E R : Type} (l1 l2 : trace E R) :
  calls (l1 ++ l2) = calls l1 ++ calls l2.
Proof. apply map_app. Qed.

Ltac gateway_registers :=
  rewrite ?Forall_app; repeat split;
  try apply polls_gateway_access; repeat constructor.

Ltac all_succeeded :=
  rewrite ?Forall_app; repeat split;
  try apply polls_succeeded; repeat constructor.

Lemma gw_read_shape (fuel : nat) (addr : Z) l rc res :
  runs (trio_cr_gw_read fuel addr) l (rc, res) ->
  Forall (fun c => is_gateway_access (fst c) = true) l /\
  (rc = 0 ->
     exists n x,
       (n < fuel)%nat /\ calls l = gw_read_protocol n addr /\
       Forall (fun c => fst (snd c) = 0) l /\
       In (PciCapRead TRIO_CR_GW_DATA_LOWER, (0, x)) l /\
       res = Some (u32 x)).
Proof.
  intros H. unfold trio_cr_gw_read, trio_cr_gw_lock_acquire in H.
  apply runs_bind_inv in H. destruct H as (la & lb & rca & -> & Ha & H).
  apply runs_bind_inv in Ha. destruct Ha as (lw & lc & rcw & -> & Hw & Ha).
  destruct (lock_acquire_wait_shape _ _ _ Hw) as (held & v & -> & Hh & Hn & Hv).
  clear Hw.
  repeat cap_step; rewrite ?app_nil_r in *; try congruence;
    (split; [gateway_registers |]);
    rc_cases; subst; intros Hrc; try contradiction; try discriminate.
  exists (length held).
  match goal with
  | |- context [(PciCapRead TRIO_CR_GW_DATA_LOWER, (0, ?x))] => exists x
  end.
  repeat rewrite <- app_assoc. cbn [app].
  split; [exact Hn |]. split; [| split; [all_succeeded | split]].
  - rewrite calls_app, calls_polls. reflexivity.
  - apply in_or_app. right. cbn. auto 10.
  - reflexivity.
Qed.

Lemma gw_write_shape (fuel : nat) (addr value : Z) l rc :
  runs (trio_cr_gw_write fuel addr value) l rc ->
  Forall (fun c => is_gateway_access (fst c) = true) l /\
  (rc = 0 ->
     exists n,
       (n < fuel)%nat /\ calls l = gw_write_protocol n addr value /\
       Forall (fun c => fst (snd c) = 0) l).
Proof.
  intros H. unfold trio_cr_gw_write, trio_cr_gw_lock_acquire in H.
  apply runs_bind_inv in H. destruct H as (la & lb & rca & -> & Ha & H).
  apply runs_bind_inv in Ha. destruct Ha as (lw & lc & rcw & -> & Hw & Ha).
  destruct (lock_acquire_wait_shape _ _ _ Hw) as (held & v & -> & Hh & Hn & Hv).
  clear Hw.
  repeat cap_step; rewrite ?app_nil_r in *; try congruence;
    (split; [gateway_registers |]);
    rc_cases; subst; intros Hrc; try contradiction; try discriminate.
  exists (length held).
  repeat rewrite <- app_assoc. cbn [app].
  split; [exact Hn |]. split; [| all_succeeded].
  rewrite calls_app, calls_polls. reflexivity.
Qed.

Lemma lock_acquire_is_test_then_set_witness :
  exists l,
    runs (trio_cr_gw_lock_acquire 5) l 0 /\
    l = [lock_poll 0 TRIO_CR_GW_LOCK_ACQUIRED;
         lock_poll 0 TRIO_CR_GW_LOCK_ACQUIRED; lock_poll 0 0;
         (PciCapWrite TRIO_CR_GW_LOCK TRIO_CR_GW_LOCK_ACQUIRED, (0, 0))] /\
    exists held v,
      Forall (fun w => lock_held w = true) held /\ (length held < 5)%nat /\
      ((0 <> 0 /\ l = map (lock_poll 0) held ++ [lock_poll 0 v]) \/
       (lock_held v = false /\
        exists x,
          l = map (lock_poll 0) held ++
              [lock_poll 0 v;
               (PciCapWrite TRIO_CR_GW_LOCK TRIO_CR_GW_LOCK_ACQUIRED,
                (0, x))])).
Proof.
  eexists.
  match goal with
  | |- runs ?p ?l ?d /\ _ => assert (Hrun : runs p l d)
  end.
  { apply exec_runs with (env := lock_busy_env 2) (hist := []).
    vm_compute. reflexivity. }
  split; [exact Hrun |]. split; [reflexivity |].
  exact (lock_acquire_is_test_then_set _ _ _ Hrun).
Defined.

(** ** The gateway protocol *)

(** X11: the capability accesses of a gateway access.  Whatever the
    device answers, [trio_cr_gw_read] and [trio_cr_gw_write] read only
    the lock and the lower-data register of the gateway and write only
    these two, the control and the lower-address register.  An access that returns 0 made exactly the accesses of the
    protocol, each answered with 0: the lock reads, the acquiring write,
    for a write the data word, then the address word, the command and the
    trigger, for a read the data register read after the trigger, and the
    release write last; the word a read hands back is the one read from
    the data register. *)
Theorem gateway_access_protocol
  (fuel : nat) (e : gw_call) (l : trace cap_call resp) (rc v : Z) :
  runs (gw_handler fuel e) l (rc, v) ->
  Forall (fun c => is_gateway_access (fst c) = true) l /\
  (rc = 0 ->
     Forall (fun c => fst (snd c) = 0) l /\
     match e with
     | TrioCrGwRead addr =>
         exists n x,
           (n < fuel)%nat /\ calls l = gw_read_protocol n addr /\
           In (PciCapRead TRIO_CR_GW_DATA_LOWER, (0, x)) l /\ v = u32 x
     | TrioCrGwWrite addr value =>
         exists n, (n < fuel)%nat /\ calls l = gw_write_protocol n addr value
     | SyncSynchronize => l = []
     end).
Proof.
  intros H. destruct e as [addr | addr value |]; cbn [gw_handler] in H.
  - apply runs_bind_inv in H. destruct H as (l1 & l2 & [rc0 res] & -> & Hr & H).
    apply runs_Ret_inv in H. destruct H as [-> H]. rewrite app_nil_r.
    apply (f_equal fst) in H as Hrc. apply (f_equal snd) in H as Hv.
    cbn [fst snd] in Hrc, Hv. subst rc0.
    destruct (gw_read_shape _ _ _ _ _ Hr) as [Hreg Hok].
    split; [exact Hreg |]. intros Hz.
    destruct (Hok Hz) as (n & x & Hn & Hc & Hs & Hin & ->).
    split; [exact Hs |]. exists n, x. cbn [stored] in Hv. auto.
  - apply runs_bind_inv in H. destruct H as (l1 & l2 & rc0 & -> & Hw & H).
    apply runs_Ret_inv in H. destruct H as [-> H]. rewrite app_nil_r.
    apply (f_equal fst) in H as Hrc. cbn [fst] in Hrc. subst rc0.
    destruct (gw_write_shape _ _ _ _ _ Hw) as [Hreg Hok].
    split; [exact Hreg |]. intros Hz.
    destruct (Hok Hz) as (n & Hn & Hc & Hs).
    split; [exact Hs |]. exists n. auto.
  - apply runs_Ret_inv in H. destruct H as [-> _].
    split; [constructor |]. intros _. split; [constructor | reflexivity].
Qed.

Lemma gateway_access_protocol_witness :
  exists l,
    runs (gw_handler 5 (TrioCrGwWrite 0x80010498 0xcafe)) l (0, 0) /\
    Forall (fun c => is_gateway_access (fst c) = true) l /\
    Forall (fun c => fst (snd c) = 0) l /\
    exists n, (n < 5)%nat /\ calls l = gw_write_protocol n 0x80010498 0xcafe.
Proof.
  eexists.
  match goal with
  | |- runs ?p ?l ?d /\ _ => assert (Hrun : runs p l d)
  end.
  { apply exec_runs with (env := lock_busy_env 2) (hist := []).
    vm_compute. reflexivity. }
  split; [exact Hrun |].
  destruct (gateway_access_protocol _ _ _ _ _ Hrun) as [Hreg Hok].
  split; [exact Hreg | exact (Hok eq_refl)].
Defined.

(** ** A register written, then read back *)

Lemma writes_to_app (a : Z) (l1 l2 : trace gw_call resp) :
  writes_to a (l1 ++ l2) = writes_to a l1 ++ writes_to a l2.
Proof. apply flat_map_app. Qed.

Lemma reads_from_app (a : Z) (l1 l2 : trace gw_call resp) :
  reads_from a (l1 ++ l2) = reads_from a l1 ++ reads_from a l2.
Proof. apply flat_map_app. Qed.

Lemma pending_wait_writes_to (regs : rshim_regs) (fuel : nat) (a : Z) l rc :
  runs (rshim_byte_acc_pending_wait regs fuel) l rc -> writes_to a l = [].
Proof.
  intros H.
  destruct (pending_wait_runs _ _ _ _ H) as (busy & rc' & v & -> & _).
  clear H. rewrite writes_to_app. cbn [writes_to flat_map ctl_poll fst app].
  rewrite app_nil_r. induction busy as [| w busy IH]; [reflexivity | exact IH].
Qed.

Lemma pending_wait_reads_from (regs : rshim_regs) (fuel : nat) (a : Z) l rc :
  a <> widget_addr (RSH_BYTE_ACC_CTL regs) ->
  runs (rshim_byte_acc_pending_wait regs fuel) l rc -> reads_from a l = [].
Proof.
  intros Ha H.
  destruct (pending_wait_runs _ _ _ _ H) as (busy & rc' & v & -> & _).
  assert (Hne : (u32 (RSH_CHANNEL1_BASE + RSH_BYTE_ACC_CTL regs) =? a) = false).
  { apply Z.eqb_neq. intros E. apply Ha. symmetry. exact E. }
  clear H. rewrite reads_from_app. cbn [reads_from flat_map ctl_poll fst app].
  rewrite Hne, app_nil_r.
  induction busy as [| w busy IH]; [reflexivity |].
  unfold reads_from in *. cbn [map flat_map ctl_poll fst app].
  rewrite Hne. exact IH.
Qed.

Lemma distinct_registers (regs : rshim_regs) :
  widget_registers_distinct regs = true ->
  (widget_addr (RSH_BYTE_ACC_CTL regs)
   =? widget_addr (RSH_BYTE_ACC_WDAT regs)) = false /\
  (widget_addr (RSH_BYTE_ACC_ADDR regs)
   =? widget_addr (RSH_BYTE_ACC_WDAT regs)) = false /\
  widget_addr (RSH_BYTE_ACC_RDAT regs)
  <> widget_addr (RSH_BYTE_ACC_CTL regs).
Proof.
  unfold widget_registers_distinct. intros H.
  apply andb_true_iff in H. destruct H as [H H3].
  apply andb_true_iff in H. destruct H as [H1 H2].
  apply negb_true_iff in H1, H2, H3. apply Z.eqb_neq in H1, H2, H3.
  split; [apply Z.eqb_neq; intros E; apply H1; symmetry; exact E |].
  split; [apply Z.eqb_neq; intros E; apply H2; symmetry; exact E | exact H3].
Qed.

Ltac words_norm :=
  repeat rewrite ?writes_to_app, ?reads_from_app;
  repeat match goal with
         | H : runs (rshim_byte_acc_pending_wait _ _) ?l _
           |- context [writes_to ?a ?l] =>
             rewrite (pending_wait_writes_to _ _ a _ _ H)
         end.

(** The widget read writes nothing to the write-data register. *)
Lemma byte_acc_read_writes_no_data (regs : rshim_regs) (h : bool)
  (fuel : nat) (addr : Z) l r :
  widget_registers_distinct regs = true ->
  runs (rshim_byte_acc_read regs h fuel addr) l r ->
  writes_to (widget_addr (RSH_BYTE_ACC_WDAT regs)) l = [].
Proof.
  intros Hd H. destruct (distinct_registers _ Hd) as (Hc & Ha & _).
  unfold rshim_byte_acc_read in H.
  repeat gw_step; rewrite ?app_nil_r in *; words_norm;
    cbn [writes_to flat_map fst app];
    fold (widget_addr (RSH_BYTE_ACC_CTL regs));
    fold (widget_addr (RSH_BYTE_ACC_ADDR regs));
    rewrite ?Hc, ?Ha; reflexivity.
Qed.

(** A widget write that succeeds hands the write-data register the upper,
    then the lower half of the word. *)
Lemma byte_acc_write_data_words (regs : rshim_regs) (fuel : nat)
  (addr value : Z) l :
  widget_registers_distinct regs = true ->
  runs (rshim_byte_acc_write regs fuel addr value) l 0 ->
  writes_to (widget_addr (RSH_BYTE_ACC_WDAT regs)) l
  = [u32 (Z.shiftr value 32); u32 value].
Proof.
  intros Hd H. destruct (distinct_registers _ Hd) as (Hc & Ha & _).
  unfold rshim_byte_acc_write in H.
  repeat gw_step; rewrite ?app_nil_r in *; try (rc_cases; congruence).
  words_norm. cbn [writes_to flat_map fst app].
  fold (widget_addr (RSH_BYTE_ACC_CTL regs)).
  fold (widget_addr (RSH_BYTE_ACC_ADDR regs)).
  fold (widget_addr (RSH_BYTE_ACC_WDAT regs)).
  rewrite ?Hc, ?Ha, !Z.eqb_refl, !u32_idem. reflexivity.
Qed.

(** A widget read that succeeds returns the two words it read from the
    read-data register, the first as the upper half. *)
Lemma byte_acc_read_data_words (regs : rshim_regs) (h : bool) (fuel : nat)
  (addr : Z) l res :
  widget_registers_distinct regs = true ->
  runs (rshim_byte_acc_read regs h fuel addr) l (0, res) ->
  exists hi lo,
    reads_from (widget_addr (RSH_BYTE_ACC_RDAT regs)) l = [hi; lo] /\
    0 <= hi < 2 ^ 32 /\ 0 <= lo < 2 ^ 32 /\
    res = Some (be64toh h (hi * 2 ^ 32 + lo)).
Proof.
  intros Hd H. destruct (distinct_registers _ Hd) as (_ & _ & Hr).
  unfold rshim_byte_acc_read in H.
  repeat gw_step; rewrite ?app_nil_r in *; try (rc_cases; congruence).
  match goal with
  | |- context [Z.lor (u64 (Z.shiftl (u32 ?v1) 32)) (u32 ?v2)] =>
      exists (u32 v1), (u32 v2);
      destruct (assembled_word v1 v2) as (Hw & _ & _ & _);
      cbv zeta in Hw; rewrite Hw, (lor_shiftl_32 _ _ (u32_range v2))
  end.
  split; [| split; [apply u32_range | split; [apply u32_range | reflexivity]]].
  repeat rewrite reads_from_app.
  repeat match goal with
         | H : runs (rshim_byte_acc_pending_wait _ _) ?l _ |- _ =>
             rewrite (pending_wait_reads_from _ _ _ _ _ Hr H); clear H
         end.
  cbn [reads_from flat_map fst snd app].
  fold (widget_addr (RSH_BYTE_ACC_RDAT regs)).
  rewrite !Z.eqb_refl. reflexivity.
Qed.

Lemma halves_of_word (w : Z) :
  0 <= w < 2 ^ 64 ->
  u32 (Z.shiftr w 32) * 2 ^ 32 + u32 w = w.
Proof.
  intros Hw. unfold u32. rewrite Z.shiftr_div_pow2 by lia.
  change (2 ^ 64) with (2 ^ 32 * 2 ^ 32) in Hw.
  rewrite (Z.mod_small (w / 2 ^ 32)).
  - pose proof (Z.div_mod w (2 ^ 32)). lia.
  - split; [apply Z.div_pos; lia | apply Z.div_lt_upper_bound; lia].
Qed.

Lemma pcie_read_writes_no_data (regs : rshim_regs) (h : bool) (fuel : nat)
  (dev : rshim_pcie) (chan addr : Z) l r :
  widget_registers_distinct regs = true ->
  runs (rshim_pcie_read regs h fuel dev chan addr) l r ->
  writes_to (widget_addr (RSH_BYTE_ACC_WDAT regs)) l = [].
Proof.
  intros Hd H. unfold rshim_pcie_read in H.
  destruct (has_rshim (pcie_bd dev)); cbn [negb] in H.
  - cbv zeta in H. apply runs_bind_inv in H.
    destruct H as (l1 & l2 & [rc0 res0] & -> & Hrd & H).
    apply runs_Ret_inv in H. destruct H as [-> _]. rewrite app_nil_r.
    eapply byte_acc_read_writes_no_data; eassumption.
  - apply runs_Ret_inv in H. destruct H as [-> _]. reflexivity.
Qed.

(** X12: a register written through [rshim_pcie_write] and read back
    through [rshim_pcie_read].  A write to a register other than the boot
    FIFO that returns 0 hands the widget's write-data register exactly two
    words, the upper then the lower half of [be64toh (value)], whether or
    not a drain came first.  If the read-data register then answers a
    successful read of the same register with those two words, the read
    returns [value], as a 64-bit word: the two byte swaps cancel on either
    kind of host. *)
Theorem pcie_register_write_then_read_round_trip
  (regs : rshim_regs) (host_big_endian : bool) (fuel : nat)
  (dev dev1 dev2 : rshim_pcie) (chan addr value : Z)
  (lw lr : trace gw_call resp) (res : option Z) :
  widget_registers_distinct regs = true ->
  addr <> RSH_BOOT_FIFO_DATA regs ->
  runs (rshim_pcie_write regs host_big_endian fuel dev chan addr value)
       lw (0, dev1) ->
  runs (rshim_pcie_read regs host_big_endian fuel dev1 chan addr)
       lr (0, res, dev2) ->
  reads_from (widget_addr (RSH_BYTE_ACC_RDAT regs)) lr
  = writes_to (widget_addr (RSH_BYTE_ACC_WDAT regs)) lw ->
  writes_to (widget_addr (RSH_BYTE_ACC_WDAT regs)) lw
  = [u32 (Z.shiftr (be64toh host_big_endian value) 32);
     u32 (be64toh host_big_endian value)] /\
  res = Some (u64 value).
Proof.
  intros Hd Hboot Hw Hr Hecho.
  assert (Hh : has_rshim (pcie_bd dev) = true).
  { destruct (has_rshim (pcie_bd dev)) eqn:E; [reflexivity |].
    unfold rshim_pcie_write in Hw. rewrite E in Hw. cbn [negb] in Hw.
    cbv zeta in Hw. apply runs_Ret_inv in Hw. destruct Hw as [_ Hw].
    apply (f_equal fst) in Hw. discriminate Hw. }
  destruct (pcie_write_runs _ _ _ _ _ _ _ _ _ _ Hh Hw)
    as (l_drain & dev0 & l_data & -> & Hdr & Hdev1 & Hdata).
  apply Z.eqb_neq in Hboot. rewrite Hboot in Hdata.
  assert (Hwords :
    writes_to (widget_addr (RSH_BYTE_ACC_WDAT regs)) (l_drain ++ l_data)
    = [u32 (Z.shiftr (be64toh host_big_endian value) 32);
       u32 (be64toh host_big_endian value)]).
  { rewrite writes_to_app,
      (byte_acc_write_data_words _ _ _ _ _ Hd Hdata).
    destruct (pcie_write_drain_runs _ _ _ _ _ _ _ Hh Hdr)
      as [(_ & -> & _) | (_ & _ & r & l_rd & rc & res0 & -> & Hrd & _)].
    - reflexivity.
    - change ((SyncSynchronize, r) :: l_rd)
        with ([(SyncSynchronize, r)] ++ l_rd).
      rewrite writes_to_app, (pcie_read_writes_no_data _ _ _ _ _ _ _ _ Hd Hrd).
      reflexivity. }
  split; [exact Hwords |].
  assert (Hh1 : has_rshim (pcie_bd dev1) = true).
  { subst dev1. cbn [set_write_count pcie_bd].
    destruct (pcie_write_drain_runs _ _ _ _ _ _ _ Hh Hdr)
      as [(_ & _ & ->) | (_ & -> & _)]; exact Hh. }
  unfold rshim_pcie_read in Hr. rewrite Hh1 in Hr. cbn [negb] in Hr.
  cbv zeta in Hr. apply runs_bind_inv in Hr.
  destruct Hr as (l1 & l2 & [rc0 res0] & -> & Hrd & Hr).
  apply runs_Ret_inv in Hr. destruct Hr as [-> Heq].
  rewrite app_nil_r in Hecho.
  apply (f_equal fst) in Heq as Heq1. cbn [fst] in Heq1.
  apply (f_equal fst) in Heq1 as Hrc. apply (f_equal snd) in Heq1 as Hres.
  cbn [fst snd] in Hrc, Hres. subst rc0 res0.
  destruct (byte_acc_read_data_words _ _ _ _ _ _ Hd Hrd)
    as (hi & lo & Hwd & _ & _ & ->).
  rewrite Hwd, Hwords in Hecho.
  inversion Hecho; subst hi lo.
  rewrite (halves_of_word _ (be64toh_range host_big_endian value)).
  rewrite be64toh_involutive. reflexivity.
Qed.

Lemma pcie_register_write_then_read_round_trip_witness :
  exists lw dev1 lr dev2,
    runs (rshim_pcie_write sample_regs false 2 (sample_pcie 7) 1 0x20
            0x1122334455667788) lw (0, dev1) /\
    runs (rshim_pcie_read sample_regs false 2 dev1 1 0x20)
         lr (0, Some 0x1122334455667788, dev2) /\
    writes_to (widget_addr (RSH_BYTE_ACC_WDAT sample_regs)) lw
    = [0x88776655; 0x44332211] /\
    Some 0x1122334455667788 = Some (u64 0x1122334455667788).
Proof.
  eexists _, _, _, _.
  match goal with
  | |- runs ?p ?l ?d /\ _ => assert (Hw : runs p l d)
  end.
  { apply exec_runs with (env := ready_env 0) (hist := []).
    vm_compute. reflexivity. }
  split; [exact Hw |].
  match goal with
  | |- runs ?p ?l ?d /\ _ => assert (Hr : runs p l d)
  end.
  { apply exec_runs
      with (env := echo_env sample_regs [0x88776655; 0x44332211])
           (hist := []).
    vm_compute. reflexivity. }
  split; [exact Hr |].
  assert (Hb : 0x20 <> RSH_BOOT_FIFO_DATA sample_regs)
    by (vm_compute; discriminate).
  assert (Hecho :
    reads_from (widget_addr (RSH_BYTE_ACC_RDAT sample_regs))
      (fst (exec (echo_env sample_regs [0x88776655; 0x44332211]) []
              (rshim_pcie_read sample_regs false 2 (sample_pcie 1) 1 0x20)))
    = writes_to (widget_addr (RSH_BYTE_ACC_WDAT sample_regs))
        (fst (exec (ready_env 0) []
                (rshim_pcie_write sample_regs false 2 (sample_pcie 7) 1 0x20
                   0x1122334455667788))))
    by (vm_compute; reflexivity).
  exact (pcie_register_write_then_read_round_trip sample_regs false 2
           _ _ _ 1 0x20 0x1122334455667788 _ _ _ eq_refl Hb Hw Hr Hecho).
Defined.

(** ** The bus address of a register *)

Lemma be32toh_injective (h : bool) (x y : Z) :
  0 <= x < 2 ^ 32 -> 0 <= y < 2 ^ 32 ->
  be32toh h x = be32toh h y -> x = y.
Proof.
  intros Hx Hy. unfold be32toh.
  rewrite (u32_small _ Hx), (u32_small _ Hy).
  unfold host_bytes, of_be_bytes.
  destruct h; cbn [le_bytes rev app fold_left];
    change (2 ^ 32) with 4294967296 in *;
    intros E; Z.div_mod_to_equations; lia.
Qed.

Lemma lor_shiftl_16 (chan addr : Z) :
  0 <= addr < 2 ^ 16 ->
  Z.lor addr (Z.shiftl chan 16) = chan * 2 ^ 16 + addr.
Proof.
  intros Ha. rewrite Z.shiftl_mul_pow2 by lia.
  assert (Hland : Z.land (chan * 2 ^ 16) addr = 0).
  { apply Z.bits_inj'; intros k Hk; rewrite Z.land_spec, Z.bits_0.
    destruct (Z.lt_ge_cases k 16) as [Hlt | Hge].
    - rewrite Z.mul_pow2_bits_low by lia. reflexivity.
    - destruct (Z.eq_dec addr 0) as [-> | Hne].
      + rewrite Z.bits_0. apply andb_false_r.
      + rewrite (Z.bits_above_log2 addr k); [apply andb_false_r | lia |].
        apply Z.log2_lt_pow2; [lia |].
        apply Z.lt_le_trans with (2 ^ 16); [lia |].
        apply Z.pow_le_mono_r; lia. }
  rewrite Z.lor_comm, <- Z.lxor_lor by exact Hland.
  rewrite <- Z.add_nocarry_lxor by exact Hland. reflexivity.
Qed.

(** X13: the bus address of a register.  For a channel below 2^15 and an
    offset below 2^16, the 32-bit address is the base plus the channel
    times 2^16 plus the offset, without wrap-around; channel 1 starts at
    RSH_CHANNEL1_BASE; and two registers get the same address word, also
    after [be32toh], only if channel and offset agree. *)
Theorem bus_addr_layout_injective
  (host_big_endian : bool) (chan addr chan' addr' : Z) :
  0 <= chan < 2 ^ 15 -> 0 <= addr < 2 ^ 16 ->
  0 <= chan' < 2 ^ 15 -> 0 <= addr' < 2 ^ 16 ->
  rshim_bus_addr chan addr = RSH_BASE_ADDR + chan * 2 ^ 16 + addr /\
  rshim_bus_addr 1 addr = RSH_CHANNEL1_BASE + addr /\
  (be32toh host_big_endian (rshim_bus_addr chan addr)
   = be32toh host_big_endian (rshim_bus_addr chan' addr') ->
   chan = chan' /\ addr = addr').
Proof.
  intros Hc Ha Hc' Ha'.
  assert (Hlay : forall c a, 0 <= c < 2 ^ 15 -> 0 <= a < 2 ^ 16 ->
            rshim_bus_addr c a = RSH_BASE_ADDR + c * 2 ^ 16 + a /\
            0 <= rshim_bus_addr c a < 2 ^ 32).
  { intros c a Hcr Har. unfold rshim_bus_addr.
    rewrite (lor_shiftl_16 _ _ Har). unfold RSH_BASE_ADDR.
    rewrite u32_small; lia. }
  destruct (Hlay chan addr Hc Ha) as [E1 R1].
  destruct (Hlay chan' addr' Hc' Ha') as [E2 R2].
  split; [exact E1 |]. split.
  - destruct (Hlay 1 addr ltac:(lia) Ha) as [E _]. rewrite E.
    unfold RSH_BASE_ADDR, RSH_CHANNEL1_BASE. lia.
  - intros E. apply (be32toh_injective _ _ _ R1 R2) in E.
    rewrite E1, E2 in E. lia.
Qed.

Lemma bus_addr_layout_injective_witness :
  rshim_bus_addr 1 0x408 = RSH_BASE_ADDR + 1 * 2 ^ 16 + 0x408 /\
  rshim_bus_addr 1 0x408 = RSH_CHANNEL1_BASE + 0x408 /\
  (be32toh false (rshim_bus_addr 1 0x408)
   = be32toh false (rshim_bus_addr 0 0x408) ->
   1 = 0 /\ 0x408 = 0x408).
Proof.
  apply (bus_addr_layout_injective false 1 0x408 0 0x408); lia.
Defined.

(** ** Down to the PCI configuration space *)

Lemma expands_Forall {E R F S : Type} (h : E -> prog F S R)
  (Q : E -> Prop) (P : F * S -> Prop) :
  (forall e r l, Q e -> runs (h e) l r -> Forall P l) ->
  forall lh l, expands h lh l -> Forall (fun c => Q (fst c)) lh -> Forall P l.
Proof.
  intros Hh lh l Hx. induction Hx as [| e r lh l1 l2 Hr Hx IH]; intros HQ.
  - constructor.
  - inversion HQ; subst. apply Forall_app. split.
    + eapply Hh; eassumption.
    + apply IH. assumption.
Qed.

Lemma cap_handler_accesses (e : cap_call) (r : resp) l :
  is_gateway_access e = true ->
  runs (cap_handler e) l r ->
  Forall (fun c => is_capability_access (fst c) = true) l.
Proof.
  intros Hg H. destruct e as [offset | offset value];
    cbn [is_gateway_access] in Hg; cbn [cap_handler] in H.
  - apply runs_bind_inv in H. destruct H as (l1 & l2 & [rc res] & -> & Hr & H).
    apply runs_Ret_inv in H. destruct H as [-> _]. rewrite app_nil_r.
    apply orb_true_iff in Hg.
    destruct (pci_cap_read_runs _ _ _ _ Hr)
      as [(_ & x & v & _ & _ & ->) | (_ & _ & ->)];
      destruct Hg as [Hg | Hg]; apply Z.eqb_eq in Hg; subst offset;
      repeat constructor.
  - apply runs_bind_inv in H. destruct H as (l1 & l2 & rc & -> & Hw & H).
    apply runs_Ret_inv in H. destruct H as [-> _]. rewrite app_nil_r.
    unfold pci_cap_write in Hw.
    repeat (apply orb_true_iff in Hg; destruct Hg as [Hg | Hg]);
      apply Z.eqb_eq in Hg; subst offset;
      repeat run_step; rewrite ?app_nil_r; cbn [app];
      repeat constructor.
Qed.

Lemma gw_handler_registers (fuel : nat) (e : gw_call) (r : resp) l :
  runs (gw_handler fuel e) l r ->
  Forall (fun c => is_gateway_access (fst c) = true) l.
Proof.
  intros H. destruct e as [addr | addr value |]; cbn [gw_handler] in H.
  - apply runs_bind_inv in H. destruct H as (l1 & l2 & [rc0 res] & -> & Hr & H).
    apply runs_Ret_inv in H. destruct H as [-> _]. rewrite app_nil_r.
    exact (proj1 (gw_read_shape _ _ _ _ _ Hr)).
  - apply runs_bind_inv in H. destruct H as (l1 & l2 & rc0 & -> & Hw & H).
    apply runs_Ret_inv in H. destruct H as [-> _]. rewrite app_nil_r.
    exact (proj1 (gw_write_shape _ _ _ _ _ Hw)).
  - apply runs_Ret_inv in H. destruct H as [-> _]. constructor.
Qed.

(** X14: a register write seen from libpci.  Whatever the register, the
    value and the answers of the device, every libpci call of
    [rshim_pcie_write], through the widget, the gateway and the capability
    primitives, is a write of the address capability at 0x58 with one of
    six configuration-space words, a write of the data capability at 0x5c,
    or a read of the data capability. *)
Theorem register_write_touches_only_the_capability_pair
  (regs : rshim_regs) (host_big_endian : bool) (fuel : nat)
  (dev : rshim_pcie) (chan addr value : Z)
  (l : trace pci_call Z) (r : Z * rshim_pcie) :
  runs (rshim_pcie_write_on_pci regs host_big_endian fuel dev chan addr value)
       l r ->
  Forall (fun c => is_capability_access (fst c) = true) l.
Proof.
  unfold rshim_pcie_write_on_pci. intros H.
  apply runs_interp_inv in H. destruct H as (lc & Hc & Hxc).
  apply runs_interp_inv in Hc. destruct Hc as (lg & Hg & Hxg).
  apply (expands_Forall cap_handler
           (fun e => is_gateway_access e = true) _
           (fun e r l => cap_handler_accesses e r l) _ _ Hxc).
  apply (expands_Forall (gw_handler fuel) (fun _ => True) _
           (fun e r l _ => gw_handler_registers fuel e r l) _ _ Hxg).
  apply Forall_forall. auto.
Qed.

Lemma register_write_touches_only_the_capability_pair_witness :
  exists l,
    runs (rshim_pcie_write_on_pci sample_regs false 1 (sample_pcie 0) 0 0x408
            0x1122334455667788) l (0, sample_pcie 1) /\
    length l = 28%nat /\
    Forall (fun c => is_capability_access (fst c) = true) l.
Proof.
  eexists.
  match goal with
  | |- runs ?p ?l ?d /\ _ => assert (Hrun : runs p l d)
  end.
  { apply exec_runs with (env := fun _ _ => 1) (hist := []).
    vm_compute. reflexivity. }
  split; [exact Hrun |]. split; [reflexivity |].
  exact (register_write_touches_only_the_capability_pair _ _ _ _ _ _ _ _ _
           Hrun).
Defined.

Lemma completed_bulk_read_decides_next_submission_witness :
  exists l1 dev1 l2 dev2 next rc x,
    runs (rshim_usb_fifo_read_callback (usb_with_intr_buf 24)
            (completed_read 0)) l1 dev1 /\
    runs (rshim_usb_fifo_read dev1 512) l2 dev2 /\
    l2 = [(LibusbSubmitTransfer next, (rc, x))] /\
    urb_type next = LIBUSB_TRANSFER_TYPE_INTERRUPT /\
    endpoint next = tm_fifo_int_ep (usb_with_intr_buf 24).
Proof.
  eexists _, _, _, _.
  match goal with
  | |- exists _ _ _, runs ?p ?l ?d /\ _ => assert (H1 : runs p l d)
  end.
  { apply exec_runs with (env := ready_env 0) (hist := []).
    vm_compute. reflexivity. }
  match goal with
  | |- exists _ _ _, _ /\ runs ?p ?l ?d /\ _ => assert (H2 : runs p l d)
  end.
  { apply exec_runs with (env := ready_env 0) (hist := []).
    vm_compute. reflexivity. }
  destruct (completed_bulk_read_decides_next_submission
              (usb_with_intr_buf 24) _ _ (completed_read 0) 512 _ _
              eq_refl eq_refl eq_refl H1 H2)
    as (next & rc & x & Hl & Ht & He).
  exists next, rc, x. auto.
Defined.

(** * rshim_usb.c: registration with the event loop *)

Lemma land_single_bit (e k : Z) :
  0 <= k -> Z.land e (2 ^ k) = if Z.testbit e k then 2 ^ k else 0.
Proof.
  intros Hk. apply Z.bits_inj'. intros n Hn.
  rewrite Z.land_spec, Z.pow2_bits_eqb by exact Hk.
  destruct (Z.eqb_spec k n) as [-> | Hne].
  - destruct (Z.testbit e n); cbn [andb].
    + rewrite Z.pow2_bits_eqb, Z.eqb_refl by exact Hn. reflexivity.
    + rewrite Z.bits_0. reflexivity.
  - rewrite andb_false_r. destruct (Z.testbit e k).
    + rewrite Z.pow2_bits_eqb by exact Hk.
      symmetry. apply Z.eqb_neq. exact Hne.
    + rewrite Z.bits_0. reflexivity.
Qed.

(** One conversion adds the flag's bit of the descriptor's events. *)
Lemma RSHIM_CONVERT_bit (e k acc : Z) :
  0 <= k ->
  RSHIM_CONVERT e (2 ^ k) (2 ^ k) acc = Z.lor acc (Z.land e (2 ^ k)).
Proof.
  intros Hk. unfold RSHIM_CONVERT. rewrite (land_single_bit e k Hk).
  destruct (Z.testbit e k).
  - assert (Hnz : nonzero (2 ^ k) = true)
      by (apply nonzero_true; apply Z.pow_nonzero; lia).
    rewrite Hnz. reflexivity.
  - change (nonzero 0) with false. cbv iota. rewrite Z.lor_0_r. reflexivity.
Qed.

(** The mask built for one descriptor keeps the eight flags the
    conversion knows and drops every other bit. *)
Lemma epoll_events_of_mask (e : Z) :
  epoll_events_of e = Z.land e converted_flags.
Proof.
  unfold epoll_events_of. cbv zeta.
  change POLLIN with (2 ^ 0). change EPOLLIN with (2 ^ 0).
  change POLLOUT with (2 ^ 2). change EPOLLOUT with (2 ^ 2).
  change POLLRDNORM with (2 ^ 6). change EPOLLRDNORM with (2 ^ 6).
  change POLLRDBAND with (2 ^ 7). change EPOLLRDBAND with (2 ^ 7).
  change POLLWRNORM with (2 ^ 8). change EPOLLWRNORM with (2 ^ 8).
  change POLLWRBAND with (2 ^ 9). change EPOLLWRBAND with (2 ^ 9).
  change POLLERR with (2 ^ 3). change EPOLLERR with (2 ^ 3).
  change POLLHUP with (2 ^ 4). change EPOLLHUP with (2 ^ 4).
  rewrite !RSHIM_CONVERT_bit by lia.
  unfold converted_flags.
  change POLLIN with (2 ^ 0). change POLLOUT with (2 ^ 2).
  change POLLRDNORM with (2 ^ 6). change POLLRDBAND with (2 ^ 7).
  change POLLWRNORM with (2 ^ 8). change POLLWRBAND with (2 ^ 9).
  change POLLERR with (2 ^ 3). change POLLHUP with (2 ^ 4).
  rewrite !Z.land_lor_distr_r.
  generalize (Z.land e (2 ^ 0)) (Z.land e (2 ^ 2)) (Z.land e (2 ^ 6))
    (Z.land e (2 ^ 7)) (Z.land e (2 ^ 8)) (Z.land e (2 ^ 9))
    (Z.land e (2 ^ 3)) (Z.land e (2 ^ 4)).
  intros a b c d f g i j. rewrite Z.lor_0_l.
  rewrite <- (Z.lor_assoc _ g g), Z.lor_diag.
  rewrite <- !Z.lor_assoc. reflexivity.
Qed.

Lemma last_nonempty_default {A : Type} (l : list A) :
  forall x d d', last (x :: l) d = last (x :: l) d'.
Proof.
  induction l as [| y l IH]; intros x d d'; [reflexivity |].
  change (last (y :: l) d = last (y :: l) d'). apply IH.
Qed.

Lemma add_poll_loop_runs (epfd : Z) (fds : list libusb_pollfd) :
  forall rc0 l rc,
    runs (rshim_usb_add_poll_loop epfd fds rc0) l rc ->
    calls l = map (fun p => EpollCtlAdd epfd (fd p)
                              (Z.land (events p) converted_flags)) fds /\
    rc = last (map snd l) rc0.
Proof.
  induction fds as [| p fds IH]; intros rc0 l rc H;
    cbn [rshim_usb_add_poll_loop] in H.
  - apply runs_Ret_inv in H. destruct H as [-> ->]. split; reflexivity.
  - apply runs_bind_inv in H. destruct H as (l1 & l2 & rc1 & -> & Hc & H).
    apply runs_call_inv in Hc. subst l1.
    destruct (IH _ _ _ H) as [Hcalls Hrc].
    cbn [app calls map fst snd]. unfold calls in Hcalls.
    rewrite Hcalls, epoll_events_of_mask. split; [reflexivity |].
    rewrite Hrc. clear. destruct l2 as [| c l2]; [reflexivity |].
    cbn [map]. change (last (rc1 :: snd c :: map snd l2) rc0)
      with (last (snd c :: map snd l2) rc0).
    apply last_nonempty_default.
Qed.

(** X15: [rshim_usb_add_poll] makes one [epoll_ctl] call per descriptor
    libusb listed, in order, on the descriptor's fd, and the event mask it
    passes is the descriptor's events restricted to POLLIN, POLLOUT,
    POLLRDNORM, POLLRDBAND, POLLWRNORM, POLLWRBAND, POLLERR and POLLHUP:
    any other bit, POLLPRI for one, is dropped.  The result is the return
    code of the last [epoll_ctl] alone, earlier failures being lost, and
    -ENODEV when libusb gave no list or an empty one. *)
Theorem add_poll_registers_each_descriptor
  (epfd : Z) (usb_pollfd : option (list libusb_pollfd))
  (l : trace epoll_call Z) (rc : Z) :
  runs (rshim_usb_add_poll epfd usb_pollfd) l rc ->
  calls l = map (fun p => EpollCtlAdd epfd (fd p)
                            (Z.land (events p) converted_flags))
                (match usb_pollfd with
                 | Some fds => fds
                 | None => []
                 end) /\
  rc = last (map snd l) (- ENODEV).
Proof.
  unfold rshim_usb_add_poll. cbv zeta. intros H.
  destruct usb_pollfd as [fds |].
  - exact (add_poll_loop_runs _ _ _ _ _ H).
  - apply runs_Ret_inv in H. destruct H as [-> ->]. split; reflexivity.
Qed.

Lemma add_poll_registers_each_descriptor_witness :
  exists l,
    runs (rshim_usb_add_poll 3
            (Some [{| fd := 7; events := 0x003 |};
                   {| fd := 8; events := 0x004 |}])) l 0 /\
    l = [(EpollCtlAdd 3 7 0x001, -1); (EpollCtlAdd 3 8 0x004, 0)] /\
    0 = last (map snd l) (- ENODEV).
Proof.
  eexists.
  match goal with
  | |- runs ?p ?l ?d /\ _ => assert (Hrun : runs p l d)
  end.
  { apply exec_runs with (env := epoll_env [7]) (hist := []).
    vm_compute. reflexivity. }
  split; [exact Hrun |]. split; [reflexivity |].
  exact (proj2 (add_poll_registers_each_descriptor _ _ _ _ Hrun)).
Defined.

(** * rshim_usb.c: device discovery *)

Lemma probe_products_runs (d : libusb_device) (ids : list Z) :
  forall l u, runs (rshim_usb_probe_products d ids) l u ->
    calls l = map (fun _ => RshimUsbProbeOne (usb_dev d) (desc d))
                  (filter (Z.eqb (idProduct (desc d))) ids).
Proof.
  induction ids as [| id ids IH]; intros l u H;
    cbn [rshim_usb_probe_products] in H.
  - apply runs_Ret_inv in H. destruct H as [-> _]. reflexivity.
  - apply runs_bind_inv in H. destruct H as (l1 & l2 & u1 & -> & H1 & H2).
    rewrite calls_app, (IH _ _ H2). cbn [filter].
    destruct (idProduct (desc d) =? id).
    + apply runs_bind_inv in H1. destruct H1 as (l3 & l4 & r & -> & Hc & H1).
      apply runs_call_inv in Hc. subst l3.
      apply runs_Ret_inv in H1. destruct H1 as [-> _]. reflexivity.
    + apply runs_Ret_inv in H1. destruct H1 as [-> _]. reflexivity.
Qed.

Lemma probe_devices_runs (devs : list libusb_device) :
  forall l u, runs (rshim_usb_probe_devices devs) l u ->
    calls l = map (fun d => RshimUsbProbeOne (usb_dev d) (desc d))
                  (filter is_bluefield devs).
Proof.
  induction devs as [| d devs IH]; intros l u H;
    cbn [rshim_usb_probe_devices] in H.
  - apply runs_Ret_inv in H. destruct H as [-> _]. reflexivity.
  - apply runs_bind_inv in H. destruct H as (l1 & l2 & u1 & -> & H1 & H2).
    rewrite calls_app, (IH _ _ H2). cbn [filter].
    assert (Hb : is_bluefield d
                 = (descriptor_rc d =? 0)
                   && (idVendor (desc d) =? USB_TILERA_VENDOR_ID)
                   && ((idProduct (desc d) =? 4)
                       || (idProduct (desc d) =? 532))).
    { unfold is_bluefield, rshim_usb_product_ids. cbn [existsb].
      rewrite orb_false_r. reflexivity. }
    rewrite Hb. clear Hb. unfold nonzero in H1.
    destruct (descriptor_rc d =? 0); cbn [negb andb] in *.
    + destruct (idVendor (desc d) =? USB_TILERA_VENDOR_ID);
        cbn [negb andb] in *.
      * rewrite (probe_products_runs _ _ _ _ H1).
        unfold rshim_usb_product_ids. cbn [filter].
        change USB_BLUEFIELD_1_PRODUCT_ID with 4.
        change USB_BLUEFIELD_2_PRODUCT_ID with 532.
        destruct (Z.eqb_spec (idProduct (desc d)) 4) as [E | E];
          destruct (Z.eqb_spec (idProduct (desc d)) 532) as [E' | E'];
          try lia; reflexivity.
      * apply runs_Ret_inv in H1. destruct H1 as [-> _]. reflexivity.
    + apply runs_Ret_inv in H1. destruct H1 as [-> _]. reflexivity.
Qed.

Lemma probe_runs (rc : Z) (devs : list libusb_device) l ok :
  runs (rshim_usb_probe rc devs) l ok ->
  (rc < 0 /\ l = [] /\ ok = false) \/
  (0 <= rc /\
   exists l_probe rc_poll,
     l = l_probe ++ [(RshimUsbAddPoll, rc_poll)] /\
     calls l_probe = map (fun d => RshimUsbProbeOne (usb_dev d) (desc d))
                         (filter is_bluefield devs) /\
     ok = (rc_poll =? 0)).
Proof.
  unfold rshim_usb_probe. intros H.
  destruct (Z.ltb_spec rc 0) as [Hrc | Hrc].
  - apply runs_Ret_inv in H. destruct H as [-> ->]. left. auto.
  - right. split; [exact Hrc |].
    apply runs_bind_inv in H. destruct H as (l1 & l2 & u & -> & H1 & H).
    apply runs_bind_inv in H. destruct H as (l3 & l4 & rcp & -> & Hc & H).
    apply runs_call_inv in Hc. subst l3.
    exists l1, rcp. unfold nonzero in H.
    destruct (rcp =? 0); cbn [negb] in H;
      apply runs_Ret_inv in H; destruct H as [-> ->];
      (split; [reflexivity |]);
      (split; [exact (probe_devices_runs _ _ _ H1) | reflexivity]).
Qed.

(** X16: [rshim_usb_probe] hands to [rshim_usb_probe_one], in list order
    and once each, exactly the devices whose descriptor could be read and
    that carry the Tilera vendor id and one of the two BlueField product
    ids; the return codes of [rshim_usb_probe_one] play no part.  It then
    calls [rshim_usb_add_poll] once and answers true exactly when that
    call returned 0.  When [libusb_get_device_list] failed it answers
    false and calls nothing. *)
Theorem usb_probe_tries_exactly_the_bluefield_devices
  (rc : Z) (devs : list libusb_device) (l : trace discovery_call Z)
  (ok : bool) :
  runs (rshim_usb_probe rc devs) l ok ->
  (rc < 0 -> l = [] /\ ok = false) /\
  (0 <= rc ->
     calls l = map (fun d => RshimUsbProbeOne (usb_dev d) (desc d))
                   (filter is_bluefield devs) ++ [RshimUsbAddPoll] /\
     ok = (last (map snd l) 0 =? 0)).
Proof.
  intros H.
  destruct (probe_runs _ _ _ _ H)
    as [(Hrc & -> & ->) | (Hrc & lp & rcp & -> & Hc & ->)].
  - split; [auto | lia].
  - split; [lia |]. intros _. rewrite calls_app, Hc.
    rewrite (map_app snd). cbn [map snd]. rewrite last_last.
    split; reflexivity.
Qed.

Lemma usb_probe_tries_exactly_the_bluefield_devices_witness :
  exists l,
    runs (rshim_usb_probe 4 sample_devices) l true /\
    calls l = [RshimUsbProbeOne 1 bluefield2_desc;
               RshimUsbProbeOne 4 bluefield1_desc; RshimUsbAddPoll].
Proof.
  eexists.
  match goal with
  | |- runs ?p ?l ?d /\ _ => assert (Hrun : runs p l d)
  end.
  { apply exec_runs with (env := fun _ _ => 0) (hist := []).
    vm_compute. reflexivity. }
  split; [exact Hrun |].
  refine (proj1 (proj2 (usb_probe_tries_exactly_the_bluefield_devices
                          _ _ _ _ Hrun) _)).
  lia.
Defined.

(** ** Hotplug events and the main loop *)

Lemma hotplug_callback_runs (g : usb_globals) (dev event : Z) l ret g' :
  runs (rshim_hotplug_callback g dev event) l (ret, g') ->
  calls l = hotplug_calls (dev, event) /\ ret = 0 /\
  rshim_usb_ctx g' = rshim_usb_ctx g /\
  rshim_usb_need_probe g'
  = rshim_usb_need_probe g
    || (event =? LIBUSB_HOTPLUG_EVENT_DEVICE_ARRIVED).
Proof.
  unfold rshim_hotplug_callback, hotplug_calls. cbn [fst snd]. intros H.
  destruct (Z.eqb_spec event LIBUSB_HOTPLUG_EVENT_DEVICE_ARRIVED) as [E | E].
  - subst event. cbn [Z.eqb LIBUSB_HOTPLUG_EVENT_DEVICE_ARRIVED
                        LIBUSB_HOTPLUG_EVENT_DEVICE_LEFT] in *.
    repeat run_step. rewrite ?app_nil_r. cbn [app calls map fst].
    cbn [set_need_probe rshim_usb_ctx rshim_usb_need_probe].
    rewrite orb_true_r. auto.
  - destruct (event =? LIBUSB_HOTPLUG_EVENT_DEVICE_LEFT);
      repeat run_step; rewrite ?app_nil_r; cbn [app calls map fst];
      rewrite orb_false_r; auto.
Qed.

Lemma hotplug_callbacks_runs (evs : list (Z * Z)) :
  forall g l rets g',
    runs (hotplug_callbacks g evs) l (rets, g') ->
    calls l = flat_map hotplug_calls evs /\
    rets = map (fun _ => 0) evs /\
    rshim_usb_ctx g' = rshim_usb_ctx g /\
    rshim_usb_need_probe g'
    = rshim_usb_need_probe g
      || existsb (fun ev => snd ev =? LIBUSB_HOTPLUG_EVENT_DEVICE_ARRIVED)
           evs.
Proof.
  induction evs as [| [dev event] evs IH]; intros g l rets g' H;
    cbn [hotplug_callbacks] in H.
  - apply runs_Ret_inv in H. destruct H as [-> H].
    apply (f_equal fst) in H as Hr. apply (f_equal snd) in H as Hg.
    cbn [fst snd] in Hr, Hg. subst rets g'. cbn [existsb].
    rewrite orb_false_r. auto.
  - apply runs_bind_inv in H. destruct H as (l1 & l2 & [ret g1] & -> & H1 & H).
    apply runs_bind_inv in H. destruct H as (l3 & l4 & [rets1 g2] & -> & H2 & H).
    apply runs_Ret_inv in H. destruct H as [-> H].
    apply (f_equal fst) in H as Hr. apply (f_equal snd) in H as Hg.
    cbn [fst snd] in Hr, Hg. subst rets g'.
    destruct (hotplug_callback_runs _ _ _ _ _ _ H1) as (C1 & -> & X1 & N1).
    destruct (IH _ _ _ _ H2) as (C2 & -> & X2 & N2).
    rewrite app_nil_r, calls_app, C1, C2. cbn [flat_map map existsb snd].
    rewrite X2, X1, N2, N1, orb_assoc. auto.
Qed.

(** X17: arrivals are deferred to the main loop and coalesced.  However
    many hotplug events are delivered, the callback returns 0 for each,
    calls [rshim_usb_disconnect] at once for a device that left and
    [rshim_usb_add_poll] once per event, never probes, and leaves the flag
    set if it was set or a device arrived.  The next [rshim_usb_poll] with
    a context runs [rshim_usb_probe] exactly once if the flag was set
    before or at least one device arrived, not at all otherwise, then lets
    libusb handle events; the callbacks libusb runs inside that call do
    not probe either, and the flag the poll leaves tells whether a device
    arrived among the events delivered during it.  Without a context the
    poll does nothing and the flag stays. *)
Theorem hotplug_arrivals_are_deferred_and_coalesced
  (g g1 g2 : usb_globals) (evs delivered : list (Z * Z)) (rc : Z)
  (devs : list libusb_device) (l1 l2 : trace discovery_call Z)
  (rets : list Z) :
  runs (hotplug_callbacks g evs) l1 (rets, g1) ->
  runs (rshim_usb_poll g1 rc devs delivered) l2 g2 ->
  calls l1 = flat_map hotplug_calls evs /\
  rets = map (fun _ => 0) evs /\
  rshim_usb_need_probe g1 = rshim_usb_need_probe g || arrival evs /\
  (rshim_usb_ctx g = false -> l2 = [] /\ g2 = g1) /\
  (rshim_usb_ctx g = true ->
     rshim_usb_ctx g2 = true /\
     rshim_usb_need_probe g2 = arrival delivered /\
     exists l_probe r l_cb,
       l2 = l_probe ++ (LibusbHandleEventsTimeoutCompleted, r) :: l_cb /\
       calls l_cb = flat_map hotplug_calls delivered /\
       if rshim_usb_need_probe g || arrival evs
       then exists ok, runs (rshim_usb_probe rc devs) l_probe ok
       else l_probe = []).
Proof.
  intros H1 H2.
  destruct (hotplug_callbacks_runs _ _ _ _ _ H1) as (C & R & X & N).
  split; [exact C |]. split; [exact R |]. split; [exact N |].
  unfold rshim_usb_poll in H2. rewrite X in H2. unfold arrival at 2.
  rewrite <- N.
  split; intros Hctx; rewrite Hctx in H2; cbn [negb] in H2.
  - apply runs_Ret_inv in H2. destruct H2 as [-> ->]. auto.
  - apply runs_bind_inv in H2. destruct H2 as (la & lb & g3 & -> & Ha & H2).
    apply runs_bind_inv in H2. destruct H2 as (lc & ld & r & -> & Hc & H2).
    apply runs_call_inv in Hc. subst lc.
    apply runs_bind_inv in H2.
    destruct H2 as (le & lf & [rets' g4] & -> & He & H2).
    apply runs_Ret_inv in H2. destruct H2 as [-> ->].
    destruct (hotplug_callbacks_runs _ _ _ _ _ He) as (C' & _ & X' & N').
    rewrite app_nil_r. cbn [app].
    assert (Hg3 : rshim_usb_ctx g3 = true /\ rshim_usb_need_probe g3 = false
                  /\ if rshim_usb_need_probe g1
                     then exists ok, runs (rshim_usb_probe rc devs) la ok
                     else la = []).
    { destruct (rshim_usb_need_probe g1) eqn:Hn.
      - cbv zeta in Ha.
        apply runs_bind_inv in Ha.
        destruct Ha as (lp & lq & ok & -> & Hp & Ha).
        apply runs_Ret_inv in Ha. destruct Ha as [-> Hg3]. subst g3.
        rewrite app_nil_r. cbn [set_need_probe rshim_usb_ctx
                                  rshim_usb_need_probe].
        rewrite X, Hctx. repeat split. exists ok. exact Hp.
      - apply runs_Ret_inv in Ha. destruct Ha as [-> Hg3]. subst g3.
        rewrite X, Hctx. auto. }
    destruct Hg3 as (Xg3 & Ng3 & Hp).
    split; [rewrite X'; exact Xg3 |].
    split; [rewrite N', Ng3; reflexivity |].
    exists la, r, le. split; [reflexivity |]. split; [exact C' |]. exact Hp.
Qed.

Lemma hotplug_arrivals_are_deferred_and_coalesced_witness :
  exists l1 rets g1 l2 g2,
    runs (hotplug_callbacks just_started
            [(1, LIBUSB_HOTPLUG_EVENT_DEVICE_ARRIVED);
             (4, LIBUSB_HOTPLUG_EVENT_DEVICE_ARRIVED);
             (9, LIBUSB_HOTPLUG_EVENT_DEVICE_LEFT)]) l1 (rets, g1) /\
    runs (rshim_usb_poll g1 4 sample_devices
            [(4, LIBUSB_HOTPLUG_EVENT_DEVICE_LEFT);
             (7, LIBUSB_HOTPLUG_EVENT_DEVICE_ARRIVED)]) l2 g2 /\
    calls l1 = [RshimUsbAddPoll; RshimUsbAddPoll; RshimUsbDisconnect 9;
                RshimUsbAddPoll] /\
    rets = [0; 0; 0] /\
    calls l2 = [RshimUsbProbeOne 1 bluefield2_desc;
                RshimUsbProbeOne 4 bluefield1_desc; RshimUsbAddPoll;
                LibusbHandleEventsTimeoutCompleted;
                RshimUsbDisconnect 4; RshimUsbAddPoll; RshimUsbAddPoll] /\
    rshim_usb_need_probe g2 = true.
Proof.
  eexists _, _, _, _, _.
  match goal with
  | |- runs ?p ?l ?d /\ _ => assert (H1 : runs p l d)
  end.
  { apply exec_runs with (env := fun _ _ => 0) (hist := []).
    vm_compute. reflexivity. }
  split; [exact H1 |].
  match goal with
  | |- runs ?p ?l ?d /\ _ => assert (H2 : runs p l d)
  end.
  { apply exec_runs with (env := fun _ _ => 0) (hist := []).
    vm_compute. reflexivity. }
  split; [exact H2 |].
  destruct (hotplug_arrivals_are_deferred_and_coalesced _ _ _ _ _ _ _ _ _ _
              H1 H2) as (C & R & _ & _ & P).
  split; [exact C |]. split; [exact R |]. split; [reflexivity |].
  exact (proj1 (proj2 (P eq_refl))).
Defined.

(** * rshim_usb.c: the interfaces of a device *)

Lemma usb_eta (dev : rshim_usb_t) :
  set_tm_fifo_out_ep
    (set_tm_fifo_int_ep (set_tm_fifo_in_ep dev (tm_fifo_in_ep dev))
       (tm_fifo_int_ep dev))
    (tm_fifo_out_ep dev) = dev.
Proof. destruct dev. reflexivity. Qed.

Lemma last_cons_default {A : Type} (x : A) (l : list A) (d : A) :
  last (x :: l) d = last l x.
Proof.
  destruct l as [| y l]; [reflexivity |].
  change (last (y :: l) d = last (y :: l) x). apply last_nonempty_default.
Qed.

Lemma last_ep_addr_cons (kind : libusb_endpoint_descriptor -> bool)
  (e : libusb_endpoint_descriptor) (eps : list libusb_endpoint_descriptor)
  (d : Z) :
  last (map ep_addr (filter kind (e :: eps))) d
  = last (map ep_addr (filter kind eps)) (if kind e then ep_addr e else d).
Proof.
  cbn [filter]. destruct (kind e); [| reflexivity].
  cbn [map]. apply last_cons_default.
Qed.

(** The loop over the endpoints leaves each role with the address of the
    last endpoint of its kind, or as it was. *)
Lemma tm_endpoints_fold (eps : list libusb_endpoint_descriptor) :
  forall dev,
    fold_left tm_endpoint eps dev
    = set_tm_fifo_out_ep
        (set_tm_fifo_int_ep
           (set_tm_fifo_in_ep dev
              (last (map ep_addr (filter is_bulk_in_ep eps))
                    (tm_fifo_in_ep dev)))
           (last (map ep_addr (filter is_int_in_ep eps))
                 (tm_fifo_int_ep dev)))
        (last (map ep_addr (filter is_bulk_out_ep eps))
              (tm_fifo_out_ep dev)).
Proof.
  induction eps as [| e eps IH]; intros dev.
  - cbn [fold_left filter map last]. symmetry. apply usb_eta.
  - cbn [fold_left]. rewrite IH, !last_ep_addr_cons.
    unfold tm_endpoint, is_bulk_in_ep, is_int_in_ep, is_bulk_out_ep.
    destruct (is_in_ep e), (is_bulk_ep e), (is_int_ep e);
      cbn [andb negb]; destruct dev; reflexivity.
Qed.

Lemma tm_endpoints_loop_fold (d : libusb_interface_descriptor) (n : nat) :
  forall i dev,
    0 <= i -> Z.of_nat n + i = bNumEndpoints d ->
    length (iface_endpoint d) = Z.to_nat (bNumEndpoints d) ->
    tm_endpoints_loop n d i dev
    = (bNumEndpoints d,
       fold_left tm_endpoint (skipn (Z.to_nat i) (iface_endpoint d)) dev).
Proof.
  induction n as [| n IH]; intros i dev Hi Hn Hlen;
    cbn [tm_endpoints_loop].
  - assert (i = bNumEndpoints d) by lia. subst i.
    rewrite skipn_all2 by lia. reflexivity.
  - assert (Hlt : (i <? bNumEndpoints d) = true) by (apply Z.ltb_lt; lia).
    rewrite Hlt. cbv zeta. rewrite IH by lia.
    f_equal. unfold endpoint_at.
    assert (Hin : (Z.to_nat i < length (iface_endpoint d))%nat) by lia.
    replace (Z.to_nat (i + 1)) with (S (Z.to_nat i)) by lia.
    revert Hin. generalize (Z.to_nat i) as k. generalize (iface_endpoint d).
    clear. intros l k. revert l.
    induction k as [| k IHk]; intros [| x l] Hk; cbn in Hk; try lia.
    + reflexivity.
    + cbn [skipn nth]. apply IHk. lia.
Qed.

(** X18: how the scan reads a tmfifo interface (sub-class 1, three
    endpoints).  Whatever the order of the endpoints, the input, the
    interrupt and the output role each go to the last endpoint of their
    kind (bulk in, interrupt in, bulk out), the three roles having been
    reset to 0 first; the interface is accepted, [has_tm] set and the
    shared loop index left at 3, exactly when each role got a non-zero
    address, and is an error otherwise.  Nothing else in the device
    structure changes. *)
Theorem tmfifo_roles_go_to_the_last_endpoint_of_each_kind
  (config : libusb_config_descriptor) (i : Z) (dev : rshim_usb_t) :
  let d := altsetting_at (interface_at config i) 0 in
  let eps := iface_endpoint d in
  let dev_eps :=
    set_tm_fifo_out_ep
      (set_tm_fifo_int_ep
         (set_tm_fifo_in_ep dev (last_ep_addr is_bulk_in_ep eps))
         (last_ep_addr is_int_in_ep eps))
      (last_ep_addr is_bulk_out_ep eps) in
  0 < num_altsetting (interface_at config i) ->
  bInterfaceSubClass d = 1 -> bNumEndpoints d = 3 ->
  length eps = 3%nat ->
  probe_interface config i dev
  = if (last_ep_addr is_bulk_in_ep eps =? 0)
       || (last_ep_addr is_int_in_ep eps =? 0)
       || (last_ep_addr is_bulk_out_ep eps =? 0)
    then ScanError dev_eps
    else ScanNext 3 (set_bd dev_eps (set_has_tm (bd dev_eps) true)).
Proof.
  cbv zeta. intros Halt Hsub Hnum Hlen. unfold probe_interface. cbv zeta.
  assert (Ha : (num_altsetting (interface_at config i) <=? 0) = false)
    by (apply Z.leb_gt; exact Halt).
  rewrite Ha, Hsub, Hnum. cbn [Z.eqb negb Pos.eqb].
  rewrite (tm_endpoints_loop_fold _ 3 0
             (set_tm_fifo_out_ep
                (set_tm_fifo_int_ep (set_tm_fifo_in_ep dev 0) 0) 0))
    by (rewrite ?Hnum, ?Hlen; cbn; lia).
  rewrite Hnum. cbn [Z.to_nat skipn]. rewrite tm_endpoints_fold.
  unfold last_ep_addr, nonzero.
  cbn [tm_fifo_in_ep tm_fifo_int_ep tm_fifo_out_ep set_tm_fifo_in_ep
       set_tm_fifo_int_ep set_tm_fifo_out_ep].
  rewrite !negb_involutive.
  destruct (_ =? 0), (_ =? 0), (_ =? 0); cbn [orb];
    destruct dev; reflexivity.
Qed.

Lemma tmfifo_roles_go_to_the_last_endpoint_of_each_kind_witness :
  exists dev',
    probe_interface bluefield_config 1 unprobed_usb = ScanNext 3 dev' /\
    tm_fifo_in_ep dev' = 0x82 /\ tm_fifo_int_ep dev' = 0x83 /\
    tm_fifo_out_ep dev' = 0x02 /\ has_tm (bd dev') = true.
Proof.
  assert (Halt : 0 < num_altsetting (interface_at bluefield_config 1))
    by reflexivity.
  pose proof (tmfifo_roles_go_to_the_last_endpoint_of_each_kind
                bluefield_config 1 unprobed_usb Halt eq_refl eq_refl eq_refl)
    as E.
  eexists. split; [rewrite E; vm_compute; reflexivity |].
  repeat split.
Defined.

(** ** The loop index shared by the two loops *)

Lemma tmfifo_interface_accepted (config : libusb_config_descriptor) (k : Z)
  (dev : rshim_usb_t) :
  is_tmfifo_interface (interface_at config k) = true ->
  exists dev',
    probe_interface config k dev = ScanNext 3 dev' /\
    has_tm (bd dev') = true /\
    has_rshim (bd dev') = has_rshim (bd dev) /\
    boot_fifo_ep dev' = boot_fifo_ep dev.
Proof.
  unfold is_tmfifo_interface. cbv zeta. intros H.
  apply andb_true_iff in H. destruct H as [H H5].
  apply andb_true_iff in H. destruct H as [H H0].
  apply andb_true_iff in H. destruct H as [H H1].
  apply andb_true_iff in H. destruct H as [H H2].
  apply andb_true_iff in H. destruct H as [H H3].
  apply andb_true_iff in H. destruct H as [H H4].
  apply Z.ltb_lt in H. apply Z.eqb_eq in H4, H3.
  apply Nat.eqb_eq in H2.
  unfold probe_interface. cbv zeta.
  assert (Ha : (num_altsetting (interface_at config k) <=? 0) = false)
    by (apply Z.leb_gt; exact H).
  rewrite Ha, H4, H3. cbn [Z.eqb negb Pos.eqb].
  rewrite (tm_endpoints_loop_fold _ 3 0
             (set_tm_fifo_out_ep
                (set_tm_fifo_int_ep (set_tm_fifo_in_ep dev 0) 0) 0))
    by (rewrite ?H3, ?H2; cbn; lia).
  rewrite H3. cbn [Z.to_nat skipn]. rewrite tm_endpoints_fold.
  cbn [tm_fifo_in_ep tm_fifo_int_ep tm_fifo_out_ep set_tm_fifo_in_ep
       set_tm_fifo_int_ep set_tm_fifo_out_ep].
  unfold last_ep_addr in H1, H0, H5. rewrite H1, H0, H5. cbn [negb orb].
  eexists. split; [reflexivity |]. repeat split.
Qed.

(** X19: the loop over the endpoints of the tmfifo interface counts in
    the index of the loop over the interfaces and leaves it at 3.  So in
    a configuration of at most four interfaces the scan ends, with
    success, as soon as it has accepted a tmfifo interface: the interfaces
    after it are never looked at, whatever they are, and [has_rshim] and
    the boot endpoint stay as they were at that point. *)
Theorem interfaces_after_tmfifo_are_skipped
  (config : libusb_config_descriptor) (k : Z) (dev : rshim_usb_t)
  (fuel : nat) :
  is_tmfifo_interface (interface_at config k) = true ->
  0 <= k < bNumInterfaces config -> bNumInterfaces config <= 4 ->
  exists dev',
    probe_interfaces (S (S fuel)) config k dev = Some (true, dev') /\
    has_tm (bd dev') = true /\
    has_rshim (bd dev') = has_rshim (bd dev) /\
    boot_fifo_ep dev' = boot_fifo_ep dev.
Proof.
  intros Htm Hk Hn.
  destruct (tmfifo_interface_accepted config k dev Htm)
    as (dev' & E & Ht & Hr & Hb).
  exists dev'. split; [| auto].
  cbn [probe_interfaces].
  assert (H1 : (k <? bNumInterfaces config) = true) by (apply Z.ltb_lt; lia).
  assert (H2 : (3 + 1 <? bNumInterfaces config) = false)
    by (apply Z.ltb_ge; lia).
  rewrite H1, E, H2. reflexivity.
Qed.

Lemma interfaces_after_tmfifo_are_skipped_witness :
  exists dev',
    probe_interfaces 2 swapped_config 0 unprobed_usb = Some (true, dev') /\
    has_tm (bd dev') = true /\
    has_rshim (bd dev') = has_rshim (bd unprobed_usb) /\
    boot_fifo_ep dev' = boot_fifo_ep unprobed_usb.
Proof.
  apply (interfaces_after_tmfifo_are_skipped swapped_config 0 unprobed_usb 0);
    [reflexivity | vm_compute; split; [discriminate | reflexivity]
    | vm_compute; discriminate].
Defined.

(** X20: with more than four interfaces and an acceptable tmfifo
    interface at index 4, the scan never ends once it is at index 4: the
    inner loop puts the index back to 3 and the increment brings it to 4
    again. *)
Theorem scan_never_ends_with_tmfifo_at_index_4
  (config : libusb_config_descriptor) (fuel : nat) (dev : rshim_usb_t) :
  is_tmfifo_interface (interface_at config 4) = true ->
  4 < bNumInterfaces config ->
  probe_interfaces fuel config 4 dev = None.
Proof.
  intros Htm Hn. revert dev.
  induction fuel as [| fuel IH]; intros dev; [reflexivity |].
  cbn [probe_interfaces].
  assert (H1 : (4 <? bNumInterfaces config) = true) by (apply Z.ltb_lt; lia).
  destruct (tmfifo_interface_accepted config 4 dev Htm) as (dev' & E & _).
  rewrite H1, E. apply IH.
Qed.

Lemma scan_never_ends_with_tmfifo_at_index_4_witness :
  probe_interfaces 1000 five_interface_config 4 unprobed_usb = None /\
  probe_interfaces 1000 five_interface_config 0 unprobed_usb = None.
Proof.
  split.
  - apply (scan_never_ends_with_tmfifo_at_index_4 five_interface_config
             1000 unprobed_usb); [reflexivity | reflexivity].
  - vm_compute. reflexivity.
Defined.

(** * Probing and tearing down a device *)

(** X21: [rshim_pcie_probe] and the two locks.  On every run the rshim
    lock and the backend mutex are taken only when free and released only
    when held, the lookup by name and [rshim_register] happen under the
    rshim lock, the attach notification under the backend mutex, and both
    are free on return, also on the error paths.  The result is 0 exactly
    when the attach notification was sent and answered 0; otherwise it is
    -ENOMEM, whatever code [rshim_fifo_alloc] gave, or the code of
    [rshim_register] or of the notification. *)
Theorem pcie_probe_keeps_the_lock_discipline
  (l : trace os_call Z) (ret : Z) :
  runs rshim_pcie_probe l ret ->
  lock_discipline false false (calls l) = true /\
  (ret = 0 <-> In (RshimNotifyEvent RSH_EVENT_ATTACH 0, 0) l) /\
  (ret = 0 \/ ret = - ENOMEM \/ In (RshimRegister, ret) l
   \/ In (RshimNotifyEvent RSH_EVENT_ATTACH 0, ret) l).
Proof.
  unfold rshim_pcie_probe. cbv zeta. intros H.
  repeat run_step; rewrite ?app_nil_r; cbn [app calls map fst];
    try discriminate;
    (split; [reflexivity |]);
    rc_cases; subst;
    (split; [split; [intros E; try discriminate E; cbn [In]; tauto
                    | cbn [In]; intros E;
                      repeat match goal with
                             | H : _ \/ _ |- _ => destruct H
                             | H : False |- _ => destruct H
                             | H : (_, _) = (_, _) |- _ =>
                                 inversion H; subst; clear H
                             end; try congruence; try reflexivity]
           | cbn [In]; tauto]).
Qed.

Lemma pcie_probe_keeps_the_lock_discipline_witness :
  exists l,
    runs rshim_pcie_probe l (-5) /\
    calls l = [Malloc; RshimLock; RshimFindByName; RshimFifoAlloc;
               RshimFifoAlloc; BdReadBuf; BdWriteBuf; RshimUnlock;
               RshimLock; BdRegistered; RshimRegister; RshimUnlock;
               Free 1] /\
    lock_discipline false false (calls l) = true.
Proof.
  eexists.
  match goal with
  | |- runs ?p ?l ?d /\ _ => assert (Hrun : runs p l d)
  end.
  { apply exec_runs
      with (env := fun _ e =>
                     match e with
                     | RshimFifoAlloc | BdRegistered => 0
                     | RshimRegister => -5
                     | _ => 1
                     end) (hist := []).
    vm_compute. reflexivity. }
  split; [exact Hrun |]. split; [reflexivity |].
  exact (proj1 (pcie_probe_keeps_the_lock_discipline _ _ Hrun)).
Defined.

Lemma lf_init_devices_runs (devices : list pci_dev) :
  forall l u, runs (rshim_pcie_lf_init_devices devices) l u ->
    calls l = flat_map lf_init_calls devices.
Proof.
  induction devices as [| dev next IH]; intros l u H;
    cbn [rshim_pcie_lf_init_devices] in H.
  - apply runs_Ret_inv in H. destruct H as [-> _]. reflexivity.
  - apply runs_bind_inv in H. destruct H as (l1 & l2 & r & -> & Hc & H).
    apply runs_call_inv in Hc. subst l1.
    apply runs_bind_inv in H. destruct H as (l3 & l4 & u1 & -> & Hp & H).
    assert (E3 : map fst l3
                 = if (vendor_id dev =? TILERA_VENDOR_ID)
                      && (device_id dev =? BLUEFIELD_DEVICE_ID)
                   then [RshimPcieProbe (pci_dev_ptr dev)] else []).
    { destruct (vendor_id dev =? TILERA_VENDOR_ID),
        (device_id dev =? BLUEFIELD_DEVICE_ID); cbn [negb orb andb] in *;
        repeat run_step; rewrite ?app_nil_r; reflexivity. }
    unfold calls in *. cbn [app map fst].
    rewrite map_app, (IH _ _ H), E3. reflexivity.
Qed.

(** X22: [rshim_pcie_lf_init] returns -ENOMEM, having called nothing
    else, when [pci_alloc] fails.  Otherwise it initialises libpci, scans
    the bus, fills in the identifiers of every device on the list, in
    order, and calls [rshim_pcie_probe] once for exactly the devices with
    vendor id 0x15b3 and device id 0x0211; it returns 0 whatever the
    probes returned. *)
Theorem pcie_init_probes_exactly_the_bluefield_functions
  (devices : list pci_dev) (l : trace os_call Z) (ret : Z) :
  runs (rshim_pcie_lf_init devices) l ret ->
  (ret = - ENOMEM /\ l = [(PciAlloc, 0)]) \/
  (ret = 0 /\
   calls l = [PciAlloc; PciInit; PciScanBus]
             ++ flat_map lf_init_calls devices).
Proof.
  unfold rshim_pcie_lf_init. intros H.
  apply runs_bind_inv in H. destruct H as (l1 & l2 & pci & -> & Hc & H).
  apply runs_call_inv in Hc. subst l1.
  destruct (Z.eqb_spec pci 0) as [E | Hp].
  - apply runs_Ret_inv in H. destruct H as [-> ->]. left. rewrite E. auto.
  - right.
    apply runs_bind_inv in H. destruct H as (l3 & l4 & r1 & -> & Hc & H).
    apply runs_call_inv in Hc. subst l3.
    apply runs_bind_inv in H. destruct H as (l5 & l6 & r2 & -> & Hc & H).
    apply runs_call_inv in Hc. subst l5.
    apply runs_bind_inv in H. destruct H as (l7 & l8 & u & -> & Hd & H).
    apply runs_Ret_inv in H. destruct H as [-> ->].
    split; [reflexivity |]. rewrite app_nil_r.
    cbn [app calls map fst]. f_equal. f_equal. f_equal.
    exact (lf_init_devices_runs _ _ _ Hd).
Qed.

Lemma pcie_init_probes_exactly_the_bluefield_functions_witness :
  exists l,
    runs (rshim_pcie_lf_init sample_pci_devices) l 0 /\
    calls l = [PciAlloc; PciInit; PciScanBus; PciFillInfo 1 0x25;
               PciFillInfo 2 0x25; RshimPcieProbe 2; PciFillInfo 3 0x25].
Proof.
  eexists.
  match goal with
  | |- runs ?p ?l ?d /\ _ => assert (Hrun : runs p l d)
  end.
  { apply exec_runs with (env := os_env 1 (-12) is_rshim_pcie_probe)
                         (hist := []).
    vm_compute. reflexivity. }
  split; [exact Hrun |].
  destruct (pcie_init_probes_exactly_the_bluefield_functions _ _ _ Hrun)
    as [[E _] | [_ E]]; [discriminate E | exact E].
Defined.

(** ** Disconnect and delete *)

Lemma closes_app (l1 l2 : trace os_call Z) :
  closes (l1 ++ l2) = closes l1 ++ closes l2.
Proof. apply flat_map_app. Qed.

(** X23: a device disconnected, then deleted.  Over the two routines the
    handle is closed exactly once when it was open and never when it was
    not, whether or not the registry still knew the device: the disconnect
    closes it and clears the pointer, and the delete closes only a handle
    still set.  When the registry knew the device the disconnect clears
    [has_rshim], leaves [has_tm] as it was and clears the pointers to the
    two transfers and to the interrupt buffer; from then on the register
    accessors return -ENODEV and the stream routines return without
    calling libusb, so the cancelled transfers are never submitted
    again. *)
Theorem disconnect_closes_once_and_silences_the_device
  (host_big_endian : bool) (usb_dev dev_ptr : Z) (dev dev1 : rshim_usb_obj)
  (l1 l2 : trace os_call Z) :
  runs (rshim_usb_disconnect usb_dev dev) l1 dev1 ->
  runs (rshim_usb_delete dev_ptr dev1) l2 tt ->
  closes (l1 ++ l2) = (if handle dev =? 0 then [] else [handle dev]) /\
  ((exists p, p <> 0 /\ In (RshimFindByDev usb_dev, p) l1) ->
   has_rshim (bd (usb dev1)) = false /\
   has_tm (bd (usb dev1)) = has_tm (bd (usb dev)) /\
   handle dev1 = 0 /\ read_or_intr_urb_ptr dev1 = 0 /\
   write_urb_ptr dev1 = 0 /\ intr_buf_ptr dev1 = 0 /\
   (forall chan addr,
      rshim_usb_read_rshim host_big_endian (usb dev1) chan addr
      = Ret (- ENODEV, None, usb dev1)) /\
   (forall chan addr value,
      rshim_usb_write_rshim host_big_endian (usb dev1) chan addr value
      = Ret (- ENODEV, usb dev1)) /\
   (forall count, rshim_usb_fifo_read (usb dev1) count = Ret (usb dev1)) /\
   (forall count,
      rshim_usb_fifo_write (usb dev1) count = Ret (- ENODEV, usb dev1))).
Proof.
  unfold rshim_usb_disconnect, rshim_usb_delete. cbv zeta. intros H1 H2.
  apply runs_bind_inv in H1. destruct H1 as (la & lb & r0 & -> & Hc & H1).
  apply runs_call_inv in Hc. subst la.
  apply runs_bind_inv in H1. destruct H1 as (la & lc & p & -> & Hc & H1).
  apply runs_call_inv in Hc. subst la.
  destruct (nonzero p) eqn:Hp; cbn [negb] in H1.
  - (* the registry knows the device *)
    repeat run_step; rewrite ?app_nil_r;
      cbn [handle usb read_or_intr_urb_ptr write_urb_ptr intr_buf_ptr] in *;
      rewrite !closes_app; cbn [closes flat_map fst app];
      unfold nonzero in *;
      repeat match goal with
             | H : negb (?x =? 0) = _ |- _ =>
                 destruct (x =? 0) eqn:?; cbn [negb] in H; try discriminate
             end;
      try discriminate;
      (split; [reflexivity |]); intros _;
      repeat split; try (apply Z.eqb_eq; assumption).
  - (* it does not: nothing but the lock *)
    apply nonzero_false in Hp. subst p.
    repeat run_step; rewrite ?app_nil_r;
      rewrite !closes_app; cbn [closes flat_map fst app];
      unfold nonzero in *;
      repeat match goal with
             | H : negb (?x =? 0) = _ |- _ =>
                 destruct (x =? 0) eqn:?; cbn [negb] in H; try discriminate
             end;
      (split; [reflexivity |]);
      intros (p & Hne & Hin); cbn [In] in Hin;
      repeat match goal with
             | H : _ \/ _ |- _ => destruct H
             | H : False |- _ => destruct H
             | H : (_, _) = (_, _) |- _ => inversion H; subst; clear H
             end; contradiction.
Qed.

Lemma disconnect_closes_once_and_silences_the_device_witness :
  exists l1 dev1 l2,
    runs (rshim_usb_disconnect 9 connected_usb) l1 dev1 /\
    runs (rshim_usb_delete 0x4000 dev1) l2 tt /\
    closes (l1 ++ l2) = [0x5000] /\ has_rshim (bd (usb dev1)) = false.
Proof.
  eexists _, _, _.
  match goal with
  | |- runs ?p ?l ?d /\ _ => assert (H1 : runs p l d)
  end.
  { apply exec_runs with (env := fun _ _ => 1) (hist := []).
    vm_compute. reflexivity. }
  split; [exact H1 |].
  match goal with
  | |- runs ?p ?l ?d /\ _ => assert (H2 : runs p l d)
  end.
  { apply exec_runs with (env := fun _ _ => 1) (hist := []).
    vm_compute. reflexivity. }
  split; [exact H2 |].
  destruct (disconnect_closes_once_and_silences_the_device false _ _ _ _ _ _
              H1 H2) as [Hc Hs].
  split; [exact Hc |].
  refine (proj1 (Hs _)). exists 1. split; [discriminate |].
  cbn [In]. auto.
Defined.

(** ** Probing one USB device *)

Lemma lock_discipline_neutral_app (l1 l2 : list os_call) (g m : bool) :
  forallb is_lock_neutral l1 = true ->
  lock_discipline g m (l1 ++ l2) = lock_discipline g m l2.
Proof.
  induction l1 as [| e l1 IH]; intros H; [reflexivity |].
  cbn [forallb] in H. apply andb_true_iff in H. destruct H as [He Hl].
  cbn [app]. destruct e; try discriminate He; cbn [lock_discipline];
    exact (IH Hl).
Qed.

Lemma lock_discipline_neutral (l : list os_call) (g m : bool) :
  forallb is_lock_neutral l = true ->
  lock_discipline g m l = lock_discipline g m [].
Proof.
  intros H. rewrite <- (app_nil_r l) at 1.
  apply lock_discipline_neutral_app. exact H.
Qed.

(** The loop that claims the interfaces touches neither lock; it closes
    the handle exactly when it makes the function return, and otherwise
    leaves in [rc] the value it found there or a code that is not
    negative. *)
Lemma claim_interfaces_runs (n : nat) (h : Z) :
  forall i rc l returned rc',
    runs (claim_interfaces n h i rc) l (returned, rc') ->
    forallb is_lock_neutral (calls l) = true /\
    closes l = (if returned then [h] else []) /\
    (returned = false -> rc' = rc \/ 0 <= rc') /\
    (returned = true -> rc' < 0).
Proof.
  induction n as [| n IH]; intros i rc l returned rc' H;
    cbn [claim_interfaces] in H.
  - apply runs_Ret_inv in H. destruct H as [-> H].
    apply (f_equal fst) in H as H1. apply (f_equal snd) in H as H2.
    cbn [fst snd] in H1, H2. subst. repeat split; auto; discriminate.
  - apply runs_bind_inv in H. destruct H as (l1 & l2 & rc1 & -> & Hc & H).
    apply runs_call_inv in Hc. subst l1.
    destruct (Z.ltb_spec rc1 0) as [Hneg | Hpos].
    + apply runs_bind_inv in H. destruct H as (l3 & l4 & act & -> & Hc & H).
      apply runs_call_inv in Hc. subst l3.
      destruct (act =? 1).
      * apply runs_bind_inv in H. destruct H as (l5 & l6 & x & -> & Hc & H).
        inversion H.
      * apply runs_bind_inv in H. destruct H as (l5 & l6 & x & -> & Hc & H).
        apply runs_call_inv in Hc. subst l5.
        apply runs_Ret_inv in H. destruct H as [-> H].
        apply (f_equal fst) in H as H1. apply (f_equal snd) in H as H2.
        cbn [fst snd] in H1, H2. subst.
        repeat split; auto; try discriminate.
    + destruct (IH _ _ _ _ _ H) as (Hn & Hcl & Hrc & Hret).
      cbn [app calls map fst forallb is_lock_neutral andb].
      split; [exact Hn |]. split.
      * change ((LibusbClaimInterface i, rc1) :: l2)
          with ([(LibusbClaimInterface i, rc1)] ++ l2).
        rewrite closes_app. exact Hcl.
      * split; [| exact Hret].
        intros Hr. destruct (Hrc Hr) as [-> | Hge]; [right; lia | auto].
Qed.

Ltac probe_step :=
  match goal with
  | H : runs (match ?x with Some _ => _ | None => _ end) _ _ |- _ =>
      let E := fresh "Eopt" in destruct x eqn:E
  | H : runs (probe_one_error _ _) _ _ |- _ => unfold probe_one_error in H
  | _ => run_step
  end.

Ltac claims_done :=
  match goal with
  | H : runs (claim_interfaces _ _ _ _) _ (_, _) |- _ =>
      let Hn := fresh "Hneutral" in let Hcl := fresh "Hcloses" in
      let Hrc := fresh "Hrc" in let Hret := fresh "Hret" in
      destruct (claim_interfaces_runs _ _ _ _ _ _ _ H)
        as (Hn & Hcl & Hrc & Hret);
      clear H
  end.

(** X24: [rshim_usb_probe_one] and the two locks.  On every run that
    returns, by any of its exits, the rshim lock and the backend mutex
    are taken only when free and released only when held; the lookups,
    [rshim_ref], [rshim_register] and [rshim_deref] happen under the rshim
    lock and the attach notification under the backend mutex; and both
    are free on return. *)
Theorem usb_probe_one_keeps_the_lock_discipline
  (fuel : nat) (usb_dev : Z) (config : libusb_config_descriptor)
  (new_handle : Z) (existing : rshim_usb_obj)
  (l : trace os_call Z) (r : Z * option rshim_usb_obj) :
  runs (rshim_usb_probe_one fuel usb_dev config new_handle existing) l r ->
  lock_discipline false false (calls l) = true.
Proof.
  unfold rshim_usb_probe_one. cbv zeta. intros H.
  repeat probe_step; try claims_done; rewrite ?app_nil_r;
    unfold calls in *; rewrite ?map_app; cbn [map fst app];
    cbn [lock_discipline andb negb];
    rewrite ?lock_discipline_neutral_app by assumption;
    try (rewrite lock_discipline_neutral by assumption);
    cbn [lock_discipline andb negb]; reflexivity.
Qed.

Lemma neutral_not_lookup (l : list os_call) (e : os_call) :
  forallb is_lock_neutral l = true -> is_lock_neutral e = false ->
  ~ In e l.
Proof.
  intros H He Hin. rewrite forallb_forall in H.
  rewrite (H _ Hin) in He. discriminate.
Qed.

Lemma closes_cons (c : os_call * Z) (l : trace os_call Z) :
  closes (c :: l) = closes [c] ++ closes l.
Proof.
  unfold closes. cbn [flat_map]. rewrite app_nil_r. reflexivity.
Qed.

(** X25: what [rshim_usb_probe_one] does with a device it gives up on
    after the interfaces were claimed.  From the lookup by name on, no
    exit closes the handle; the structure, when there is one, keeps it.
    And an exit taken before [rshim_register] was called, for a
    configuration the scan rejects or for lack of memory, returns the code
    left in [rc] by [libusb_open] and the claims, which is never negative:
    such a failure is not told apart from success by a negative code. *)
Theorem usb_probe_one_gives_up_without_an_error_code
  (fuel : nat) (usb_dev : Z) (config : libusb_config_descriptor)
  (new_handle : Z) (existing : rshim_usb_obj)
  (l : trace os_call Z) (rc : Z) (r : option rshim_usb_obj) :
  runs (rshim_usb_probe_one fuel usb_dev config new_handle existing)
       l (rc, r) ->
  In RshimFindByName (calls l) ->
  closes l = [] /\
  (forall dev, r = Some dev -> handle dev = new_handle) /\
  (~ In RshimRegister (calls l) -> 0 <= rc).
Proof.
  unfold rshim_usb_probe_one. cbv zeta. intros H.
  repeat probe_step; try claims_done; rewrite ?app_nil_r;
    unfold calls in *; rewrite ?map_app; cbn [map fst app];
    intros Hin.
  all: try (exfalso; cbn [In] in Hin;
            repeat (destruct Hin as [Hin | Hin]; [discriminate Hin |]);
            solve [ exact Hin
                  | eapply neutral_not_lookup;
                    [eassumption | | exact Hin]; reflexivity ]).
  all: split;
    [ unfold closes in *; cbn [flat_map fst app];
      rewrite ?flat_map_app; cbn [flat_map fst app];
      rewrite ?Hcloses; reflexivity |].
  all: split;
    [ intros dev E; first [discriminate E | inversion E; reflexivity] |].
  all: intros Hnr;
    first [ destruct (Hrc eq_refl) as [E | E]; rc_cases; subst; lia
          | exfalso; apply Hnr; cbn [In]; repeat right;
            apply in_or_app; right; cbn [In]; tauto ].
Qed.

Lemma usb_probe_one_keeps_the_lock_discipline_witness :
  exists l r,
    runs (rshim_usb_probe_one 5 9 malformed_config 0x5000 zeroed_usb_obj)
         l r /\
    lock_discipline false false (calls l) = true.
Proof.
  eexists _, _.
  match goal with
  | |- runs ?p ?l ?d /\ _ => assert (Hrun : runs p l d)
  end.
  { apply exec_runs with (env := fresh_env) (hist := []).
    vm_compute. reflexivity. }
  split; [exact Hrun |].
  exact (usb_probe_one_keeps_the_lock_discipline _ _ _ _ _ _ _ Hrun).
Defined.

Lemma usb_probe_one_gives_up_without_an_error_code_witness :
  exists l r,
    runs (rshim_usb_probe_one 5 9 malformed_config 0x5000 zeroed_usb_obj)
         l (0, r) /\
    closes l = [] /\
    (forall dev, r = Some dev -> handle dev = 0x5000) /\
    (~ In RshimRegister (calls l) -> 0 <= 0).
Proof.
  eexists _, _.
  match goal with
  | |- runs ?p ?l ?d /\ _ => assert (Hrun : runs p l d)
  end.
  { apply exec_runs with (env := fresh_env) (hist := []).
    vm_compute. reflexivity. }
  split; [exact Hrun |].
  apply (usb_probe_one_gives_up_without_an_error_code _ _ _ _ _ _ _ _ Hrun).
  cbn. auto 20.
Defined.

Lemma claims_accepted_runs (n : nat) (h : Z) :
  forall i,
    runs (claim_interfaces n h i 0) (claims_accepted n i) (false, 0).
Proof.
  induction n as [| n IH]; intros i; cbn [claim_interfaces claims_accepted].
  - constructor.
  - unfold call. cbn [bind]. constructor. cbn [bind Z.ltb Z.compare].
    apply IH.
Qed.

(** X26: a probe succeeds without an interrupt buffer.  For every
    configuration the scan accepts there is a run of
    [rshim_usb_probe_one] on a device not seen before that returns 0
    although the allocation of the interrupt buffer failed: it registers
    the device and notifies the attachment with the pointer left NULL,
    the test after the allocations looking at the two transfers only. *)
Theorem usb_probe_one_succeeds_without_interrupt_buffer
  (fuel : nat) (usb_dev : Z) (config : libusb_config_descriptor)
  (new_handle : Z) (u : rshim_usb_t) :
  probe_interfaces fuel config 0 unprobed_usb = Some (true, u) ->
  runs (rshim_usb_probe_one fuel usb_dev config new_handle zeroed_usb_obj)
       (probe_without_intr_buf usb_dev config)
       (0, Some {| usb := u; handle := new_handle; intr_buf_ptr := 0;
                   read_or_intr_urb_ptr := 1; write_urb_ptr := 1 |}).
Proof.
  intros Hscan. unfold rshim_usb_probe_one, probe_without_intr_buf.
  cbv zeta. unfold call. cbn [bind app].
  do 8 (constructor; cbn [bind nonzero Z.eqb negb Z.leb Z.compare]).
  eapply (runs_bind (claim_interfaces _ _ _ _)); [apply claims_accepted_runs |].
  cbn [bind app]. cbv iota beta.
  do 6 (constructor;
        cbn [bind nonzero Z.eqb negb orb zeroed_usb_obj usb handle
             intr_buf_ptr read_or_intr_urb_ptr write_urb_ptr]).
  do 3 (constructor;
        cbn [bind nonzero Z.eqb negb orb zeroed_usb_obj usb handle
             intr_buf_ptr read_or_intr_urb_ptr write_urb_ptr]).
  rewrite Hscan. cbn [bind set_usb].
  do 4 (constructor;
        cbn [bind nonzero Z.eqb negb orb usb handle
             intr_buf_ptr read_or_intr_urb_ptr write_urb_ptr]).
  constructor.
Qed.

Lemma usb_probe_one_succeeds_without_interrupt_buffer_witness :
  exists u,
    runs (rshim_usb_probe_one 5 9 bluefield_config 0x5000 zeroed_usb_obj)
         (probe_without_intr_buf 9 bluefield_config)
         (0, Some {| usb := u; handle := 0x5000; intr_buf_ptr := 0;
                     read_or_intr_urb_ptr := 1; write_urb_ptr := 1 |}) /\
    has_rshim (bd u) = true /\ has_tm (bd u) = true.
Proof.
  eexists. split.
  - apply (usb_probe_one_succeeds_without_interrupt_buffer 5 9
             bluefield_config 0x5000).
    vm_compute. reflexivity.
  - split; reflexivity.
Defined.

(** * rshim_usb.c: initialisation *)

Lemma registrations_app (l1 l2 : trace discovery_call Z) :
  registrations (l1 ++ l2) = registrations l1 ++ registrations l2.
Proof. unfold registrations. apply flat_map_app. Qed.

Lemma exits_app (l1 l2 : trace discovery_call Z) :
  exits (l1 ++ l2) = (exits l1 + exits l2)%nat.
Proof. unfold exits. rewrite filter_app, length_app. reflexivity. Qed.

Lemma arrival_app (evs1 evs2 : list (Z * Z)) :
  arrival (evs1 ++ evs2) = arrival evs1 || arrival evs2.
Proof. unfold arrival. apply existsb_app. Qed.

Lemma enumerated_during_app (enumerated : Z -> Z -> list (Z * Z))
  (l1 l2 : trace discovery_call Z) :
  enumerated_during enumerated (l1 ++ l2)
  = enumerated_during enumerated l1 ++ enumerated_during enumerated l2.
Proof.
  unfold enumerated_during. rewrite registrations_app. apply flat_map_app.
Qed.

(** The callback neither registers nor leaves libusb. *)
Lemma hotplug_callbacks_register_nothing (evs : list (Z * Z)) :
  forall g l r,
    runs (hotplug_callbacks g evs) l r ->
    registrations l = [] /\ exits l = O.
Proof.
  induction evs as [| [dev event] evs IH]; intros g l r H;
    cbn [hotplug_callbacks] in H.
  - apply runs_Ret_inv in H. destruct H as [-> _]. auto.
  - apply runs_bind_inv in H. destruct H as (l1 & l2 & [ret g1] & -> & H1 & H).
    apply runs_bind_inv in H. destruct H as (l3 & l4 & [rets g2] & -> & H2 & H).
    apply runs_Ret_inv in H. destruct H as [-> _].
    destruct (IH _ _ _ H2) as [R2 E2].
    rewrite app_nil_r, registrations_app, exits_app, R2, E2.
    unfold rshim_hotplug_callback in H1.
    destruct (event =? LIBUSB_HOTPLUG_EVENT_DEVICE_ARRIVED);
      [| destruct (event =? LIBUSB_HOTPLUG_EVENT_DEVICE_LEFT)];
      repeat run_step; auto.
Qed.

Lemma register_hotplug_callback_runs (g : usb_globals) (events id : Z)
  (evs : list (Z * Z)) l rc g' :
  runs (register_hotplug_callback g events id evs) l (rc, g') ->
  registrations l = [(events, id)] /\ exits l = O /\
  rshim_usb_ctx g' = rshim_usb_ctx g /\
  rshim_usb_need_probe g' = rshim_usb_need_probe g || arrival evs.
Proof.
  unfold register_hotplug_callback. intros H.
  apply runs_bind_inv in H. destruct H as (l0 & l1 & rc0 & -> & Hc & H).
  apply runs_call_inv in Hc. subst l0.
  apply runs_bind_inv in H. destruct H as (l2 & l3 & [rets g1] & -> & Hcb & H).
  apply runs_Ret_inv in H. destruct H as [-> H].
  apply (f_equal snd) in H. cbn [snd] in H. subst g'.
  destruct (hotplug_callbacks_runs _ _ _ _ _ Hcb) as (_ & _ & X & N).
  destruct (hotplug_callbacks_register_nothing _ _ _ _ Hcb) as [R E].
  rewrite app_nil_r.
  change (registrations ([(LibusbHotplugRegisterCallback events
                             LIBUSB_HOTPLUG_ENUMERATE USB_TILERA_VENDOR_ID
                             id LIBUSB_HOTPLUG_MATCH_ANY, rc0)] ++ l2)
          = [(events, id)] /\
          exits ([(LibusbHotplugRegisterCallback events
                     LIBUSB_HOTPLUG_ENUMERATE USB_TILERA_VENDOR_ID
                     id LIBUSB_HOTPLUG_MATCH_ANY, rc0)] ++ l2) = O /\
          rshim_usb_ctx g1 = rshim_usb_ctx g /\
          rshim_usb_need_probe g1 = rshim_usb_need_probe g || arrival evs).
  rewrite registrations_app, exits_app, R, E. auto.
Qed.

(** The registration loop: the flag collects the arrivals handed to the
    callback during the registrations made; the loop either makes both
    registrations of every product id, or stops at the first one that
    fails, leaves libusb once and clears the context. *)
Lemma init_register_runs (enumerated : Z -> Z -> list (Z * Z))
  (ids : list Z) :
  forall g l returned g',
    runs (rshim_usb_init_register g ids enumerated) l (returned, g') ->
    rshim_usb_need_probe g'
    = rshim_usb_need_probe g || arrival (enumerated_during enumerated l) /\
    match returned with
    | None =>
        rshim_usb_ctx g' = rshim_usb_ctx g /\
        registrations l
        = flat_map (fun id => [(LIBUSB_HOTPLUG_EVENT_DEVICE_ARRIVED, id);
                               (LIBUSB_HOTPLUG_EVENT_DEVICE_LEFT, id)]) ids /\
        exits l = O
    | Some rc =>
        rc <> 0 /\ rshim_usb_ctx g' = false /\ exits l = 1%nat
    end.
Proof.
  induction ids as [| id ids IH]; intros g l returned g' H;
    cbn [rshim_usb_init_register] in H.
  - apply runs_Ret_inv in H. destruct H as [-> H].
    apply (f_equal fst) in H as Hr. apply (f_equal snd) in H as Hg.
    cbn [fst snd] in Hr, Hg. subst returned g'.
    cbn. rewrite orb_false_r. auto.
  - apply runs_bind_inv in H. destruct H as (l1 & l2 & [rc1 g1] & -> & H1 & H).
    destruct (register_hotplug_callback_runs _ _ _ _ _ _ _ H1)
      as (R1 & E1 & X1 & N1).
    assert (D1 : enumerated_during enumerated l1
                 = enumerated LIBUSB_HOTPLUG_EVENT_DEVICE_ARRIVED id).
    { unfold enumerated_during. rewrite R1. cbn. apply app_nil_r. }
    rewrite enumerated_during_app, arrival_app, registrations_app, exits_app,
      D1, R1, E1.
    destruct (Z.eqb_spec rc1 LIBUSB_SUCCESS) as [Hrc1 | Hrc1]; cbn [negb] in H.
    + apply runs_bind_inv in H.
      destruct H as (l3 & l4 & [rc2 g2] & -> & H2 & H).
      destruct (register_hotplug_callback_runs _ _ _ _ _ _ _ H2)
        as (R2 & E2 & X2 & N2).
      assert (D2 : enumerated_during enumerated l3
                   = enumerated LIBUSB_HOTPLUG_EVENT_DEVICE_LEFT id).
      { unfold enumerated_during. rewrite R2. cbn. apply app_nil_r. }
      rewrite enumerated_during_app, arrival_app, registrations_app,
        exits_app, D2, R2, E2.
      destruct (Z.eqb_spec rc2 LIBUSB_SUCCESS) as [Hrc2 | Hrc2];
        cbn [negb] in H.
      * destruct (IH _ _ _ _ H) as [N3 P3].
        split.
        { rewrite N3, N2, N1, !orb_assoc. reflexivity. }
        destruct returned as [rc |].
        { destruct P3 as (Hne & X3 & E3). rewrite E3. auto. }
        { destruct P3 as (X3 & R3 & E3).
          rewrite X3, X2, X1, R3, E3. cbn [flat_map app]. auto. }
      * repeat run_step. cbn [rshim_usb_ctx rshim_usb_need_probe].
        rewrite app_nil_r. cbn. rewrite orb_false_r.
        split; [rewrite N2, N1, !orb_assoc; reflexivity |].
        unfold LIBUSB_SUCCESS in Hrc2. auto.
    + repeat run_step. cbn [rshim_usb_ctx rshim_usb_need_probe].
      rewrite app_nil_r. cbn. rewrite orb_false_r.
      split; [exact N1 |]. unfold LIBUSB_SUCCESS in Hrc1. auto.
Qed.

(** X27: [rshim_usb_init] and the context.  Started without a context,
    the function returns 0 exactly when it leaves the context set.  It
    then registered the hotplug callback four times, for arrival and for
    departure of each of the two product ids in turn, and never called
    [libusb_exit].  libusb runs the callback for the devices already
    attached from inside each registration: the flag the function leaves
    is set exactly when it was set before or a device arrived among the
    events handed to the callback during the registrations made.  When
    [libusb_init] fails its negative code is returned and nothing else is
    called; when a registration fails its code is returned, no further
    registration is made, [libusb_exit] is called once and the context is
    cleared, so that [rshim_usb_poll] then does nothing. *)
Theorem usb_init_result_tells_whether_the_context_is_set
  (log_above_err : bool) (g g' : usb_globals)
  (enumerated : Z -> Z -> list (Z * Z)) (l : trace discovery_call Z)
  (ret rc : Z) (devs : list libusb_device) (delivered : list (Z * Z)) :
  rshim_usb_ctx g = false ->
  runs (rshim_usb_init log_above_err g enumerated) l (ret, g') ->
  (ret = 0 <-> rshim_usb_ctx g' = true) /\
  rshim_usb_need_probe g'
  = rshim_usb_need_probe g || arrival (enumerated_during enumerated l) /\
  (ret = 0 ->
     registrations l
     = [(LIBUSB_HOTPLUG_EVENT_DEVICE_ARRIVED, USB_BLUEFIELD_1_PRODUCT_ID);
        (LIBUSB_HOTPLUG_EVENT_DEVICE_LEFT, USB_BLUEFIELD_1_PRODUCT_ID);
        (LIBUSB_HOTPLUG_EVENT_DEVICE_ARRIVED, USB_BLUEFIELD_2_PRODUCT_ID);
        (LIBUSB_HOTPLUG_EVENT_DEVICE_LEFT, USB_BLUEFIELD_2_PRODUCT_ID)] /\
     exits l = O) /\
  (ret <> 0 ->
     (exits l <= 1)%nat /\
     (exits l = O -> ret < 0 /\ l = [(LibusbInit, ret)]) /\
     rshim_usb_poll g' rc devs delivered = Ret g').
Proof.
  unfold rshim_usb_init. cbv zeta. intros Hctx H.
  apply runs_bind_inv in H. destruct H as (l0 & l1 & rc0 & -> & Hc & H).
  apply runs_call_inv in Hc. subst l0.
  destruct (Z.ltb_spec rc0 0) as [Hneg | Hpos].
  - apply runs_Ret_inv in H. destruct H as [-> H].
    apply (f_equal fst) in H as H1. apply (f_equal snd) in H as H2.
    cbn [fst snd] in H1, H2. subst ret g'.
    unfold rshim_usb_poll. rewrite Hctx. cbn [negb].
    cbn. rewrite orb_false_r.
    repeat split; auto; try lia; try congruence.
  - apply runs_bind_inv in H. destruct H as (l2 & l3 & [] & -> & Hd & H).
    apply runs_bind_inv in H.
    destruct H as (l4 & l5 & [returned g1] & -> & Hr & H).
    assert (Hquiet : registrations ([(LibusbInit, rc0)] ++ l2) = []
                     /\ exits ([(LibusbInit, rc0)] ++ l2) = O).
    { destruct log_above_err; repeat run_step; auto. }
    destruct Hquiet as [R0 E0].
    destruct (init_register_runs _ _ _ _ _ _ Hr) as [N P].
    cbn [rshim_usb_need_probe] in N.
    assert (D : forall l', enumerated_during enumerated
                             (([(LibusbInit, rc0)] ++ l2) ++ l')
                           = enumerated_during enumerated l').
    { intros l'. rewrite enumerated_during_app. unfold enumerated_during at 1.
      rewrite R0. reflexivity. }
    destruct returned as [rc1 |]; apply runs_Ret_inv in H;
      destruct H as [-> H];
      apply (f_equal fst) in H as H1; apply (f_equal snd) in H as H2;
      cbn [fst snd] in H1, H2; subst ret g'; rewrite app_nil_r;
      rewrite app_assoc, D, registrations_app, exits_app, R0, E0;
      cbn [app Nat.add].
    + destruct P as (Hne & X & E).
      split; [split; intros; congruence |].
      split; [exact N |].
      split; [intros; contradiction |].
      intros _. rewrite E. split; [lia |]. split; [discriminate |].
      unfold rshim_usb_poll. rewrite X. reflexivity.
    + destruct P as (X & R & E). cbn [rshim_usb_ctx] in X.
      split; [split; auto |].
      split; [exact N |].
      split; [| intros Hne; contradiction Hne; reflexivity].
      intros _. rewrite R, E. cbn. auto.
Qed.

Lemma usb_init_result_tells_whether_the_context_is_set_witness :
  exists l g',
    runs (rshim_usb_init true not_started one_bluefield2_attached) l
      (0, g') /\
    rshim_usb_ctx g' = true /\ rshim_usb_need_probe g' = true /\
    calls l
    = [LibusbInit; LibusbSetDebug;
       LibusbHotplugRegisterCallback 1 1 0x22dc 0x0004 (-1);
       LibusbHotplugRegisterCallback 2 1 0x22dc 0x0004 (-1);
       LibusbHotplugRegisterCallback 1 1 0x22dc 0x0214 (-1);
       RshimUsbAddPoll;
       LibusbHotplugRegisterCallback 2 1 0x22dc 0x0214 (-1)] /\
    exits l = O.
Proof.
  eexists _, _.
  match goal with
  | |- runs ?p ?l ?d /\ _ => assert (Hrun : runs p l d)
  end.
  { apply exec_runs with (env := fun _ _ => 0) (hist := []).
    vm_compute. reflexivity. }
  split; [exact Hrun |].
  destruct (usb_init_result_tells_whether_the_context_is_set true
              not_started _ one_bluefield2_attached _ _ 4 sample_devices []
              eq_refl Hrun) as (I & N & Z0 & _).
  split; [exact (proj1 I eq_refl) |].
  split; [exact N |].
  split; [reflexivity |].
  exact (proj2 (Z0 eq_refl)).
Defined.

(** * rshim_pcie_lf.c: the widget protocol *)

Lemma gw_writes_app (l1 l2 : trace gw_call resp) :
  gw_writes (l1 ++ l2) = gw_writes l1 ++ gw_writes l2.
Proof. apply flat_map_app. Qed.

Lemma reads_only_app (a b : Z) (l1 l2 : trace gw_call resp) :
  reads_only a b (l1 ++ l2) = reads_only a b l1 && reads_only a b l2.
Proof. apply forallb_app. Qed.

Lemma pending_wait_accesses (regs : rshim_regs) (fuel : nat) (b : Z) l rc :
  runs (rshim_byte_acc_pending_wait regs fuel) l rc ->
  gw_writes l = [] /\
  reads_only (widget_addr (RSH_BYTE_ACC_CTL regs)) b l = true.
Proof.
  intros H.
  destruct (pending_wait_runs _ _ _ _ H) as (busy & rc' & v & -> & _).
  clear H. rewrite gw_writes_app, reads_only_app.
  cbn [gw_writes reads_only flat_map forallb ctl_poll fst app andb].
  fold (widget_addr (RSH_BYTE_ACC_CTL regs)).
  rewrite Z.eqb_refl. cbn [orb andb]. rewrite andb_true_r, app_nil_r.
  unfold gw_writes, reads_only.
  induction busy as [| w busy IH]; [split; reflexivity |].
  cbn [map flat_map forallb ctl_poll fst app].
  fold (widget_addr (RSH_BYTE_ACC_CTL regs)).
  rewrite Z.eqb_refl. cbn [orb andb]. exact IH.
Qed.

Ltac widget_norm :=
  rewrite ?app_nil_r in *;
  repeat rewrite ?gw_writes_app, ?reads_only_app;
  repeat match goal with
         | H : runs (rshim_byte_acc_pending_wait ?regs _) ?l _
           |- context [gw_writes ?l] =>
             rewrite (proj1 (pending_wait_accesses regs _ 0 _ _ H))
         end;
  repeat match goal with
         | H : runs (rshim_byte_acc_pending_wait ?regs _) ?l _
           |- context [reads_only _ ?b ?l] =>
             rewrite (proj2 (pending_wait_accesses regs _ b _ _ H))
         end.

(** X28: the accesses of the byte-access widget.  A widget write that
    returns 0 made exactly five gateway writes: the size to the control
    register, the address to the address register, the size to the
    control register again, then the upper and the lower half of the
    word to the write-data register; all its gateway reads are polls of
    the control register.  A widget read that returns 0 made exactly
    three gateway writes, the size, the address and the read trigger,
    and reads nothing but the control and the read-data register. *)
Theorem widget_access_protocol
  (regs : rshim_regs) (host_big_endian : bool) (fuel : nat) (addr value : Z) :
  (forall l,
     runs (rshim_byte_acc_write regs fuel addr value) l 0 ->
     gw_writes l
     = [(widget_addr (RSH_BYTE_ACC_CTL regs), u32 (RSH_BYTE_ACC_SIZE regs));
        (widget_addr (RSH_BYTE_ACC_ADDR regs), u32 addr);
        (widget_addr (RSH_BYTE_ACC_CTL regs), u32 (RSH_BYTE_ACC_SIZE regs));
        (widget_addr (RSH_BYTE_ACC_WDAT regs), u32 (Z.shiftr value 32));
        (widget_addr (RSH_BYTE_ACC_WDAT regs), u32 value)] /\
     reads_only (widget_addr (RSH_BYTE_ACC_CTL regs))
                (widget_addr (RSH_BYTE_ACC_CTL regs)) l = true) /\
  (forall l res,
     runs (rshim_byte_acc_read regs host_big_endian fuel addr) l (0, res) ->
     gw_writes l
     = [(widget_addr (RSH_BYTE_ACC_CTL regs), u32 (RSH_BYTE_ACC_SIZE regs));
        (widget_addr (RSH_BYTE_ACC_ADDR regs), u32 addr);
        (widget_addr (RSH_BYTE_ACC_CTL regs),
         u32 (RSH_BYTE_ACC_READ_TRIGGER regs))] /\
     reads_only (widget_addr (RSH_BYTE_ACC_CTL regs))
                (widget_addr (RSH_BYTE_ACC_RDAT regs)) l = true).
Proof.
  split.
  - intros l H. unfold rshim_byte_acc_write in H.
    repeat gw_step; rewrite ?app_nil_r in *; try (rc_cases; congruence).
    widget_norm. cbn [gw_writes reads_only flat_map forallb fst app andb].
    rewrite !u32_idem. split; reflexivity.
  - intros l res H. unfold rshim_byte_acc_read in H.
    repeat gw_step; rewrite ?app_nil_r in *; try (rc_cases; congruence).
    widget_norm. cbn [gw_writes reads_only flat_map forallb fst app andb].
    fold (widget_addr (RSH_BYTE_ACC_RDAT regs)).
    rewrite !Z.eqb_refl, !orb_true_r. split; reflexivity.
Qed.

Lemma widget_access_protocol_witness :
  exists l,
    runs (rshim_byte_acc_write sample_regs 2 0x20 0x1122334455667788) l 0 /\
    gw_writes l
    = [(0x80010490, 0x10000000); (0x800104a8, 0x20);
       (0x80010490, 0x10000000); (0x80010498, 0x11223344);
       (0x80010498, 0x55667788)].
Proof.
  eexists.
  match goal with
  | |- runs ?p ?l ?d /\ _ => assert (Hrun : runs p l d)
  end.
  { apply exec_runs with (env := ready_env 0) (hist := []).
    vm_compute. reflexivity. }
  split; [exact Hrun |].
  exact (proj1 (proj1 (widget_access_protocol sample_regs false 2 0x20
                         0x1122334455667788) _ Hrun)).
Defined.
